(* ===== verification/_CoqProject ===== *)
-Q . S2P
Prelude.v
RlpEncode.v
RlpRaw.v
RlpDecode.v
RlpRoundtrip.v
RlpTotal.v
KeccakF.v
Sha3.v
CoreTypes.v
IstValidator.v
Prque.v
IstTypes.v
IstCore.v
IstCoreInv.v
IstCoreThms.v
IstCoreRuns.v
IstSnapshot.v
IstEngine.v
IstComplete.v
IstBackend.v
IstSealing.v
TrieEncoding.v
TrieNode.v
Trie.v
TrieThms.v
TrieHash.v
TrieMap.v
TrieProof.v
TxPrice.v
CoreBlock.v
Raft.v
RaftThms.v
StateDB.v
StateThms.v
StateTidy.v
EvmWord.v
EvmCode.v
Evm.v
EvmSupply.v
EvmSafe.v
StateVm.v
EvmThms.v
StateFinal.v
Transition.v
Processor.v
BlockThms.v
BlockValidator.v
