(* ===== verification/Prelude.v ===== *)
(** Verification of the BXMP node (a go-ethereum and Quorum descendant, in Go).

    The development covers the parts of the node on which agreement about a block
    rests: how data is encoded and hashed, how the Istanbul protocol commits a block,
    how validators are voted in and headers are verified, how contents are bound to a
    root hash by the Merkle Patricia trie, how blocks are assembled and minted under
    raft, and how contracts and transactions run on the state.


    * Parts, and how they fit

    The bottom is the RLP codec (src/rlp) and Keccak (src/crypto/sha3): hashes of
    headers, messages and trie nodes are Keccak-256 of RLP.  On them stand the block
    types (src/core/types), the validator sets and the Istanbul core
    (src/consensus/istanbul), the engine that verifies headers with the snapshots of
    the votes (src/consensus/istanbul/backend), and the trie (src/trie); on the trie the
    state database (src/core/state), on that the virtual machine (src/core/vm), and on both
    the execution of transactions and blocks (src/core).

    - Prelude.v: bytes, machine integers, the [result] of fallible code ([Ok], [Err],
      [Panic] for a run-time panic, [NoFuel] for a loop that did not finish) and its
      bind, tactics and hint databases.
    - RlpEncode.v ([Rlp]): src/rlp/encode.go.  Go types are the inductive [typ], values
      are [val]; [writer] is makeWriter, [encbuf] the encoder's buffer, [rlp] the
      reference definition of the format.
    - RlpRaw.v ([Raw]): src/rlp/raw.go, splitting and counting raw values.
    - RlpDecode.v ([Dec]): src/rlp/decode.go, the Stream and the decoders of makeDecoder
      as actions of a state and error monad.  RlpRoundtrip.v ([Roundtrip]) and
      RlpTotal.v ([Total]) are its theorems.
    - KeccakF.v, Sha3.v: src/crypto/sha3, the permutation and the sponge with its buffer,
      against reference definitions; the helpers of src/crypto/crypto.go.
    - CoreTypes.v ([Codec], [Types]): src/core/types and src/common/types.go.  The class
      [Codec] gives a Go struct its RLP type; [TotalCodec] adds that it decodes totally.
    - IstValidator.v ([Validator]): src/consensus/istanbul/validator, sets of validators,
      their order and the choice of the proposer.  Prque.v: the vendored priority queue
      of the core's backlogs.
    - IstTypes.v, IstCore.v: src/consensus/istanbul/core.  [core] is the state of a node,
      every handler is a function to the next state and a list of effects; the messages
      posted by a handler, and its timers, come back as events in any order.
      IstCoreInv.v has the invariant and what every handler does, IstCoreThms.v the
      guarantees over all reachable states, IstCoreRuns.v the runs that go wrong.
    - IstSnapshot.v ([Snapshot]), IstEngine.v ([Engine]), IstComplete.v ([Complete]),
      IstBackend.v ([Backend]), IstSealing.v ([Sealing]):
      src/consensus/istanbul/backend.  Votes and tallies; verification of headers
      through the cache of snapshots and the database (classes [Cache] and [Database]);
      the same without caches; what the core asks of its backend; the production of
      blocks.
    - TrieEncoding.v, TrieNode.v, Trie.v, TrieHash.v, TrieProof.v: src/trie.  Encodings
      of keys, nodes with their cache flags and their decoder, lookup, insertion and
      deletion over a database (class [Store]), hashing and committing, Merkle proofs.
      TrieThms.v and TrieMap.v are the theorems.
    - CoreBlock.v ([CoreBlock]): logs, receipts, bloom filters, the roots of lists and
      NewBlock of src/core/types.  TxPrice.v ([TxPrice]): the transactions a block is
      filled from, by price and nonce (src/core/types/transaction.go), on the heap of
      Prque.v.
    - Raft.v ([Raft]), RaftThms.v ([RaftThms]): src/raft.  [speculativeChain] are the
      blocks a minter has proposed and raft has not delivered, [node] has them with the
      chain, the channels between the log and the minter, and the minting goroutines that
      wait for the lock; [handle] takes any of their steps.
    - StateDB.v ([State]), StateThms.v ([StateThms]), StateTidy.v, StateFinal.v: src/core/state.  [stateObject] is a
      cached account, [journalEntry] a change that can be undone, [StateDB] the accounts
      over the account trie; tries and the code database are the class [Tries], and that
      they keep what is written is [TriesMap].
    - EvmWord.v, EvmCode.v, Evm.v: src/core/vm with src/common/math and src/core/evm.go.
      Arithmetic on words; memory, jump destinations and prices; the machine.  [Frame] has
      what a run of the interpreter has on its own, [EVM] what all runs share, with the
      public and the private state of a transaction; every instruction is an action of the
      monad [M], [step] a turn of the loop and [run] the runs with the runs they call.  The
      state database is the class [VmState].  EvmSafe.v states the laws it is relied on
      for, [VmLaws], and what every instruction keeps; EvmSupply.v is about the sum of all
      balances; StateVm.v proves the laws of StateDB.v; EvmThms.v has the theorems over
      whole executions.
    - Transition.v ([Transition]): src/core/state_transition.go and gaspool.go,
      transactions, public and private.  Processor.v ([Processor]):
      src/core/state_processor.go, the context of an execution, receipts and blocks, with
      the forks of src/params/config.go; BlockThms.v ([BlockThms]) has the theorems.
      BlockValidator.v ([BlockValidator]): src/core/block_validator.go, the checks of a block
      against the result of its execution, and the gas limit of the next block.


    * What the theorems show

    - Encoding: the two-pass encoder computes the recursive definition of RLP
      ([EncodeToBytes_rlp]); decoding inverts it ([Decode_Encode_roundtrip]), always ends
      and gives a value of the type asked for ([DecodeBytes_total]); [Split] accepts
      exactly the canonical encodings ([Split_spec]).
    - Hashing: the unrolled permutation is Keccak-f ([keccakF1600_Keccak_f]); any sequence
      of writes is the sponge of the concatenation ([Write_Sum_sponge]).
    - Consensus core, over all events in any order: a block is handed over only with the
      COMMIT messages of a quorum ([Commit_has_quorum]), locks hold ([locks_hold]), views
      never go back ([views_never_go_back]), no message makes a node panic
      ([handleEvent_no_panic]), and the state is consistent
      ([reachable_states_consistent]).
    - Validators: quorums overlap ([quorum_overlap]) when the set has 3F+1 members and may
      not otherwise ([quorums_can_be_disjoint]); sets stay sorted ([Add_Remove_spec]);
      round robin gives everyone a turn ([proposers_rotate]).
    - Voting: tallies are exact ([tally_is_exact]), validators change by majority only
      ([validators_change_by_majority]), and applying headers in two steps is applying
      them in one ([apply_in_two_steps]).
    - Engine: an accepted header carries the seals of a quorum
      ([accepted_header_is_committed]); the caches are transparent
      ([snapshot_is_of_chain], [VerifyHeader_decides]); verification ends
      ([VerifyHeaders_ends]); seals do not change what they sign ([seals_are_not_signed]);
      what a validator seals is accepted ([sealed_block_is_accepted]); a message is posted
      once ([HandleMsg_posts_once]).
    - Trie: with any loading and unloading of nodes it is a map ([trie_is_a_map]); its root
      hash is a function of the contents and identifies them
      ([root_hash_is_of_contents]); commits can be loaded ([commit_then_load]); proofs are
      complete and sound ([proofs_verify], [proofs_are_sound]).
    - Blocks and minting: a header binds its transactions and its filter misses no log
      ([NewBlock_binds]); the minter takes transactions by price and nonce
      ([minter_takes_in_order]), none twice ([proposed_once]), and would unwind an invalid
      block with its descendants ([unwindFrom_cuts]).
    - State: reverting to a snapshot restores all that can be read
      ([snapshots_restore]), and Finalise puts what can be read into the tries
      ([Finalise_writes_reads]).
    - Contracts: arithmetic is that of 256-bit words ([arithmetic_is_modular]), jumps
      reach instructions only ([jumps_land_on_instructions]), memory has the price of its
      size ([memory_price_is_quadratic]).  A turn of the loop keeps frames well formed
      ([turns_keep_frames]), calls and creations end within their gas and without a panic
      ([calls_return], [creations_return]), failed calls leave no trace
      ([failed_calls_leave_no_trace]) and static calls write nothing
      ([static_calls_do_not_write]).
    - Transactions and blocks: a transaction comes to an end, its gas adds up and it is
      refused for a reason ([transactions_settle]); the gas of a block is the sum of its
      receipts and within its limit ([blocks_fit_gas_limit]); no execution, transaction or
      block creates money ([executions_create_no_money], [transactions_create_no_money],
      [blocks_create_no_money]); a block assembled from the result of its execution passes
      validation ([assembled_blocks_validate]); the gas limits miners choose are legal
      ([gas_limit_is_legal]).
    - Defects, each a run or an input that shows it: [one_validator_fills_quorum],
      [lock_outlives_sequence], [timeout_keeps_old_validators], [roundTimeout_overflows],
      [clone_squeezing], [readKind_panics], [decode_zero_byte_arrays_diverges],
      [empty_key_panics], [TestBytes_misses_topic], [invalid_orderings_ignored],
      [late_block_stops_minter], [touch_reverted_loses_update],
      [memory_price_overflows], [private_call_writes_public], [private_receipts_diverge],
      [gas_limit_can_be_illegal].


    * Assumptions

    Code outside the repository is an argument of the definitions that use it: the
    recovery of a signer and signing (secp256k1), the databases and the cache of
    snapshots (the classes above state what is relied on), the clock, the random proposal
    of a candidate.  The minter is proved for any execution of transactions: [Raft] takes
    the functions that execute one and give the root, the receipts and the gas used.  The
    precompiled contracts of the EVM are arguments that cost no less than nothing and
    return ([usable]); the transaction manager of private data, the headers of the chain and
    the engine's Finalize are arguments of [Processor].  The theorems on blocks ask that all money
    of a state together has 256 bits ([funded]) and that the chain is past the fork that removes
    empty accounts ([chain_ok]).  Nothing is assumed of Keccak-256; where a theorem depends on hashes
    being told apart it says between which values, a finite set, never for all inputs.
    Slices passed between functions are values; nodes of a trie that the source copies
    before changing them are values too.  Integers have their width where it matters
    ([u64], [i64], uint16 cache generations); sizes in memory are below 2^63.


    * Fuel

    Loops that are not structural take fuel, and each bound is a definition with a theorem
    that it is enough: the length of the input plus one for decoding ([DecodeBytes_total]);
    the number of queued messages for the backlogs ([handleEvent_no_panic]); the
    block number plus one for the search of a snapshot, and two for the verification of the
    genesis block within that of a header ([VerifyHeaders_ends]); twice the
    length of the key plus two for the trie, where each level loads at most one node
    ([trie_is_a_map]); the length of a stored node plus one for its embedded nodes
    ([commit_then_load]); the number of transactions plus one for filling a block
    ([minter_takes_in_order]); the gas of a call plus one for the turns of the EVM and the
    calls within, as every turn that goes on takes gas ([calls_return]), which is also that
    of a transaction ([transactions_settle]).  The search for the hash of an ancestor has the
    number of the block, as numbers fall on the way.


    * Not modelled

    Networking, the RPC servers, the console and command line, account management, mining
    goroutines, light clients, swarm and whisper: concurrency and I/O without an
    algorithm to verify.  Clique and ethash: not the consensus of these networks.  The
    transaction pool and the insertion of blocks: loops over events with locks, timers and a
    database, around the validation and processing that is modelled.  Elliptic curves: partly C code.  Of the modelled
    packages: user-defined RLP encoders, reading from an unbounded reader, the iterators
    and the synchronisation of tries, tracing of the EVM, log output and metrics.  Data races between
    goroutines are out of scope: handlers run one at a time, as their locks make them. *)

From Stdlib Require Export ZArith Lia.
From Stdlib Require Export Init.Byte.
From Stdlib Require Import Strings.Byte.
From stdpp Require Export prelude gmap list strings.
#[global] Open Scope Z_scope.

(** ** Results of Go calls *)

(** A Go call that may fail: it returns a value, an error value of type [E],
    panics (nil dereference, index out of range), or, in a model that bounds a
    loop by fuel, does not finish within the fuel. *)
Inductive result (E A : Type) : Type :=
| Ok (a : A)
| Err (e : E)
| Panic
| NoFuel.
Arguments Ok {E A} a.
Arguments Err {E A} e.
Arguments Panic {E A}.
Arguments NoFuel {E A}.

Definition rbind {E A B : Type} (r : result E A) (k : A → result E B) : result E B :=
  match r with
  | Ok a => k a
  | Err e => Err e
  | Panic => Panic
  | NoFuel => NoFuel
  end.

Definition is_ok {E A : Type} (r : result E A) : bool :=
  match r with Ok _ => true | _ => false end.

Definition is_crash {E A : Type} (r : result E A) : Prop := r = Panic ∨ r = NoFuel.

Declare Scope go_scope.
Delimit Scope go_scope with go.
Notation "'let?' x ':=' r 'in' k" := (rbind r (fun x => k))
  (at level 10, x pattern, r at level 100, k at level 200) : go_scope.
#[global] Open Scope go_scope.

Lemma rbind_Ok {E A B : Type} (r : result E A) (k : A → result E B) (b : B) :
  rbind r k = Ok b ↔ ∃ a, r = Ok a ∧ k a = Ok b.
Proof. destruct r; simpl; split; [eauto|by intros (? & [= ->] & ?)|done|by intros (? & ? & ?)|done|by intros (? & ? & ?)|done|by intros (? & ? & ?)]. Qed.

Lemma Ok_no_crash {E A : Type} (a : A) : ¬ is_crash (Ok a : result E A).
Proof. by intros [|]. Qed.
Lemma Err_no_crash {E A : Type} (e : E) : ¬ is_crash (Err e : result E A).
Proof. by intros [|]. Qed.
Lemma rbind_no_crash {E A B : Type} (r : result E A) (k : A → result E B) :
  ¬ is_crash r → (∀ a, r = Ok a → ¬ is_crash (k a)) → ¬ is_crash (rbind r k).
Proof. intros Hr Hk. destruct r; simpl; [by apply Hk|apply Err_no_crash|by destruct Hr; left|by destruct Hr; right]. Qed.

(** ** Machine integers *)

(** Conversion to [uint64]: [big.Int.Uint64], [uint64(x)] and the wrap-around
    of uint64 arithmetic. *)
Definition u64 (z : Z) : Z := z mod 2 ^ 64.

Lemma u64_range z : 0 ≤ u64 z < 2 ^ 64.
Proof. apply Z.mod_pos_bound. lia. Qed.

Lemma u64_small z : 0 ≤ z < 2 ^ 64 → u64 z = z.
Proof. apply Z.mod_small. Qed.

Lemma u64_idemp z : u64 (u64 z) = u64 z.
Proof. apply u64_small, u64_range. Qed.

(** Conversion to [int64] (two's complement). *)
Definition i64 (z : Z) : Z := (z + 2 ^ 63) mod 2 ^ 64 - 2 ^ 63.

Lemma i64_range z : - 2 ^ 63 ≤ i64 z < 2 ^ 63.
Proof. unfold i64. pose proof (Z.mod_pos_bound (z + 2 ^ 63) (2 ^ 64)). lia. Qed.

Lemma i64_small z : - 2 ^ 63 ≤ z < 2 ^ 63 → i64 z = z.
Proof. intros ?. unfold i64. rewrite Z.mod_small; lia. Qed.

(** ** Bytes *)

#[global] Instance byte_eq_dec : EqDecision byte := Byte.byte_eq_dec.

Definition bz (b : byte) : Z := Z.of_N (Byte.to_N b).

(** The conversion [byte(x)]: the low eight bits of [x]. *)
Definition zb (z : Z) : byte :=
  match Byte.of_N (Z.to_N (z mod 256)) with
  | Some b => b
  | None => x00
  end.

Lemma bz_range b : 0 ≤ bz b < 256.
Proof. unfold bz. pose proof (Byte.to_N_bounded b). lia. Qed.

Lemma bz_zb z : bz (zb z) = z mod 256.
Proof.
  unfold bz, zb. pose proof (Z.mod_pos_bound z 256 ltac:(lia)).
  destruct (Byte.of_N _) as [b|] eqn:E.
  - apply Byte.to_of_N in E. rewrite E. lia.
  - apply Byte.of_N_None_iff in E. lia.
Qed.

Lemma zb_bz b : zb (bz b) = b.
Proof.
  unfold zb. rewrite Z.mod_small by apply bz_range. unfold bz.
  rewrite N2Z.id, Byte.of_to_N. done.
Qed.

Lemma bz_inj b1 b2 : bz b1 = bz b2 → b1 = b2.
Proof. intros H. rewrite <- (zb_bz b1), H. apply zb_bz. Qed.

Lemma bz_zb_small z : 0 ≤ z < 256 → bz (zb z) = z.
Proof. intros. rewrite bz_zb. by apply Z.mod_small. Qed.

#[global] Instance bz_Inj : Inj (=) (=) bz.
Proof. intros ???. by apply bz_inj. Qed.

#[global] Program Instance byte_countable : Countable byte :=
  inj_countable' bz zb _.
Next Obligation. apply zb_bz. Qed.

Abbreviation bytes := (list byte).

(** Length as a Go [int]. *)
Abbreviation zlen l := (Z.of_nat (length l)).

(** ** Big-endian integers: [big.Int.SetBytes] and [big.Int.Bytes] *)

Definition be_step (acc : Z) (b : byte) : Z := acc * 256 + bz b.
Definition be_val (bs : bytes) : Z := foldl be_step 0 bs.

Fixpoint le_bytes (fuel : nat) (z : Z) : bytes :=
  match fuel with
  | O => []
  | S fuel => if z =? 0 then [] else zb z :: le_bytes fuel (z / 256)
  end.

(** [big.Int.Bytes]: the absolute value, big-endian, without leading zeros. *)
Definition be_bytes (z : Z) : bytes :=
  reverse (le_bytes (S (Z.to_nat (Z.log2 z / 8))) z).

Lemma foldl_be_acc bs a : foldl be_step a bs = a * 256 ^ zlen bs + be_val bs.
Proof.
  unfold be_val. revert a. induction bs as [|b bs IH]; intros a; simpl; [lia|].
  rewrite IH, (IH (be_step 0 b)). unfold be_step.
  rewrite Nat2Z.inj_succ, Z.pow_succ_r by lia. lia.
Qed.

Lemma be_val_nil : be_val [] = 0.
Proof. done. Qed.

Lemma be_val_cons b bs : be_val (b :: bs) = bz b * 256 ^ zlen bs + be_val bs.
Proof. unfold be_val at 1. simpl. rewrite foldl_be_acc. unfold be_step. lia. Qed.

Lemma be_val_app l1 l2 : be_val (l1 ++ l2) = be_val l1 * 256 ^ zlen l2 + be_val l2.
Proof. unfold be_val at 1. rewrite foldl_app. apply foldl_be_acc. Qed.

Lemma be_val_snoc bs b : be_val (bs ++ [b]) = be_val bs * 256 + bz b.
Proof. rewrite be_val_app, be_val_cons, be_val_nil. simpl. lia. Qed.

Lemma be_val_range bs : 0 ≤ be_val bs < 256 ^ zlen bs.
Proof.
  induction bs as [|b bs IH]; [done|]. rewrite be_val_cons. simpl length.
  rewrite Nat2Z.inj_succ, Z.pow_succ_r by lia. pose proof (bz_range b). nia.
Qed.

Lemma pow256_pow2 (n : Z) : 0 ≤ n → 256 ^ n = 2 ^ (8 * n).
Proof. intros. by rewrite Z.pow_mul_r by lia. Qed.

Lemma le_bytes_val fuel z :
  0 ≤ z < 256 ^ Z.of_nat fuel → be_val (reverse (le_bytes fuel z)) = z.
Proof.
  revert z. induction fuel as [|fuel IH]; intros z Hz.
  { change (256 ^ Z.of_nat 0) with 1 in Hz. change (0 = z). lia. }
  simpl.
  destruct (Z.eqb_spec z 0) as [->|Hne]; [done|].
  rewrite reverse_cons, be_val_snoc, IH, bz_zb by
    (rewrite Nat2Z.inj_succ, Z.pow_succ_r in Hz by lia;
     split; [apply Z.div_pos | apply Z.div_lt_upper_bound]; lia).
  pose proof (Z.div_mod z 256). lia.
Qed.

Lemma be_bytes_fuel z : 0 ≤ z → z < 256 ^ Z.of_nat (S (Z.to_nat (Z.log2 z / 8))).
Proof.
  intros Hz. rewrite pow256_pow2 by lia.
  destruct (decide (z = 0)) as [->|]; [done|].
  pose proof (Z.log2_spec z ltac:(lia)) as [_ Hlt].
  eapply Z.lt_le_trans; [exact Hlt|]. apply Z.pow_le_mono_r; [lia|].
  pose proof (Z.log2_nonneg z). pose proof (Z.div_mod (Z.log2 z) 8 ltac:(lia)).
  pose proof (Z.mod_pos_bound (Z.log2 z) 8 ltac:(lia)).
  rewrite Nat2Z.inj_succ, Z2Nat.id by (apply Z.div_pos; lia). lia.
Qed.

Lemma be_val_be_bytes z : 0 ≤ z → be_val (be_bytes z) = z.
Proof. intros. apply le_bytes_val. split; [done|]. by apply be_bytes_fuel. Qed.

Lemma be_bytes_0 : be_bytes 0 = [].
Proof. done. Qed.

(** The most significant byte of [be_bytes z] is not zero. *)
Lemma le_bytes_last fuel z b l :
  0 ≤ z < 256 ^ Z.of_nat fuel → reverse (le_bytes fuel z) = b :: l → bz b ≠ 0.
Proof.
  revert z b l. induction fuel as [|fuel IH]; intros z b l Hz; simpl; [done|].
  destruct (Z.eqb_spec z 0) as [->|Hne]; [done|].
  rewrite Nat2Z.inj_succ, Z.pow_succ_r in Hz by lia.
  rewrite reverse_cons. intros Heq.
  destruct (reverse (le_bytes fuel (z / 256))) as [|b' l'] eqn:E; simplify_list_eq.
  - assert (z / 256 = 0) as H0.
    { rewrite <- (le_bytes_val fuel (z / 256)), E; [done|].
      split; [apply Z.div_pos | apply Z.div_lt_upper_bound]; lia. }
    rewrite bz_zb. pose proof (Z.div_mod z 256). lia.
  - eapply IH, E. split; [apply Z.div_pos | apply Z.div_lt_upper_bound]; lia.
Qed.

Lemma be_bytes_head z b l : 0 ≤ z → be_bytes z = b :: l → bz b ≠ 0.
Proof. intros Hz. apply le_bytes_last. split; [done|]. by apply be_bytes_fuel. Qed.

(** A big-endian string without a leading zero is determined by its value. *)
Definition no_lead0 (bs : bytes) : Prop :=
  match bs with [] => True | b :: _ => bz b ≠ 0 end.

#[global] Instance no_lead0_dec bs : Decision (no_lead0 bs).
Proof. destruct bs; simpl; apply _. Defined.

Lemma no_lead0_lower bs : no_lead0 bs → bs ≠ [] → 256 ^ (zlen bs - 1) ≤ be_val bs.
Proof.
  destruct bs as [|b bs]; [done|]. simpl. intros Hb _.
  rewrite be_val_cons. pose proof (bz_range b). pose proof (be_val_range bs).
  replace (Z.of_nat (S (length bs)) - 1) with (zlen bs) by lia. nia.
Qed.

Lemma be_val_inj_len bs1 bs2 :
  length bs1 = length bs2 → be_val bs1 = be_val bs2 → bs1 = bs2.
Proof.
  revert bs2. induction bs1 as [|b1 bs1 IH]; intros [|b2 bs2] Hl Hv; try done.
  simpl in Hl. rewrite !be_val_cons in Hv.
  assert (length bs1 = length bs2) as Hl' by lia. rewrite Hl' in Hv.
  pose proof (be_val_range bs1) as H1. rewrite Hl' in H1.
  pose proof (be_val_range bs2) as H2.
  assert (bz b1 = bz b2) as Hb by nia.
  f_equal; [by apply bz_inj|]. apply IH; [done|]. rewrite Hb in Hv. lia.
Qed.

Lemma be_val_inj bs1 bs2 :
  no_lead0 bs1 → no_lead0 bs2 → be_val bs1 = be_val bs2 → bs1 = bs2.
Proof.
  intros H1 H2 Hv. apply be_val_inj_len; [|done].
  destruct (decide (bs1 = [])) as [->|N1].
  { destruct bs2 as [|b2 bs2]; [done|]. exfalso.
    pose proof (no_lead0_lower _ H2 ltac:(done)).
    assert (0 < 256 ^ (zlen (b2 :: bs2) - 1)) by (apply Z.pow_pos_nonneg; simpl; lia).
    rewrite be_val_nil in Hv. lia. }
  destruct (decide (bs2 = [])) as [->|N2].
  { exfalso. pose proof (no_lead0_lower _ H1 N1).
    assert (0 < 256 ^ (zlen bs1 - 1)) by (apply Z.pow_pos_nonneg; destruct bs1; simpl; by (lia || done)).
    rewrite be_val_nil in Hv. lia. }
  pose proof (no_lead0_lower _ H1 N1). pose proof (no_lead0_lower _ H2 N2).
  pose proof (be_val_range bs1). pose proof (be_val_range bs2).
  destruct (Z.lt_trichotomy (zlen bs1) (zlen bs2)) as [Hlt|[Heq|Hlt]]; [|lia|]; exfalso.
  - assert (256 ^ zlen bs1 ≤ 256 ^ (zlen bs2 - 1)) by (apply Z.pow_le_mono_r; lia). lia.
  - assert (256 ^ zlen bs2 ≤ 256 ^ (zlen bs1 - 1)) by (apply Z.pow_le_mono_r; lia). lia.
Qed.

Lemma be_bytes_no_lead0 z : 0 ≤ z → no_lead0 (be_bytes z).
Proof.
  intros Hz. destruct (be_bytes z) as [|b l] eqn:E; [done|]. simpl. by eapply be_bytes_head.
Qed.

Lemma be_bytes_be_val bs : no_lead0 bs → be_bytes (be_val bs) = bs.
Proof.
  intros H. pose proof (be_val_range bs). apply be_val_inj; [|done|].
  - apply be_bytes_no_lead0. lia.
  - apply be_val_be_bytes. lia.
Qed.

(** ** Automation *)

Create HintDb bxm.
#[export] Hint Rewrite @length_app @length_cons @length_nil @length_reverse
  @length_map @length_fmap @length_take @length_drop @length_replicate : bxm.
#[export] Hint Resolve bz_range u64_range be_val_range : bxm.

(** Split a hypothesis or goal on the innermost [match] or [if] it is stuck on. *)
Ltac case_step :=
  match goal with
  | H : context [match ?x with _ => _ end] |- _ =>
      lazymatch x with
      | context [match _ with _ => _ end] => fail
      | _ => destruct x eqn:?
      end
  | |- context [match ?x with _ => _ end] =>
      lazymatch x with
      | context [match _ with _ => _ end] => fail
      | _ => destruct x eqn:?
      end
  end.

(** Turn boolean comparisons of the code into propositions. *)
Ltac bool_prop :=
  repeat match goal with
  | H : (_ && _)%bool = true |- _ => apply andb_true_iff in H; destruct H
  | H : (_ || _)%bool = false |- _ => apply orb_false_iff in H; destruct H
  | H : (_ || _)%bool = true |- _ => apply orb_true_iff in H
  | H : (_ && _)%bool = false |- _ => apply andb_false_iff in H
  | H : negb _ = true |- _ => apply negb_true_iff in H
  | H : negb _ = false |- _ => apply negb_false_iff in H
  | H : (_ =? _) = true |- _ => apply Z.eqb_eq in H
  | H : (_ =? _) = false |- _ => apply Z.eqb_neq in H
  | H : (_ <? _) = true |- _ => apply Z.ltb_lt in H
  | H : (_ <? _) = false |- _ => apply Z.ltb_ge in H
  | H : (_ <=? _) = true |- _ => apply Z.leb_le in H
  | H : (_ <=? _) = false |- _ => apply Z.leb_gt in H
  | H : (_ >? _) = true |- _ => apply Z.gtb_lt in H
  | H : (_ >? _) = false |- _ => rewrite Z.gtb_ltb in H; apply Z.ltb_ge in H
  | H : (_ >=? _) = true |- _ => rewrite Z.geb_leb in H; apply Z.leb_le in H
  | H : (_ >=? _) = false |- _ => rewrite Z.geb_leb in H; apply Z.leb_gt in H
  | H : bool_decide _ = true |- _ => apply bool_decide_eq_true in H
  | H : bool_decide _ = false |- _ => apply bool_decide_eq_false in H
  end.

(** Decide the boolean comparisons of the goal that linear arithmetic decides. *)
Ltac zdecide :=
  repeat match goal with
  | |- context [?a <? ?b] =>
      first [rewrite (proj2 (Z.ltb_lt a b)) by lia | rewrite (proj2 (Z.ltb_ge a b)) by lia]
  | |- context [?a <=? ?b] =>
      first [rewrite (proj2 (Z.leb_le a b)) by lia | rewrite (proj2 (Z.leb_gt a b)) by lia]
  | |- context [?a =? ?b] =>
      first [rewrite (proj2 (Z.eqb_eq a b)) by lia | rewrite (proj2 (Z.eqb_neq a b)) by lia]
  end.
