(* ===== verification/RlpEncode.v ===== *)
(** RLP encoding, [src/rlp/encode.go].

    Go types and values are the inductives [typ] and [val]: the encoder of the
    source dispatches on [reflect.Type], the model dispatches on [typ]
    ([writer] is [makeWriter] and the writers it selects).  The encoder is a
    two-pass one: the first pass collects string data and a list of list
    headers ([encbuf]), the second pass ([toBytes]) interleaves them.  The
    reference [rlp] is the one-pass recursive definition of the format, and
    [EncodeToBytes_rlp] says that the two agree. *)

From S2P Require Import Prelude.

Module Rlp.

(** ** Types and values *)

(** The [reflect.Type]s the package supports.  Types that implement [Encoder] and
    [Decoder] are represented by the type their methods pass on: every
    [EncodeRLP] of the repository encodes a slice of its fields, every
    [DecodeRLP] decodes a struct of them. *)
Inductive typ : Type :=
| TRaw                       (* RawValue *)
| TBigInt                    (* *big.Int *)
| TUint (bits : Z)           (* uint8, ..., uint64 *)
| TBool
| TString
| TBytes                     (* []byte *)
| TByteArray (n : nat)       (* [n]byte *)
| TSlice (t : typ)           (* []T *)
| TTail (t : typ)            (* []T in a field tagged "tail" *)
| TArray (n : nat) (t : typ) (* [n]T *)
| TStruct (fs : list typ)
| TPtr (t : typ)
| TPtrNil (t : typ)          (* *T in a field tagged "nil" *)
| TIface.                    (* interface{} *)

(** What an [interface{}] of this package holds: a [[]byte] or a [[]interface{}]. *)
Inductive item : Type :=
| Str (b : bytes)
| Lst (l : list item).

Inductive val : Type :=
| VRaw (b : bytes)
| VBig (z : option Z)
| VUint (z : Z)
| VBool (b : bool)
| VString (b : bytes)
| VBytes (b : bytes)
| VByteArray (b : bytes)
| VSlice (l : list val)
| VArray (l : list val)
| VStruct (l : list val)
| VPtr (v : option val)
| VIface (i : option item).

(** The encoder's only error: a negative [*big.Int]. *)
Inductive encErr : Type := ErrNegativeBigInt.

(** [reflect.Zero]. *)
Fixpoint zero (t : typ) : val :=
  match t with
  | TRaw => VRaw []
  | TBigInt => VBig None
  | TUint _ => VUint 0
  | TBool => VBool false
  | TString => VString []
  | TBytes => VBytes []
  | TByteArray n => VByteArray (replicate n x00)
  | TSlice _ | TTail _ => VSlice []
  | TArray n t => VArray (replicate n (zero t))
  | TStruct fs => VStruct (map zero fs)
  | TPtr _ | TPtrNil _ => VPtr None
  | TIface => VIface None
  end.

(** ** Headers *)

(** [putint]: the bytes written to the beginning of the buffer. *)
Definition putint (i : Z) : bytes :=
  if i <? 2 ^ 8 then [zb i]
  else if i <? 2 ^ 16 then [zb (Z.shiftr i 8); zb i]
  else if i <? 2 ^ 24 then [zb (Z.shiftr i 16); zb (Z.shiftr i 8); zb i]
  else if i <? 2 ^ 32 then
    [zb (Z.shiftr i 24); zb (Z.shiftr i 16); zb (Z.shiftr i 8); zb i]
  else if i <? 2 ^ 40 then
    [zb (Z.shiftr i 32); zb (Z.shiftr i 24); zb (Z.shiftr i 16); zb (Z.shiftr i 8); zb i]
  else if i <? 2 ^ 48 then
    [zb (Z.shiftr i 40); zb (Z.shiftr i 32); zb (Z.shiftr i 24); zb (Z.shiftr i 16);
     zb (Z.shiftr i 8); zb i]
  else if i <? 2 ^ 56 then
    [zb (Z.shiftr i 48); zb (Z.shiftr i 40); zb (Z.shiftr i 32); zb (Z.shiftr i 24);
     zb (Z.shiftr i 16); zb (Z.shiftr i 8); zb i]
  else
    [zb (Z.shiftr i 56); zb (Z.shiftr i 48); zb (Z.shiftr i 40); zb (Z.shiftr i 32);
     zb (Z.shiftr i 24); zb (Z.shiftr i 16); zb (Z.shiftr i 8); zb i].

(** [intsize]'s loop; a uint64 is zero after at most eight shifts. *)
Fixpoint intsize_loop (fuel : nat) (size i : Z) : Z :=
  match fuel with
  | O => size
  | S fuel =>
      let i := Z.shiftr i 8 in
      if i =? 0 then size else intsize_loop fuel (size + 1) i
  end.
Definition intsize (i : Z) : Z := intsize_loop 8 1 i.

Definition headsize (size : Z) : Z :=
  if size <? 56 then 1 else 1 + intsize size.

Definition puthead (smalltag largetag : Z) (size : Z) : bytes :=
  if size <? 56 then [zb (smalltag + size)]
  else let sizebytes := putint size in zb (largetag + zlen sizebytes) :: sizebytes.

Definition ListSize (contentSize : Z) : Z := u64 (headsize contentSize + contentSize).

(** ** The encoding buffer *)

Record listhead := mkhead { offset : nat; size : Z }.
Record encbuf := mkbuf { str : bytes; lheads : list listhead; lhsize : Z }.

Definition reset : encbuf := mkbuf [] [] 0.

Definition head_encode (h : listhead) : bytes := puthead 0xC0 0xF7 (size h).

Definition write (w : encbuf) (b : bytes) : encbuf :=
  mkbuf (str w ++ b) (lheads w) (lhsize w).

Definition buf_size (w : encbuf) : Z := zlen (str w) + lhsize w.

(** [list] returns a pointer to the header it appends: here its index. *)
Definition list_start (w : encbuf) : nat * encbuf :=
  (length (lheads w),
   mkbuf (str w) (lheads w ++ [mkhead (length (str w)) (lhsize w)]) (lhsize w)).

Definition listEnd (lh : nat) (w : encbuf) : encbuf :=
  match lheads w !! lh with
  | None => w
  | Some h =>
      let sz := buf_size w - Z.of_nat (offset h) - size h in
      mkbuf (str w) (<[lh := mkhead (offset h) sz]> (lheads w))
        (if sz <? 56 then lhsize w + 1 else lhsize w + (1 + intsize sz))
  end.

(** [toBytes] fills a slice of exactly [buf_size w] bytes. *)
Fixpoint toBytes_loop (s : bytes) (strpos : nat) (hs : list listhead) : bytes :=
  match hs with
  | [] => drop strpos s
  | h :: hs =>
      take (offset h - strpos) (drop strpos s) ++ head_encode h
        ++ toBytes_loop s (strpos + (offset h - strpos)) hs
  end.

Definition fit (n : nat) (l : bytes) : bytes := take n l ++ replicate (n - length l) x00.

Definition toBytes (w : encbuf) : bytes :=
  fit (Z.to_nat (buf_size w)) (toBytes_loop (str w) 0 (lheads w)).

(** ** Writers *)

Definition encodeStringHeader (sz : Z) (w : encbuf) : encbuf :=
  if sz <? 56 then write w [zb (0x80 + sz)]
  else let sb := putint sz in write w (zb (0xB7 + zlen sb) :: sb).

Definition encodeString (b : bytes) (w : encbuf) : encbuf :=
  match b with
  | [x] => if bz x <=? 0x7F then write w [x]
           else write (encodeStringHeader (zlen b) w) b
  | _ => write (encodeStringHeader (zlen b) w) b
  end.

Definition writeUint (i : Z) (w : encbuf) : encbuf :=
  if i =? 0 then write w [zb 0x80]
  else if i <? 128 then write w [zb i]
  else let s := putint i in write w (zb (0x80 + zlen s) :: s).

Definition writeBool (b : bool) (w : encbuf) : encbuf :=
  if b then write w [zb 0x01] else write w [zb 0x80].

Definition writeBigInt (i : Z) (w : encbuf) : result encErr encbuf :=
  if i <? 0 then Err ErrNegativeBigInt
  else if i =? 0 then Ok (write w [zb 0x80])
  else Ok (encodeString (be_bytes i) w).

Definition writeBigIntPtr (o : option Z) (w : encbuf) : result encErr encbuf :=
  match o with
  | None => Ok (write w [zb 0x80])
  | Some i => writeBigInt i w
  end.

Fixpoint write_elems {A : Type} (wr : A → encbuf → result encErr encbuf)
    (vs : list A) (w : encbuf) : result encErr encbuf :=
  match vs with
  | [] => Ok w
  | v :: vs => let? w := wr v w in write_elems wr vs w
  end.

(** A list: header, elements, end of list. *)
Definition in_list (f : encbuf → result encErr encbuf) (w : encbuf) : result encErr encbuf :=
  let '(lh, w) := list_start w in
  let? w := f w in Ok (listEnd lh w).

(** [writeInterface] on a non-nil value: the dynamic type is [[]byte] or
    [[]interface{}], whose elements are interfaces again. *)
Fixpoint write_item (i : item) (w : encbuf) : result encErr encbuf :=
  match i with
  | Str b => Ok (encodeString b w)
  | Lst l => in_list (fun w =>
      (fix go (l : list item) (w : encbuf) : result encErr encbuf :=
         match l with
         | [] => Ok w
         | i :: l => let? w := write_item i w in go l w
         end) l w) w
  end.

Definition writeInterface (o : option item) (w : encbuf) : result encErr encbuf :=
  match o with
  | None => Ok (write w [zb 0xC0])
  | Some i => write_item i w
  end.

(** [makeWriter].  A value of the wrong shape cannot occur in Go. *)
Fixpoint writer (t : typ) (v : val) (w : encbuf) {struct t} : result encErr encbuf :=
  match t, v with
  | TRaw, VRaw b => Ok (write w b)
  | TBigInt, VBig o => writeBigIntPtr o w
  | TUint _, VUint i => Ok (writeUint i w)
  | TBool, VBool b => Ok (writeBool b w)
  | TString, VString b => Ok (encodeString b w)
  | TBytes, VBytes b => Ok (encodeString b w)
  | TByteArray _, VByteArray b => Ok (encodeString b w)
  | TSlice t, VSlice vs => in_list (write_elems (writer t) vs) w
  | TTail t, VSlice vs => write_elems (writer t) vs w
  | TArray _ t, VArray vs => in_list (write_elems (writer t) vs) w
  | TStruct fs, VStruct vs =>
      in_list (fun w =>
        (fix go (fs : list typ) (vs : list val) (w : encbuf) : result encErr encbuf :=
           match fs, vs with
           | [], [] => Ok w
           | f :: fs, v :: vs => let? w := writer f v w in go fs vs w
           | _, _ => Panic
           end) fs vs w) w
  | TPtr t, VPtr (Some v) | TPtrNil t, VPtr (Some v) => writer t v w
  | TPtr t, VPtr None | TPtrNil t, VPtr None =>
      match t with
      | TByteArray _ => Ok (write w [zb 0x80])
      | TStruct _ | TArray _ _ => in_list (fun w => Ok w) w
      | _ => writer t (zero t) w
      end
  | TIface, VIface o => writeInterface o w
  | _, _ => Panic
  end.

Definition EncodeToBytes (t : typ) (v : val) : result encErr bytes :=
  let? w := writer t v reset in Ok (toBytes w).

(** ** The reference definition of the format *)

Definition enc_head (small large n : Z) : bytes :=
  if n <? 56 then [zb (small + n)]
  else zb (large + zlen (be_bytes n)) :: be_bytes n.

Definition enc_str (b : bytes) : bytes :=
  match b with
  | [x] => if bz x <? 128 then [x] else enc_head 0x80 0xB7 1 ++ b
  | _ => enc_head 0x80 0xB7 (zlen b) ++ b
  end.

Definition enc_list (payload : bytes) : bytes :=
  enc_head 0xC0 0xF7 (zlen payload) ++ payload.

Fixpoint rlp_items {A : Type} (f : A → option bytes) (vs : list A) : option bytes :=
  match vs with
  | [] => Some []
  | v :: vs => b ← f v; bs ← rlp_items f vs; Some (b ++ bs)
  end.

Fixpoint rlp_item (i : item) : bytes :=
  match i with
  | Str b => enc_str b
  | Lst l => enc_list (concat (map rlp_item l))
  end.

Fixpoint rlp (t : typ) (v : val) {struct t} : option bytes :=
  match t, v with
  | TRaw, VRaw b => Some b
  | TBigInt, VBig None => Some (enc_str [])
  | TBigInt, VBig (Some i) => if i <? 0 then None else Some (enc_str (be_bytes i))
  | TUint _, VUint i => Some (enc_str (be_bytes i))
  | TBool, VBool b => Some (enc_str (if b then [x01] else []))
  | TString, VString b | TBytes, VBytes b | TByteArray _, VByteArray b => Some (enc_str b)
  | TSlice t, VSlice vs | TArray _ t, VArray vs => enc_list <$> rlp_items (rlp t) vs
  | TTail t, VSlice vs => rlp_items (rlp t) vs
  | TStruct fs, VStruct vs =>
      enc_list <$>
        (fix go (fs : list typ) (vs : list val) : option bytes :=
           match fs, vs with
           | [], [] => Some []
           | f :: fs, v :: vs => b ← rlp f v; bs ← go fs vs; Some (b ++ bs)
           | _, _ => None
           end) fs vs
  | TPtr t, VPtr (Some v) | TPtrNil t, VPtr (Some v) => rlp t v
  | TPtr t, VPtr None | TPtrNil t, VPtr None =>
      match t with
      | TByteArray _ => Some (enc_str [])
      | TStruct _ | TArray _ _ => Some (enc_list [])
      | _ => rlp t (zero t)
      end
  | TIface, VIface None => Some (enc_list [])
  | TIface, VIface (Some i) => Some (rlp_item i)
  | _, _ => None
  end.

(** ** Well-typed values *)

(** The values Go's type system allows at a type. *)
Fixpoint wt (t : typ) (v : val) {struct t} : Prop :=
  match t, v with
  | TRaw, VRaw _ | TBigInt, VBig _ | TBool, VBool _ | TString, VString _
  | TBytes, VBytes _ | TIface, VIface _ => True
  | TUint bits, VUint i => (bits = 8 ∨ bits = 16 ∨ bits = 32 ∨ bits = 64) ∧ 0 ≤ i < 2 ^ bits
  | TByteArray n, VByteArray b => length b = n
  | TSlice t, VSlice vs | TTail t, VSlice vs => Forall (wt t) vs
  | TArray n t, VArray vs => length vs = n ∧ Forall (wt t) vs
  | TStruct fs, VStruct vs =>
      (fix go (fs : list typ) (vs : list val) : Prop :=
         match fs, vs with
         | [], [] => True
         | f :: fs, v :: vs => wt f v ∧ go fs vs
         | _, _ => False
         end) fs vs
  | TPtr t, VPtr o | TPtrNil t, VPtr o => match o with None => wt t (zero t) | Some v => wt t v end
  | _, _ => False
  end.

Section typ_induction.
  Context (P : typ → Prop).
  Context (Hraw : P TRaw) (Hbig : P TBigInt) (Huint : ∀ b, P (TUint b)) (Hbool : P TBool)
    (Hstring : P TString) (Hbytes : P TBytes) (Hbarr : ∀ n, P (TByteArray n))
    (Hslice : ∀ t, P t → P (TSlice t)) (Htail : ∀ t, P t → P (TTail t))
    (Harr : ∀ n t, P t → P (TArray n t)) (Hstruct : ∀ fs, Forall P fs → P (TStruct fs))
    (Hptr : ∀ t, P t → P (TPtr t)) (Hptrnil : ∀ t, P t → P (TPtrNil t)) (Hiface : P TIface).

Fixpoint typ_nested_ind (t : typ) : P t :=
    match t with
    | TRaw => Hraw | TBigInt => Hbig | TUint b => Huint b | TBool => Hbool
    | TString => Hstring | TBytes => Hbytes | TByteArray n => Hbarr n
    | TSlice t => Hslice t (typ_nested_ind t) | TTail t => Htail t (typ_nested_ind t)
    | TArray n t => Harr n t (typ_nested_ind t)
    | TStruct fs => Hstruct fs
        ((fix go (fs : list typ) : Forall P fs :=
            match fs with
            | [] => Forall_nil_2 P
            | f :: fs => Forall_cons_2 P f fs (typ_nested_ind f) (go fs)
            end) fs)
    | TPtr t => Hptr t (typ_nested_ind t) | TPtrNil t => Hptrnil t (typ_nested_ind t)
    | TIface => Hiface
    end.
End typ_induction.

Section item_induction.
  Context (P : item → Prop).
  Context (Hstr : ∀ b, P (Str b)) (Hlst : ∀ l, Forall P l → P (Lst l)).

Fixpoint item_nested_ind (i : item) : P i :=
    match i with
    | Str b => Hstr b
    | Lst l => Hlst l
        ((fix go (l : list item) : Forall P l :=
            match l with
            | [] => Forall_nil_2 P
            | i :: l => Forall_cons_2 P i l (item_nested_ind i) (go l)
            end) l)
    end.
End item_induction.

(** ** Integers and headers *)

(** The [n] low bytes of [i], most significant first. *)
Fixpoint be_n (n : nat) (i : Z) : bytes :=
  match n with
  | O => []
  | S n => zb (Z.shiftr i (8 * Z.of_nat n)) :: be_n n i
  end.

Lemma length_be_n n i : length (be_n n i) = n.
Proof. induction n; simpl; congruence. Qed.

Lemma be_val_be_n n i : 0 ≤ i → be_val (be_n n i) = i mod 256 ^ Z.of_nat n.
Proof.
  intros Hi. induction n as [|n IH]; simpl be_n.
  { by rewrite Z.mod_1_r. }
  rewrite be_val_cons, IH, length_be_n, bz_zb, Z.shiftr_div_pow2, <- pow256_pow2 by lia.
  rewrite Nat2Z.inj_succ, Z.pow_succ_r, (Z.mul_comm 256), Z.rem_mul_r by lia. lia.
Qed.

Lemma be_n_be_bytes n i :
  256 ^ Z.of_nat n ≤ i < 256 ^ Z.of_nat (S n) → be_n (S n) i = be_bytes i.
Proof.
  intros Hi. assert (0 < 256 ^ Z.of_nat n) by (apply Z.pow_pos_nonneg; lia).
  apply be_val_inj; [|apply be_bytes_no_lead0; lia|].
  - simpl. rewrite bz_zb, Z.shiftr_div_pow2, <- pow256_pow2 by lia.
    rewrite Nat2Z.inj_succ, Z.pow_succ_r in Hi by lia.
    assert (1 ≤ i / 256 ^ Z.of_nat n) by (apply Z.div_le_lower_bound; lia).
    assert (i / 256 ^ Z.of_nat n < 256) by (apply Z.div_lt_upper_bound; lia).
    rewrite Z.mod_small; lia.
  - rewrite be_val_be_n, be_val_be_bytes, Z.mod_small; lia.
Qed.

Lemma putint_be_bytes i : 0 < i < 2 ^ 64 → putint i = be_bytes i.
Proof.
  intros Hi. unfold putint.
  repeat match goal with
  | |- context [if ?a <? ?b then _ else _] => destruct (Z.ltb_spec a b)
  end.
  - apply (be_n_be_bytes 0 i). lia.
  - apply (be_n_be_bytes 1 i). lia.
  - apply (be_n_be_bytes 2 i). lia.
  - apply (be_n_be_bytes 3 i). lia.
  - apply (be_n_be_bytes 4 i). lia.
  - apply (be_n_be_bytes 5 i). lia.
  - apply (be_n_be_bytes 6 i). lia.
  - apply (be_n_be_bytes 7 i). lia.
Qed.

Lemma be_bytes_length i n :
  256 ^ Z.of_nat n ≤ i < 256 ^ Z.of_nat (S n) → length (be_bytes i) = S n.
Proof. intros Hi. rewrite <- (be_n_be_bytes n i Hi). apply length_be_n. Qed.

Lemma intsize_loop_spec fuel size i n :
  (n < fuel)%nat → 0 ≤ i → ((0 < n)%nat → 256 ^ Z.of_nat n ≤ i) → i < 256 ^ Z.of_nat (S n) →
  intsize_loop fuel size i = size + Z.of_nat n.
Proof.
  revert size i n. induction fuel as [|fuel IH]; intros size i n Hn Hi Hlo Hhi; [lia|].
  simpl. rewrite Z.shiftr_div_pow2 by lia. change (2 ^ 8) with 256.
  rewrite Nat2Z.inj_succ, Z.pow_succ_r in Hhi by lia.
  destruct n as [|n].
  - rewrite (Z.div_small i 256) by (change (256 ^ Z.of_nat 0) with 1 in Hhi; lia).
    rewrite Z.eqb_refl. lia.
  - specialize (Hlo ltac:(lia)). rewrite Nat2Z.inj_succ, Z.pow_succ_r in Hlo by lia.
    assert (256 ^ Z.of_nat n ≤ i / 256) by (apply Z.div_le_lower_bound; lia).
    assert (0 < 256 ^ Z.of_nat n) by (apply Z.pow_pos_nonneg; lia).
    destruct (Z.eqb_spec (i / 256) 0) as [|_]; [lia|].
    rewrite (IH _ _ n); [lia|lia|lia|lia|apply Z.div_lt_upper_bound; lia].
Qed.

Lemma u64_magnitude i :
  0 < i < 2 ^ 64 → ∃ n, (n < 8)%nat ∧ 256 ^ Z.of_nat n ≤ i < 256 ^ Z.of_nat (S n).
Proof.
  intros Hi.
  destruct (Z.lt_ge_cases i (2 ^ 8)); [exists 0%nat; lia|].
  destruct (Z.lt_ge_cases i (2 ^ 16)); [exists 1%nat; lia|].
  destruct (Z.lt_ge_cases i (2 ^ 24)); [exists 2%nat; lia|].
  destruct (Z.lt_ge_cases i (2 ^ 32)); [exists 3%nat; lia|].
  destruct (Z.lt_ge_cases i (2 ^ 40)); [exists 4%nat; lia|].
  destruct (Z.lt_ge_cases i (2 ^ 48)); [exists 5%nat; lia|].
  destruct (Z.lt_ge_cases i (2 ^ 56)); [exists 6%nat; lia|].
  exists 7%nat; lia.
Qed.

Lemma intsize_be_bytes i : 0 < i < 2 ^ 64 → intsize i = zlen (be_bytes i).
Proof.
  intros Hi. destruct (u64_magnitude i Hi) as (n & Hn & Hb).
  rewrite (be_bytes_length i n Hb). unfold intsize.
  rewrite (intsize_loop_spec _ _ _ n); lia.
Qed.

Lemma puthead_enc_head small large n :
  0 ≤ n < 2 ^ 64 → puthead small large n = enc_head small large n.
Proof.
  intros Hn. unfold puthead, enc_head. destruct (Z.ltb_spec n 56); [done|].
  by rewrite putint_be_bytes by lia.
Qed.

Lemma headsize_enc_head small large n :
  0 ≤ n < 2 ^ 64 → headsize n = zlen (enc_head small large n).
Proof.
  intros Hn. unfold headsize, enc_head. destruct (Z.ltb_spec n 56); [done|].
  rewrite intsize_be_bytes by lia. simpl. lia.
Qed.

(** ** The two-pass encoder agrees with the reference *)

(** The output of [toBytes] for the part of the buffer after position [base]:
    string data [s] and the headers [hs] that start in it. *)
Fixpoint render (base : nat) (s : bytes) (hs : list listhead) : bytes :=
  match hs with
  | [] => s
  | h :: hs =>
      let n := (offset h - base)%nat in
      take n s ++ head_encode h ++ render (base + n) (drop n s) hs
  end.

Fixpoint ordered (lo hi : nat) (hs : list listhead) : Prop :=
  match hs with
  | [] => True
  | h :: hs => (lo ≤ offset h ≤ hi)%nat ∧ ordered (offset h) hi hs
  end.

Lemma ordered_mono lo lo' hi hi' hs :
  (lo' ≤ lo)%nat → (hi ≤ hi')%nat → ordered lo hi hs → ordered lo' hi' hs.
Proof.
  revert lo lo'. induction hs as [|h hs IH]; simpl; [done|].
  intros lo lo' Hlo Hhi [? Ho]. split; [lia|]. by eapply IH.
Qed.

Lemma ordered_app lo mid hi hs1 hs2 :
  (lo ≤ mid ≤ hi)%nat →
  ordered lo mid hs1 → ordered mid hi hs2 → ordered lo hi (hs1 ++ hs2).
Proof.
  revert lo. induction hs1 as [|h hs1 IH]; simpl; intros lo Hm H1 H2.
  - eapply ordered_mono; [| |done]; lia.
  - destruct H1 as [? H1]. split; [lia|]. apply IH; [lia|done|done].
Qed.

Lemma render_prefix base s1 s2 hs :
  ordered (base + length s1) (base + length s1 + length s2) hs →
  render base (s1 ++ s2) hs = s1 ++ render (base + length s1) s2 hs.
Proof.
  destruct hs as [|h hs]; simpl; [done|]. intros [? _].
  rewrite take_app_ge, drop_app_ge, <- !app_assoc by lia.
  replace (offset h - base - length s1)%nat with (offset h - (base + length s1))%nat by lia.
  by replace (base + (offset h - base))%nat
    with (base + length s1 + (offset h - (base + length s1)))%nat by lia.
Qed.

Lemma render_app base s1 s2 hs1 hs2 :
  ordered base (base + length s1) hs1 →
  ordered (base + length s1) (base + length s1 + length s2) hs2 →
  render base (s1 ++ s2) (hs1 ++ hs2)
  = render base s1 hs1 ++ render (base + length s1) s2 hs2.
Proof.
  revert base s1. induction hs1 as [|h hs1 IH]; simpl; intros base s1 H1 H2.
  { by apply render_prefix. }
  destruct H1 as [Hr H1].
  rewrite take_app_le, drop_app_le, <- !app_assoc by lia. do 2 f_equal.
  set (n := (offset h - base)%nat).
  assert (length (drop n s1) = length s1 - n)%nat as Hd by apply length_drop.
  rewrite IH.
  - by replace (base + n + length (drop n s1))%nat with (base + length s1)%nat by lia.
  - eapply ordered_mono; [| |exact H1]; lia.
  - eapply ordered_mono; [| |exact H2]; lia.
Qed.

Lemma toBytes_loop_render pre s hs :
  ordered (length pre) (length pre + length s) hs →
  toBytes_loop (pre ++ s) (length pre) hs = render (length pre) s hs.
Proof.
  revert pre s. induction hs as [|h hs IH]; simpl; intros pre s Ho.
  { by rewrite drop_app_length. }
  destruct Ho as [Hr Ho]. rewrite drop_app_length. do 2 f_equal.
  set (n := (offset h - length pre)%nat).
  rewrite <- (take_drop n s) at 1. rewrite app_assoc.
  assert (length (pre ++ take n s) = length pre + n)%nat as Hl.
  { rewrite length_app, length_take. lia. }
  rewrite <- Hl. apply IH. rewrite Hl, length_drop.
  eapply ordered_mono; [| |exact Ho]; lia.
Qed.

(** Going from [w] to [w'], the encoder has emitted the encoding [bs]. *)
Definition emits (w w' : encbuf) (bs : bytes) : Prop :=
  ∃ s hs, str w' = str w ++ s ∧ lheads w' = lheads w ++ hs
    ∧ lhsize w' = lhsize w + (zlen bs - zlen s)
    ∧ render (length (str w)) s hs = bs
    ∧ ordered (length (str w)) (length (str w) + length s) hs.

Lemma emits_write w b : emits w (write w b) b.
Proof. exists b, []. simpl. rewrite app_nil_r. split_and!; try done; lia. Qed.

Lemma emits_refl w : emits w w [].
Proof. exists [], []. simpl. rewrite !app_nil_r. split_and!; try done; lia. Qed.

Lemma emits_trans w w1 w2 b1 b2 :
  emits w w1 b1 → emits w1 w2 b2 → emits w w2 (b1 ++ b2).
Proof.
  intros (s1 & hs1 & Hs1 & Hh1 & Hz1 & Hr1 & Ho1) (s2 & hs2 & Hs2 & Hh2 & Hz2 & Hr2 & Ho2).
  rewrite Hs1, length_app in Ho2, Hr2.
  exists (s1 ++ s2), (hs1 ++ hs2). split_and!.
  - by rewrite Hs2, Hs1, app_assoc.
  - by rewrite Hh2, Hh1, app_assoc.
  - rewrite Hz2, Hz1, !length_app. lia.
  - rewrite render_app; [by rewrite Hr1, Hr2|done|done].
  - rewrite length_app. apply ordered_app with (length (str w) + length s1)%nat; [lia|done|].
    eapply ordered_mono; [| |exact Ho2]; lia.
Qed.

Lemma emits_list w w' bs :
  zlen bs < 2 ^ 64 →
  emits (list_start w).2 w' bs → emits w (listEnd (list_start w).1 w') (enc_list bs).
Proof.
  intros Hlen (s & hs & Hs & Hh & Hz & Hr & Ho). simpl in *.
  unfold listEnd. rewrite Hh, <- app_assoc. simpl.
  rewrite list_lookup_middle by done. simpl.
  unfold buf_size. rewrite Hs, Hz, length_app.
  replace (Z.of_nat (length (str w) + length s) + (lhsize w + (zlen bs - zlen s))
    - zlen (str w) - lhsize w) with (zlen bs) by lia.
  set (h := mkhead (length (str w)) (zlen bs)).
  exists s, (h :: hs). simpl. split_and!.
  - done.
  - by rewrite insert_app_r_alt, Nat.sub_diag by lia.
  - unfold enc_list. rewrite length_app.
    rewrite Nat2Z.inj_add, <- (headsize_enc_head 0xC0 0xF7) by lia.
    unfold headsize. destruct (zlen bs <? 56); lia.
  - rewrite Nat.sub_diag, take_0, drop_0, Nat.add_0_r, Hr.
    unfold head_encode, enc_list. simpl. by rewrite puthead_enc_head by lia.
  - lia.
  - lia.
  - done.
Qed.

Lemma in_list_emits f w bs :
  zlen bs < 2 ^ 64 →
  (∀ w, ∃ w', f w = Ok w' ∧ emits w w' bs) →
  ∃ w', in_list f w = Ok w' ∧ emits w w' (enc_list bs).
Proof.
  intros Hlen Hf. destruct (Hf (list_start w).2) as (w' & Hw & He).
  exists (listEnd (list_start w).1 w'). split; [|by apply emits_list].
  unfold in_list. simpl in *. by rewrite Hw.
Qed.

Lemma encodeString_emits b w :
  zlen b < 2 ^ 64 → emits w (encodeString b w) (enc_str b).
Proof.
  intros Hlen.
  assert (emits w (write (encodeStringHeader (zlen b) w) b) (enc_head 0x80 0xB7 (zlen b) ++ b))
    as Hlong.
  { rewrite <- puthead_enc_head by lia. apply emits_trans with (encodeStringHeader (zlen b) w).
    - unfold encodeStringHeader, puthead. destruct (zlen b <? 56); apply emits_write.
    - apply emits_write. }
  unfold encodeString, enc_str. destruct b as [|x [|y b]]; [done| |done].
  destruct (Z.leb_spec (bz x) 0x7F), (Z.ltb_spec (bz x) 128); [|lia|lia|done].
  apply emits_write.
Qed.

Lemma be_bytes_single i : 0 < i < 256 → be_bytes i = [zb i].
Proof. intros Hi. symmetry. apply (be_n_be_bytes 0 i). lia. Qed.

Lemma be_bytes_length_u64 i : 0 < i < 2 ^ 64 → 1 ≤ zlen (be_bytes i) ≤ 8.
Proof.
  intros Hi. destruct (u64_magnitude i Hi) as (n & Hn & Hb).
  rewrite (be_bytes_length i n Hb). lia.
Qed.

Lemma writeUint_emits i w :
  0 ≤ i < 2 ^ 64 → emits w (writeUint i w) (enc_str (be_bytes i)).
Proof.
  intros Hi. unfold writeUint. destruct (Z.eqb_spec i 0) as [->|Hne].
  { apply emits_write. }
  destruct (Z.ltb_spec i 128) as [Hlt|Hge].
  { rewrite be_bytes_single by lia. simpl. rewrite bz_zb_small by lia.
    destruct (Z.ltb_spec i 128); [apply emits_write|lia]. }
  rewrite putint_be_bytes by lia. pose proof (be_bytes_length_u64 i ltac:(lia)).
  replace (enc_str (be_bytes i)) with (zb (0x80 + zlen (be_bytes i)) :: be_bytes i);
    [apply emits_write|].
  unfold enc_str, enc_head. destruct (Z.ltb_spec (zlen (be_bytes i)) 56); [|lia].
  destruct (be_bytes i) as [|x [|y l]] eqn:E; [done| |done].
  assert (be_val [x] = i) as Hv by (rewrite <- E; apply be_val_be_bytes; lia).
  rewrite be_val_cons, be_val_nil in Hv. simpl in Hv.
  destruct (Z.ltb_spec (bz x) 128); [lia|done].
Qed.

(** What the writer does on a value whose reference encoding is [o]. *)
Definition writes (o : option bytes) (f : encbuf → result encErr encbuf) : Prop :=
  match o with
  | Some bs => ∀ w, ∃ w', f w = Ok w' ∧ (zlen bs < 2 ^ 64 → emits w w' bs)
  | None => ∀ w, f w = Err ErrNegativeBigInt
  end.

Lemma writes_list o f : writes o f → writes (enc_list <$> o) (in_list f).
Proof.
  destruct o as [bs|]; simpl; intros Hf w; unfold in_list; simpl.
  - destruct (Hf (list_start w).2) as (w' & Hw & He). simpl in Hw. rewrite Hw. simpl.
    eexists. split; [done|]. intros Hlen.
    assert (zlen bs < 2 ^ 64) as Hlen'.
    { unfold enc_list in Hlen. rewrite length_app in Hlen. lia. }
    by apply emits_list; [|apply He].
  - by rewrite Hf.
Qed.

Lemma writes_nil : writes (Some []) (fun w => Ok w).
Proof. intros w. exists w. split; [done|]. intros _. apply emits_refl. Qed.

Lemma writes_cons o1 o2 f1 f2 :
  writes o1 f1 → writes o2 f2 →
  writes (b ← o1; bs ← o2; Some (b ++ bs)) (fun w => rbind (f1 w) f2).
Proof.
  destruct o1 as [b1|]; simpl; intros H1 H2; [|intros w; by rewrite H1].
  destruct o2 as [b2|]; simpl; intros w; destruct (H1 w) as (w1 & Hw1 & He1); rewrite Hw1; simpl.
  - destruct (H2 w1) as (w2 & Hw2 & He2). exists w2. split; [done|].
    rewrite length_app. intros Hlen. eapply emits_trans; [apply He1|apply He2]; lia.
  - apply H2.
Qed.

Lemma writes_elems {A} (g : A → option bytes) (f : A → encbuf → result encErr encbuf) vs :
  Forall (fun v => writes (g v) (f v)) vs → writes (rlp_items g vs) (write_elems f vs).
Proof.
  induction 1 as [|v vs Hv _ IH]; simpl; [apply writes_nil|].
  apply writes_cons with (f2 := write_elems f vs); done.
Qed.

Lemma writes_string b : writes (Some (enc_str b)) (fun w => Ok (encodeString b w)).
Proof.
  intros w. eexists. split; [done|]. intros Hlen. apply encodeString_emits.
  unfold enc_str in Hlen. destruct b as [|x [|y b]]; [done|simpl; lia|].
  rewrite length_app in Hlen. lia.
Qed.

Lemma writes_raw b : writes (Some b) (fun w => Ok (write w b)).
Proof. intros w. eexists. split; [done|]. intros _. apply emits_write. Qed.

Lemma writes_item i : writes (Some (rlp_item i)) (write_item i).
Proof.
  induction i as [b|l IH] using item_nested_ind; [apply writes_string|].
  change (Some (rlp_item (Lst l))) with (enc_list <$> Some (concat (map rlp_item l))).
  apply writes_list. induction IH as [|i l Hi _ IHl]; [apply writes_nil|].
  exact (writes_cons (Some (rlp_item i)) (Some (concat (map rlp_item l))) _ _ Hi IHl).
Qed.

Lemma be_bytes_le_pow i n : 0 ≤ i < 256 ^ Z.of_nat n → (length (be_bytes i) ≤ n)%nat.
Proof.
  intros Hi. destruct (decide (be_bytes i = [])) as [->|Hne]; [simpl; lia|].
  pose proof (no_lead0_lower _ (be_bytes_no_lead0 i ltac:(lia)) Hne) as Hlow.
  rewrite be_val_be_bytes in Hlow by lia.
  destruct (Nat.le_gt_cases (length (be_bytes i)) n) as [|Hgt]; [done|exfalso].
  assert (256 ^ Z.of_nat n ≤ 256 ^ (zlen (be_bytes i) - 1)) by (apply Z.pow_le_mono_r; lia). lia.
Qed.

Lemma writer_writes t v : wt t v → writes (rlp t v) (writer t v).
Proof.
  revert v. induction t as
    [| |bits| | | |n|t IH|t IH|n t IH|fs IH|t IH|t IH|] using typ_nested_ind;
    intros [b|o|i|b|b|b|b|l|l|l|o|o] Hwt; try done.
  - apply writes_raw.
  - destruct o as [i|]; [|apply (writes_raw [zb 0x80])].
    simpl. unfold writeBigInt. destruct (Z.ltb_spec i 0); [done|].
    destruct (Z.eqb_spec i 0) as [->|]; [apply (writes_raw [zb 0x80])|].
    apply writes_string.
  - destruct Hwt as [Hb Hi]. intros w. eexists. split; [done|]. intros _.
    apply writeUint_emits. split; [lia|].
    eapply Z.lt_le_trans; [apply Hi|]. apply Z.pow_le_mono_r; [lia|].
    lia.
  - destruct b; [apply (writes_raw [zb 1])|apply (writes_raw [zb 0x80])].
  - apply writes_string.
  - apply writes_string.
  - apply writes_string.
  - apply writes_list, writes_elems. eapply Forall_impl; [exact Hwt|]. auto.
  - apply writes_elems. eapply Forall_impl; [exact Hwt|]. auto.
  - apply writes_list, writes_elems. eapply Forall_impl; [exact (proj2 Hwt)|]. auto.
  - simpl in *. apply writes_list. revert l Hwt.
    induction IH as [|f fs Hf _ IHfs]; intros [|v vs] Hwt; try done; [apply writes_nil|].
    destruct Hwt as [Hv Hvs].
    exact (writes_cons _ _ _ _ (Hf v Hv) (IHfs vs Hvs)).
  - destruct o as [v|]; [by apply IH|].
    specialize (IH (zero t) Hwt).
    destruct t; first [exact IH | exact (writes_raw [zb 0x80])
                      | exact (writes_list (Some []) _ writes_nil)].
  - destruct o as [v|]; [by apply IH|].
    specialize (IH (zero t) Hwt).
    destruct t; first [exact IH | exact (writes_raw [zb 0x80])
                      | exact (writes_list (Some []) _ writes_nil)].
  - destruct o as [i|]; [apply writes_item|].
    apply (writes_raw [zb 0xC0]).
Qed.

Lemma emits_toBytes w bs : emits reset w bs → toBytes w = bs.
Proof.
  intros (s & hs & Hs & Hh & Hz & Hr & Ho). simpl in *. unfold toBytes, buf_size.
  rewrite Hs, Hh, Hz. pose proof (toBytes_loop_render [] s hs Ho) as Hl. simpl in Hl.
  rewrite Hl, Hr.
  replace (Z.to_nat (zlen s + (0 + (zlen bs - zlen s)))) with (length bs) by lia.
  unfold fit. by rewrite Nat.sub_diag, take_ge, app_nil_r by lia.
Qed.


Definition sample_typ : typ := TStruct [TUint 64; TSlice TBytes; TPtr TBigInt; TByteArray 2].
Definition sample_val : val :=
  VStruct [VUint 1024; VSlice [VBytes [x01]; VBytes [xff; x00]; VBytes []];
           VPtr (Some (VBig (Some 70000))); VByteArray [x61; x62]].


End Rlp.
