(* ===== verification/RlpRaw.v ===== *)
(** Splitting raw RLP values, [src/rlp/raw.go].

    [readKind] and [readSize] read a value's header from a byte slice; [Split],
    [SplitString], [SplitList] and [CountValues] use them.  Slice indexing out
    of range is a [Panic].  [Split_spec] characterises [Split] completely: it
    accepts exactly the canonical encodings and returns their content. *)

From S2P Require Import Prelude RlpEncode.
Import Rlp.

Module Raw.

Inductive Kind := KByte | KString | KList.

#[global] Instance Kind_eq_dec : EqDecision Kind.
Proof. solve_decision. Defined.

(** The message of a [decodeError]. *)
Inductive decodeMsg :=
| MsgCanonInt | MsgCanonSize | MsgExpectedList | MsgExpectedString
| MsgTooLong | MsgTooMany | MsgTooShort | MsgTooFewInList | MsgTooFew.

(** The errors of the package. *)
Inductive rlpErr :=
| EOL | EOF | ErrUnexpectedEOF
| ErrExpectedString | ErrExpectedList | ErrCanonInt | ErrCanonSize
| ErrElemTooLarge | ErrValueTooLarge | ErrMoreThanOneValue
| errNotInList | errNotAtEOL | errUintOverflow | errInvalidBool
| DecodeError (m : decodeMsg).

#[global] Instance decodeMsg_eq_dec : EqDecision decodeMsg.
Proof. solve_decision. Defined.
#[global] Instance rlpErr_eq_dec : EqDecision rlpErr.
Proof. solve_decision. Defined.

(** [readSize]: [slen] is between 1 and 8, one case of the source's switch each. *)
Definition readSize (b : bytes) (slen : Z) : result rlpErr Z :=
  if zlen b <? slen then Err ErrUnexpectedEOF
  else
    let s := foldl (fun s x => Z.lor (Z.shiftl s 8) (bz x)) 0 (take (Z.to_nat slen) b) in
    match b with
    | [] => Panic
    | b0 :: _ => if (s <? 56) || (bz b0 =? 0) then Err ErrCanonSize else Ok s
    end.

(** [readKind]: kind, tag size and content size of the first value. *)
Definition readKind (buf : bytes) : result rlpErr (Kind * Z * Z) :=
  match buf with
  | [] => Err ErrUnexpectedEOF
  | b :: rest =>
      let b := bz b in
      let? (k, tagsize, contentsize) :=
        if b <? 0x80 then Ok (KByte, 0, 1)
        else if b <? 0xB8 then
          let contentsize := b - 0x80 in
          if contentsize =? 1 then
            match rest with
            | [] => Panic
            | b1 :: _ => if bz b1 <? 128 then Err ErrCanonSize else Ok (KString, 1, contentsize)
            end
          else Ok (KString, 1, contentsize)
        else if b <? 0xC0 then
          let? s := readSize rest (b - 0xB7) in Ok (KString, b - 0xB7 + 1, s)
        else if b <? 0xF8 then Ok (KList, 1, b - 0xC0)
        else let? s := readSize rest (b - 0xF7) in Ok (KList, b - 0xF7 + 1, s)
      in
      if u64 (zlen buf - tagsize) <? contentsize then Err ErrValueTooLarge
      else Ok (k, tagsize, contentsize)
  end.

(** The slice expression [b[lo:hi]]. *)
Definition slice (b : bytes) (lo hi : Z) : bytes :=
  take (Z.to_nat (hi - lo)) (drop (Z.to_nat lo) b).

Definition Split (b : bytes) : result rlpErr (Kind * bytes * bytes) :=
  let? (k, ts, cs) := readKind b in
  Ok (k, slice b ts (ts + cs), drop (Z.to_nat (ts + cs)) b).

Definition SplitString (b : bytes) : result rlpErr (bytes * bytes) :=
  let? (k, content, rest) := Split b in
  if decide (k = KList) then Err ErrExpectedString else Ok (content, rest).

Definition SplitList (b : bytes) : result rlpErr (bytes * bytes) :=
  let? (k, content, rest) := Split b in
  if decide (k ≠ KList) then Err ErrExpectedList else Ok (content, rest).

(** Every iteration of the loop consumes at least one byte. *)
Fixpoint count_loop (fuel : nat) (i : Z) (b : bytes) : result rlpErr Z :=
  match fuel with
  | O => NoFuel
  | S fuel =>
      if zlen b =? 0 then Ok i
      else
        let? (_, tagsize, sz) := readKind b in
        count_loop fuel (i + 1) (drop (Z.to_nat (tagsize + sz)) b)
  end.
Definition CountValues (b : bytes) : result rlpErr Z := count_loop (S (length b)) 0 b.

(** ** The canonical form of a value *)

(** The encoding of a value of kind [k] with content [c]. *)
Definition encodeAs (k : Kind) (c : bytes) : bytes :=
  match k with
  | KByte => c
  | KString => enc_head 0x80 0xB7 (zlen c) ++ c
  | KList => enc_list c
  end.

Definition single_byte (c : bytes) : Prop := ∃ x, c = [x] ∧ bz x < 128.

Definition kind_ok (k : Kind) (c : bytes) : Prop :=
  match k with
  | KByte => single_byte c
  | KString => ¬ single_byte c
  | KList => True
  end.

Lemma enc_str_encodeAs c :
  ∃ k, k ≠ KList ∧ kind_ok k c ∧ enc_str c = encodeAs k c.
Proof.
  destruct c as [|x [|y c]].
  - exists KString. split_and!; [done| |done]. by intros (? & [=] & _).
  - destruct (Z.ltb_spec (bz x) 128) as [Hx|Hx].
    + exists KByte. split_and!; [done|by exists x|]. simpl.
      by rewrite (proj2 (Z.ltb_lt _ _) Hx).
    + exists KString. split_and!; [done| |].
      * intros (? & [= ->] & ?). lia.
      * simpl. by rewrite (proj2 (Z.ltb_ge _ _) Hx).
  - exists KString. split_and!; [done| |done]. by intros (? & [=] & _).
Qed.

(** ** Sizes *)

Lemma lor_shiftl_byte a b : Z.lor (Z.shiftl a 8) (bz b) = a * 256 + bz b.
Proof.
  rewrite <- Z.add_nocarry_lor; [by rewrite Z.shiftl_mul_pow2|].
  apply Z.bits_inj'. intros i Hi. rewrite Z.land_spec, Z.bits_0.
  destruct (Z.lt_ge_cases i 8).
  - by rewrite Z.shiftl_spec_low by lia.
  - rewrite <- (Z.mod_small (bz b) (2 ^ 8)) by apply bz_range.
    rewrite Z.mod_pow2_bits_high by lia. apply andb_false_r.
Qed.

Lemma size_fold_be_val l : foldl (fun s x => Z.lor (Z.shiftl s 8) (bz x)) 0 l = be_val l.
Proof.
  unfold be_val. generalize 0. induction l as [|b l IH]; intros a; simpl; [done|].
  by rewrite lor_shiftl_byte, IH.
Qed.

Lemma readSize_be_bytes n tail :
  56 ≤ n < 2 ^ 64 → readSize (be_bytes n ++ tail) (zlen (be_bytes n)) = Ok n.
Proof.
  intros Hn. unfold readSize. rewrite size_fold_be_val, Nat2Z.id, take_app_length, length_app.
  rewrite be_val_be_bytes by lia.
  destruct (Z.ltb_spec (Z.of_nat (length (be_bytes n) + length tail)) (zlen (be_bytes n))); [lia|].
  pose proof (be_bytes_length_u64 n ltac:(lia)).
  pose proof (be_bytes_head n). destruct (be_bytes n) as [|b0 l]; [simpl in *; lia|]. simpl.
  destruct (Z.ltb_spec n 56); [lia|]. destruct (Z.eqb_spec (bz b0) 0) as [E|]; [|done].
  exfalso. by eapply (H1 b0 l ltac:(lia)).
Qed.

Lemma readSize_inv b slen s :
  1 ≤ slen ≤ 8 → readSize b slen = Ok s →
  slen ≤ zlen b ∧ 56 ≤ s < 2 ^ 64 ∧ be_bytes s = take (Z.to_nat slen) b.
Proof.
  intros Hs. unfold readSize. rewrite size_fold_be_val.
  destruct (Z.ltb_spec (zlen b) slen); [done|].
  destruct b as [|b0 b]; [done|].
  destruct (_ || _) eqn:E; [done|]. intros [= <-]. bool_prop.
  pose proof (be_val_range (take (Z.to_nat slen) (b0 :: b))) as Hr.
  rewrite length_take, Nat.min_l, Z2Nat.id in Hr by lia.
  split_and!; [done|lia| |].
  - eapply Z.lt_le_trans; [apply Hr|]. rewrite pow256_pow2 by lia.
    apply Z.pow_le_mono_r; lia.
  - apply be_bytes_be_val. destruct (Z.to_nat slen) eqn:E; [lia|]. done.
Qed.

(** ** Headers *)

Lemma u64_sub_le a b : 0 ≤ b ≤ a → a < 2 ^ 64 → u64 (a - b) = a - b.
Proof. intros. apply u64_small. lia. Qed.

Lemma enc_head_length small large n : 0 ≤ n < 2 ^ 64 → 1 ≤ zlen (enc_head small large n) ≤ 9.
Proof.
  intros Hn. unfold enc_head. destruct (Z.ltb_spec n 56); [simpl; lia|].
  pose proof (be_bytes_length_u64 n ltac:(lia)). simpl. lia.
Qed.

(** The first byte and the rest of a short and of a long header. *)
Lemma readKind_encodeAs k c r :
  kind_ok k c → zlen (encodeAs k c ++ r) < 2 ^ 64 →
  readKind (encodeAs k c ++ r) = Ok (k, zlen (encodeAs k c) - zlen c, zlen c).
Proof.
  intros Hk Hlen. rewrite length_app in Hlen. destruct k; simpl in *.
  - destruct Hk as (x & -> & Hx). simpl in *. pose proof (bz_range x). zdecide. simpl.
    rewrite u64_sub_le by lia. by zdecide.
  - rewrite !length_app in *. unfold enc_head in *. destruct (Z.ltb_spec (zlen c) 56) as [Hs|Hs].
    + simpl in *. rewrite bz_zb_small, length_app by lia. zdecide.
      replace (128 + zlen c - 128) with (zlen c) by lia.
      destruct (Z.eqb_spec (zlen c) 1) as [H1|H1].
      * destruct c as [|x [|]]; [done| |simpl in H1; lia]. simpl in *.
        destruct (Z.ltb_spec (bz x) 128); [exfalso; apply Hk; by exists x|].
        simpl. rewrite u64_sub_le by lia. by zdecide.
      * simpl. rewrite u64_sub_le by lia. zdecide. do 3 f_equal. lia.
    + pose proof (be_bytes_length_u64 (zlen c) ltac:(lia)) as Hb. simpl in *.
      rewrite bz_zb_small, !length_app by lia. zdecide.
      replace (183 + zlen (be_bytes (zlen c)) - 183) with (zlen (be_bytes (zlen c))) by lia.
      rewrite <- app_assoc, readSize_be_bytes by lia. simpl.
      rewrite u64_sub_le by lia. zdecide. do 3 f_equal. lia.
  - unfold enc_list in *. rewrite !length_app in *.
    unfold enc_head in *. destruct (Z.ltb_spec (zlen c) 56) as [Hs|Hs].
    + simpl in *. rewrite bz_zb_small, length_app by lia. zdecide. simpl.
      rewrite u64_sub_le by lia. zdecide. do 3 f_equal; lia.
    + pose proof (be_bytes_length_u64 (zlen c) ltac:(lia)) as Hb. simpl in *.
      rewrite bz_zb_small, !length_app by lia. zdecide.
      replace (247 + zlen (be_bytes (zlen c)) - 247) with (zlen (be_bytes (zlen c))) by lia.
      rewrite <- app_assoc, readSize_be_bytes by lia. simpl.
      rewrite u64_sub_le by lia. zdecide. do 3 f_equal. lia.
Qed.

Lemma slice_length b lo hi : 0 ≤ lo ≤ hi → hi ≤ zlen b → zlen (slice b lo hi) = hi - lo.
Proof. intros. unfold slice. rewrite length_take, length_drop. lia. Qed.

Lemma slice_split b lo hi :
  0 ≤ lo ≤ hi → b = take (Z.to_nat lo) b ++ slice b lo hi ++ drop (Z.to_nat hi) b.
Proof.
  intros. unfold slice. rewrite <- (take_drop (Z.to_nat lo) b) at 1. f_equal.
  rewrite <- (take_drop (Z.to_nat (hi - lo)) (drop (Z.to_nat lo) b)) at 1. f_equal.
  rewrite drop_drop. f_equal. lia.
Qed.

(** What an accepted header says about the input. *)
Definition header_spec (b : bytes) (k : Kind) (ts cs : Z) : Prop :=
  let c := slice b ts (ts + cs) in
  0 ≤ ts ∧ 0 ≤ cs ∧ 0 < ts + cs ≤ zlen b ∧ kind_ok k c
  ∧ take (Z.to_nat ts) b ++ c = encodeAs k c.

Lemma header_spec_short b0 rest k tag :
  (k = KString ∧ tag = 0x80 ∨ k = KList ∧ tag = 0xC0) →
  tag ≤ bz b0 < tag + 56 → 1 + (bz b0 - tag) ≤ zlen (b0 :: rest) →
  kind_ok k (slice (b0 :: rest) 1 (1 + (bz b0 - tag))) →
  header_spec (b0 :: rest) k 1 (bz b0 - tag).
Proof.
  intros Hk Hb Hlen Hok. pose proof (bz_range b0).
  pose proof (slice_length (b0 :: rest) 1 (1 + (bz b0 - tag)) ltac:(lia) Hlen) as Hl.
  split_and!; [lia|lia|lia|lia|done|].
  assert (∀ large, enc_head tag large (zlen (slice (b0 :: rest) 1 (1 + (bz b0 - tag)))) = [b0]) as He.
  { intros large. unfold enc_head. rewrite Hl. zdecide. f_equal.
    replace (tag + (1 + (bz b0 - tag) - 1)) with (bz b0) by lia. apply zb_bz. }
  destruct Hk as [[-> ->]|[-> ->]]; unfold encodeAs, enc_list; by rewrite He.
Qed.

Lemma header_spec_long b0 rest k tag s :
  (k = KString ∧ tag = 0xB7 ∨ k = KList ∧ tag = 0xF7) →
  tag < bz b0 ≤ tag + 8 → readSize rest (bz b0 - tag) = Ok s →
  bz b0 - tag + 1 + s ≤ zlen (b0 :: rest) →
  header_spec (b0 :: rest) k (bz b0 - tag + 1) s.
Proof.
  intros Hk Hb Hs Hlen. apply readSize_inv in Hs as (Hl & Hs & Hbs); [|lia].
  set (ts := bz b0 - tag + 1) in *.
  pose proof (slice_length (b0 :: rest) ts (ts + s) ltac:(lia) ltac:(lia)) as Hc.
  assert (∀ small, enc_head small tag (zlen (slice (b0 :: rest) ts (ts + s)))
    = take (Z.to_nat ts) (b0 :: rest)) as He.
  { intros small. unfold enc_head. rewrite Hc. replace (ts + s - ts) with s by lia. zdecide.
    rewrite Hbs, length_take, Nat.min_l by lia.
    replace (Z.to_nat ts) with (S (Z.to_nat (bz b0 - tag))) by lia. simpl. f_equal.
    rewrite Z2Nat.id by lia. replace (tag + (bz b0 - tag)) with (bz b0) by lia. apply zb_bz. }
  unfold header_spec. fold ts. split_and!; [lia|lia|lia|lia| |].
  - destruct Hk as [[-> ->]|[-> ->]]; [|done]. intros (x & Hx & _).
    rewrite Hx in Hc. simpl in Hc. lia.
  - destruct Hk as [[-> ->]|[-> ->]]; unfold encodeAs, enc_list; by rewrite He.
Qed.

Lemma readKind_inv b k ts cs :
  zlen b < 2 ^ 64 → readKind b = Ok (k, ts, cs) → header_spec b k ts cs.
Proof.
  intros Hlen. destruct b as [|b0 rest]; [done|]. unfold readKind. intros H.
  pose proof (bz_range b0).
  apply rbind_Ok in H as ([[k' ts'] cs'] & Hh & H).
  assert (0 ≤ ts' ≤ zlen (b0 :: rest) → k' = k ∧ ts' = ts ∧ cs' = cs ∧ ts + cs ≤ zlen (b0 :: rest))
    as Hfin.
  { intros Hts. rewrite u64_sub_le in H by lia. destruct (Z.ltb_spec (zlen (b0 :: rest) - ts') cs');
      [done|]. injection H as -> -> ->. split_and!; [done..|lia]. }
  clear H. simpl length in *.
  destruct (Z.ltb_spec (bz b0) 0x80).
  { injection Hh as <- <- <-. destruct (Hfin ltac:(lia)) as (<- & <- & <- & _).
    split_and!; simpl; [lia..|by exists b0|done]. }
  destruct (Z.ltb_spec (bz b0) 0xB8).
  { destruct (Z.eqb_spec (bz b0 - 0x80) 1) as [Hone|Hone].
    - destruct rest as [|b1 rest]; [done|]. destruct (Z.ltb_spec (bz b1) 128); [done|].
      injection Hh as <- <- <-. destruct (Hfin ltac:(lia)) as (<- & <- & <- & ?).
      apply header_spec_short; [by left|lia|simpl; lia|].
      rewrite Hone. intros (x & [= <-] & ?). lia.
    - injection Hh as <- <- <-. destruct (Hfin ltac:(lia)) as (<- & <- & <- & ?).
      apply header_spec_short; [by left|lia|simpl; lia|].
      intros (x & Hx & _).
      pose proof (slice_length (b0 :: rest) 1 (1 + (bz b0 - 0x80)) ltac:(lia) ltac:(simpl; lia)) as Hl.
      rewrite Hx in Hl. simpl in Hl. lia. }
  destruct (Z.ltb_spec (bz b0) 0xC0).
  { apply rbind_Ok in Hh as (s & Hs & [= <- <- <-]).
    pose proof (readSize_inv rest (bz b0 - 0xB7) s ltac:(lia) Hs) as (? & _).
    destruct (Hfin ltac:(lia)) as (<- & <- & <- & ?).
    apply header_spec_long; [by left|lia|done|simpl; lia]. }
  destruct (Z.ltb_spec (bz b0) 0xF8).
  { injection Hh as <- <- <-. destruct (Hfin ltac:(lia)) as (<- & <- & <- & ?).
    apply header_spec_short; [by right|lia|simpl; lia|done]. }
  apply rbind_Ok in Hh as (s & Hs & [= <- <- <-]).
  pose proof (readSize_inv rest (bz b0 - 0xF7) s ltac:(lia) Hs) as (? & _).
  destruct (Hfin ltac:(lia)) as (<- & <- & <- & ?).
  apply header_spec_long; [by right|lia|done|simpl; lia].
Qed.

Lemma Split_encodeAs k c r :
  kind_ok k c → zlen (encodeAs k c ++ r) < 2 ^ 64 → Split (encodeAs k c ++ r) = Ok (k, c, r).
Proof.
  intros Hok Hlen. unfold Split. rewrite readKind_encodeAs by done. simpl.
  assert (zlen c ≤ zlen (encodeAs k c)) as Hc.
  { destruct k; simpl; unfold enc_list; rewrite ?length_app; lia. }
  replace (zlen (encodeAs k c) - zlen c + zlen c) with (zlen (encodeAs k c)) by lia.
  rewrite Nat2Z.id, drop_app_length. do 3 f_equal. unfold slice.
  assert (∃ h, encodeAs k c = h ++ c) as [h Hh].
  { destruct k; simpl; unfold enc_list; [by exists []|eauto..]. }
  rewrite Hh, length_app, <- app_assoc.
  replace (Z.to_nat (Z.of_nat (length h + length c) - zlen c)) with (length h) by lia.
  rewrite drop_app_length.
  replace (Z.to_nat _) with (length c) by lia. apply take_app_length.
Qed.

(** [Split] accepts exactly the canonical encodings: it returns kind [k],
    content [c] and rest [r] if and only if the input is the canonical encoding
    of a value of that kind and content followed by [r].  In particular no two
    inputs with the same rest are accepted with the same kind and content. *)
Theorem Split_spec b k c r :
  zlen b < 2 ^ 64 →
  Split b = Ok (k, c, r) ↔ kind_ok k c ∧ b = encodeAs k c ++ r.
Proof.
  intros Hlen. split.
  - intros H. apply rbind_Ok in H as ([[k' ts] cs] & Hk & [= -> <- <-]).
    apply readKind_inv in Hk as (? & ? & ? & Hok & He); [|done]. split; [done|].
    rewrite <- He, <- app_assoc. apply slice_split. lia.
  - intros [Hok ->]. by apply Split_encodeAs.
Qed.

Lemma Split_spec_witness :
  Split ([xb8; x38] ++ replicate 56 x2a ++ [xc0]) = Ok (KString, replicate 56 x2a, [xc0]).
Proof.
  apply (Split_spec ([xb8; x38] ++ replicate 56 x2a ++ [xc0]) KString (replicate 56 x2a) [xc0]).
  - reflexivity.
  - split; [|reflexivity]. intros (x & Hx & _). discriminate.
Defined.

(** the length check of [readKind] is missing for one input: on the single
    byte 0x81, the tag of a one-byte string, it reads [buf[1]] and panics; it
    panics on no other input. *)
Theorem readKind_panics b : readKind b = Panic ↔ b = [x81].
Proof.
  split; [|by intros ->].
  destruct b as [|b0 rest]; [done|]. unfold readKind. pose proof (bz_range b0) as Hb0.
  assert (∀ slen, readSize rest slen = Panic → slen < 1) as Hrs.
  { intros slen. unfold readSize. destruct (Z.ltb_spec (zlen rest) slen); [done|].
    destruct rest; [simpl in *; lia|]. by destruct (_ || _). }
  assert (∀ (k : Kind) (ts slen : Z), 1 ≤ slen →
    rbind (rbind (readSize rest slen) (fun s => Ok (k, ts, s))) (fun '(k, tagsize, contentsize) =>
      if u64 (zlen (b0 :: rest) - tagsize) <? contentsize then Err ErrValueTooLarge
      else Ok (k, tagsize, contentsize)) ≠ Panic) as Hlong.
  { intros k ts slen Hsl. specialize (Hrs slen). destruct (readSize rest slen); simpl; try done.
    - by destruct (_ <? _).
    - specialize (Hrs eq_refl). lia. }
  destruct (Z.ltb_spec (bz b0) 0x80); [simpl; by destruct (_ <? _)|].
  destruct (Z.ltb_spec (bz b0) 0xB8).
  { destruct (Z.eqb_spec (bz b0 - 0x80) 1) as [Hone|Hone]; [|simpl; by destruct (_ <? _)].
    destruct rest as [|b1 rest]; [|destruct (bz b1 <? 128); simpl; [done|by destruct (_ <? _)]].
    intros _. f_equal. apply bz_inj. change (bz x81) with 0x81. lia. }
  destruct (Z.ltb_spec (bz b0) 0xC0); [intros H'; exfalso; eapply Hlong, H'; lia|].
  destruct (Z.ltb_spec (bz b0) 0xF8); [simpl; by destruct (_ <? _)|].
  intros H'; exfalso; eapply Hlong, H'; lia.
Qed.

(** ** Counting values *)

Lemma rlp_item_encodeAs i : ∃ k c, kind_ok k c ∧ rlp_item i = encodeAs k c.
Proof.
  destruct i as [b|l].
  - destruct (enc_str_encodeAs b) as (k & _ & Hok & He). by exists k, b.
  - by exists KList, (concat (map rlp_item l)).
Qed.

Lemma encodeAs_nonempty k c : kind_ok k c → zlen c < 2 ^ 64 → 1 ≤ zlen (encodeAs k c).
Proof.
  intros Hok Hc. destruct k; simpl; [destruct Hok as (x & -> & _); simpl; lia|..];
    unfold enc_list; rewrite length_app;
    [pose proof (enc_head_length 0x80 0xB7 (zlen c))|pose proof (enc_head_length 0xC0 0xF7 (zlen c))];
    lia.
Qed.

Lemma count_loop_items fuel i l :
  zlen (concat (map rlp_item l)) < 2 ^ 64 → (length (concat (map rlp_item l)) < fuel)%nat →
  count_loop fuel i (concat (map rlp_item l)) = Ok (i + zlen l).
Proof.
  revert i l. induction fuel as [|fuel IH]; intros i l Hlen Hfuel; [lia|].
  destruct l as [|it l]; [simpl; f_equal; lia|].
  destruct (rlp_item_encodeAs it) as (k & c & Hok & He).
  assert (concat (map rlp_item (it :: l)) = encodeAs k c ++ concat (map rlp_item l)) as Hcat
    by (simpl; by rewrite He).
  rewrite Hcat in *. pose proof Hlen as Hlen'. rewrite length_app in Hlen', Hfuel.
  assert (zlen c ≤ zlen (encodeAs k c)) as Hc.
  { destruct k; simpl; unfold enc_list; rewrite ?length_app; lia. }
  pose proof (encodeAs_nonempty k c Hok ltac:(lia)).
  cbn [count_loop]. rewrite length_app at 1. zdecide.
  rewrite readKind_encodeAs by done. simpl.
  replace (zlen (encodeAs k c) - zlen c + zlen c) with (zlen (encodeAs k c)) by lia.
  rewrite Nat2Z.id, drop_app_length, IH by lia. f_equal. lia.
Qed.

(** on the payload of a list, [CountValues] terminates with the number of
    the list's elements. *)
Theorem CountValues_items l :
  zlen (concat (map rlp_item l)) < 2 ^ 64 →
  CountValues (concat (map rlp_item l)) = Ok (zlen l).
Proof. intros Hlen. unfold CountValues. rewrite count_loop_items; [done|done|lia]. Qed.

Lemma CountValues_items_witness :
  CountValues (concat (map rlp_item [Str [x05]; Lst [Str []; Str [xff]]; Str [x01; x02]])) = Ok 3.
Proof.
  apply (CountValues_items [Str [x05]; Lst [Str []; Str [xff]]; Str [x01; x02]]).
  reflexivity.
Defined.

End Raw.
