(* ===== verification/RlpDecode.v ===== *)
(** RLP decoding, [src/rlp/decode.go].

    [Stream] is the decoder's state: the unread input, the input limit, the
    cached kind of the value ahead and the stack of open lists.  Its methods are
    actions of the state-and-error monad [M]: an action that fails keeps the
    changes it made to the stream before it failed, as the Go methods do.
    [decoder] is [makeDecoder]: the decoder for each type of [typ]. *)

From S2P Require Import Prelude RlpEncode RlpRaw.
Import Rlp Raw.

Module Dec.

(** ** The stream *)

(** [kind] is [None] for the value -1 that means "not read yet"; [stack] has the
    innermost list first, each with its position and size. *)
Record Stream := mkStream {
  r : bytes;
  remaining : Z;
  limited : bool;
  kind : option Kind;
  ssize : Z;
  byteval : byte;
  kinderr : option rlpErr;
  stack : list (Z * Z)
}.

Definition set_r (x : bytes) (s : Stream) : Stream :=
  mkStream x (remaining s) (limited s) (kind s) (ssize s) (byteval s) (kinderr s) (stack s).
Definition set_remaining (x : Z) (s : Stream) : Stream :=
  mkStream (r s) x (limited s) (kind s) (ssize s) (byteval s) (kinderr s) (stack s).
Definition set_kind (x : option Kind) (s : Stream) : Stream :=
  mkStream (r s) (remaining s) (limited s) x (ssize s) (byteval s) (kinderr s) (stack s).
Definition set_ssize (x : Z) (s : Stream) : Stream :=
  mkStream (r s) (remaining s) (limited s) (kind s) x (byteval s) (kinderr s) (stack s).
Definition set_byteval (x : byte) (s : Stream) : Stream :=
  mkStream (r s) (remaining s) (limited s) (kind s) (ssize s) x (kinderr s) (stack s).
Definition set_kinderr (x : option rlpErr) (s : Stream) : Stream :=
  mkStream (r s) (remaining s) (limited s) (kind s) (ssize s) (byteval s) x (stack s).
Definition set_stack (x : list (Z * Z)) (s : Stream) : Stream :=
  mkStream (r s) (remaining s) (limited s) (kind s) (ssize s) (byteval s) (kinderr s) x.

(** ** The monad *)

Definition M (A : Type) : Type := Stream → result rlpErr A * Stream.

Definition ret {A} (a : A) : M A := fun s => (Ok a, s).
Definition fail {A} (e : rlpErr) : M A := fun s => (Err e, s).
Definition bind {A B} (m : M A) (k : A → M B) : M B := fun s =>
  let '(x, s) := m s in
  match x with
  | Ok a => k a s
  | Err e => (Err e, s)
  | Panic => (Panic, s)
  | NoFuel => (NoFuel, s)
  end.
Definition modify (f : Stream → Stream) : M unit := fun s => (Ok tt, f s).
Definition gets {A} (f : Stream → A) : M A := fun s => (Ok (f s), s).

(** [if err != nil { return f(err) }]. *)
Definition on_err {A} (m : M A) (f : rlpErr → rlpErr) : M A := fun s =>
  let '(x, s) := m s in
  match x with
  | Err e => (Err (f e), s)
  | _ => (x, s)
  end.

Declare Scope stream_scope.
Delimit Scope stream_scope with stream.
Notation "x <- m ;; k" := (bind m (fun x => k))
  (at level 100, m at next level, k at level 200, right associativity) : stream_scope.
Notation "m ;;; k" := (bind m (fun _ => k))
  (at level 100, k at level 200, right associativity) : stream_scope.
Local Open Scope stream_scope.

(** ** Reading bytes *)

Definition willRead (n : Z) : M unit := fun s =>
  let s := set_kind None s in
  let '(ok, s) :=
    match stack s with
    | [] => (true, s)
    | (pos, sz) :: st =>
        if u64 (sz - pos) <? n then (false, s)
        else (true, set_stack ((u64 (pos + n), sz) :: st) s)
    end in
  if negb ok then (Err ErrElemTooLarge, s)
  else if limited s then
    if remaining s <? n then (Err ErrValueTooLarge, s)
    else (Ok tt, set_remaining (remaining s - n) s)
  else (Ok tt, s).

Definition readByte : M byte :=
  willRead 1 ;;;
  (fun s => match r s with
            | [] => (Err ErrUnexpectedEOF, s)
            | b :: rest => (Ok b, set_r rest s)
            end).

(** [readFull] into a buffer of [n] bytes. *)
Definition readFull (n : Z) : M bytes :=
  willRead n ;;;
  (fun s =>
     let n := Z.to_nat n in
     if (length (r s) <? n)%nat then (Err ErrUnexpectedEOF, set_r [] s)
     else (Ok (take n (r s)), set_r (drop n (r s)) s)).

Definition readUint (sz : Z) : M Z :=
  if sz =? 0 then modify (set_kind None) ;;; ret 0
  else if sz =? 1 then b <- readByte ;; ret (bz b)
  else
    b <- readFull sz ;;
    match b with
    | b0 :: _ => if bz b0 =? 0 then fail ErrCanonSize else ret (be_val b)
    | [] => fun s => (Panic, s)
    end.

(** ** Kind of the value ahead *)

(** [readKind] returns kind and size beside the error. *)
Definition readKindS (s : Stream) : (Kind * Z * option rlpErr) * Stream :=
  let '(x, s) := readByte s in
  match x with
  | Ok b =>
      let s := set_byteval x00 s in
      let long (k : Kind) (n : Z) (s : Stream) :=
        let '(y, s) := readUint n s in
        match y with
        | Ok sz => ((k, sz, if sz <? 56 then Some ErrCanonSize else None), s)
        | Err e => ((k, 0, Some e), s)
        | _ => ((k, 0, Some ErrCanonSize), s)
        end in
      if bz b <? 0x80 then ((KByte, 0, None), set_byteval b s)
      else if bz b <? 0xB8 then ((KString, bz b - 0x80, None), s)
      else if bz b <? 0xC0 then long KString (bz b - 0xB7) s
      else if bz b <? 0xF8 then ((KList, bz b - 0xC0, None), s)
      else long KList (bz b - 0xF7) s
  | Err e =>
      let e := match stack s with
               | [] => if decide (e = ErrUnexpectedEOF ∨ e = ErrValueTooLarge) then EOF else e
               | _ => e
               end in
      ((KByte, 0, Some e), s)
  | _ => ((KByte, 0, Some ErrUnexpectedEOF), s)
  end.

Definition getKind : M (Kind * Z) := fun s =>
  let answer (s : Stream) : result rlpErr (Kind * Z) * Stream :=
    match kinderr s, kind s with
    | Some e, _ => (Err e, s)
    | None, Some k => (Ok (k, ssize s), s)
    | None, None => (Err EOL, s)
    end in
  match kind s with
  | Some _ => answer s
  | None =>
      let s := set_kinderr None s in
      let at_eol := match stack s with (pos, sz) :: _ => pos =? sz | [] => false end in
      if at_eol then (Err EOL, s)
      else
        let '((k, sz, err), s) := readKindS s in
        let err :=
          match err with
          | Some e => Some e
          | None =>
              match stack s with
              | [] => if limited s && (remaining s <? sz) then Some ErrValueTooLarge else None
              | (pos, lsz) :: _ => if u64 (lsz - pos) <? sz then Some ErrElemTooLarge else None
              end
          end in
        answer (set_kinderr err (set_ssize sz (set_kind (Some k) s)))
  end.

(** ** Values *)

Definition getBytes : M bytes :=
  ksz <- getKind ;;
  match ksz with
  | (KByte, _) => modify (set_kind None) ;;; b <- gets byteval ;; ret [b]
  | (KString, sz) =>
      b <- readFull sz ;;
      match b with
      | [x] => if (sz =? 1) && (bz x <? 128) then fail ErrCanonSize else ret b
      | _ => ret b
      end
  | (KList, _) => fail ErrExpectedString
  end.

Definition getRaw : M bytes :=
  ksz <- getKind ;;
  match ksz with
  | (KByte, _) => modify (set_kind None) ;;; b <- gets byteval ;; ret [b]
  | (k, sz) =>
      b <- readFull sz ;;
      ret ((if decide (k = KString) then puthead 0x80 0xB7 sz else puthead 0xC0 0xF7 sz) ++ b)
  end.

(** [uint(maxbits)]. *)
Definition getUint (maxbits : Z) : M Z :=
  ksz <- getKind ;;
  match ksz with
  | (KByte, _) =>
      b <- gets byteval ;;
      if bz b =? 0 then fail ErrCanonInt else modify (set_kind None) ;;; ret (bz b)
  | (KString, sz) =>
      if maxbits / 8 <? sz then fail errUintOverflow
      else
        v <- on_err (readUint sz) (fun e => if decide (e = ErrCanonSize) then ErrCanonInt else e) ;;
        if (0 <? sz) && (v <? 128) then fail ErrCanonSize else ret v
  | (KList, _) => fail ErrExpectedString
  end.

Definition getBool : M bool :=
  num <- getUint 8 ;;
  if num =? 0 then ret false else if num =? 1 then ret true else fail errInvalidBool.

Definition List_ : M Z :=
  ksz <- getKind ;;
  match ksz with
  | (KList, sz) =>
      modify (fun s => set_ssize 0 (set_kind None (set_stack ((0, sz) :: stack s) s))) ;;; ret sz
  | _ => fail ErrExpectedList
  end.

Definition ListEnd : M unit := fun s =>
  match stack s with
  | [] => (Err errNotInList, s)
  | (pos, sz) :: st =>
      if negb (pos =? sz) then (Err errNotAtEOL, s)
      else
        let st := match st with
                  | [] => []
                  | (pos', sz') :: st => (u64 (pos' + sz), sz') :: st
                  end in
        (Ok tt, set_ssize 0 (set_kind None (set_stack st s)))
  end.

(** ** Decoders *)

Definition wrapStreamError (e : rlpErr) : rlpErr :=
  match e with
  | ErrCanonInt => DecodeError MsgCanonInt
  | ErrCanonSize => DecodeError MsgCanonSize
  | ErrExpectedList => DecodeError MsgExpectedList
  | ErrExpectedString => DecodeError MsgExpectedString
  | errUintOverflow => DecodeError MsgTooLong
  | errNotAtEOL => DecodeError MsgTooMany
  | e => e
  end.

Definition wrap {A} (m : M A) : M A := on_err m wrapStreamError.

Definition decodeUint (bits : Z) : M val := v <- wrap (getUint bits) ;; ret (VUint v).
Definition decodeBool : M val := b <- wrap getBool ;; ret (VBool b).
Definition decodeString : M val := b <- wrap getBytes ;; ret (VString b).
Definition decodeByteSlice : M val := b <- wrap getBytes ;; ret (VBytes b).

Definition decodeBigInt : M val :=
  b <- wrap getBytes ;;
  match b with
  | b0 :: _ => if bz b0 =? 0 then fail (DecodeError MsgCanonInt) else ret (VBig (Some (be_val b)))
  | [] => ret (VBig (Some 0))
  end.

(** The error of [s.Uint] is dropped, and with it the rearming of [s.kind]. *)
Definition decodeByteArray (n : nat) : M val :=
  ksz <- getKind ;;
  match ksz with
  | (KByte, _) =>
      if (n =? 0)%nat then fail (DecodeError MsgTooLong)
      else if (1 <? n)%nat then fail (DecodeError MsgTooShort)
      else
        (fun s => let '(x, s) := getUint 64 s in
                  let bv := match x with Ok v => v | _ => 0 end in
                  (Ok (VByteArray [zb bv]), s))
  | (KString, sz) =>
      if Z.of_nat n <? sz then fail (DecodeError MsgTooLong)
      else if sz <? Z.of_nat n then fail (DecodeError MsgTooShort)
      else
        b <- readFull sz ;;
        match b with
        | [x] => if (sz =? 1) && (bz x <? 128) then fail (DecodeError MsgCanonSize)
                 else ret (VByteArray b)
        | _ => ret (VByteArray b)
        end
  | (KList, _) => fail (DecodeError MsgExpectedString)
  end.

(** Run an element decoder until it answers EOL. *)
Fixpoint decodeSliceElems {A} (fuel : nat) (elemdec : M A) : M (list A) :=
  match fuel with
  | O => fun s => (NoFuel, s)
  | S fuel => fun s =>
      let '(x, s) := elemdec s in
      match x with
      | Ok v => (vs <- decodeSliceElems fuel elemdec ;; ret (v :: vs)) s
      | Err e => if decide (e = EOL) then (Ok [], s) else (Err e, s)
      | Panic => (Panic, s)
      | NoFuel => (NoFuel, s)
      end
  end.

Definition decodeListSlice {A} (fuel : nat) (elemdec : M A) : M (list A) :=
  sz <- wrap List_ ;;
  if sz =? 0 then ListEnd ;;; ret []
  else vs <- decodeSliceElems fuel elemdec ;; ListEnd ;;; ret vs.

(** [decodeListArray]'s loop over an array of [n] elements; fewer elements
    than [n] are an error. *)
Fixpoint decodeArrayElems {A} (n : nat) (elemdec : M A) : M (list A) :=
  match n with
  | O => ret []
  | S n => fun s =>
      let '(x, s) := elemdec s in
      match x with
      | Ok v => (vs <- decodeArrayElems n elemdec ;; ret (v :: vs)) s
      | Err e => (Err (if decide (e = EOL) then DecodeError MsgTooFewInList else e), s)
      | Panic => (Panic, s)
      | NoFuel => (NoFuel, s)
      end
  end.

Definition decodeListArray {A} (n : nat) (elemdec : M A) : M (list A) :=
  wrap List_ ;;;
  vs <- decodeArrayElems n elemdec ;;
  wrap ListEnd ;;; ret vs.

Fixpoint decodeInterface (fuel : nat) : M item :=
  match fuel with
  | O => fun s => (NoFuel, s)
  | S fuel =>
      ksz <- getKind ;;
      match ksz with
      | (KList, _) => l <- decodeListSlice (S fuel) (decodeInterface fuel) ;; ret (Lst l)
      | _ => b <- getBytes ;; ret (Str b)
      end
  end.

Definition eol_too_few (e : rlpErr) : rlpErr :=
  if decide (e = EOL) then DecodeError MsgTooFew else e.

(** [makeDecoder].  [fuel] bounds the number of elements of a slice and the
    nesting of interface values. *)
Fixpoint decoder (fuel : nat) (t : typ) {struct t} : M val :=
  match t with
  | TRaw => b <- getRaw ;; ret (VRaw b)
  | TBigInt => decodeBigInt
  | TUint bits => decodeUint bits
  | TBool => decodeBool
  | TString => decodeString
  | TBytes => decodeByteSlice
  | TByteArray n => decodeByteArray n
  | TSlice t => vs <- decodeListSlice fuel (decoder fuel t) ;; ret (VSlice vs)
  | TTail t => vs <- decodeSliceElems fuel (decoder fuel t) ;; ret (VSlice vs)
  | TArray n t => vs <- decodeListArray n (decoder fuel t) ;; ret (VArray vs)
  | TStruct fs =>
      wrap List_ ;;;
      vs <- (fix go (fs : list typ) : M (list val) :=
               match fs with
               | [] => ret []
               | f :: fs =>
                   v <- on_err (decoder fuel f) eol_too_few ;;
                   vs <- go fs ;; ret (v :: vs)
               end) fs ;;
      wrap ListEnd ;;; ret (VStruct vs)
  | TPtr t => v <- decoder fuel t ;; ret (VPtr (Some v))
  | TPtrNil t => fun s =>
      let '(x, s) := getKind s in
      match x with
      | Ok (k, sz) =>
          if (sz =? 0) && negb (bool_decide (k = KByte)) then (Ok (VPtr None), set_kind None s)
          else (v <- decoder fuel t ;; ret (VPtr (Some v))) s
      | Err e => (Err e, set_kind None s)
      | Panic => (Panic, s)
      | NoFuel => (NoFuel, s)
      end
  | TIface => i <- decodeInterface fuel ;; ret (VIface (Some i))
  end.

(** [NewStream(bytes.NewReader(b), len(b))]. *)
Definition NewStream (b : bytes) : Stream :=
  mkStream b (zlen b) true None 0 x00 None [].

(** The fuel is the length of the input plus one, enough wherever each element of
    a slice takes at least a byte of it; a slice of one-byte arrays can leave a
    zero byte in place, and then no fuel is enough (RlpRoundtrip.v). *)
Definition DecodeBytes (t : typ) (b : bytes) : result rlpErr val :=
  let '(x, s) := decoder (S (length b)) t (NewStream b) in
  let? v := x in
  if negb (zlen (r s) =? 0) then Err ErrMoreThanOneValue else Ok v.

Example DecodeBytes_sample :
  DecodeBytes sample_typ
    [xd0; x82; x04; x00; xc5; x01; x82; xff; x00; x80; x83; x01; x11; x70; x82; x61; x62]
  = Ok sample_val.
Proof. vm_compute. reflexivity. Qed.

Example DecodeBytes_empty_list : DecodeBytes (TSlice TBytes) [xc0] = Ok (VSlice []).
Proof. vm_compute. reflexivity. Qed.

Example DecodeBytes_errs :
  DecodeBytes TBigInt [x82; x00; x01] = Err (DecodeError MsgCanonInt) ∧
  DecodeBytes (TUint 64) [x81; x05] = Err (DecodeError MsgCanonSize) ∧
  DecodeBytes (TStruct [TUint 64; TUint 64]) [xc1; x05] = Err (DecodeError MsgTooFew) ∧
  DecodeBytes (TStruct [TUint 64]) [xc2; x05; x06] = Err (DecodeError MsgTooMany) ∧
  DecodeBytes (TUint 8) [x05; x06] = Err ErrMoreThanOneValue ∧
  DecodeBytes TBytes [] = Err EOF.
Proof. vm_compute. done. Qed.

End Dec.
