(* ===== verification/RlpRoundtrip.v ===== *)
(** RLP round trip: decoding inverts encoding.

    The lemmas follow the stream of [RlpDecode] over the bytes of an encoding:
    [reads m bs a] says that the action [m], started before the bytes [bs],
    consumes exactly these and returns [a], whatever follows them and whatever
    lists are open around them. *)

From S2P Require Import Prelude RlpEncode RlpRaw RlpDecode.
Import Rlp Raw Dec.
Local Open Scope stream_scope.

Module Roundtrip.

(** ** Progress of the stream *)

Definition bump (n : Z) (st : list (Z * Z)) : list (Z * Z) :=
  match st with [] => [] | (p, sz) :: st => (p + n, sz) :: st end.

(** [n] more bytes are within the input limit and the innermost list. *)
Definition fits (s : Stream) (n : Z) : Prop :=
  (limited s = true → n ≤ remaining s) ∧
  match stack s with [] => True | (p, sz) :: _ => 0 ≤ p ∧ p + n ≤ sz < 2 ^ 64 end.

(** From [s] to [s'], [n] bytes were read and [rest] is left. *)
Definition adv (s s' : Stream) (n : Z) (rest : bytes) : Prop :=
  r s' = rest ∧ remaining s' = (if limited s then remaining s - n else remaining s)
  ∧ limited s' = limited s ∧ stack s' = bump n (stack s).

Definition reads {A} (m : M A) (bs : bytes) (a : A) : Prop :=
  ∀ s rest, kind s = None → r s = bs ++ rest → fits s (zlen bs) →
    ∃ s', m s = (Ok a, s') ∧ kind s' = None ∧ adv s s' (zlen bs) rest.

Lemma bump_0 st : bump 0 st = st.
Proof. destruct st as [|[p sz] st]; simpl; [done|]. do 2 f_equal. lia. Qed.

Lemma bump_bump n m st : bump m (bump n st) = bump (n + m) st.
Proof. destruct st as [|[p sz] st]; simpl; [done|]. do 2 f_equal. lia. Qed.

Lemma adv_trans s s1 s2 n m rest1 rest2 :
  adv s s1 n rest1 → adv s1 s2 m rest2 → adv s s2 (n + m) rest2.
Proof.
  intros (H1 & H2 & H3 & H4) (K1 & K2 & K3 & K4). unfold adv.
  rewrite K1, K2, K3, K4, H2, H3, H4, bump_bump. split_and!; try done.
  destruct (limited s); lia.
Qed.

Lemma fits_adv s s1 n m rest : 0 ≤ n → fits s (n + m) → adv s s1 n rest → fits s1 m.
Proof.
  intros Hn [Hl Hs] (_ & H2 & H3 & H4). unfold fits. rewrite H2, H3, H4. split.
  - intros Hlim. specialize (Hl Hlim). rewrite Hlim. lia.
  - destruct (stack s) as [|[p sz] st]; simpl; [done|]. lia.
Qed.

Lemma fits_le s n m : m ≤ n → fits s n → fits s m.
Proof.
  intros Hm [Hl Hs]. split; [intros ?; specialize (Hl ltac:(done)); lia|].
  destruct (stack s) as [|[p sz] st]; [done|]. lia.
Qed.

Lemma reads_ret {A} (a : A) : reads (ret a) [] a.
Proof.
  intros s rest Hk Hr _. exists s. split_and!; [done|done|]. unfold adv.
  rewrite bump_0, Hr. split_and!; try done. simpl. destruct (limited s); lia.
Qed.

Lemma reads_bind {A B} (m : M A) (k : A → M B) bs1 bs2 a b :
  reads m bs1 a → reads (k a) bs2 b → reads (bind m k) (bs1 ++ bs2) b.
Proof.
  intros Hm Hk s rest Hkind Hr Hfit. rewrite length_app, Nat2Z.inj_add in *.
  destruct (Hm s (bs2 ++ rest)) as (s1 & E1 & Hk1 & Ha1);
    [done|by rewrite Hr, app_assoc|by eapply fits_le; [|done]; lia|].
  destruct (Hk s1 rest) as (s2 & E2 & Hk2 & Ha2);
    [done|apply Ha1|eapply fits_adv; [|done|done]; lia|].
  exists s2. split_and!; [|done|by eapply adv_trans].
  unfold bind. by rewrite E1.
Qed.

Lemma reads_bind_ret {A B} (m : M A) (f : A → B) bs a :
  reads m bs a → reads (x <- m ;; ret (f x)) bs (f a).
Proof.
  intros Hm. rewrite <- (app_nil_r bs). apply (reads_bind _ _ _ _ a); [done|].
  apply reads_ret.
Qed.

Lemma reads_on_err {A} (m : M A) f bs a : reads m bs a → reads (on_err m f) bs a.
Proof.
  intros Hm s rest Hk Hr Hf. destruct (Hm s rest Hk Hr Hf) as (s' & E & H).
  exists s'. split; [|done]. unfold on_err. by rewrite E.
Qed.

(** ** Reading bytes *)

Lemma willRead_ok s n :
  0 ≤ n → fits s n → ∃ s', willRead n s = (Ok tt, s') ∧ kind s' = None ∧ adv s s' n (r s)
    ∧ byteval s' = byteval s ∧ kinderr s' = kinderr s.
Proof.
  intros Hn [Hl Hs]. unfold willRead. simpl.
  destruct (stack s) as [|[p sz] st] eqn:Est; simpl.
  - destruct (limited s) eqn:El.
    + specialize (Hl eq_refl). zdecide. eexists. split_and!; [done|done| |done|done].
      unfold adv. simpl. rewrite Est, El. by split_and!.
    + eexists. split_and!; [done|done| |done|done]. unfold adv. simpl. rewrite Est, El.
      by split_and!.
  - rewrite (u64_small (sz - p)) by lia. zdecide. simpl.
    assert (u64 (p + n) = p + n) as Hu by (apply u64_small; lia). rewrite Hu.
    destruct (limited s) eqn:El.
    + specialize (Hl eq_refl). zdecide. eexists. split_and!; [done|done| |done|done].
      unfold adv. simpl. rewrite Est, El. by split_and!.
    + eexists. split_and!; [done|done| |done|done]. unfold adv. simpl. rewrite Est, El.
      by split_and!.
Qed.

(** The stream after reading [n] bytes with [rest] left; the kind is not read. *)
Definition fresh_adv (s s' : Stream) (n : Z) (rest : bytes) : Prop :=
  kind s' = None ∧ adv s s' n rest ∧ byteval s' = byteval s ∧ kinderr s' = kinderr s.

Lemma readByte_ok s b rest :
  r s = b :: rest → fits s 1 → ∃ s', readByte s = (Ok b, s') ∧ fresh_adv s s' 1 rest.
Proof.
  intros Hr Hf. destruct (willRead_ok s 1) as (s1 & E & Hk & Ha & Hb & Hke); [lia|done|].
  unfold readByte, bind. rewrite E. pose proof Ha as (Hr1 & ?). rewrite Hr1, Hr.
  eexists. split; [done|]. split_and!; [done| |done|done].
  destruct Ha as (_ & ? & ? & ?). by split_and!.
Qed.

Lemma readFull_ok s bs rest :
  r s = bs ++ rest → fits s (zlen bs) →
  ∃ s', readFull (zlen bs) s = (Ok bs, s') ∧ fresh_adv s s' (zlen bs) rest.
Proof.
  intros Hr Hf. destruct (willRead_ok s (zlen bs)) as (s1 & E & Hk & Ha & Hb & Hke); [lia|done|].
  unfold readFull, bind. rewrite E. pose proof Ha as (Hr1 & ?). rewrite Hr1, Hr, Nat2Z.id.
  rewrite length_app. destruct (Nat.ltb_spec (length bs + length rest) (length bs)); [lia|].
  rewrite take_app_length, drop_app_length.
  eexists. split; [done|]. split_and!; [done| |done|done].
  destruct Ha as (_ & ? & ? & ?). by split_and!.
Qed.

(** [readUint] on an integer without leading zeros, of at least one byte. *)
Lemma readUint_ok s bs rest :
  bs ≠ [] → no_lead0 bs → zlen bs ≤ 8 → r s = bs ++ rest → fits s (zlen bs) →
  ∃ s', readUint (zlen bs) s = (Ok (be_val bs), s') ∧ fresh_adv s s' (zlen bs) rest.
Proof.
  intros Hne Hlead Hlen Hr Hf. unfold readUint. destruct bs as [|b0 bs]; [done|].
  destruct (Z.eqb_spec (zlen (b0 :: bs)) 0); [simpl in *; lia|].
  destruct (Z.eqb_spec (zlen (b0 :: bs)) 1) as [H1|H1].
  - destruct bs; [|simpl in H1; lia].
    destruct (readByte_ok s b0 rest Hr Hf) as (s' & E & Ha). exists s'. split; [|done].
    unfold bind. rewrite E. unfold ret. rewrite be_val_cons, be_val_nil. simpl. do 2 f_equal. lia.
  - destruct (readFull_ok s (b0 :: bs) rest Hr Hf) as (s' & E & Ha). exists s'. split; [|done].
    unfold bind. rewrite E. simpl in Hlead. zdecide. done.
Qed.

(** ** Headers *)

Definition vsize (k : Kind) (c : bytes) : Z := match k with KByte => 0 | _ => zlen c end.
Definition hlen (k : Kind) (c : bytes) : Z :=
  match k with KByte => 1 | _ => zlen (encodeAs k c) - zlen c end.
Definition after_kind (k : Kind) (c rest : bytes) : bytes :=
  match k with KByte => rest | _ => c ++ rest end.

(** The result of reading the header of a value of kind [k] and content [c]. *)
Definition header_read (s : Stream) (k : Kind) (c rest : bytes) : Prop :=
  ∃ s', readKindS s = ((k, vsize k c, None), s') ∧ adv s s' (hlen k c) (after_kind k c rest)
    ∧ (k = KByte → c = [byteval s']).

Lemma readKindS_byte s b rest : bz b < 128 → r s = b :: rest → fits s 1 → header_read s KByte [b] rest.
Proof.
  intros Hb Hr Hf. destruct (readByte_ok s b rest Hr Hf) as (s1 & E1 & Hk1 & Ha1 & _ & _).
  exists (set_byteval b (set_byteval x00 s1)). split_and!; [|done|done].
  unfold readKindS. rewrite E1. by zdecide.
Qed.

(** A short header is one tag byte. *)
Lemma readKindS_short s k tag c rest :
  zlen c < 56 → (k = KString ∧ tag = 0x80 ∨ k = KList ∧ tag = 0xC0) →
  encodeAs k c = [zb (tag + zlen c)] ++ c →
  r s = encodeAs k c ++ rest → fits s (zlen (encodeAs k c)) → header_read s k c rest.
Proof.
  intros Hc Hk He Hr Hf. rewrite He, <- app_assoc in Hr. simpl in Hr.
  assert (zlen (encodeAs k c) = 1 + zlen c) as Hl by (rewrite He, length_app; simpl; lia).
  destruct (readByte_ok s _ _ Hr) as (s1 & E1 & Hk1 & Ha1 & _ & _).
  { eapply fits_le; [|exact Hf]. lia. }
  exists (set_byteval x00 s1).
  unfold readKindS. rewrite E1. split_and!.
  - destruct Hk as [[-> ->]|[-> ->]]; rewrite bz_zb_small by lia; zdecide; simpl; do 3 f_equal; lia.
  - replace (hlen k c) with 1 by (unfold hlen; destruct Hk as [[-> _]|[-> _]]; lia).
    by destruct Hk as [[-> _]|[-> _]].
  - by destruct Hk as [[-> _]|[-> _]].
Qed.

(** A long header is a tag byte and the bytes of the size. *)
Lemma readKindS_long s k tag c rest :
  56 ≤ zlen c < 2 ^ 64 → (k = KString ∧ tag = 0xB7 ∨ k = KList ∧ tag = 0xF7) →
  encodeAs k c = (zb (tag + zlen (be_bytes (zlen c))) :: be_bytes (zlen c)) ++ c →
  r s = encodeAs k c ++ rest → fits s (zlen (encodeAs k c)) → header_read s k c rest.
Proof.
  intros Hsz Hk He Hr Hf. set (sb := be_bytes (zlen c)) in *.
  pose proof (be_bytes_length_u64 (zlen c) ltac:(lia)) as Hb. fold sb in Hb.
  assert (zlen (encodeAs k c) = 1 + zlen sb + zlen c) as Hl by (rewrite He, length_app; simpl; lia).
  rewrite He, <- app_assoc in Hr. simpl in Hr.
  destruct (readByte_ok s _ _ Hr) as (s1 & E1 & Hk1 & Ha1 & _ & _).
  { eapply fits_le; [|exact Hf]. lia. }
  set (s1' := set_byteval x00 s1).
  assert (adv s s1' 1 (sb ++ c ++ rest)) as Ha1' by exact Ha1.
  destruct (readUint_ok s1' sb (c ++ rest)) as (s2 & E2 & Hk2 & Ha2 & _).
  { intros E. rewrite E in Hb. simpl in Hb. lia. }
  { apply be_bytes_no_lead0. lia. } { lia. } { apply Ha1'. }
  { eapply fits_adv; [|eapply fits_le; [|exact Hf]|exact Ha1']; lia. }
  unfold sb in E2. rewrite be_val_be_bytes in E2 by lia. fold sb in E2.
  exists s2. unfold readKindS. rewrite E1. fold s1'. split_and!.
  - destruct Hk as [[-> ->]|[-> ->]]; rewrite bz_zb_small by lia; zdecide;
      (replace (_ + zlen sb - _) with (zlen sb) by lia); rewrite E2; by zdecide.
  - replace (hlen k c) with (1 + zlen sb) by (unfold hlen; destruct Hk as [[-> _]|[-> _]]; lia).
    destruct Hk as [[-> _]|[-> _]]; by eapply adv_trans.
  - by destruct Hk as [[-> _]|[-> _]].
Qed.

Lemma readKindS_value s k c rest :
  kind_ok k c → r s = encodeAs k c ++ rest → fits s (zlen (encodeAs k c)) →
  zlen (encodeAs k c) < 2 ^ 64 → header_read s k c rest.
Proof.
  intros Hok Hr Hf Hlen.
  assert (zlen c ≤ zlen (encodeAs k c)) as Hc.
  { destruct k; simpl; unfold enc_list; rewrite ?length_app; lia. }
  destruct k.
  - destruct Hok as (b & -> & Hb). by apply readKindS_byte.
  - destruct (Z.ltb_spec (zlen c) 56).
    + eapply readKindS_short; [done|by left| |done|done]. simpl. unfold enc_head. by zdecide.
    + eapply readKindS_long; [lia|by left| |done|done]. simpl. unfold enc_head. by zdecide.
  - destruct (Z.ltb_spec (zlen c) 56).
    + eapply readKindS_short; [done|by right| |done|done]. simpl. unfold enc_list, enc_head.
      by zdecide.
    + eapply readKindS_long; [lia|by right| |done|done]. simpl. unfold enc_list, enc_head.
      by zdecide.
Qed.

(** [s1] is the stream after [getKind] has read the header. *)
Definition peeked (s s1 : Stream) (k : Kind) (c rest : bytes) : Prop :=
  getKind s = (Ok (k, vsize k c), s1) ∧ getKind s1 = (Ok (k, vsize k c), s1)
  ∧ adv s s1 (hlen k c) (after_kind k c rest) ∧ (k = KByte → c = [byteval s1]).

Lemma hlen_vsize k c : kind_ok k c → hlen k c + vsize k c = zlen (encodeAs k c).
Proof. destruct k; simpl; [intros (x & -> & _); done|lia..]. Qed.

Lemma getKind_value s k c rest :
  kind s = None → kind_ok k c → r s = encodeAs k c ++ rest → fits s (zlen (encodeAs k c)) →
  zlen (encodeAs k c) < 2 ^ 64 → ∃ s1, peeked s s1 k c rest.
Proof.
  intros Hk Hok Hr Hf Hlen.
  assert (zlen c ≤ zlen (encodeAs k c)) as Hc.
  { destruct k; simpl; unfold enc_list; rewrite ?length_app; lia. }
  pose proof (encodeAs_nonempty k c Hok ltac:(lia)) as H1. pose proof (hlen_vsize k c Hok) as Hhv.
  destruct (readKindS_value (set_kinderr None s) k c rest Hok Hr Hf Hlen) as (s' & E & Ha & Hb).
  exists (set_kinderr None (set_ssize (vsize k c) (set_kind (Some k) s'))).
  assert (∃ m, m = getKind s) as [m Em] by eauto. pose proof Em as Em'. unfold getKind in Em'.
  rewrite Hk in Em'. cbn [stack set_kinderr] in Em'.
  assert (match stack s with (pos, sz) :: _ => pos =? sz | [] => false end = false) as Heol.
  { destruct (stack s) as [|[p sz] st] eqn:Est; [done|]. destruct Hf as [_ Hst].
    rewrite Est in Hst. apply Z.eqb_neq. lia. }
  rewrite Heol, E in Em'. cbn [fst snd] in Em'.
  assert (fits s' (vsize k c)) as [Hf1 Hf2].
  { eapply fits_adv; [|eapply fits_le; [|exact Hf]|exact Ha]; [|lia].
    destruct k; unfold hlen; lia. }
  assert (match stack s' with
          | [] => if limited s' && (remaining s' <? vsize k c) then Some ErrValueTooLarge else None
          | (pos, lsz) :: _ => if u64 (lsz - pos) <? vsize k c then Some ErrElemTooLarge else None
          end = None) as Hno.
  { assert (0 ≤ vsize k c) by (destruct k; simpl; lia).
    destruct (stack s') as [|[p sz] st].
    - destruct (limited s'); [|done]. specialize (Hf1 eq_refl). simpl. by zdecide.
    - rewrite u64_small by lia. by zdecide. }
  rewrite Hno in Em'. simpl in Em'. split_and!; [congruence|done|done|done].
Qed.

(** ** Strings and integers *)

(** An action that looks at the kind and then reads the content. *)
Lemma reads_getKind {A} (f : Kind * Z → M A) k c a :
  kind_ok k c → zlen (encodeAs k c) < 2 ^ 64 →
  (∀ s rest, r s = after_kind k c rest → (k = KByte → c = [byteval s]) →
     fits s (vsize k c) →
     ∃ s', f (k, vsize k c) s = (Ok a, s') ∧ kind s' = None ∧ adv s s' (vsize k c) rest) →
  reads (bind getKind f) (encodeAs k c) a.
Proof.
  intros Hok Hlen Hf s rest Hk Hr Hfit.
  destruct (getKind_value s k c rest Hk Hok Hr Hfit Hlen) as (s1 & E1 & _ & Ha1 & Hb).
  pose proof (hlen_vsize k c Hok) as Hhv.
  assert (0 ≤ hlen k c) as Hh.
  { destruct k; unfold hlen; [lia|..]; simpl; unfold enc_list; rewrite length_app; lia. }
  destruct (Hf s1 rest) as (s2 & E2 & Hk2 & Ha2); [apply Ha1|done| |].
  { eapply fits_adv; [exact Hh| |exact Ha1]. by rewrite Hhv. }
  exists s2. split_and!; [|done|].
  - unfold bind. by rewrite E1.
  - rewrite <- Hhv. by eapply adv_trans.
Qed.

Lemma adv_set_kind s k : adv s (set_kind k s) 0 (r s).
Proof. unfold adv. simpl. rewrite bump_0. split_and!; try done. destruct (limited s); lia. Qed.

Lemma reads_getBytes c : zlen (enc_str c) < 2 ^ 64 → reads getBytes (enc_str c) c.
Proof.
  intros Hlen. destruct (enc_str_encodeAs c) as (k & Hk & Hok & He). rewrite He in *.
  apply reads_getKind; [done|done|]. intros s rest Hr Hb Hf. destruct k; [|simpl in *|by destruct Hk].
  - specialize (Hb eq_refl). simpl in *. exists (set_kind None s). split_and!; [|done|].
    + unfold bind, modify, gets, ret. simpl. rewrite Hb. reflexivity.
    + rewrite <- Hr. apply adv_set_kind.
  - destruct (readFull_ok s c rest Hr Hf) as (s' & E & Hk' & Ha & _).
    exists s'. split_and!; [|done|done]. unfold bind. rewrite E.
    destruct c as [|x [|y c]]; [done| |done]. simpl.
    destruct (Z.ltb_spec (bz x) 128); [|done]. exfalso. apply Hok. by exists x.
Qed.

Lemma reads_getRaw k c : kind_ok k c → zlen (encodeAs k c) < 2 ^ 64 → reads getRaw (encodeAs k c) (encodeAs k c).
Proof.
  intros Hok Hlen. apply reads_getKind; [done|done|]. intros s rest Hr Hb Hf.
  assert (zlen c ≤ zlen (encodeAs k c)) as Hc.
  { destruct k; simpl; unfold enc_list; rewrite ?length_app; lia. }
  destruct k.
  - specialize (Hb eq_refl). simpl in *. exists (set_kind None s). split_and!; [|done|].
    + unfold bind, modify, gets, ret. simpl. rewrite Hb. reflexivity.
    + rewrite <- Hr. apply adv_set_kind.
  - destruct (readFull_ok s c rest Hr Hf) as (s' & E & Hk' & Ha & _).
    exists s'. split_and!; [|done|done]. simpl. unfold bind. rewrite E. simpl.
    by rewrite puthead_enc_head by lia.
  - destruct (readFull_ok s c rest Hr Hf) as (s' & E & Hk' & Ha & _).
    exists s'. split_and!; [|done|done]. simpl. unfold bind. rewrite E. simpl.
    by rewrite puthead_enc_head by lia.
Qed.

Lemma be_val_lt_128 bs : no_lead0 bs → be_val bs < 128 → (length bs ≤ 1)%nat.
Proof.
  intros Hn Hv. destruct bs as [|b [|b' bs]]; [simpl; lia..|].
  pose proof (no_lead0_lower _ Hn ltac:(done)) as Hl.
  assert (256 ^ 1 ≤ 256 ^ (zlen (b :: b' :: bs) - 1)) by (apply Z.pow_le_mono_r; simpl; lia). lia.
Qed.

Lemma reads_getUint bits i :
  (bits = 8 ∨ bits = 16 ∨ bits = 32 ∨ bits = 64) → 0 ≤ i < 2 ^ bits →
  reads (getUint bits) (enc_str (be_bytes i)) i.
Proof.
  intros Hbits Hi.
  assert (zlen (be_bytes i) ≤ bits / 8 ∧ bits / 8 ≤ 8) as [Hbl Hb8].
  { assert (i < 256 ^ (bits / 8) ∧ 0 ≤ bits / 8 ≤ 8) as [Hp Hq].
    { destruct Hbits as [-> | [-> | [-> | ->]]]; (split; [apply Hi|by vm_compute]). }
    pose proof (be_bytes_le_pow i (Z.to_nat (bits / 8))) as Hle.
    rewrite Z2Nat.id in Hle by lia. specialize (Hle ltac:(lia)). lia. }
  set (c := be_bytes i) in *. assert (be_val c = i) as Hv by (apply be_val_be_bytes; lia).
  assert (no_lead0 c) as Hn by (apply be_bytes_no_lead0; lia). clearbody c.
  destruct (enc_str_encodeAs c) as (k & Hk & Hok & He). rewrite He.
  assert (zlen (encodeAs k c) < 2 ^ 64) as Hlen.
  { destruct k; simpl; unfold enc_list; rewrite ?length_app; [lia|..];
      pose proof (enc_head_length 0x80 0xB7 (zlen c)); pose proof (enc_head_length 0xC0 0xF7 (zlen c)); lia. }
  apply reads_getKind; [done|done|]. intros s rest Hr Hb Hf. destruct k; [|simpl in *|by destruct Hk].
  - specialize (Hb eq_refl). rewrite Hb in Hv, Hn. simpl in *.
    rewrite be_val_cons, be_val_nil in Hv. simpl in Hv.
    unfold bind, gets, modify, ret. simpl. zdecide. exists (set_kind None s). split_and!; [|done|].
    + do 2 f_equal. lia.
    + rewrite <- Hr. apply adv_set_kind.
  - zdecide. unfold bind at 1, on_err. destruct (decide (c = [])) as [Hc|Hc].
    + rewrite Hc in *. simpl in *. exists (set_kind None s). split_and!; [|done|].
      * unfold ret. by rewrite <- Hv.
      * rewrite <- Hr. apply adv_set_kind.
    + destruct (readUint_ok s c rest Hc Hn ltac:(lia) Hr Hf) as (s' & E & Hk' & Ha & _).
      rewrite E. exists s'. split_and!; [|done|done]. rewrite Hv.
      destruct (Z.ltb_spec i 128); [|by rewrite andb_false_r].
      exfalso. pose proof (be_val_lt_128 c Hn ltac:(lia)) as Hl.
      destruct c as [|x [|]] eqn:Ec; [done| |simpl in Hl; lia].
      apply Hok. exists x. split; [done|]. rewrite be_val_cons, be_val_nil in Hv. simpl in Hv. lia.
Qed.

Lemma reads_getBool (b : bool) : reads getBool (enc_str (if b then [x01] else [])) b.
Proof.
  unfold getBool. rewrite <- (app_nil_r (enc_str _)). destruct b.
  - apply (reads_bind _ _ _ _ 1); [|apply reads_ret].
    apply (reads_getUint 8 1); lia.
  - apply (reads_bind _ _ _ _ 0); [|apply reads_ret].
    apply (reads_getUint 8 0); lia.
Qed.

(** ** Lists *)

(** As [reads], for an action that ends the innermost list. *)
Definition reads_last {A} (m : M A) (bs : bytes) (a : A) : Prop :=
  ∀ s rest p st, kind s = None → r s = bs ++ rest → fits s (zlen bs) →
    stack s = (p, p + zlen bs) :: st →
    ∃ s', m s = (Ok a, s') ∧ kind s' = None ∧ adv s s' (zlen bs) rest.

Lemma reads_reads_last {A} (m : M A) bs a : reads m bs a → reads_last m bs a.
Proof. intros Hm s rest p st Hk Hr Hf _. by apply Hm. Qed.

Lemma reads_last_bind {A B} (m : M A) (k : A → M B) bs1 bs2 a b :
  reads m bs1 a → reads_last (k a) bs2 b → reads_last (bind m k) (bs1 ++ bs2) b.
Proof.
  intros Hm Hk s rest p st Hkind Hr Hfit Hst. rewrite length_app, Nat2Z.inj_add in *.
  destruct (Hm s (bs2 ++ rest)) as (s1 & E1 & Hk1 & Ha1);
    [done|by rewrite Hr, app_assoc|by eapply fits_le; [|done]; lia|].
  destruct (Hk s1 rest (p + zlen bs1) st) as (s2 & E2 & Hk2 & Ha2);
    [done|apply Ha1|eapply fits_adv; [|done|done]; lia| |].
  { destruct Ha1 as (_ & _ & _ & ->). rewrite Hst. simpl. do 2 f_equal. lia. }
  exists s2. split_and!; [|done|by eapply adv_trans].
  unfold bind. by rewrite E1.
Qed.

Lemma reads_last_bind_ret {A B} (m : M A) (f : A → B) bs a :
  reads_last m bs a → reads_last (x <- m ;; ret (f x)) bs (f a).
Proof.
  intros Hm s rest p st Hk Hr Hf Hst. destruct (Hm s rest p st Hk Hr Hf Hst) as (s' & E & H).
  exists s'. split; [|done]. unfold bind. by rewrite E.
Qed.

(** An action that, started at the beginning of an open list, reads it and
    closes it. *)
Definition closes {A} (m : M A) (bs : bytes) (a : A) : Prop :=
  ∀ s rest st, kind s = None → r s = bs ++ rest → fits s (zlen bs) →
    stack s = (0, zlen bs) :: st →
    match st with [] => True | (p, sz) :: _ => 0 ≤ p ∧ p + zlen bs ≤ sz < 2 ^ 64 end →
    ∃ s', m s = (Ok a, s') ∧ kind s' = None ∧ r s' = rest
      ∧ remaining s' = (if limited s then remaining s - zlen bs else remaining s)
      ∧ limited s' = limited s ∧ stack s' = bump (zlen bs) st.

Lemma closes_ListEnd {A B} (m : M A) (le : M unit) (g : A → B) bs a :
  (∀ s s', ListEnd s = (Ok tt, s') → le s = (Ok tt, s')) →
  reads_last m bs a → closes (x <- m ;; le ;;; ret (g x)) bs (g a).
Proof.
  intros Hle Hm s rest st Hk Hr Hf Hst Ho.
  destruct (Hm s rest 0 st Hk Hr Hf Hst) as (s1 & E1 & Hk1 & Hr1 & Hrem & Hlim & Hst1).
  rewrite Hst in Hst1. simpl in Hst1.
  unfold bind. rewrite E1. erewrite Hle; cycle 1.
  { unfold ListEnd. rewrite Hst1, Z.eqb_refl. simpl. done. }
  eexists. split_and!; [done|done|done|done|done|]. simpl.
  destruct st as [|[p sz] st]; [done|]. simpl. by rewrite u64_small by lia.
Qed.

Lemma reads_List {A} (f : Z → M A) bs a :
  zlen (enc_list bs) < 2 ^ 64 → closes (f (zlen bs)) bs a →
  reads (bind (wrap List_) f) (enc_list bs) a.
Proof.
  intros Hlen Hf s rest Hk Hr Hfit. change (enc_list bs) with (encodeAs KList bs) in *.
  destruct (getKind_value s KList bs rest Hk I Hr Hfit Hlen) as (s1 & E1 & _ & Ha1 & _).
  assert (0 ≤ hlen KList bs ∧ hlen KList bs + zlen bs = zlen (encodeAs KList bs)) as [Hh Hhv].
  { unfold hlen. simpl. unfold enc_list. rewrite length_app. lia. }
  assert (fits s1 (zlen bs)) as [Hf1 Hf2].
  { eapply fits_adv; [exact Hh| |exact Ha1]. by rewrite Hhv. }
  set (s2 := set_ssize 0 (set_kind None (set_stack ((0, zlen bs) :: stack s1) s1))).
  destruct Ha1 as (Hr1 & Hrem1 & Hlim1 & Hst1).
  destruct (Hf s2 rest (stack s1)) as (s3 & E3 & Hk3 & Hr3 & Hrem3 & Hlim3 & Hst3); try done.
  { split; [exact Hf1|]. simpl. lia. }
  exists s3. split_and!; [|done|].
  - unfold bind, wrap, on_err, List_, bind. rewrite E1. simpl. exact E3.
  - rewrite <- Hhv. unfold adv. rewrite Hr3, Hrem3, Hlim3, Hst3, Hst1, bump_bump.
    unfold s2. cbn [limited remaining set_ssize set_kind set_stack]. rewrite Hlim1, Hrem1.
    split_and!; try done. destruct (limited s); lia.
Qed.

(** An element decoder answers EOL at the end of the innermost list. *)
Definition stops {A} (m : M A) : Prop :=
  ∀ s p st, kind s = None → stack s = (p, p) :: st →
    ∃ s', m s = (Err EOL, s') ∧ kind s' = None ∧ adv s s' 0 (r s).

Lemma stops_getKind {A} (f : Kind * Z → M A) : stops (bind getKind f).
Proof.
  intros s p st Hk Hst. unfold bind, getKind. rewrite Hk. simpl. rewrite Hst, Z.eqb_refl.
  eexists. split_and!; [done|done|]. unfold adv. simpl. rewrite bump_0.
  split_and!; try done. destruct (limited s); lia.
Qed.

Lemma stops_bind {A B} (m : M A) (f : A → M B) : stops m → stops (bind m f).
Proof.
  intros Hm s p st Hk Hst. destruct (Hm s p st Hk Hst) as (s' & E & H). exists s'.
  split; [|done]. unfold bind. by rewrite E.
Qed.

Lemma stops_wrap {A} (m : M A) : stops m → stops (wrap m).
Proof.
  intros Hm s p st Hk Hst. destruct (Hm s p st Hk Hst) as (s' & E & H). exists s'.
  split; [|done]. unfold wrap, on_err. by rewrite E.
Qed.

Lemma elems_reads_last {A} (f : A → option bytes) (ed : M A) N vs bs fuel :
  stops ed →
  Forall (fun v => ∀ b, f v = Some b → zlen b ≤ N → b ≠ [] ∧ reads ed b v) vs →
  rlp_items f vs = Some bs → zlen bs ≤ N → (length bs < fuel)%nat →
  reads_last (decodeSliceElems fuel ed) bs vs.
Proof.
  intros Hstop Hall. revert bs fuel.
  induction Hall as [|v vs Hv _ IH]; intros bs fuel Hbs Hn Hfuel; simpl in Hbs;
    (destruct fuel as [|fuel]; [lia|]).
  - simplify_eq. intros s rest p st Hk Hr Hf Hst. simpl in Hst. rewrite Z.add_0_r in Hst.
    destruct (Hstop s p st Hk Hst) as (s' & E & Hk' & Ha). exists s'. simpl. rewrite E.
    split_and!; [done|done|]. by rewrite Hr in Ha.
  - apply bind_Some in Hbs as (b & Hb & Hbs). apply bind_Some in Hbs as (bs' & Hbs' & [= <-]).
    rewrite length_app in *. destruct (Hv b Hb ltac:(lia)) as [Hne Hread].
    assert (0 < length b)%nat by (destruct b; [done|simpl; lia]).
    intros s rest p st Hk Hr Hf Hst. rewrite length_app, Nat2Z.inj_add in *.
    destruct (Hread s (bs' ++ rest)) as (s1 & E1 & Hk1 & Ha1);
      [done|by rewrite Hr, app_assoc|by eapply fits_le; [|done]; lia|].
    simpl. rewrite E1.
    destruct (reads_last_bind_ret _ (cons v) _ _ (IH bs' fuel Hbs' ltac:(lia) ltac:(lia))
      s1 rest (p + zlen b) st) as (s2 & E2 & Hk2 & Ha2);
      [done|apply Ha1|eapply fits_adv; [|done|done]; lia| |].
    { destruct Ha1 as (_ & _ & _ & ->). rewrite Hst. simpl. do 2 f_equal. lia. }
    exists s2. split_and!; [done|done|]. by eapply adv_trans.
Qed.

Lemma array_elems_reads {A} (f : A → option bytes) (ed : M A) N vs bs :
  Forall (fun v => ∀ b, f v = Some b → zlen b ≤ N → reads ed b v) vs →
  rlp_items f vs = Some bs → zlen bs ≤ N →
  reads (decodeArrayElems (length vs) ed) bs vs.
Proof.
  intros Hall. revert bs.
  induction Hall as [|v vs Hv _ IH]; intros bs Hbs Hn; simpl in Hbs.
  - simplify_eq. apply reads_ret.
  - apply bind_Some in Hbs as (b & Hb & Hbs). apply bind_Some in Hbs as (bs' & Hbs' & [= <-]).
    rewrite length_app in *. specialize (Hv b Hb ltac:(lia)).
    specialize (IH bs' Hbs' ltac:(lia)).
    pose proof (reads_bind ed (fun v => vs <- decodeArrayElems (length vs) ed ;; ret (v :: vs))
      b bs' v (v :: vs) Hv (reads_bind_ret _ (cons v) _ _ IH)) as H.
    intros s rest Hk Hr Hf. destruct (H s rest Hk Hr Hf) as (s' & E & Hs'). exists s'.
    split; [|done]. unfold bind in E. simpl.
    by destruct (ed s) as [[] s1].
Qed.

Lemma wrap_ListEnd s s' : ListEnd s = (Ok tt, s') → wrap ListEnd s = (Ok tt, s').
Proof. intros E. unfold wrap, on_err. by rewrite E. Qed.

Lemma reads_ListSlice {A} (f : A → option bytes) (ed : M A) N vs bs fuel :
  (bs ≠ [] → stops ed) →
  Forall (fun v => ∀ b, f v = Some b → zlen b ≤ N → b ≠ [] ∧ reads ed b v) vs →
  rlp_items f vs = Some bs → zlen bs ≤ N → zlen (enc_list bs) < 2 ^ 64 → (length bs < fuel)%nat →
  reads (decodeListSlice fuel ed) (enc_list bs) vs.
Proof.
  intros Hstop Hall Hbs Hn Hlen Hfuel. apply reads_List; [done|].
  destruct (Z.eqb_spec (zlen bs) 0) as [H0|H0].
  - assert (bs = []) as -> by (destruct bs; [done|simpl in H0; lia]).
    assert (vs = []) as ->.
    { destruct Hall as [|v vs Hv]; [done|]. simpl in Hbs.
      apply bind_Some in Hbs as (b & Hb & Hbs). apply bind_Some in Hbs as (bs' & _ & [= E]).
      destruct (app_nil b bs') as [[-> _] _]; [done|].
      by destruct (Hv [] Hb ltac:(simpl in *; lia)). }
    apply (closes_ListEnd (ret []) ListEnd (fun x => x)); [done|].
    apply reads_reads_last, reads_ret.
  - apply (closes_ListEnd (decodeSliceElems fuel ed) ListEnd (fun x => x)); [done|].
    eapply elems_reads_last; [|done..]. apply Hstop. by intros ->.
Qed.

(** ** Looking at the kind before decoding *)

Lemma getKind_idem s x s1 : getKind s = (Ok x, s1) → getKind s1 = (Ok x, s1).
Proof.
  unfold getKind at 1. destruct (kind s) as [k|] eqn:Hk.
  - destruct (kinderr s) eqn:He; [done|]. intros [= <- <-]. unfold getKind. by rewrite Hk, He.
  - destruct (match stack (set_kinderr None s) with (pos, sz) :: _ => pos =? sz | [] => false end);
      [done|].
    destruct (readKindS (set_kinderr None s)) as [[[k sz] err] s2].
    set (err' := match err with Some e => Some e | None => _ end).
    destruct err' as [e|] eqn:He; simpl; [done|]. intros [= <- <-]. done.
Qed.

(** An action that starts by asking for the kind. *)
Definition peekable {A} (m : M A) : Prop :=
  ∀ s x s1, getKind s = (Ok x, s1) → m s1 = m s.

Lemma peekable_getKind {A} (f : Kind * Z → M A) : peekable (bind getKind f).
Proof. intros s x s1 E. unfold bind. by rewrite E, (getKind_idem _ _ _ E). Qed.

Lemma peekable_bind {A B} (m : M A) (f : A → M B) : peekable m → peekable (bind m f).
Proof. intros Hm s x s1 E. unfold bind. by rewrite (Hm s x s1 E). Qed.

Lemma peekable_wrap {A} (m : M A) : peekable m → peekable (wrap m).
Proof. intros Hm s x s1 E. unfold wrap, on_err. by rewrite (Hm s x s1 E). Qed.

(** Asking for the kind first does not change what [m] reads. *)
Lemma reads_peek {A} (m : M A) (g : Kind * Z → M A) k c a :
  kind_ok k c → zlen (encodeAs k c) < 2 ^ 64 → peekable m → reads m (encodeAs k c) a →
  (∀ s, g (k, vsize k c) s = m s) → reads (bind getKind g) (encodeAs k c) a.
Proof.
  intros Hok Hlen Hp Hm Hg s rest Hk Hr Hf.
  destruct (getKind_value s k c rest Hk Hok Hr Hf Hlen) as (s1 & E1 & _).
  destruct (Hm s rest Hk Hr Hf) as (s' & E & H). exists s'. split; [|done].
  unfold bind. by rewrite E1, Hg, (Hp _ _ _ E1).
Qed.

Lemma reads_decodeByteArray b :
  b ≠ [x00] → zlen (enc_str b) < 2 ^ 64 →
  reads (decodeByteArray (length b)) (enc_str b) (VByteArray b).
Proof.
  intros Hb Hlen. destruct (enc_str_encodeAs b) as (k & Hk & Hok & He). rewrite He in *.
  destruct k; [| |by destruct Hk].
  - destruct Hok as (x & -> & Hx). pose proof (bz_range x).
    assert (bz x ≠ 0) as Hx0.
    { intros E. apply Hb. f_equal. by apply bz_inj. }
    apply (reads_peek (fun s => let '(y, s) := getUint 64 s in
      (Ok (VByteArray [zb (match y with Ok v => v | _ => 0 end)]), s))); [by exists x|done| | |done].
    + assert (peekable (getUint 64)) as Hp by apply peekable_getKind.
      intros s y s1 E. by rewrite (Hp s y s1 E).
    + intros s rest Hks Hr Hf.
      assert (be_bytes (bz x) = [x]) as Hbb by (rewrite be_bytes_single, zb_bz; [done|lia]).
      pose proof (reads_getUint 64 (bz x) ltac:(lia) ltac:(lia)) as Hu.
      rewrite Hbb in Hu. simpl in Hu. rewrite (proj2 (Z.ltb_lt _ _) Hx) in Hu.
      destruct (Hu s rest Hks Hr Hf) as (s' & E & Hs'). exists s'. rewrite E, zb_bz. done.
  - apply reads_getKind; [done|done|]. intros s rest Hr _ Hf. simpl in *.
    rewrite (proj2 (Z.ltb_ge (zlen b) (zlen b))) by lia.
    destruct (readFull_ok s b rest Hr Hf) as (s' & E & Hk' & Ha & _).
    exists s'. split_and!; [|done|done]. unfold bind. rewrite E.
    destruct b as [|x [|y b]]; [done| |done]. simpl.
    destruct (Z.ltb_spec (bz x) 128); [|done]. exfalso. apply Hok. by exists x.
Qed.

(** ** Interface values *)

Lemma enc_list_length bs : zlen bs < 2 ^ 64 → zlen bs + 1 ≤ zlen (enc_list bs) ≤ zlen bs + 9.
Proof.
  intros H. unfold enc_list. rewrite length_app. pose proof (enc_head_length 0xC0 0xF7 (zlen bs)). lia.
Qed.

Lemma enc_str_length b : zlen b < 2 ^ 64 → 1 ≤ zlen (enc_str b).
Proof.
  intros H. destruct (enc_str_encodeAs b) as (k & _ & Hok & ->). by apply encodeAs_nonempty.
Qed.

Lemma enc_str_ge b : zlen b ≤ zlen (enc_str b).
Proof.
  destruct (enc_str_encodeAs b) as (k & _ & _ & ->).
  destruct k; simpl; unfold enc_list; rewrite ?length_app; lia.
Qed.

Lemma enc_list_ge b : zlen b ≤ zlen (enc_list b).
Proof. unfold enc_list. rewrite length_app. lia. Qed.

Lemma rlp_items_map l : rlp_items (fun i => Some (rlp_item i)) l = Some (concat (map rlp_item l)).
Proof. induction l as [|i l IH]; simpl; [done|]. by rewrite IH. Qed.

Lemma decodeInterface_reads i fuel :
  zlen (rlp_item i) < 2 ^ 64 → (length (rlp_item i) ≤ fuel)%nat →
  rlp_item i ≠ [] ∧ reads (decodeInterface fuel) (rlp_item i) i.
Proof.
  revert fuel. induction i as [b|l IH] using item_nested_ind; intros fuel Hlen Hfuel.
  - simpl in *. pose proof (enc_str_ge b). pose proof (enc_str_length b ltac:(lia)).
    split; [by intros E; rewrite E in *|].
    destruct fuel as [|fuel]; [lia|]. simpl.
    destruct (enc_str_encodeAs b) as (k & Hk & Hok & He).
    pose proof (reads_bind_ret _ Str _ _ (reads_getBytes b Hlen)) as Hb. rewrite He in *.
    eapply reads_peek; [done|done| |exact Hb|].
    + apply peekable_bind, peekable_getKind.
    + destruct k; [done|done|by destruct Hk].
  - simpl in *. set (bs := concat (map rlp_item l)) in *.
    pose proof (enc_list_ge bs). pose proof (enc_list_length bs ltac:(lia)).
    split; [intros E; rewrite E in *; simpl in *; lia|].
    destruct fuel as [|fuel]; [lia|]. simpl.
    apply (reads_peek (l <- decodeListSlice (S fuel) (decodeInterface fuel) ;; ret (Lst l)) _ KList bs);
      [done|done| | |done].
    + apply peekable_bind, peekable_bind, peekable_wrap, peekable_getKind.
    + apply (reads_bind_ret _ Lst).
      apply (reads_ListSlice (fun i => Some (rlp_item i)) _ (zlen bs)); [| | |done|done|lia].
      * intros Hbs. destruct fuel as [|fuel]; [|apply stops_getKind].
        destruct bs; [done|simpl in *; lia].
      * rewrite Forall_forall in IH |- *. intros i Hi b [= <-] Hb.
        apply (IH i Hi); [|]; lia.
      * apply rlp_items_map.
Qed.

(** ** Decoders *)

(** The types whose decoder starts by asking for the kind: all but the "tail" slices. *)
Fixpoint asks_kind (t : typ) : bool :=
  match t with
  | TTail _ => false
  | TPtr t => asks_kind t
  | _ => true
  end.

Lemma decoder_stops t fuel : asks_kind t = true → stops (decoder (S fuel) t).
Proof.
  induction t as [| |bits| | | |n|t IH|t IH|n t IH|fs IH|t IH|t IH|] using typ_nested_ind;
    intros Ht; simpl; try discriminate;
    repeat first [apply stops_getKind | apply stops_wrap | apply stops_bind]; try by apply IH.
  intros s p st Hk Hst.
  destruct (stops_getKind ret s p st Hk Hst) as (s' & E & Hk' & Ha).
  unfold bind in E. destruct (getKind s) as [[x|e| |] s1]; simplify_eq.
  eexists. split_and!; [done|done|exact Ha].
Qed.

Lemma decoder_peekable t fuel : asks_kind t = true → peekable (decoder (S fuel) t).
Proof.
  induction t as [| |bits| | | |n|t IH|t IH|n t IH|fs IH|t IH|t IH|] using typ_nested_ind;
    intros Ht; simpl; try discriminate;
    repeat first [apply peekable_getKind | apply peekable_wrap | apply peekable_bind]; try by apply IH.
  intros s x s1 E. by rewrite E, (getKind_idem _ _ _ E).
Qed.

(** The values that decoding gives back.  A nil pointer decodes to nil only in a
    field tagged "nil", and only values with a non-empty encoding decode to
    non-nil there; a [nil] interface or big integer decodes to the empty value;
    a "tail" slice is the last field of its struct; a raw value is one RLP value;
    and a one-byte array holding zero is excluded (see [decodeByteArray]). *)
Fixpoint dec_ok (t : typ) (v : val) {struct t} : Prop :=
  match t, v with
  | TRaw, VRaw b => ∃ k c, kind_ok k c ∧ b = encodeAs k c
  | TBigInt, VBig (Some _) | TBool, VBool _ | TString, VString _ | TBytes, VBytes _
  | TIface, VIface (Some _) => True
  | TUint bits, VUint i => (bits = 8 ∨ bits = 16 ∨ bits = 32 ∨ bits = 64) ∧ 0 ≤ i < 2 ^ bits
  | TByteArray n, VByteArray b => length b = n ∧ b ≠ [x00]
  | TSlice t, VSlice vs => Forall (dec_ok t) vs
  | TArray n t, VArray vs => length vs = n ∧ Forall (dec_ok t) vs
  | TStruct fs, VStruct vs =>
      (fix go (fs : list typ) (vs : list val) : Prop :=
         match fs, vs with
         | [], [] => True
         | f :: fs, v :: vs =>
             match f, v, fs with
             | TTail t, VSlice l, [] => asks_kind t = true ∧ Forall (dec_ok t) l
             | _, _, _ => dec_ok f v
             end ∧ go fs vs
         | _, _ => False
         end) fs vs
  | TPtr t, VPtr (Some v) => dec_ok t v
  | TPtrNil t, VPtr (Some v) => dec_ok t v ∧ rlp t v ≠ Some [x80] ∧ rlp t v ≠ Some [xc0]
  | TPtrNil t, VPtr None =>
      rlp (TPtrNil t) (VPtr None) = Some [x80] ∨ rlp (TPtrNil t) (VPtr None) = Some [xc0]
  | _, _ => False
  end.

(** Their encoding is a single RLP value. *)
Lemma rlp_value t v bs :
  dec_ok t v → rlp t v = Some bs → asks_kind t = true ∧ ∃ k c, kind_ok k c ∧ bs = encodeAs k c.
Proof.
  assert (∀ b, ∃ k c, kind_ok k c ∧ enc_str b = encodeAs k c) as Hstr.
  { intros b. destruct (enc_str_encodeAs b) as (k & _ & Hok & He). eauto. }
  assert (∀ b, ∃ k c, kind_ok k c ∧ enc_list b = encodeAs k c) as Hlist by (intros b; by exists KList, b).
  revert v bs. induction t as
    [| |bits| | | |n|t IH|t IH|n t IH|fs IH|t IH|t IH|] using typ_nested_ind;
    intros [b|o|i|b|b|b|b|l|l|l|o|o] bs Hok Hbs; simpl in Hok, Hbs; try done;
    try (apply fmap_Some in Hbs as (payload & _ & ->); by eauto); simplify_eq; try by eauto.
  - destruct o as [i|]; [|done]. destruct (i <? 0); [done|]. simplify_eq. eauto.
  - destruct o as [v|]; [|done]. by eapply IH.
  - split; [done|]. destruct o as [v|]; [exact (proj2 (IH v bs (proj1 Hok) Hbs))|].
    destruct Hok as [E|E]; rewrite E in Hbs; simplify_eq.
    + exists KString, []. split; [by intros (? & [=] & _)|done].
    + by exists KList, [].
  - destruct o as [i|]; [|done]. simplify_eq. split; [done|]. apply rlp_item_encodeAs.
Qed.

Lemma rlp_nonempty t v bs :
  dec_ok t v → rlp t v = Some bs → zlen bs < 2 ^ 64 → bs ≠ [].
Proof.
  intros Hok Hbs Hlen ->. destruct (rlp_value _ _ _ Hok Hbs) as (_ & k & c & Hk & He).
  pose proof (encodeAs_nonempty k c Hk) as H. rewrite <- He in H. simpl in H.
  assert (zlen c ≤ zlen (encodeAs k c)) as Hc.
  { destruct k; simpl; unfold enc_list; rewrite ?length_app; lia. }
  rewrite <- He in Hc. simpl in Hc. lia.
Qed.

(** [decoder fuel t] reads back every value with a short enough encoding. *)
Definition inverts (t : typ) (fuel : nat) : Prop :=
  ∀ v bs, dec_ok t v → rlp t v = Some bs → zlen bs < 2 ^ 64 → (length bs < fuel)%nat →
    reads (decoder fuel t) bs v.

Lemma reads_TSlice t fuel vs bs :
  inverts t fuel → Forall (dec_ok t) vs → rlp_items (rlp t) vs = Some bs →
  zlen (enc_list bs) < 2 ^ 64 → (length (enc_list bs) < fuel)%nat →
  reads (decodeListSlice fuel (decoder fuel t)) (enc_list bs) vs.
Proof.
  intros Ht Hvs Hbs Hlen Hfuel. pose proof (enc_list_ge bs).
  apply (reads_ListSlice (rlp t) _ (zlen bs)); [| |done|done|done|lia].
  - intros Hne. destruct fuel as [|fuel]; [lia|]. apply decoder_stops.
    destruct Hvs as [|v vs Hv _]; [by injection Hbs as <-|]. simpl in Hbs.
    apply bind_Some in Hbs as (b & Hb & _). by apply (rlp_value t v b).
  - eapply Forall_impl; [exact Hvs|]. intros v Hv b Hb Hle. split.
    + eapply rlp_nonempty; [done..|lia].
    + apply Ht; [done|done|lia|lia].
Qed.

(** The body of a "tail" slice, which runs to the end of the enclosing list. *)
Lemma reads_TTail t fuel vs bs :
  inverts t fuel → Forall (dec_ok t) vs → rlp_items (rlp t) vs = Some bs →
  zlen bs < 2 ^ 64 → (length bs < fuel)%nat → asks_kind t = true →
  reads_last (decodeSliceElems fuel (decoder fuel t)) bs vs.
Proof.
  intros Ht Hvs Hbs Hlen Hfuel Hask. destruct fuel as [|fuel]; [lia|].
  apply (elems_reads_last (rlp t) _ (zlen bs)); [by apply decoder_stops| |done|done|done].
  eapply Forall_impl; [exact Hvs|]. intros v Hv b Hb Hle. split.
  - eapply rlp_nonempty; [done..|lia].
  - apply Ht; [done|done|lia|lia].
Qed.

(** The fields of a struct, as in [decoder], [rlp] and [dec_ok]. *)
Definition dec_fields (fuel : nat) : list typ → M (list val) :=
  fix go fs :=
    match fs with
    | [] => ret []
    | f :: fs =>
        v <- on_err (decoder fuel f) eol_too_few ;;
        vs <- go fs ;; ret (v :: vs)
    end.

Fixpoint rlp_fields (fs : list typ) (vs : list val) : option bytes :=
  match fs, vs with
  | [], [] => Some []
  | f :: fs, v :: vs => b ← rlp f v; bs ← rlp_fields fs vs; Some (b ++ bs)
  | _, _ => None
  end.

Definition field_ok (f : typ) (v : val) (fs : list typ) : Prop :=
  match f, v, fs with
  | TTail t, VSlice l, [] => asks_kind t = true ∧ Forall (dec_ok t) l
  | _, _, _ => dec_ok f v
  end.

Fixpoint fields_ok (fs : list typ) (vs : list val) : Prop :=
  match fs, vs with
  | [], [] => True
  | f :: fs, v :: vs => field_ok f v fs ∧ fields_ok fs vs
  | _, _ => False
  end.

(** What the induction shows of a type: its decoder inverts the encoding, also
    in the last field of a struct. *)
Definition inverts_field (t : typ) (fuel : nat) : Prop :=
  inverts t fuel ∧
  (∀ v bs, field_ok t v [] → rlp t v = Some bs → zlen bs < 2 ^ 64 → (length bs < fuel)%nat →
     reads_last (decoder fuel t) bs v).

Lemma reads_last_on_err {A} (m : M A) f bs a : reads_last m bs a → reads_last (on_err m f) bs a.
Proof.
  intros Hm s rest p st Hk Hr Hf Hst. destruct (Hm s rest p st Hk Hr Hf Hst) as (s' & E & H).
  exists s'. split; [|done]. unfold on_err. by rewrite E.
Qed.

Lemma reads_last_bind_last {A B} (m : M A) (k : A → M B) bs a b :
  reads_last m bs a → (∀ s, k a s = ret b s) → reads_last (bind m k) bs b.
Proof.
  intros Hm Hk s rest p st Hkind Hr Hf Hst.
  destruct (Hm s rest p st Hkind Hr Hf Hst) as (s' & E & H). exists s'. split; [|done].
  unfold bind. rewrite E. apply Hk.
Qed.

Lemma reads_fields fuel fs vs bs :
  Forall (fun t => inverts_field t fuel) fs → fields_ok fs vs → rlp_fields fs vs = Some bs →
  zlen bs < 2 ^ 64 → (length bs < fuel)%nat → reads_last (dec_fields fuel fs) bs vs.
Proof.
  intros Hfs. revert vs bs. induction Hfs as [|f fs [Hf Hfl] _ IH]; intros [|v vs] bs Hok Hbs Hlen Hfuel;
    try done.
  { simplify_eq/=. apply reads_reads_last, reads_ret. }
  destruct Hok as [Hv Hvs]. simpl in Hbs.
  apply bind_Some in Hbs as (b & Hb & Hbs). apply bind_Some in Hbs as (bs' & Hbs' & [= <-]).
  rewrite length_app in *. simpl. destruct fs as [|f' fs].
  - destruct vs; [|done]. simplify_eq/=. rewrite app_nil_r in *.
    eapply reads_last_bind_last; [apply reads_last_on_err, Hfl; [done|done|lia|lia]|done].
  - assert (dec_ok f v) as Hv' by (by destruct f; try done; destruct v).
    eapply reads_last_bind; [apply reads_on_err, Hf; [done|done|lia|lia]|].
    apply reads_last_bind_ret, IH; [done|done|lia|lia].
Qed.

Lemma inverts_field_plain t fuel :
  (∀ t', t ≠ TTail t') → inverts t fuel → inverts_field t fuel.
Proof.
  intros Ht Hi. split; [done|]. intros v bs Hok. assert (dec_ok t v) as Hok'.
  { destruct t; try done. by edestruct Ht. }
  intros. by apply reads_reads_last, Hi.
Qed.

Lemma reads_wrap_bytes {B} (f : bytes → B) b :
  zlen (enc_str b) < 2 ^ 64 → reads (x <- wrap getBytes ;; ret (f x)) (enc_str b) (f b).
Proof. intros. apply (reads_bind_ret _ f), reads_on_err. by apply reads_getBytes. Qed.

Lemma reads_decodeBigInt i :
  0 ≤ i → zlen (enc_str (be_bytes i)) < 2 ^ 64 →
  reads decodeBigInt (enc_str (be_bytes i)) (VBig (Some i)).
Proof.
  intros Hi Hlen. unfold decodeBigInt. rewrite <- (app_nil_r (enc_str _)).
  eapply reads_bind; [apply reads_on_err; by apply reads_getBytes|].
  pose proof (be_val_be_bytes i Hi) as Hv. pose proof (be_bytes_no_lead0 i Hi) as Hn.
  destruct (be_bytes i) as [|b0 l]; simpl in Hn.
  - rewrite be_val_nil in Hv. rewrite <- Hv. apply reads_ret.
  - rewrite (proj2 (Z.eqb_neq _ _) Hn), Hv. apply reads_ret.
Qed.

Lemma encodeAs_empty k c :
  kind_ok k c → encodeAs k c = [x80] ∨ encodeAs k c = [xc0] → k ≠ KByte ∧ c = [].
Proof.
  intros Hk He. assert (zlen (encodeAs k c) = 1) as Hl by (by destruct He as [-> | ->]).
  assert (zlen c ≤ 1) as Hc.
  { revert Hl. destruct k; simpl; unfold enc_list; rewrite ?length_app; lia. }
  destruct k; simpl in *.
  - destruct Hk as (x & -> & Hx). destruct He as [[= ->]|[= ->]]; by vm_compute in Hx.
  - rewrite length_app in Hl. pose proof (enc_head_length 0x80 0xB7 (zlen c) ltac:(lia)).
    split; [done|]. destruct c; [done|simpl in *; lia].
  - unfold enc_list in Hl. rewrite length_app in Hl.
    pose proof (enc_head_length 0xC0 0xF7 (zlen c) ltac:(lia)).
    split; [done|]. destruct c; [done|simpl in *; lia].
Qed.

Lemma reads_TPtrNil t fuel o bs :
  inverts t fuel → dec_ok (TPtrNil t) (VPtr o) → rlp (TPtrNil t) (VPtr o) = Some bs →
  zlen bs < 2 ^ 64 → (length bs < fuel)%nat → reads (decoder fuel (TPtrNil t)) bs (VPtr o).
Proof.
  intros Ht Hok Hbs Hlen Hfuel.
  destruct (rlp_value _ _ _ Hok Hbs) as (_ & k & c & Hk & ->).
  intros s rest Hks Hr Hf. simpl.
  destruct (getKind_value s k c rest Hks Hk Hr Hf Hlen) as (s1 & E1 & _ & Ha & _). rewrite E1.
  pose proof (hlen_vsize k c Hk) as Hhv. destruct o as [v|]; simpl in Hok, Hbs.
  - destruct Hok as (Hv & H80 & HC0).
    destruct ((vsize k c =? 0) && negb (bool_decide (k = KByte))) eqn:E.
    { exfalso. bool_prop. destruct k; simpl in *; [done|..];
        (assert (c = []) as -> by (destruct c; [done|simpl in *; lia])); [by apply H80|by apply HC0]. }
    destruct fuel as [|fuel]; [lia|].
    destruct (reads_bind_ret _ (fun v => VPtr (Some v)) _ _ (Ht v _ Hv Hbs Hlen Hfuel) s rest Hks Hr Hf)
      as (s' & E' & Hs'). exists s'. split; [|done]. rewrite <- E'.
    apply (peekable_bind _ _ (decoder_peekable t fuel (proj1 (rlp_value _ _ _ Hv Hbs))) s _ s1 E1).
  - assert (k ≠ KByte ∧ c = []) as [Hkb ->].
    { apply encodeAs_empty; [done|]. destruct Hok as [Hok|Hok]; rewrite Hok in Hbs; simplify_eq; auto. }
    destruct k; [done|..]; simpl; (eexists; split_and!; [done|done|exact Ha]).
Qed.

Lemma decoder_inverts t fuel : inverts_field t fuel.
Proof.
  induction t as
    [| |bits| | | |n|t IH|t IH|n t IH|fs IH|t IH|t IH|] using typ_nested_ind;
    try (apply inverts_field_plain; [done|]; intros [b|o|i|b|b|b|b|l|l|l|o|o] bs Hok Hbs Hlen Hfuel; try done;
         simpl in Hok, Hbs).
  - destruct Hok as (k & c & Hk & ->). simplify_eq. apply (reads_bind_ret _ VRaw). by apply reads_getRaw.
  - destruct o as [i|]; [|done]. destruct (Z.ltb_spec i 0); [done|]. simplify_eq.
    by apply reads_decodeBigInt.
  - simplify_eq. apply (reads_bind_ret _ VUint), reads_on_err, reads_getUint; apply Hok.
  - simplify_eq. apply (reads_bind_ret _ VBool), reads_on_err, reads_getBool.
  - simplify_eq. by apply reads_wrap_bytes.
  - simplify_eq. by apply reads_wrap_bytes.
  - simplify_eq. destruct Hok as [<- Hb]. by apply reads_decodeByteArray.
  - apply fmap_Some in Hbs as (payload & Hp & ->). apply (reads_bind_ret _ VSlice).
    by apply reads_TSlice; [apply IH|..].
  - split; [by intros [] ?|]. intros [] bs Hok Hbs Hlen Hfuel; try done. destruct Hok as [Hask Hok].
    apply (reads_last_bind_ret _ VSlice). by apply reads_TTail; [apply IH|..].
  - apply fmap_Some in Hbs as (payload & Hp & ->). apply (reads_bind_ret _ VArray).
    destruct Hok as [<- Hok]. pose proof (enc_list_ge payload).
    apply reads_List; [done|]. apply (closes_ListEnd _ _ (fun x => x)); [apply wrap_ListEnd|].
    apply reads_reads_last, (array_elems_reads (rlp t) _ (zlen payload)); [|done|done].
    eapply Forall_impl; [exact Hok|]. intros v Hv b Hb Hle. apply IH; [done|done|lia|lia].
  - apply fmap_Some in Hbs as (payload & Hp & ->). pose proof (enc_list_ge payload).
    apply (reads_List (fun _ => vs <- dec_fields fuel fs ;; wrap ListEnd ;;; ret (VStruct vs))); [done|].
    apply (closes_ListEnd _ _ VStruct); [apply wrap_ListEnd|].
    apply reads_fields; [done|exact Hok|exact Hp|lia|lia].
  - destruct o as [v|]; [|done]. apply (reads_bind_ret _ (fun v => VPtr (Some v))). by apply IH.
  - apply reads_TPtrNil; [apply IH|done..].
  - destruct o as [i|]; [|done]. simplify_eq. apply (reads_bind_ret _ (fun i => VIface (Some i))).
    apply decodeInterface_reads; [done|lia].
Qed.

Lemma decode_encode t v bs :
  wt t v → dec_ok t v → rlp t v = Some bs → zlen bs < 2 ^ 64 →
  EncodeToBytes t v = Ok bs ∧ DecodeBytes t bs = Ok v.
Proof.
  intros Hwt Hok Hbs Hlen. split.
  - pose proof (writer_writes t v Hwt) as H. rewrite Hbs in H. unfold EncodeToBytes.
    destruct (H reset) as (w & -> & He). simpl. by rewrite (emits_toBytes w bs (He Hlen)).
  - destruct (proj1 (decoder_inverts t (S (length bs))) v bs Hok Hbs Hlen ltac:(lia)
      (NewStream bs) []) as (s' & E & _ & Hr & _); [done|by rewrite app_nil_r|by split; simpl|].
    unfold DecodeBytes. rewrite E. simpl. by rewrite Hr.
Qed.



(** ** A slice of one-byte arrays *)

(** At a zero byte [decodeByteArray] yields an element and leaves the stream as
    it is: [s.Uint] refuses the byte without rearming [Kind] and its error is dropped. *)
Lemma decodeByteArray_zero s sz :
  kind s = Some KByte → kinderr s = None → ssize s = sz → byteval s = x00 →
  decodeByteArray 1 s = (Ok (VByteArray [x00]), s).
Proof.
  intros Hk He Hsz Hb.
  assert (getKind s = (Ok (KByte, sz), s)) as E.
  { unfold getKind. rewrite Hk. cbn [fst snd]. rewrite ?He, ?Hsz. done. }
  unfold decodeByteArray, bind. rewrite E. simpl.
  unfold getUint, bind, gets. rewrite E. cbn -[Z.eqb bz]. by rewrite Hb.
Qed.

Lemma decodeSliceElems_stuck {A} (ed : M A) s v fuel :
  ed s = (Ok v, s) → decodeSliceElems fuel ed s = (NoFuel, s).
Proof. intros E. induction fuel as [|fuel IH]; [done|]. simpl. unfold bind. by rewrite E, IH. Qed.

(** [DecodeBytes] of the two bytes C1 00 into a [][1]byte does not return:
    the loop of [decodeSliceElems] runs out of fuel whatever the fuel, because
    [decodeByteArray] never leaves the zero byte.  The bytes are the encoding of
    the value [][1]byte{{0}}, so the round trip fails for it. *)
Theorem decode_zero_byte_arrays_diverges :
  EncodeToBytes (TSlice (TByteArray 1)) (VSlice [VByteArray [x00]]) = Ok [xc1; x00] ∧
  ∀ fuel, fst (decoder fuel (TSlice (TByteArray 1)) (NewStream [xc1; x00])) = NoFuel.
Proof.
  split; [vm_compute; reflexivity|]. intros fuel. cbn [decoder]. unfold decodeListSlice, bind.
  destruct (wrap List_ (NewStream [xc1; x00])) as [x s] eqn:E. vm_compute in E. simplify_eq. cbn [Z.eqb].
  destruct fuel as [|fuel]; [done|]. cbn [decodeSliceElems].
  set (s := {| r := _ |}). destruct (decodeByteArray 1 s) as [y s1] eqn:E. vm_compute in E. simplify_eq.
  unfold bind. rewrite (decodeSliceElems_stuck _ _ (VByteArray [x00])); [done|].
  by eapply decodeByteArray_zero.
Qed.

(** A field tagged "nil" decodes the empty string and the empty list alike. *)
Example nil_field_two_encodings t :
  DecodeBytes (TPtrNil t) [x80] = Ok (VPtr None) ∧ DecodeBytes (TPtrNil t) [xc0] = Ok (VPtr None).
Proof. done. Qed.

End Roundtrip.
