(* ===== verification/RlpTotal.v ===== *)
(** Decoding always ends, and with a value of the type asked for.

    The weight of a stream, its unread bytes and the header read ahead, never
    grows, and every value read takes some of it, except a one-byte array that
    holds zero and a tail without elements.  For types in which neither is an
    element of a slice the fuel of [DecodeBytes] is therefore enough. *)

From S2P Require Import Prelude RlpEncode RlpRaw RlpDecode.
Import Rlp Raw Dec.

Module Total.
Local Open Scope stream_scope.

Definition weight (s : Stream) : nat :=
  length (r s) + match kind s with Some _ => 1 | None => 0 end.

Definition str_ok (s : Stream) : Prop := 0 ≤ ssize s ∧ kinderr s ≠ Some EOL.

(** From a stream that satisfies [P], of weight below [n], [m] does not crash, its
    value satisfies [Q], and the weight does not grow; it shrinks if [strict]. *)
Definition ends {A} (P : Stream → Prop) (strict : bool) (n : nat) (m : M A) (Q : A → Prop) : Prop :=
  ∀ s, str_ok s → P s → (weight s < n)%nat →
    let '(x, s') := m s in
    str_ok s' ∧
    match x with
    | Ok a => Q a ∧ (weight s' ≤ weight s)%nat ∧ (strict = true → (weight s' < weight s)%nat)
    | Err e => e = EOL → (weight s' ≤ weight s)%nat
    | _ => False
    end.

Definition anywhere (s : Stream) : Prop := True.
(** The header of the next value has been read. *)
Definition at_kind (k : Kind) (sz : Z) (s : Stream) : Prop :=
  kind s = Some k ∧ kinderr s = None ∧ ssize s = sz.

(** ** Rules *)

Lemma ends_ret {A} P n (a : A) (Q : A → Prop) : Q a → ends P false n (ret a) Q.
Proof. intros HQ s Hok _ _. simpl. by split_and!. Qed.

Lemma ends_fail {A} P b n e (Q : A → Prop) : ends P b n (fail e) Q.
Proof. intros s Hok _ _. by split. Qed.

Lemma ends_weaken {A} (P : Stream → Prop) b n (m : M A) (Q Q' : A → Prop) :
  ends anywhere b n m Q → (∀ a, Q a → Q' a) → ends P b n m Q'.
Proof.
  intros Hm HQ s Hok _ Hn. specialize (Hm s Hok I Hn). destruct (m s) as [[] s']; naive_solver.
Qed.

Lemma ends_lazy {A} P b n (m : M A) (Q : A → Prop) : ends P b n m Q → ends P false n m Q.
Proof.
  intros Hm s Hok HP Hn. specialize (Hm s Hok HP Hn). destruct (m s) as [[] s']; naive_solver.
Qed.

Lemma ends_strict {A} P b n (m : M A) (Q : A → Prop) : ends P true n m Q → ends P b n m Q.
Proof. destruct b; [done|apply ends_lazy]. Qed.

Lemma ends_bind {A B} P b1 b2 n (m : M A) (k : A → M B) Q1 (Q : B → Prop) :
  ends P b1 n m Q1 → (∀ a, Q1 a → ends anywhere b2 n (k a) Q) → ends P (b1 || b2) n (bind m k) Q.
Proof.
  intros Hm Hk s Hok HP Hn. unfold bind. specialize (Hm s Hok HP Hn).
  destruct (m s) as [[a|e| |] s1]; try naive_solver.
  destruct Hm as (Hok1 & HQ1 & Hle & Hlt). specialize (Hk a HQ1 s1 Hok1 I ltac:(lia)).
  destruct (k a s1) as [[] s2]; try naive_solver lia.
  destruct Hk as (Hok2 & HQ & Hle2 & Hlt2). split_and!; [done..|lia|].
  intros [Hb|Hb]%orb_true_iff; [specialize (Hlt Hb)|specialize (Hlt2 Hb)]; lia.
Qed.

Lemma ends_bind_l {A B} P n (m : M A) (k : A → M B) Q1 (Q : B → Prop) :
  ends P true n m Q1 → (∀ a, Q1 a → ends anywhere false n (k a) Q) → ends P true n (bind m k) Q.
Proof. apply (ends_bind P true false). Qed.

Lemma ends_bind_ret {A B} P b n (m : M A) (f : A → B) Q1 (Q : B → Prop) :
  ends P b n m Q1 → (∀ a, Q1 a → Q (f a)) → ends P b n (a <- m ;; ret (f a)) Q.
Proof.
  intros Hm HQ. rewrite <- (orb_false_r b). eapply ends_bind; [exact Hm|]. intros a Ha. by apply ends_ret, HQ.
Qed.

Lemma ends_on_err {A} P b n (m : M A) f (Q : A → Prop) :
  (∀ e, f e = EOL → e = EOL) → ends P b n m Q → ends P b n (on_err m f) Q.
Proof.
  intros Hf Hm s Hok HP Hn. specialize (Hm s Hok HP Hn). unfold on_err. destruct (m s) as [[] s']; naive_solver.
Qed.

Lemma ends_wrap {A} P b n (m : M A) (Q : A → Prop) : ends P b n m Q → ends P b n (wrap m) Q.
Proof. apply ends_on_err. by intros []. Qed.

(** ** Reading *)

Lemma willRead_spec n s x s' :
  willRead n s = (x, s') →
  r s' = r s ∧ kind s' = None ∧ ssize s' = ssize s ∧ kinderr s' = kinderr s ∧
  (x = Ok tt ∨ x = Err ErrElemTooLarge ∨ x = Err ErrValueTooLarge).
Proof.
  unfold willRead. intros H.
  repeat (case_match; simpl in *; simplify_eq); simpl; naive_solver.
Qed.

Lemma readByte_spec s x s' :
  readByte s = (x, s') →
  kind s' = None ∧ ssize s' = ssize s ∧ kinderr s' = kinderr s ∧
  match x with
  | Ok b => r s = b :: r s'
  | Err e => e ≠ EOL ∧ r s' = r s
  | _ => False
  end.
Proof.
  unfold readByte, bind. destruct (willRead 1 s) as [y s1] eqn:E. apply willRead_spec in E as (Hr & Hk & Hs & He & E).
  destruct E as [-> |[-> | ->]]; intros H; [destruct (r s1) eqn:E|..]; simplify_eq; simpl; by rewrite ?Hk, ?Hs, ?He, <- ?Hr.
Qed.

Lemma readFull_spec n s x s' :
  readFull n s = (x, s') →
  kind s' = None ∧ ssize s' = ssize s ∧ kinderr s' = kinderr s ∧ (length (r s') ≤ length (r s))%nat ∧
  match x with
  | Ok b => length b = Z.to_nat n
  | Err e => e ≠ EOL
  | _ => False
  end.
Proof.
  unfold readFull, bind. destruct (willRead n s) as [y s1] eqn:E. apply willRead_spec in E as (Hr & Hk & Hs & He & E).
  destruct E as [-> |[-> | ->]]; intros H; [case_match eqn:Hl|..]; simplify_eq; simpl; rewrite ?Hk, ?Hs, ?He, <- ?Hr;
    split_and!; try done; try lia.
  - rewrite length_drop. lia.
  - apply Nat.ltb_ge in Hl. rewrite length_take. lia.
Qed.

Lemma readUint_spec n s x s' :
  0 ≤ n → readUint n s = (x, s') →
  kind s' = None ∧ ssize s' = ssize s ∧ kinderr s' = kinderr s ∧ (length (r s') ≤ length (r s))%nat ∧
  match x with
  | Ok v => 0 ≤ v < 256 ^ n
  | Err e => e ≠ EOL
  | _ => False
  end.
Proof.
  intros Hn. unfold readUint. destruct (Z.eqb_spec n 0) as [-> |]; [intros H; injection H as <- <-; simpl; split_and!; (done || lia)|].
  destruct (Z.eqb_spec n 1) as [-> |]; unfold bind.
  - destruct (readByte s) as [y s1] eqn:E. apply readByte_spec in E as (Hk & Hs & He & E). intros H.
    destruct y as [b|e| |]; [..|done|done]; injection H as <- <-.
    + rewrite E. pose proof (bz_range b). simpl. split_and!; (done || lia).
    + destruct E as [? ->]. by split_and!.
  - destruct (readFull n s) as [y s1] eqn:E. apply readFull_spec in E as (Hk & Hs & He & Hl & E). intros H.
    destruct y as [b|e| |]; [|simplify_eq; naive_solver..]. destruct b as [|b0 b']; [simpl in E; lia|].
    case_match; unfold fail, ret in H; injection H as <- <-; split_and!; try done; pose proof (be_val_range (b0 :: b')) as HR; [lia|].
    replace (zlen (b0 :: b')) with n in HR by lia. lia.
Qed.

Lemma ends_readFull k sz n m :
  0 ≤ sz → ends (at_kind k sz) true n (readFull m) (fun b => length b = Z.to_nat m).
Proof.
  intros Hsz s [Hs He] (Hk & _ & _) _. destruct (readFull m s) as [x s'] eqn:E.
  apply readFull_spec in E as (Hk' & Hs' & He' & Hl & E). split; [split; congruence|].
  unfold weight. rewrite Hk, Hk'. destruct x; try naive_solver lia.
Qed.

Lemma ends_readUint k sz n m :
  0 ≤ m → ends (at_kind k sz) true n (readUint m) (fun v => 0 ≤ v < 256 ^ m).
Proof.
  intros Hm s [Hs He] (Hk & _ & _) _. destruct (readUint m s) as [x s'] eqn:E.
  apply readUint_spec in E as (Hk' & Hs' & He' & Hl & E); [|done]. split; [split; congruence|].
  unfold weight. rewrite Hk, Hk'. destruct x; try naive_solver lia.
Qed.

Lemma weight_rearm s k : kind s = Some k → (weight (set_kind None s) < weight s)%nat.
Proof. intros Hk. unfold weight. rewrite Hk. simpl. lia. Qed.

Lemma ends_rearm {A} k sz n (m : M A) Q :
  ends anywhere false n m Q → ends (at_kind k sz) true n (modify (set_kind None) ;;; m) Q.
Proof.
  intros Hm s Hok (Hk & _ & _) Hn. unfold bind, modify.
  pose proof (weight_rearm s k Hk).
  specialize (Hm (set_kind None s) Hok I ltac:(lia)).
  destruct (m _) as [[] s']; naive_solver lia.
Qed.

Lemma ends_byteval k sz n (Q : bytes → Prop) :
  (∀ b, Q b) → ends (at_kind k sz) true n (modify (set_kind None) ;;; b <- gets byteval ;; ret [b]) Q.
Proof. intros HQ. apply ends_rearm. intros s Hok _ _. by split_and!. Qed.

(** ** The kind of the next value *)

Lemma readKindS_spec s k sz err s' :
  readKindS s = ((k, sz, err), s') →
  0 ≤ sz ∧ kinderr s' = kinderr s ∧ err ≠ Some EOL ∧
  (err = None → (length (r s') < length (r s))%nat).
Proof.
  unfold readKindS. destruct (readByte s) as [x s1] eqn:E.
  apply readByte_spec in E as (Hk & Hs & He & E). destruct x as [b|e| |]; [|..|done|done].
  - pose proof (bz_range b). assert (∀ kk m, 0 ≤ m → (let '(y, s2) := readUint m (set_byteval x00 s1) in
      match y with
      | Ok sz => ((kk, sz, if sz <? 56 then Some ErrCanonSize else None), s2)
      | Err e => ((kk, 0, Some e), s2)
      | _ => ((kk, 0, Some ErrCanonSize), s2)
      end) = (k, sz, err, s') → 0 ≤ sz ∧ kinderr s' = kinderr s ∧ err ≠ Some EOL ∧ (err = None → (length (r s') < length (r s))%nat)) as Hlong.
    { intros kk m Hm. destruct (readUint m _) as [y s2] eqn:E2. apply readUint_spec in E2 as (_ & _ & He2 & Hl & E2); [|done].
      simpl in *. intros H'. destruct y; simplify_eq; try done; (split_and!; [lia|congruence|..]); try done.
      - by case_match.
      - rewrite E. simpl. lia.
      - naive_solver. }
    assert (∀ kk z s2, 0 ≤ z → kinderr s2 = kinderr s1 → r s2 = r s1 → (kk, z, None, s2) = (k, sz, err, s') →
      0 ≤ sz ∧ kinderr s' = kinderr s ∧ err ≠ Some EOL ∧ (err = None → (length (r s') < length (r s))%nat)) as Hshort.
    { intros kk z s2 Hz Hk2 Hr2 H'. injection H' as <- <- <- <-. rewrite E, Hr2, Hk2. simpl. split_and!; try done; lia. }
    destruct (Z.ltb_spec (bz b) 128); [by apply Hshort|].
    destruct (Z.ltb_spec (bz b) 184); [apply Hshort; (done || lia)|].
    destruct (Z.ltb_spec (bz b) 192); [apply Hlong; lia|].
    destruct (Z.ltb_spec (bz b) 248); [apply Hshort; (done || lia)|apply Hlong; lia].
  - destruct E as [E Hr]. intros H. simplify_eq. split_and!; try done. case_match; [case_decide|]; naive_solver.
Qed.

Lemma getKind_spec s x s' :
  getKind s = (x, s') → str_ok s →
  str_ok s' ∧
  match x with
  | Ok (k, sz) => at_kind k sz s' ∧ 0 ≤ sz ∧ (weight s' ≤ weight s)%nat
  | Err e => e = EOL → (weight s' ≤ weight s)%nat
  | _ => False
  end.
Proof.
  unfold getKind. intros H [Hs He]. destruct (kind s) as [k|] eqn:Hk.
  { destruct (kinderr s) as [e|] eqn:Ee; simplify_eq; repeat split; try done; naive_solver. }
  destruct (match stack (set_kinderr None s) with (pos, sz) :: _ => pos =? sz | [] => false end) eqn:El.
  { simplify_eq. split; [done|]. intros _. unfold weight. simpl. lia. }
  destruct (readKindS (set_kinderr None s)) as [[[k sz] err] s1] eqn:E.
  apply readKindS_spec in E as (Hsz & Hke & Herr & Hl). simpl in Hl, H.
  set (err' := match err with Some e => Some e | None => _ end) in H.
  assert (err' ≠ Some EOL) as Herr' by (subst err'; repeat case_match; naive_solver).
  assert (err' = None → err = None) as Hnone by (subst err'; by destruct err).
  destruct err' as [e|]; simplify_eq; repeat split; simpl; try done; try naive_solver.
  unfold weight. simpl. rewrite Hk. specialize (Hl (Hnone eq_refl)). lia.
Qed.

Lemma ends_getKind {A} b n (f : Kind * Z → M A) (Q : A → Prop) :
  (∀ k sz, 0 ≤ sz → ends (at_kind k sz) b n (f (k, sz)) Q) → ends anywhere b n (bind getKind f) Q.
Proof.
  intros Hf s Hok _ Hn. unfold bind. destruct (getKind s) as [x s1] eqn:E. apply getKind_spec in E as [Hok1 E]; [|done].
  destruct x as [[k sz]|e| |]; [|naive_solver..]. destruct E as (Hat & Hsz & Hle).
  specialize (Hf k sz Hsz s1 Hok1 Hat ltac:(lia)). destruct (f (k, sz) s1) as [[] s2]; naive_solver lia.
Qed.

(** ** Values *)

Lemma ends_getBytes n : ends anywhere true n getBytes (fun _ => True).
Proof.
  apply ends_getKind. intros [] sz Hsz.
  - by apply ends_byteval.
  - eapply ends_bind_l; [by apply ends_readFull|]. intros b _.
    repeat case_match; (apply ends_fail || by apply ends_ret).
  - apply ends_fail.
Qed.

Lemma ends_getRaw n : ends anywhere true n getRaw (fun _ => True).
Proof.
  apply ends_getKind. intros [] sz Hsz; [by apply ends_byteval|..];
    (eapply ends_bind_l; [by apply ends_readFull|]; intros b _; by apply ends_ret).
Qed.

Lemma ends_getUint n bits :
  8 ≤ bits → ends anywhere true n (getUint bits) (fun v => 0 ≤ v < 2 ^ bits).
Proof.
  intros Hbits. assert (2 ^ 8 ≤ 2 ^ bits) by (apply Z.pow_le_mono_r; lia). apply ends_getKind. intros [] sz Hsz.
  - intros s Hok Hat Hn. unfold bind, gets. pose proof (bz_range (byteval s)).
    destruct (bz (byteval s) =? 0); [by split|].
    assert (ends (at_kind KByte sz) true n (modify (set_kind None) ;;; ret (bz (byteval s))) (fun v => 0 ≤ v < 2 ^ bits)) as H'.
    { apply ends_rearm, ends_ret. lia. }
    exact (H' s Hok Hat Hn).
  - destruct (Z.ltb_spec (bits / 8) sz); [apply ends_fail|]. eapply ends_bind_l.
    { apply ends_on_err; [|by apply ends_readUint]. intros e. case_decide; done. }
    intros v Hv. assert (256 ^ sz ≤ 2 ^ bits).
    { rewrite pow256_pow2 by done. apply Z.pow_le_mono_r; [lia|]. pose proof (Z.mul_div_le bits 8). lia. }
    case_match; [apply ends_fail|apply ends_ret; cbn beta in *; lia].
  - apply ends_fail.
Qed.

Lemma ends_getBool n : ends anywhere true n getBool (fun _ => True).
Proof.
  eapply ends_bind_l; [by apply ends_getUint|]. intros v _.
  repeat case_match; (apply ends_fail || by apply ends_ret).
Qed.

Lemma ends_List n : ends anywhere true n List_ (fun _ => True).
Proof.
  apply ends_getKind. intros [] sz Hsz; try apply ends_fail.
  intros s [Hs He] (Hk & _) Hn. simpl. unfold str_ok, weight. simpl. rewrite Hk. split_and!; (done || lia).
Qed.

Lemma ends_ListEnd n : ends anywhere false n ListEnd (fun _ => True).
Proof.
  intros s [Hs He] _ Hn. unfold ListEnd. destruct (stack s) as [|[pos sz] st]; [done|].
  destruct (negb (pos =? sz)); [done|]. unfold str_ok, weight. simpl. split_and!; try done. destruct (kind s); lia.
Qed.

Lemma ends_decodeByteArray n k :
  ends anywhere (negb (k =? 1)%nat) n (decodeByteArray k) (fun v => ∃ b, v = VByteArray b ∧ length b = k).
Proof.
  apply ends_getKind. intros [] sz Hsz.
  - destruct (Nat.eqb_spec k 0); [apply ends_fail|]. destruct (Nat.ltb_spec 1 k); [apply ends_fail|].
    replace k with 1%nat by lia. simpl. intros s Hok Hat Hn.
    assert (getKind s = (Ok (KByte, sz), s)) as E.
    { unfold getKind. destruct Hat as (-> & -> & ->). done. }
    pose proof (ends_getUint n 64 ltac:(lia) s Hok I Hn) as Hu. destruct (getUint 64 s) as [x s1] eqn:Eu.
    destruct Hu as [Hok1 Hu]. destruct x as [v|e| |]; [|..|done|done]; split_and!; try done; try naive_solver.
    unfold getUint, bind, gets in Eu. rewrite E in Eu. destruct (bz _ =? 0); by inversion Eu.
  - destruct (Z.ltb_spec (Z.of_nat k) sz); [apply ends_fail|]. destruct (Z.ltb_spec sz (Z.of_nat k)); [apply ends_fail|].
    apply ends_strict. eapply ends_bind_l; [by apply ends_readFull|]. intros b Hb.
    repeat case_match; first [apply ends_fail | apply ends_ret; eexists; split; [done|]; lia].
  - apply ends_fail.
Qed.

(** ** Loops *)

Lemma ends_SliceElems {A} fuel n (ed : M A) (Q : A → Prop) :
  ends anywhere true n ed Q → ∀ s, str_ok s → (weight s < n)%nat → (weight s < fuel)%nat →
    let '(x, s') := decodeSliceElems fuel ed s in
    str_ok s' ∧
    match x with
    | Ok l => Forall Q l ∧ (weight s' ≤ weight s)%nat
    | Err e => e ≠ EOL
    | _ => False
    end.
Proof.
  intros Hed. induction fuel as [|fuel IH]; intros s Hok Hn Hf; [lia|]. cbn [decodeSliceElems].
  specialize (Hed s Hok I Hn). destruct (ed s) as [[v|e| |] s1]; [| |naive_solver..].
  - destruct Hed as (Hok1 & HQ & Hle & Hlt). specialize (Hlt eq_refl).
    specialize (IH s1 Hok1 ltac:(lia) ltac:(lia)). unfold bind.
    destruct (decodeSliceElems fuel ed s1) as [[] s2]; simpl; try naive_solver.
    destruct IH as (? & ? & ?). split_and!; [done|by constructor|lia].
  - case_decide; simpl; [|naive_solver]. destruct Hed as [? Hle]. split_and!; [done..|by apply Hle].
Qed.

Lemma ends_slice {A} P fuel n (ed : M A) (Q : A → Prop) :
  (n ≤ fuel)%nat → ends anywhere true n ed Q → ends P false n (decodeSliceElems fuel ed) (Forall Q).
Proof.
  intros Hf Hed s Hok _ Hn. pose proof (ends_SliceElems fuel n ed Q Hed s Hok Hn ltac:(lia)) as H.
  destruct (decodeSliceElems fuel ed s) as [[] s']; naive_solver.
Qed.

Lemma ends_ListSlice {A} fuel n (ed : M A) (Q : A → Prop) :
  (n ≤ fuel)%nat → ends anywhere true n ed Q → ends anywhere true n (decodeListSlice fuel ed) (Forall Q).
Proof.
  intros Hf Hed. eapply ends_bind_l; [apply ends_wrap, ends_List|]. intros sz _. case_match.
  - apply (ends_bind anywhere false false _ _ _ (fun _ => True)); [apply ends_ListEnd|]. intros _ _. by apply ends_ret.
  - eapply (ends_bind anywhere false false); [by apply ends_slice|]. intros vs Hvs.
    apply (ends_bind anywhere false false _ _ _ (fun _ => True)); [apply ends_ListEnd|]. intros _ _. by apply ends_ret.
Qed.

Lemma ends_ArrayElems {A} k n b (ed : M A) (Q : A → Prop) :
  ends anywhere b n ed Q →
  ends anywhere false n (decodeArrayElems k ed) (fun l => length l = k ∧ Forall Q l).
Proof.
  intros Hed. induction k as [|k IH]; [by apply ends_ret|]. intros s Hok _ Hn. cbn [decodeArrayElems].
  specialize (Hed s Hok I Hn). destruct (ed s) as [[v|e| |] s1]; [| |naive_solver..].
  - destruct Hed as (Hok1 & HQ & Hle & _). specialize (IH s1 Hok1 I ltac:(lia)). unfold bind.
    destruct (decodeArrayElems k ed s1) as [[] s2]; simpl; try naive_solver lia.
    destruct IH as (? & (? & ?) & ? & _). split_and!; [done|simpl; lia|by constructor|lia|done].
  - split; [apply Hed|]. case_decide; naive_solver.
Qed.

Lemma ends_ListArray {A} k n b (ed : M A) (Q : A → Prop) :
  ends anywhere b n ed Q →
  ends anywhere true n (decodeListArray k ed) (fun l => length l = k ∧ Forall Q l).
Proof.
  intros Hed. eapply ends_bind_l; [apply ends_wrap, ends_List|]. intros _ _.
  eapply (ends_bind anywhere false false); [by eapply ends_ArrayElems|]. intros vs Hvs.
  eapply (ends_bind anywhere false false); [apply ends_wrap, ends_ListEnd|]. intros _ _. by apply ends_ret.
Qed.

(** Inside a list the weight is below that of the list's header. *)
Lemma ends_List_inside {A} n (f : Z → M A) (Q : A → Prop) :
  (∀ sz, ends anywhere false n (f sz) Q) → ends anywhere true (S n) (bind (wrap List_) f) Q.
Proof.
  intros Hf s Hok _ Hn. unfold bind. pose proof (ends_wrap _ _ _ _ _ (ends_List (S n)) s Hok I Hn) as H.
  destruct (wrap List_ s) as [[sz|e| |] s1]; try naive_solver. destruct H as (Hok1 & _ & Hle & Hlt).
  specialize (Hlt eq_refl). specialize (Hf sz s1 Hok1 I ltac:(lia)). destruct (f sz s1) as [[] s2]; naive_solver lia.
Qed.

Lemma ends_decodeInterface n : ends anywhere true n (decodeInterface n) (fun _ => True).
Proof.
  induction n as [|n IH]; [intros s ? ? ?; lia|]. cbn [decodeInterface]. apply ends_getKind. intros [] sz Hsz.
  - eapply ends_bind_ret; [eapply ends_weaken; [apply ends_getBytes|done]|done].
  - eapply ends_bind_ret; [eapply ends_weaken; [apply ends_getBytes|done]|done].
  - eapply (ends_bind_ret _ _ _ _ _ (Forall (fun _ => True))); [|done].
    eapply ends_weaken; [|done]. unfold decodeListSlice. apply ends_List_inside. intros z. case_match.
    + apply (ends_bind anywhere false false _ _ _ (fun _ => True)); [apply ends_ListEnd|]. intros _ _. by apply ends_ret.
    + eapply (ends_bind anywhere false false); [apply ends_slice; [lia|exact IH]|]. intros vs Hvs.
      apply (ends_bind anywhere false false _ _ _ (fun _ => True)); [apply ends_ListEnd|]. intros _ _. by apply ends_ret.
Qed.

(** ** Decoders *)

(** The types whose values always take some input. *)
Fixpoint takes_input (t : typ) : bool :=
  match t with
  | TByteArray n => negb (n =? 1)%nat
  | TTail _ => false
  | TPtr t | TPtrNil t => takes_input t
  | _ => true
  end.

(** The types Go has, with elements of slices that take input. *)
Fixpoint finite_typ (t : typ) : bool :=
  match t with
  | TUint bits => (bits =? 8) || (bits =? 16) || (bits =? 32) || (bits =? 64)
  | TSlice t | TTail t => takes_input t && finite_typ t
  | TArray _ t | TPtr t | TPtrNil t => finite_typ t
  | TStruct fs => forallb finite_typ fs
  | _ => true
  end.

(** The values a decoder returns at a type. *)
Fixpoint decoded (t : typ) (v : val) {struct t} : Prop :=
  match t, v with
  | TRaw, VRaw _ | TBool, VBool _ | TString, VString _ | TBytes, VBytes _ | TIface, VIface (Some _) => True
  | TBigInt, VBig (Some i) => 0 ≤ i
  | TUint bits, VUint i => 0 ≤ i < 2 ^ bits
  | TByteArray n, VByteArray b => length b = n
  | TSlice t, VSlice vs | TTail t, VSlice vs => Forall (decoded t) vs
  | TArray n t, VArray vs => length vs = n ∧ Forall (decoded t) vs
  | TStruct fs, VStruct vs =>
      (fix go (fs : list typ) (vs : list val) : Prop :=
         match fs, vs with
         | [], [] => True
         | f :: fs, v :: vs => decoded f v ∧ go fs vs
         | _, _ => False
         end) fs vs
  | TPtr t, VPtr (Some v) => decoded t v
  | TPtrNil t, VPtr o => match o with None => True | Some v => decoded t v end
  | _, _ => False
  end.

Lemma ends_PtrNil fuel t b :
  ends anywhere b fuel (decoder fuel t) (decoded t) →
  ends anywhere b fuel (decoder fuel (TPtrNil t)) (decoded (TPtrNil t)).
Proof.
  intros Ht s Hok _ Hn. cbn [decoder]. destruct (getKind s) as [x s1] eqn:E.
  apply getKind_spec in E as [Hok1 E]; [|done]. destruct x as [[k sz]|e| |]; [|..|done|done].
  - destruct E as ((Hk & _) & _ & Hle). destruct ((sz =? 0) && _).
    + pose proof (weight_rearm s1 k Hk). split_and!; [done..|lia|intros _; lia].
    + unfold bind, ret. specialize (Ht s1 Hok1 I ltac:(lia)).
      destruct (decoder fuel t s1) as [[] s2]; naive_solver lia.
  - split; [done|]. intros ->. specialize (E eq_refl). unfold weight in *. simpl. lia.
Qed.

Lemma decoder_ends t fuel :
  finite_typ t = true → ends anywhere (takes_input t) fuel (decoder fuel t) (decoded t).
Proof.
  induction t as [| |bits| | | |k|t IH|t IH|k t IH|fs IH|t IH|t IH|] using typ_nested_ind; intros Hfin; simpl in Hfin.
  - eapply ends_bind_ret; [apply ends_getRaw|done].
  - eapply ends_bind_l; [apply ends_wrap, ends_getBytes|]. intros b _. repeat case_match; [|apply ends_fail|].
    + by apply ends_ret.
    + apply ends_ret. simpl. apply be_val_range.
  - eapply ends_bind_ret; [apply ends_wrap, ends_getUint|]; [|done]. rewrite !orb_true_iff, !Z.eqb_eq in Hfin. lia.
  - eapply ends_bind_ret; [apply ends_wrap, ends_getBool|done].
  - eapply ends_bind_ret; [apply ends_wrap, ends_getBytes|done].
  - eapply ends_bind_ret; [apply ends_wrap, ends_getBytes|done].
  - eapply ends_weaken; [apply ends_decodeByteArray|]. by intros v (b & -> & Hb).
  - apply andb_true_iff in Hfin as [Ht Hfin]. rewrite Ht in IH. eapply ends_bind_ret; [by apply ends_ListSlice, IH|done].
  - apply andb_true_iff in Hfin as [Ht Hfin]. rewrite Ht in IH. eapply ends_bind_ret; [by apply ends_slice, IH|done].
  - eapply ends_bind_ret; [by eapply ends_ListArray, IH|done].
  - cbn [decoder takes_input]. eapply ends_bind_l; [apply ends_wrap, ends_List|]. intros _ _.
    eapply (ends_bind anywhere false false _ _ _ (fun vs => decoded (TStruct fs) (VStruct vs))).
    + clear -IH Hfin. induction fs as [|f fs IHfs]; [by apply ends_ret|]. apply Forall_cons in IH as [IHf IH].
      simpl in Hfin. apply andb_true_iff in Hfin as [Hf Hfin].
      eapply (ends_bind anywhere false false _ _ _ (decoded f)).
      { apply ends_on_err; [|by eapply ends_lazy, IHf]. intros e. unfold eol_too_few. by case_decide. }
      intros v Hv. eapply ends_bind_ret; [by apply IHfs|]. by intros vs Hvs.
    + intros vs Hvs. eapply ends_bind_ret; [apply ends_wrap, ends_ListEnd|done].
  - eapply ends_bind_ret; [by apply IH|done].
  - by apply ends_PtrNil, IH.
  - eapply ends_bind_ret; [apply ends_decodeInterface|done].
Qed.

Lemma DecodeBytes_ends t b :
  finite_typ t = true →
  (∃ v, DecodeBytes t b = Ok v ∧ decoded t v) ∨ (∃ e, DecodeBytes t b = Err e).
Proof.
  intros Ht. unfold DecodeBytes.
  pose proof (decoder_ends t (S (length b)) Ht (NewStream b)) as H.
  destruct (decoder (S (length b)) t (NewStream b)) as [x s].
  assert (str_ok (NewStream b)) as Hok by done.
  specialize (H Hok I ltac:(unfold weight; simpl; lia)). destruct H as [_ H].
  destruct x as [v|e| |]; simpl; [|by eauto|done|done]. case_match; eauto. left. exists v. naive_solver.
Qed.

(** C7: [DecodeBytes] ends on every input: it returns an error or a value of the
    type asked for (integers in range, arrays of their length, pointers set),
    and neither panics nor runs out of the fuel [length + 1], for every type in
    which no slice has an element type that may take no input. *)
Theorem DecodeBytes_total t b :
  finite_typ t = true →
  (∃ v, DecodeBytes t b = Ok v ∧ decoded t v) ∨ (∃ e, DecodeBytes t b = Err e).
Proof. apply DecodeBytes_ends. Qed.

Lemma DecodeBytes_total_witness :
  finite_typ (TStruct [TUint 64; TSlice (TPtr TBigInt); TTail (TByteArray 32)]) = true ∧
  ((∃ v, DecodeBytes (TStruct [TUint 64; TSlice (TPtr TBigInt); TTail (TByteArray 32)]) [xc3; x05; xc1; x07] = Ok v ∧
      decoded (TStruct [TUint 64; TSlice (TPtr TBigInt); TTail (TByteArray 32)]) v) ∨
   (∃ e, DecodeBytes (TStruct [TUint 64; TSlice (TPtr TBigInt); TTail (TByteArray 32)]) [xc3; x05; xc1; x07] = Err e)).
Proof. split; [reflexivity|]. apply DecodeBytes_total. reflexivity. Defined.

(** ** Encoding a value of the type never panics *)

(** The shape of the values of a type, without their ranges. *)
Fixpoint shaped (t : typ) (v : val) {struct t} : bool :=
  match t, v with
  | TRaw, VRaw _ | TBigInt, VBig _ | TUint _, VUint _ | TBool, VBool _ | TString, VString _
  | TBytes, VBytes _ | TByteArray _, VByteArray _ | TIface, VIface _ => true
  | TSlice t, VSlice vs | TTail t, VSlice vs | TArray _ t, VArray vs => forallb (shaped t) vs
  | TStruct fs, VStruct vs =>
      (fix go (fs : list typ) (vs : list val) : bool :=
         match fs, vs with
         | [], [] => true
         | f :: fs, v :: vs => shaped f v && go fs vs
         | _, _ => false
         end) fs vs
  | TPtr t, VPtr (Some v) | TPtrNil t, VPtr (Some v) => shaped t v
  | TPtrNil t, VPtr None => match t with TByteArray _ => true | _ => false end
  | _, _ => false
  end.

Definition no_crash {E A} (r : result E A) : Prop := ¬ is_crash r.

Lemma no_crash_Ok {E A} (a : A) : no_crash (E:=E) (Ok a).
Proof. by intros [|]. Qed.

Lemma no_crash_bind {E A B} (r : result E A) (k : A → result E B) :
  no_crash r → (∀ a, no_crash (k a)) → no_crash (rbind r k).
Proof. intros Hr Hk. apply rbind_no_crash; [done|]. intros a _. apply Hk. Qed.

Lemma no_crash_elems {A} (wr : A → encbuf → result encErr encbuf) vs :
  Forall (fun v => ∀ w, no_crash (wr v w)) vs → ∀ w, no_crash (write_elems wr vs w).
Proof.
  induction 1 as [|v vs Hv _ IH]; intros w; [apply no_crash_Ok|]. simpl. by apply no_crash_bind.
Qed.

Lemma no_crash_list f w : (∀ w, no_crash (f w)) → no_crash (in_list f w).
Proof. intros Hf. unfold in_list. simpl. apply no_crash_bind; [done|]. intros w'. apply no_crash_Ok. Qed.

Lemma no_crash_item i w : no_crash (write_item i w).
Proof.
  revert w. induction i as [b|l IH] using item_nested_ind; intros w; [apply no_crash_Ok|]. simpl. apply no_crash_list.
  induction IH as [|i l Hi _ IH]; intros w'; [apply no_crash_Ok|]. by apply no_crash_bind.
Qed.

Lemma writer_no_crash t v w : shaped t v = true → no_crash (writer t v w).
Proof.
  revert v w. induction t as [| |bits| | | |k|t IH|t IH|k t IH|fs IH|t IH|t IH|] using typ_nested_ind;
    intros [b|o|i|b|b|b|b|l|l|l|o|o] w Hs; try discriminate; simpl in Hs; try apply no_crash_Ok.
  - simpl. destruct o as [i|]; [|apply no_crash_Ok]. simpl. unfold writeBigInt.
    repeat case_match; try apply no_crash_Ok. by intros [|].
  - apply no_crash_list, no_crash_elems, Forall_forall. intros v Hv w'. apply IH.
    rewrite forallb_forall in Hs. by apply Hs, list_elem_of_In.
  - apply no_crash_elems, Forall_forall. intros v Hv w'. apply IH.
    rewrite forallb_forall in Hs. by apply Hs, list_elem_of_In.
  - apply no_crash_list, no_crash_elems, Forall_forall. intros v Hv w'. apply IH.
    rewrite forallb_forall in Hs. by apply Hs, list_elem_of_In.
  - simpl. apply no_crash_list. revert l Hs. induction IH as [|f fs Hf _ IHfs]; intros [|v l] Hs w'; try done; [apply no_crash_Ok|].
    apply andb_true_iff in Hs as [Hv Hs]. apply no_crash_bind; [by apply Hf|]. intros w2. by apply IHfs.
  - destruct o as [v|]; [|done]. by apply IH.
  - destruct o as [v|]; [by apply IH|]. destruct t; try discriminate. apply no_crash_Ok.
  - destruct o; [apply no_crash_item|apply no_crash_Ok].
Qed.

Lemma EncodeToBytes_no_crash t v : shaped t v = true → no_crash (EncodeToBytes t v).
Proof. intros Hs. apply no_crash_bind; [by apply writer_no_crash|]. intros w. apply no_crash_Ok. Qed.

End Total.
