(* ===== verification/KeccakF.v ===== *)
(** The Keccak permutation (src/crypto/sha3/keccakf.go): the four-round unrolled,
    in-place [keccakF1600] of the source, a reference definition of
    Keccak-f[1600] by its five step mappings, and their equivalence. *)

From S2P Require Import Prelude.

Module KeccakF.

Declare Scope lane_scope.
Infix "⊕" := Z.lxor (at level 50, left associativity) : lane_scope.
Open Scope lane_scope.

(** [t<<k | t>>(64-k)] on a uint64. *)
Definition rol (t k : Z) : Z := Z.lor (u64 (Z.shiftl t k)) (Z.shiftr t (64 - k)).

Definition rc : list Z :=
  [0x0000000000000001; 0x0000000000008082; 0x800000000000808A; 0x8000000080008000;
   0x000000000000808B; 0x0000000080000001; 0x8000000080008081; 0x8000000000008009;
   0x000000000000008A; 0x0000000000000088; 0x0000000080008009; 0x000000008000000A;
   0x000000008000808B; 0x800000000000008B; 0x8000000000008089; 0x8000000000008003;
   0x8000000000008002; 0x8000000000000080; 0x000000000000800A; 0x800000008000000A;
   0x8000000080008081; 0x8000000000008080; 0x0000000080000001; 0x8000000080008008].

(** ** The source: four rounds per iteration, each in place

    An assignment to [a[i]] is a rebinding of [ai]; [x &^ y] is [Z.ldiff x y]. *)

Definition keccak_round1 (c : Z) (a : list Z) : list Z :=
  match a with
  | [a0; a1; a2; a3; a4; a5; a6; a7; a8; a9; a10; a11; a12; a13; a14; a15; a16; a17; a18; a19;
    a20; a21; a22; a23; a24] =>
      let bc0 := a0 ⊕ a5 ⊕ a10 ⊕ a15 ⊕ a20 in let bc1 := a1 ⊕ a6 ⊕ a11 ⊕ a16 ⊕ a21 in
      let bc2 := a2 ⊕ a7 ⊕ a12 ⊕ a17 ⊕ a22 in let bc3 := a3 ⊕ a8 ⊕ a13 ⊕ a18 ⊕ a23 in
      let bc4 := a4 ⊕ a9 ⊕ a14 ⊕ a19 ⊕ a24 in let d0 := bc4 ⊕ rol bc1 1 in
      let d1 := bc0 ⊕ rol bc2 1 in let d2 := bc1 ⊕ rol bc3 1 in let d3 := bc2 ⊕ rol bc4 1 in
      let d4 := bc3 ⊕ rol bc0 1 in let bc0 := a0 ⊕ d0 in let t := a6 ⊕ d1 in
      let bc1 := rol t 44 in let t := a12 ⊕ d2 in let bc2 := rol t 43 in let t := a18 ⊕ d3 in
      let bc3 := rol t 21 in let t := a24 ⊕ d4 in let bc4 := rol t 14 in
      let a0 := bc0 ⊕ Z.ldiff bc2 bc1 ⊕ c in let a6 := bc1 ⊕ Z.ldiff bc3 bc2 in
      let a12 := bc2 ⊕ Z.ldiff bc4 bc3 in let a18 := bc3 ⊕ Z.ldiff bc0 bc4 in
      let a24 := bc4 ⊕ Z.ldiff bc1 bc0 in let t := a10 ⊕ d0 in let bc2 := rol t 3 in
      let t := a16 ⊕ d1 in let bc3 := rol t 45 in let t := a22 ⊕ d2 in let bc4 := rol t 61 in
      let t := a3 ⊕ d3 in let bc0 := rol t 28 in let t := a9 ⊕ d4 in let bc1 := rol t 20 in
      let a10 := bc0 ⊕ Z.ldiff bc2 bc1 in let a16 := bc1 ⊕ Z.ldiff bc3 bc2 in
      let a22 := bc2 ⊕ Z.ldiff bc4 bc3 in let a3 := bc3 ⊕ Z.ldiff bc0 bc4 in
      let a9 := bc4 ⊕ Z.ldiff bc1 bc0 in let t := a20 ⊕ d0 in let bc4 := rol t 18 in
      let t := a1 ⊕ d1 in let bc0 := rol t 1 in let t := a7 ⊕ d2 in let bc1 := rol t 6 in
      let t := a13 ⊕ d3 in let bc2 := rol t 25 in let t := a19 ⊕ d4 in let bc3 := rol t 8 in
      let a20 := bc0 ⊕ Z.ldiff bc2 bc1 in let a1 := bc1 ⊕ Z.ldiff bc3 bc2 in
      let a7 := bc2 ⊕ Z.ldiff bc4 bc3 in let a13 := bc3 ⊕ Z.ldiff bc0 bc4 in
      let a19 := bc4 ⊕ Z.ldiff bc1 bc0 in let t := a5 ⊕ d0 in let bc1 := rol t 36 in
      let t := a11 ⊕ d1 in let bc2 := rol t 10 in let t := a17 ⊕ d2 in let bc3 := rol t 15 in
      let t := a23 ⊕ d3 in let bc4 := rol t 56 in let t := a4 ⊕ d4 in let bc0 := rol t 27 in
      let a5 := bc0 ⊕ Z.ldiff bc2 bc1 in let a11 := bc1 ⊕ Z.ldiff bc3 bc2 in
      let a17 := bc2 ⊕ Z.ldiff bc4 bc3 in let a23 := bc3 ⊕ Z.ldiff bc0 bc4 in
      let a4 := bc4 ⊕ Z.ldiff bc1 bc0 in let t := a15 ⊕ d0 in let bc3 := rol t 41 in
      let t := a21 ⊕ d1 in let bc4 := rol t 2 in let t := a2 ⊕ d2 in let bc0 := rol t 62 in
      let t := a8 ⊕ d3 in let bc1 := rol t 55 in let t := a14 ⊕ d4 in let bc2 := rol t 39 in
      let a15 := bc0 ⊕ Z.ldiff bc2 bc1 in let a21 := bc1 ⊕ Z.ldiff bc3 bc2 in
      let a2 := bc2 ⊕ Z.ldiff bc4 bc3 in let a8 := bc3 ⊕ Z.ldiff bc0 bc4 in
      let a14 := bc4 ⊕ Z.ldiff bc1 bc0 in
      [a0; a1; a2; a3; a4; a5; a6; a7; a8; a9; a10; a11; a12; a13; a14; a15; a16; a17; a18; a19;
        a20; a21; a22; a23; a24]
  | _ => a
  end.

Definition keccak_round2 (c : Z) (a : list Z) : list Z :=
  match a with
  | [a0; a1; a2; a3; a4; a5; a6; a7; a8; a9; a10; a11; a12; a13; a14; a15; a16; a17; a18; a19;
    a20; a21; a22; a23; a24] =>
      let bc0 := a0 ⊕ a5 ⊕ a10 ⊕ a15 ⊕ a20 in let bc1 := a1 ⊕ a6 ⊕ a11 ⊕ a16 ⊕ a21 in
      let bc2 := a2 ⊕ a7 ⊕ a12 ⊕ a17 ⊕ a22 in let bc3 := a3 ⊕ a8 ⊕ a13 ⊕ a18 ⊕ a23 in
      let bc4 := a4 ⊕ a9 ⊕ a14 ⊕ a19 ⊕ a24 in let d0 := bc4 ⊕ rol bc1 1 in
      let d1 := bc0 ⊕ rol bc2 1 in let d2 := bc1 ⊕ rol bc3 1 in let d3 := bc2 ⊕ rol bc4 1 in
      let d4 := bc3 ⊕ rol bc0 1 in let bc0 := a0 ⊕ d0 in let t := a16 ⊕ d1 in
      let bc1 := rol t 44 in let t := a7 ⊕ d2 in let bc2 := rol t 43 in let t := a23 ⊕ d3 in
      let bc3 := rol t 21 in let t := a14 ⊕ d4 in let bc4 := rol t 14 in
      let a0 := bc0 ⊕ Z.ldiff bc2 bc1 ⊕ c in let a16 := bc1 ⊕ Z.ldiff bc3 bc2 in
      let a7 := bc2 ⊕ Z.ldiff bc4 bc3 in let a23 := bc3 ⊕ Z.ldiff bc0 bc4 in
      let a14 := bc4 ⊕ Z.ldiff bc1 bc0 in let t := a20 ⊕ d0 in let bc2 := rol t 3 in
      let t := a11 ⊕ d1 in let bc3 := rol t 45 in let t := a2 ⊕ d2 in let bc4 := rol t 61 in
      let t := a18 ⊕ d3 in let bc0 := rol t 28 in let t := a9 ⊕ d4 in let bc1 := rol t 20 in
      let a20 := bc0 ⊕ Z.ldiff bc2 bc1 in let a11 := bc1 ⊕ Z.ldiff bc3 bc2 in
      let a2 := bc2 ⊕ Z.ldiff bc4 bc3 in let a18 := bc3 ⊕ Z.ldiff bc0 bc4 in
      let a9 := bc4 ⊕ Z.ldiff bc1 bc0 in let t := a15 ⊕ d0 in let bc4 := rol t 18 in
      let t := a6 ⊕ d1 in let bc0 := rol t 1 in let t := a22 ⊕ d2 in let bc1 := rol t 6 in
      let t := a13 ⊕ d3 in let bc2 := rol t 25 in let t := a4 ⊕ d4 in let bc3 := rol t 8 in
      let a15 := bc0 ⊕ Z.ldiff bc2 bc1 in let a6 := bc1 ⊕ Z.ldiff bc3 bc2 in
      let a22 := bc2 ⊕ Z.ldiff bc4 bc3 in let a13 := bc3 ⊕ Z.ldiff bc0 bc4 in
      let a4 := bc4 ⊕ Z.ldiff bc1 bc0 in let t := a10 ⊕ d0 in let bc1 := rol t 36 in
      let t := a1 ⊕ d1 in let bc2 := rol t 10 in let t := a17 ⊕ d2 in let bc3 := rol t 15 in
      let t := a8 ⊕ d3 in let bc4 := rol t 56 in let t := a24 ⊕ d4 in let bc0 := rol t 27 in
      let a10 := bc0 ⊕ Z.ldiff bc2 bc1 in let a1 := bc1 ⊕ Z.ldiff bc3 bc2 in
      let a17 := bc2 ⊕ Z.ldiff bc4 bc3 in let a8 := bc3 ⊕ Z.ldiff bc0 bc4 in
      let a24 := bc4 ⊕ Z.ldiff bc1 bc0 in let t := a5 ⊕ d0 in let bc3 := rol t 41 in
      let t := a21 ⊕ d1 in let bc4 := rol t 2 in let t := a12 ⊕ d2 in let bc0 := rol t 62 in
      let t := a3 ⊕ d3 in let bc1 := rol t 55 in let t := a19 ⊕ d4 in let bc2 := rol t 39 in
      let a5 := bc0 ⊕ Z.ldiff bc2 bc1 in let a21 := bc1 ⊕ Z.ldiff bc3 bc2 in
      let a12 := bc2 ⊕ Z.ldiff bc4 bc3 in let a3 := bc3 ⊕ Z.ldiff bc0 bc4 in
      let a19 := bc4 ⊕ Z.ldiff bc1 bc0 in
      [a0; a1; a2; a3; a4; a5; a6; a7; a8; a9; a10; a11; a12; a13; a14; a15; a16; a17; a18; a19;
        a20; a21; a22; a23; a24]
  | _ => a
  end.

Definition keccak_round3 (c : Z) (a : list Z) : list Z :=
  match a with
  | [a0; a1; a2; a3; a4; a5; a6; a7; a8; a9; a10; a11; a12; a13; a14; a15; a16; a17; a18; a19;
    a20; a21; a22; a23; a24] =>
      let bc0 := a0 ⊕ a5 ⊕ a10 ⊕ a15 ⊕ a20 in let bc1 := a1 ⊕ a6 ⊕ a11 ⊕ a16 ⊕ a21 in
      let bc2 := a2 ⊕ a7 ⊕ a12 ⊕ a17 ⊕ a22 in let bc3 := a3 ⊕ a8 ⊕ a13 ⊕ a18 ⊕ a23 in
      let bc4 := a4 ⊕ a9 ⊕ a14 ⊕ a19 ⊕ a24 in let d0 := bc4 ⊕ rol bc1 1 in
      let d1 := bc0 ⊕ rol bc2 1 in let d2 := bc1 ⊕ rol bc3 1 in let d3 := bc2 ⊕ rol bc4 1 in
      let d4 := bc3 ⊕ rol bc0 1 in let bc0 := a0 ⊕ d0 in let t := a11 ⊕ d1 in
      let bc1 := rol t 44 in let t := a22 ⊕ d2 in let bc2 := rol t 43 in let t := a8 ⊕ d3 in
      let bc3 := rol t 21 in let t := a19 ⊕ d4 in let bc4 := rol t 14 in
      let a0 := bc0 ⊕ Z.ldiff bc2 bc1 ⊕ c in let a11 := bc1 ⊕ Z.ldiff bc3 bc2 in
      let a22 := bc2 ⊕ Z.ldiff bc4 bc3 in let a8 := bc3 ⊕ Z.ldiff bc0 bc4 in
      let a19 := bc4 ⊕ Z.ldiff bc1 bc0 in let t := a15 ⊕ d0 in let bc2 := rol t 3 in
      let t := a1 ⊕ d1 in let bc3 := rol t 45 in let t := a12 ⊕ d2 in let bc4 := rol t 61 in
      let t := a23 ⊕ d3 in let bc0 := rol t 28 in let t := a9 ⊕ d4 in let bc1 := rol t 20 in
      let a15 := bc0 ⊕ Z.ldiff bc2 bc1 in let a1 := bc1 ⊕ Z.ldiff bc3 bc2 in
      let a12 := bc2 ⊕ Z.ldiff bc4 bc3 in let a23 := bc3 ⊕ Z.ldiff bc0 bc4 in
      let a9 := bc4 ⊕ Z.ldiff bc1 bc0 in let t := a5 ⊕ d0 in let bc4 := rol t 18 in
      let t := a16 ⊕ d1 in let bc0 := rol t 1 in let t := a2 ⊕ d2 in let bc1 := rol t 6 in
      let t := a13 ⊕ d3 in let bc2 := rol t 25 in let t := a24 ⊕ d4 in let bc3 := rol t 8 in
      let a5 := bc0 ⊕ Z.ldiff bc2 bc1 in let a16 := bc1 ⊕ Z.ldiff bc3 bc2 in
      let a2 := bc2 ⊕ Z.ldiff bc4 bc3 in let a13 := bc3 ⊕ Z.ldiff bc0 bc4 in
      let a24 := bc4 ⊕ Z.ldiff bc1 bc0 in let t := a20 ⊕ d0 in let bc1 := rol t 36 in
      let t := a6 ⊕ d1 in let bc2 := rol t 10 in let t := a17 ⊕ d2 in let bc3 := rol t 15 in
      let t := a3 ⊕ d3 in let bc4 := rol t 56 in let t := a14 ⊕ d4 in let bc0 := rol t 27 in
      let a20 := bc0 ⊕ Z.ldiff bc2 bc1 in let a6 := bc1 ⊕ Z.ldiff bc3 bc2 in
      let a17 := bc2 ⊕ Z.ldiff bc4 bc3 in let a3 := bc3 ⊕ Z.ldiff bc0 bc4 in
      let a14 := bc4 ⊕ Z.ldiff bc1 bc0 in let t := a10 ⊕ d0 in let bc3 := rol t 41 in
      let t := a21 ⊕ d1 in let bc4 := rol t 2 in let t := a7 ⊕ d2 in let bc0 := rol t 62 in
      let t := a18 ⊕ d3 in let bc1 := rol t 55 in let t := a4 ⊕ d4 in let bc2 := rol t 39 in
      let a10 := bc0 ⊕ Z.ldiff bc2 bc1 in let a21 := bc1 ⊕ Z.ldiff bc3 bc2 in
      let a7 := bc2 ⊕ Z.ldiff bc4 bc3 in let a18 := bc3 ⊕ Z.ldiff bc0 bc4 in
      let a4 := bc4 ⊕ Z.ldiff bc1 bc0 in
      [a0; a1; a2; a3; a4; a5; a6; a7; a8; a9; a10; a11; a12; a13; a14; a15; a16; a17; a18; a19;
        a20; a21; a22; a23; a24]
  | _ => a
  end.

Definition keccak_round4 (c : Z) (a : list Z) : list Z :=
  match a with
  | [a0; a1; a2; a3; a4; a5; a6; a7; a8; a9; a10; a11; a12; a13; a14; a15; a16; a17; a18; a19;
    a20; a21; a22; a23; a24] =>
      let bc0 := a0 ⊕ a5 ⊕ a10 ⊕ a15 ⊕ a20 in let bc1 := a1 ⊕ a6 ⊕ a11 ⊕ a16 ⊕ a21 in
      let bc2 := a2 ⊕ a7 ⊕ a12 ⊕ a17 ⊕ a22 in let bc3 := a3 ⊕ a8 ⊕ a13 ⊕ a18 ⊕ a23 in
      let bc4 := a4 ⊕ a9 ⊕ a14 ⊕ a19 ⊕ a24 in let d0 := bc4 ⊕ rol bc1 1 in
      let d1 := bc0 ⊕ rol bc2 1 in let d2 := bc1 ⊕ rol bc3 1 in let d3 := bc2 ⊕ rol bc4 1 in
      let d4 := bc3 ⊕ rol bc0 1 in let bc0 := a0 ⊕ d0 in let t := a1 ⊕ d1 in
      let bc1 := rol t 44 in let t := a2 ⊕ d2 in let bc2 := rol t 43 in let t := a3 ⊕ d3 in
      let bc3 := rol t 21 in let t := a4 ⊕ d4 in let bc4 := rol t 14 in
      let a0 := bc0 ⊕ Z.ldiff bc2 bc1 ⊕ c in let a1 := bc1 ⊕ Z.ldiff bc3 bc2 in
      let a2 := bc2 ⊕ Z.ldiff bc4 bc3 in let a3 := bc3 ⊕ Z.ldiff bc0 bc4 in
      let a4 := bc4 ⊕ Z.ldiff bc1 bc0 in let t := a5 ⊕ d0 in let bc2 := rol t 3 in
      let t := a6 ⊕ d1 in let bc3 := rol t 45 in let t := a7 ⊕ d2 in let bc4 := rol t 61 in
      let t := a8 ⊕ d3 in let bc0 := rol t 28 in let t := a9 ⊕ d4 in let bc1 := rol t 20 in
      let a5 := bc0 ⊕ Z.ldiff bc2 bc1 in let a6 := bc1 ⊕ Z.ldiff bc3 bc2 in
      let a7 := bc2 ⊕ Z.ldiff bc4 bc3 in let a8 := bc3 ⊕ Z.ldiff bc0 bc4 in
      let a9 := bc4 ⊕ Z.ldiff bc1 bc0 in let t := a10 ⊕ d0 in let bc4 := rol t 18 in
      let t := a11 ⊕ d1 in let bc0 := rol t 1 in let t := a12 ⊕ d2 in let bc1 := rol t 6 in
      let t := a13 ⊕ d3 in let bc2 := rol t 25 in let t := a14 ⊕ d4 in let bc3 := rol t 8 in
      let a10 := bc0 ⊕ Z.ldiff bc2 bc1 in let a11 := bc1 ⊕ Z.ldiff bc3 bc2 in
      let a12 := bc2 ⊕ Z.ldiff bc4 bc3 in let a13 := bc3 ⊕ Z.ldiff bc0 bc4 in
      let a14 := bc4 ⊕ Z.ldiff bc1 bc0 in let t := a15 ⊕ d0 in let bc1 := rol t 36 in
      let t := a16 ⊕ d1 in let bc2 := rol t 10 in let t := a17 ⊕ d2 in let bc3 := rol t 15 in
      let t := a18 ⊕ d3 in let bc4 := rol t 56 in let t := a19 ⊕ d4 in let bc0 := rol t 27 in
      let a15 := bc0 ⊕ Z.ldiff bc2 bc1 in let a16 := bc1 ⊕ Z.ldiff bc3 bc2 in
      let a17 := bc2 ⊕ Z.ldiff bc4 bc3 in let a18 := bc3 ⊕ Z.ldiff bc0 bc4 in
      let a19 := bc4 ⊕ Z.ldiff bc1 bc0 in let t := a20 ⊕ d0 in let bc3 := rol t 41 in
      let t := a21 ⊕ d1 in let bc4 := rol t 2 in let t := a22 ⊕ d2 in let bc0 := rol t 62 in
      let t := a23 ⊕ d3 in let bc1 := rol t 55 in let t := a24 ⊕ d4 in let bc2 := rol t 39 in
      let a20 := bc0 ⊕ Z.ldiff bc2 bc1 in let a21 := bc1 ⊕ Z.ldiff bc3 bc2 in
      let a22 := bc2 ⊕ Z.ldiff bc4 bc3 in let a23 := bc3 ⊕ Z.ldiff bc0 bc4 in
      let a24 := bc4 ⊕ Z.ldiff bc1 bc0 in
      [a0; a1; a2; a3; a4; a5; a6; a7; a8; a9; a10; a11; a12; a13; a14; a15; a16; a17; a18; a19;
        a20; a21; a22; a23; a24]
  | _ => a
  end.

Fixpoint keccak_loop (n i : nat) (a : list Z) : list Z :=
  match n with
  | O => a
  | S n =>
      let a := keccak_round1 (nth i rc 0) a in
      let a := keccak_round2 (nth (i + 1) rc 0) a in
      let a := keccak_round3 (nth (i + 2) rc 0) a in
      let a := keccak_round4 (nth (i + 3) rc 0) a in
      keccak_loop n (i + 4) a
  end.

Definition keccakF1600 (a : list Z) : list Z := keccak_loop 6 0 a.

(** ** The reference: the step mappings over a 5 by 5 array of lanes *)

Definition lane (A : list Z) (x y : nat) : Z := nth (x mod 5 + 5 * (y mod 5)) A 0.
Definition of_lanes (f : nat → nat → Z) : list Z :=
  map (fun i => f (i mod 5)%nat (i / 5)%nat) (seq 0 25).

(** Rotation of a lane towards the higher bits. *)
Definition rot (x k : Z) : Z := if k =? 0 then x else rol x k.

Definition theta (A : list Z) : list Z :=
  let C x := lane A x 0 ⊕ lane A x 1 ⊕ lane A x 2 ⊕ lane A x 3 ⊕ lane A x 4 in
  let D x := C (x + 4)%nat ⊕ rot (C (x + 1)%nat) 1 in
  of_lanes (fun x y => lane A x y ⊕ D x).

(** The offset of the [t]-th lane of the walk (x, y) -> (y, 2x + 3y) from (1, 0)
    is the triangular number (t + 1)(t + 2) / 2 modulo 64. *)
Fixpoint rho_walk (n : nat) (t : Z) (x y : nat) (tbl : list Z) : list Z :=
  match n with
  | O => tbl
  | S n => rho_walk n (t + 1) y ((2 * x + 3 * y) mod 5)
             (<[(x + 5 * y)%nat := ((t + 1) * (t + 2) / 2) mod 64]> tbl)
  end.
Definition rho_offsets : list Z := rho_walk 24 0 1 0 (replicate 25 0).
Definition rho (A : list Z) : list Z :=
  of_lanes (fun x y => rot (lane A x y) (lane rho_offsets x y)).

Definition pi (A : list Z) : list Z := of_lanes (fun x y => lane A (x + 3 * y) x).

Definition chi (A : list Z) : list Z :=
  of_lanes (fun x y => lane A x y ⊕ Z.ldiff (lane A (x + 2) y) (lane A (x + 1) y)).

Definition iota (c : Z) (A : list Z) : list Z :=
  match A with a :: A => a ⊕ c :: A | [] => [] end.

Definition Rnd (c : Z) (A : list Z) : list Z := iota c (chi (pi (rho (theta A)))).

(** The round constants, from the linear feedback shift register. *)
Fixpoint lfsr (t : nat) (r : Z) : Z :=
  match t with
  | O => r
  | S t => let r := 2 * r in lfsr t (if Z.testbit r 8 then r ⊕ 0x171 else r)
  end.
Definition RC (ir : nat) : Z :=
  foldr (fun j acc => Z.lor (if Z.testbit (lfsr (j + 7 * ir) 1) 0 then 2 ^ (2 ^ Z.of_nat j - 1) else 0) acc)
    0 (seq 0 7).

Definition Keccak_f (A : list Z) : list Z := foldl (fun A ir => Rnd (RC ir) A) A (seq 0 24).

(** ** Equivalence

    After [j] rounds in place the lane (x, y) is at the position [pos j x y]. *)
Fixpoint pos (j x y : nat) : nat :=
  match j with
  | O => x mod 5 + 5 * (y mod 5)
  | S j => pos j x (x + 2 * y)
  end.

(** The lanes of an array stored by the positions of round [j]. *)
Definition unplace (j : nat) (a : list Z) : list Z := of_lanes (fun x y => nth (pos j x y) a 0).

Lemma rc_RC : rc = map RC (seq 0 24).
Proof. vm_compute. reflexivity. Qed.

Lemma list25 (a : list Z) : length a = 25%nat →
  ∃ a0 a1 a2 a3 a4 a5 a6 a7 a8 a9 a10 a11 a12 a13 a14 a15 a16 a17 a18 a19 a20 a21 a22 a23 a24,
    a = [a0; a1; a2; a3; a4; a5; a6; a7; a8; a9; a10; a11; a12; a13; a14; a15; a16; a17; a18; a19;
         a20; a21; a22; a23; a24].
Proof.
  intros H. do 25 (destruct a as [|? a]; [discriminate H|]).
  destruct a; [|discriminate H]. by repeat eexists.
Qed.

Ltac destruct_list25 H :=
  apply list25 in H as (a0 & a1 & a2 & a3 & a4 & a5 & a6 & a7 & a8 & a9 & a10 & a11 & a12
    & a13 & a14 & a15 & a16 & a17 & a18 & a19 & a20 & a21 & a22 & a23 & a24 & ->).
Ltac lanes := lazy -[Z.lxor Z.ldiff rol].

(** The source adds up the lanes of a column in the order of their positions. *)
Lemma xor_perm l l' : l ≡ₚ l' → foldr Z.lxor 0 l = foldr Z.lxor 0 l'.
Proof.
  induction 1; simpl; [done|by f_equal| |congruence].
  by rewrite <- !Z.lxor_assoc, (Z.lxor_comm x).
Qed.

Lemma xor5 a b c d e p q r s t :
  [a; b; c; d; e] ≡ₚ [p; q; r; s; t] → a ⊕ b ⊕ c ⊕ d ⊕ e = p ⊕ q ⊕ r ⊕ s ⊕ t.
Proof. intros Hp. apply xor_perm in Hp. simpl in Hp. by rewrite !Z.lxor_0_r, <- !Z.lxor_assoc in Hp. Qed.

Ltac column a b c d e p q r s t :=
  rewrite (xor5 a b c d e p q r s t) by solve_Permutation.

Lemma round1_Rnd c a : length a = 25%nat → unplace 1 (keccak_round1 c a) = Rnd c (unplace 0 a).
Proof. intros H. destruct_list25 H. lanes. reflexivity. Qed.

Lemma round2_Rnd c a : length a = 25%nat → unplace 2 (keccak_round2 c a) = Rnd c (unplace 1 a).
Proof.
  intros H. destruct_list25 H. lanes.
  column a0 a10 a20 a5 a15 a0 a5 a10 a15 a20.
  column a6 a16 a1 a11 a21 a1 a6 a11 a16 a21.
  column a12 a22 a7 a17 a2 a2 a7 a12 a17 a22.
  column a18 a3 a13 a23 a8 a3 a8 a13 a18 a23.
  column a24 a9 a19 a4 a14 a4 a9 a14 a19 a24.
  reflexivity.
Qed.

Lemma round3_Rnd c a : length a = 25%nat → unplace 3 (keccak_round3 c a) = Rnd c (unplace 2 a).
Proof.
  intros H. destruct_list25 H. lanes.
  column a0 a20 a15 a10 a5 a0 a5 a10 a15 a20.
  column a16 a11 a6 a1 a21 a1 a6 a11 a16 a21.
  column a7 a2 a22 a17 a12 a2 a7 a12 a17 a22.
  column a23 a18 a13 a8 a3 a3 a8 a13 a18 a23.
  column a14 a9 a4 a24 a19 a4 a9 a14 a19 a24.
  reflexivity.
Qed.

Lemma round4_Rnd c a : length a = 25%nat → unplace 0 (keccak_round4 c a) = Rnd c (unplace 3 a).
Proof.
  intros H. destruct_list25 H. lanes.
  column a0 a15 a5 a20 a10 a0 a5 a10 a15 a20.
  column a11 a1 a16 a6 a21 a1 a6 a11 a16 a21.
  column a22 a12 a2 a17 a7 a2 a7 a12 a17 a22.
  column a8 a23 a13 a3 a18 a3 a8 a13 a18 a23.
  column a19 a9 a24 a14 a4 a4 a9 a14 a19 a24.
  reflexivity.
Qed.

Lemma unplace_0 a : length a = 25%nat → unplace 0 a = a.
Proof. intros H. destruct_list25 H. reflexivity. Qed.

Lemma length_rounds c a : length a = 25%nat →
  length (keccak_round1 c a) = 25%nat ∧ length (keccak_round2 c a) = 25%nat ∧
  length (keccak_round3 c a) = 25%nat ∧ length (keccak_round4 c a) = 25%nat.
Proof. intros H. destruct_list25 H. done. Qed.

Lemma keccak_loop_Rnd n i a : length a = 25%nat → (i + 4 * n = 24)%nat →
  length (keccak_loop n i a) = 25%nat ∧
  keccak_loop n i a = foldl (fun A ir => Rnd (RC ir) A) a (seq i (4 * n)).
Proof.
  revert i a. induction n as [|n IH]; intros i a Ha Hi; [done|].
  assert (∀ k, (k < 24)%nat → nth k rc 0 = RC k) as Hrc.
  { intros k Hk. rewrite rc_RC. rewrite (nth_indep _ 0 (RC 0)) by (rewrite length_map, length_seq; lia).
    rewrite map_nth, seq_nth by lia. done. }
  cbn [keccak_loop]. rewrite !Hrc by lia.
  pose proof (length_rounds (RC i) a Ha) as (H1 & _).
  pose proof (length_rounds (RC (i + 1)) _ H1) as (_ & H2 & _).
  pose proof (length_rounds (RC (i + 2)) _ H2) as (_ & _ & H3 & _).
  pose proof (length_rounds (RC (i + 3)) _ H3) as (_ & _ & _ & H4).
  destruct (IH (i + 4)%nat _ H4 ltac:(lia)) as [Hl ->]. split; [rewrite <- (proj2 (IH (i + 4)%nat _ H4 ltac:(lia))); done|].
  replace (4 * S n)%nat with (S (S (S (S (4 * n))))) by lia. cbn [seq foldl].
  rewrite <- (unplace_0 (keccak_round4 _ _)) by done.
  rewrite round4_Rnd, round3_Rnd, round2_Rnd, round1_Rnd, unplace_0 by done.
  by replace (i + 4)%nat with (S (S (S (S i)))) by lia;
    replace (i + 3)%nat with (S (S (S i))) by lia;
    replace (i + 2)%nat with (S (S i)) by lia; replace (i + 1)%nat with (S i) by lia.
Qed.

(** [t<<k | t>>(64-k)] is the rotation of the 64 bits. *)
Lemma rol_testbit t k i : 0 ≤ t < 2 ^ 64 → 0 < k < 64 → 0 ≤ i < 64 →
  Z.testbit (rol t k) i = Z.testbit t ((i - k) mod 64).
Proof.
  intros Ht Hk Hi. unfold rol, u64. rewrite Z.lor_spec, Z.mod_pow2_bits_low, Z.shiftl_spec, Z.shiftr_spec by lia.
  destruct (decide (k ≤ i)) as [Hle|Hlt].
  - rewrite Z.mod_small by lia. rewrite (Z.bits_above_log2 t (i + (64 - k))), orb_false_r; [done|lia|].
    destruct (decide (t = 0)) as [-> |]; [simpl; lia|]. apply Z.log2_lt_pow2; [lia|].
    eapply Z.lt_le_trans; [apply Ht|]. apply Z.pow_le_mono_r; lia.
  - rewrite (Z.testbit_neg_r t (i - k)) by lia. simpl. f_equal.
    apply (Z.mod_unique _ _ (-1)); lia.
Qed.

Lemma keccakF1600_rounds a : length a = 25%nat →
  length (keccakF1600 a) = 25%nat ∧ keccakF1600 a = Keccak_f a.
Proof. intros Ha. by apply (keccak_loop_Rnd 6 0 a Ha). Qed.

(** C32: the unrolled in-place permutation of the source is Keccak-f[1600]: 24
    rounds of theta, rho, pi, chi and iota, with the offsets and round
    constants generated as the standard generates them. *)
Theorem keccakF1600_Keccak_f a : length a = 25%nat → keccakF1600 a = Keccak_f a.
Proof. intros Ha. by apply keccakF1600_rounds. Qed.

Lemma keccakF1600_Keccak_f_witness : keccakF1600 (replicate 25 0) = Keccak_f (replicate 25 0).
Proof. apply (keccakF1600_Keccak_f (replicate 25 0)). reflexivity. Defined.

End KeccakF.
