(* ===== verification/Sha3.v ===== *)
(** The SHA-3 sponge (src/crypto/sha3/sha3.go, hashes.go, xor_generic.go,
    xor_unaligned.go) and the Keccak helpers of src/crypto/crypto.go: the sponge state
    with its storage array and the slice of it in use, [Write], [Read], [Sum]
    and [clone]; a reference sponge over whole messages; their equivalence for
    every way of splitting the input into writes. *)

From S2P Require Import Prelude.
From S2P Require Import KeccakF.

Module Sha3.
Import KeccakF.

(** ** Lanes and bytes *)

(** [binary.LittleEndian.Uint64] and [PutUint64]. *)
Definition le_val (b : bytes) : Z := foldr (fun x acc => bz x + 256 * acc) 0 b.
Definition le_put (x : Z) : bytes := map (fun i => zb (Z.shiftr x (8 * Z.of_nat i))) (seq 0 8).

(** [xorInGeneric]: a lane per eight bytes of [buf]. *)
Fixpoint xorInGeneric (a : list Z) (buf : bytes) : list Z :=
  match a with
  | x :: a' =>
      if (8 <=? length buf)%nat then x ⊕ le_val (take 8 buf) :: xorInGeneric a' (drop 8 buf) else a
  | [] => []
  end.

(** [xorInUnaligned], on a little-endian machine: [bw] is [buf] as words. *)
Definition xor_range (lo hi : nat) (a : list Z) (buf : bytes) : list Z :=
  imap (fun i x => if (lo <=? i)%nat && (i <? hi)%nat
                   then x ⊕ le_val (take 8 (drop (8 * i) buf)) else x) a.
Definition xorInUnaligned (a : list Z) (buf : bytes) : list Z :=
  let n := length buf in
  let a := if (72 <=? n)%nat then xor_range 0 9 a buf else a in
  let a := if (104 <=? n)%nat then xor_range 9 13 a buf else a in
  let a := if (136 <=? n)%nat then xor_range 13 17 a buf else a in
  let a := if (144 <=? n)%nat then xor_range 17 18 a buf else a in
  if (168 <=? n)%nat then xor_range 18 21 a buf else a.

(** [copyOutGeneric]: what [b] holds afterwards. *)
Fixpoint copyOutGeneric (a : list Z) (b : bytes) : bytes :=
  match a with
  | x :: a => if (8 <=? length b)%nat then le_put x ++ copyOutGeneric a (drop 8 b) else b
  | [] => b
  end.

(** ** The sponge *)

Inductive spongeDirection := spongeAbsorbing | spongeSqueezing.

Definition maxRate : nat := 168.

(** The slice [buf] is [storage[lo:hi]]; its capacity is [maxRate - lo]. *)
Record state := mkstate {
  a : list Z;
  storage : bytes;
  lo : nat;
  hi : nat;
  rate : nat;
  dsbyte : byte;
  outputLen : nat;
  dir : spongeDirection }.

Definition new (rate outputLen : nat) (dsbyte : byte) : state :=
  mkstate (replicate 25 0) (replicate maxRate x00) 0 0 rate dsbyte outputLen spongeAbsorbing.
Definition NewKeccak256 : state := new 136 32 x01.
Definition NewKeccak512 : state := new 72 64 x01.
Definition New224 : state := new 144 28 x06.
Definition New256 : state := new 136 32 x06.
Definition New384 : state := new 104 48 x06.
Definition New512 : state := new 72 64 x06.
Definition NewShake128 : state := new 168 0 x1f.
Definition NewShake256 : state := new 136 0 x1f.

Definition buf (d : state) : bytes := take (hi d - lo d) (drop (lo d) (storage d)).

Definition set_a (x : list Z) (d : state) : state :=
  mkstate x (storage d) (lo d) (hi d) (rate d) (dsbyte d) (outputLen d) (dir d).
Definition set_storage (x : bytes) (d : state) : state :=
  mkstate (a d) x (lo d) (hi d) (rate d) (dsbyte d) (outputLen d) (dir d).
Definition set_buf (l h : nat) (d : state) : state :=
  mkstate (a d) (storage d) l h (rate d) (dsbyte d) (outputLen d) (dir d).
Definition set_dir (x : spongeDirection) (d : state) : state :=
  mkstate (a d) (storage d) (lo d) (hi d) (rate d) (dsbyte d) (outputLen d) x.

Definition Reset (d : state) : state :=
  set_buf 0 0 (set_dir spongeAbsorbing (set_a (replicate 25 0) d)).

(** A struct copy, whose [buf] then points into its own storage. *)
Definition clone (d : state) : result Empty_set state :=
  match dir d with
  | spongeAbsorbing => Ok (set_buf 0 (hi d - lo d) d)
  | spongeSqueezing =>
      let cap := (maxRate - lo d)%nat in
      if (rate d <? cap)%nat then Panic else Ok (set_buf (rate d - cap) (rate d) d)
  end.

(** [d.buf = d.storage[:d.rate]; copyOut(d, d.buf)]. *)
Definition refill (d : state) : state :=
  let out := copyOutGeneric (a d) (take (rate d) (storage d)) in
  set_buf 0 (rate d) (set_storage (out ++ drop (rate d) (storage d)) d).

Definition permute (d : state) : state :=
  match dir d with
  | spongeAbsorbing => set_buf 0 0 (set_a (keccakF1600 (xorInGeneric (a d) (buf d))) d)
  | spongeSqueezing => refill (set_a (keccakF1600 (a d)) d)
  end.

(** The bytes of [b] written at index [i] of the storage. *)
Definition overwrite (i : nat) (b : bytes) (s : bytes) : bytes := take i s ++ b ++ drop (i + length b) s.

Definition padAndPermute (d : state) : state :=
  let s := overwrite (hi d) (dsbyte d :: replicate (rate d - S (hi d)) x00) (storage d) in
  let last := nth (rate d - 1) s x00 in
  let s := overwrite (rate d - 1) [zb (bz last ⊕ 0x80)] s in
  let d := permute (set_buf 0 (rate d) (set_storage s d)) in
  refill (set_dir spongeSqueezing d).

Fixpoint write_loop (fuel : nat) (p : bytes) (d : state) : result Empty_set state :=
  match fuel, p with
  | _, [] => Ok d
  | O, _ => NoFuel
  | S fuel, _ =>
      if (hi d - lo d =? 0)%nat && (rate d <=? length p)%nat then
        write_loop fuel (drop (rate d) p) (set_a (keccakF1600 (xorInGeneric (a d) (take (rate d) p))) d)
      else
        let todo := Nat.min (rate d - (hi d - lo d)) (length p) in
        let d := set_buf (lo d) (hi d + todo) (set_storage (overwrite (hi d) (take todo p) (storage d)) d) in
        write_loop fuel (drop todo p) (if (hi d - lo d =? rate d)%nat then permute d else d)
  end.

Definition Write (p : bytes) (d : state) : result Empty_set state :=
  match dir d with
  | spongeAbsorbing => write_loop (length p) p d
  | spongeSqueezing => Panic
  end.

Fixpoint read_loop (fuel n : nat) (d : state) : result Empty_set (bytes * state) :=
  match fuel, n with
  | _, O => Ok ([], d)
  | O, _ => NoFuel
  | S fuel, _ =>
      let k := Nat.min n (hi d - lo d) in
      let out := take k (buf d) in
      let d := set_buf (lo d + k) (hi d) d in
      let d := if (hi d - lo d =? 0)%nat then permute d else d in
      let? (rest, d) := read_loop fuel (n - k) d in
      Ok (out ++ rest, d)
  end.

Definition Read (n : nat) (d : state) : result Empty_set (bytes * state) :=
  read_loop n n (match dir d with spongeAbsorbing => padAndPermute d | spongeSqueezing => d end).

Definition Sum (inp : bytes) (d : state) : result Empty_set bytes :=
  let? dup := clone d in
  let? (hash, _) := Read (outputLen dup) dup in
  Ok (inp ++ hash).

Fixpoint write_all (data : list bytes) (d : state) : result Empty_set state :=
  match data with
  | [] => Ok d
  | b :: data => let? d := Write b d in write_all data d
  end.

(** src/crypto/crypto.go *)
Definition Keccak256 (data : list bytes) : result Empty_set bytes :=
  let? d := write_all data NewKeccak256 in Sum [] d.
Definition Keccak512 (data : list bytes) : result Empty_set bytes :=
  let? d := write_all data NewKeccak512 in Sum [] d.

(** ** The reference sponge *)

(** The pad10*1 rule, with the domain bits in [ds], up to a multiple of [r] bytes. *)
Definition pad (r : nat) (ds : byte) (m : bytes) : bytes :=
  let q := (r - length m mod r)%nat in
  m ++ (if (q =? 1)%nat then [zb (bz ds ⊕ 0x80)] else ds :: replicate (q - 2) x00 ++ [x80]).

Definition blocks (r : nat) (m : bytes) : list bytes :=
  map (fun i => take r (drop (i * r) m)) (seq 0 (length m / r)).

Definition xor_block (A : list Z) (blk : bytes) : list Z :=
  imap (fun i x => x ⊕ le_val (take 8 (drop (8 * i) blk))) A.

Definition absorb (A : list Z) (bs : list bytes) : list Z :=
  foldl (fun A blk => Keccak_f (xor_block A blk)) A bs.

Fixpoint squeeze (r k : nat) (A : list Z) : bytes :=
  match k with
  | O => []
  | S k => take r (concat (map le_put A)) ++ squeeze r k (Keccak_f A)
  end.

Definition sponge (r : nat) (ds : byte) (n : nat) (m : bytes) : bytes :=
  take n (squeeze r (n / r + 1) (absorb (replicate 25 0) (blocks r (pad r ds m)))).

(** ** Equivalence *)

#[local] Opaque keccakF1600 Keccak_f.

(** The rates of the constructors: whole lanes, within the storage. *)
Definition rate_ok (r : nat) : Prop := (0 < r ≤ maxRate)%nat ∧ (r mod 8 = 0)%nat.

Lemma xorInGeneric_block A blk :
  (length blk mod 8 = 0)%nat → xorInGeneric A blk = xor_block A blk.
Proof.
  unfold xor_block. revert blk. induction A as [|x A IH]; intros blk Hb; [done|].
  cbn [xorInGeneric]. rewrite imap_cons, Nat.mul_0_r, drop_0.
  destruct (Nat.leb_spec 8 (length blk)) as [Hle|Hlt].
  - f_equal. rewrite IH.
    + apply imap_ext. intros i y _. unfold compose. by rewrite drop_drop, Nat.mul_succ_r, Nat.add_comm.
    + rewrite length_drop. by rewrite <- (Nat.Div0.mod_add _ 1), Nat.mul_1_l, Nat.sub_add.
  - rewrite Nat.mod_small in Hb by done. destruct blk; [|done]. rewrite take_nil, Z.lxor_0_r.
    f_equal. trans (imap (const id) A); [by rewrite imap_const, list_fmap_id|]. apply imap_ext. intros i y _. unfold compose.
    by rewrite drop_nil, take_nil, Z.lxor_0_r.
Qed.

(** The two implementations of [xorIn] agree on the blocks of the five rates. *)
Lemma xor_range_join l m h A b :
  (l ≤ m ≤ h)%nat → xor_range m h (xor_range l m A b) b = xor_range l h A b.
Proof.
  intros Hm. apply list_eq. intros i. unfold xor_range. rewrite !list_lookup_imap.
  destruct (A !! i) as [x|]; [|done]. simpl. f_equal.
  destruct (Nat.leb_spec l i), (Nat.ltb_spec i m), (Nat.leb_spec m i), (Nat.ltb_spec i h); simpl; lia || done.
Qed.

Lemma xor_range_block h A b : length b = (8 * h)%nat → xor_range 0 h A b = xor_block A b.
Proof.
  intros Hb. apply imap_ext. intros i x _. simpl. destruct (Nat.ltb_spec i h); [done|].
  rewrite drop_ge by lia. by rewrite take_nil, Z.lxor_0_r.
Qed.

Lemma xorInUnaligned_generic A b :
  In (length b) [72; 104; 136; 144; 168]%nat → xorInUnaligned A b = xorInGeneric A b.
Proof.
  intros Hb. rewrite xorInGeneric_block by (by destruct Hb as [<-|[<-|[<-|[<-|[<-|[]]]]]]).
  unfold xorInUnaligned. destruct Hb as [Hb|[Hb|[Hb|[Hb|[Hb|[]]]]]]; rewrite <- Hb; cbn [Nat.leb];
    rewrite ?xor_range_join by lia; apply xor_range_block; lia.
Qed.

Lemma length_le_put x : length (le_put x) = 8%nat.
Proof. unfold le_put. by rewrite length_map, length_seq. Qed.

Lemma copyOutGeneric_spec A b :
  (length b mod 8 = 0)%nat → (length b ≤ 8 * length A)%nat →
  copyOutGeneric A b = take (length b) (concat (map le_put A)).
Proof.
  revert b. induction A as [|x A IH]; intros b Hb Hl.
  - simpl in *. destruct b; [done|simpl in *; lia].
  - cbn [copyOutGeneric map concat]. destruct (Nat.leb_spec 8 (length b)) as [Hle|Hlt].
    + rewrite IH.
      * rewrite length_drop, take_app_ge by (rewrite length_le_put; lia). by rewrite length_le_put.
      * rewrite length_drop. by rewrite <- (Nat.Div0.mod_add _ 1), Nat.mul_1_l, Nat.sub_add.
      * rewrite length_drop. simpl in Hl. lia.
    + rewrite Nat.mod_small in Hb by done. by destruct b.
Qed.

Lemma length_concat_lanes A : length (concat (map le_put A)) = (8 * length A)%nat.
Proof. induction A as [|x A IH]; [done|]. cbn [map concat]. rewrite length_app, IH, length_le_put. simpl. lia. Qed.

Lemma length_xor_block A blk : length (xor_block A blk) = length A.
Proof. apply length_imap. Qed.

Lemma length_absorb A bs : length A = 25%nat → length (absorb A bs) = 25%nat.
Proof.
  revert A. induction bs as [|blk bs IH]; intros A HA; [done|]. simpl. apply IH.
  rewrite <- (proj2 (keccakF1600_rounds (xor_block A blk) ltac:(by rewrite length_xor_block))).
  apply keccakF1600_rounds. by rewrite length_xor_block.
Qed.

Lemma blocks_snoc r full blk :
  (0 < r)%nat → (length full mod r = 0)%nat → length blk = r → blocks r (full ++ blk) = blocks r full ++ [blk].
Proof.
  intros Hr Hf Hb. unfold blocks. rewrite length_app, Hb.
  apply Nat.Div0.div_exact in Hf. set (q := (length full / r)%nat) in *.
  replace ((length full + r) / r)%nat with (q + 1)%nat.
  2: { subst q. rewrite Hf at 2. symmetry. replace (r * (length full / r) + r)%nat with ((length full / r + 1) * r)%nat by lia.
       apply Nat.div_mul. lia. }
  rewrite seq_app, map_app. f_equal.
  - apply map_ext_in. intros i Hi. apply in_seq in Hi. rewrite drop_app_le, take_app_le; [done|..].
    + rewrite length_drop. nia.
    + nia.
  - simpl. rewrite drop_app_ge by nia. replace (q * r - length full)%nat with 0%nat by nia.
    by rewrite drop_0, take_ge by lia.
Qed.

Lemma absorb_snoc r full blk :
  rate_ok r → (length full mod r = 0)%nat → length blk = r →
  absorb (replicate 25 0) (blocks r (full ++ blk))
  = keccakF1600 (xorInGeneric (absorb (replicate 25 0) (blocks r full)) blk).
Proof.
  intros [Hr H8] Hf Hb. rewrite blocks_snoc by (done || lia). unfold absorb at 1. rewrite foldl_app. simpl.
  change (foldl _ _ (blocks r full)) with (absorb (replicate 25 0) (blocks r full)).
  rewrite xorInGeneric_block by congruence. symmetry. apply keccakF1600_rounds.
  by rewrite length_xor_block, length_absorb.
Qed.

(** A sponge that has absorbed the whole blocks of [m] and buffers the rest. *)
Definition absorbs (m : bytes) (d : state) : Prop :=
  ∃ full tl, m = full ++ tl ∧ (length full mod rate d = 0)%nat ∧ (length tl < rate d)%nat
    ∧ a d = absorb (replicate 25 0) (blocks (rate d) full)
    ∧ lo d = O ∧ hi d = length tl ∧ take (length tl) (storage d) = tl
    ∧ length (storage d) = maxRate ∧ dir d = spongeAbsorbing.

Lemma length_overwrite i b s : (i + length b ≤ length s)%nat → length (overwrite i b s) = length s.
Proof. intros H. unfold overwrite. rewrite !length_app, length_take, length_drop. lia. Qed.

Lemma take_overwrite i b s :
  (i + length b ≤ length s)%nat → take (i + length b) (overwrite i b s) = take i s ++ b.
Proof.
  intros H. unfold overwrite. rewrite (assoc_L (++)). rewrite take_app_le; [|rewrite length_app, length_take; lia].
  apply take_ge. rewrite length_app, length_take. lia.
Qed.

Lemma mod_add_r n r : (0 < r)%nat → (n mod r = 0)%nat → ((n + r) mod r = 0)%nat.
Proof. intros Hr Hn. by rewrite <- (Nat.mul_1_l r) at 1; rewrite Nat.Div0.mod_add. Qed.

(** What no operation changes. *)
Definition same_kind (d d' : state) : Prop :=
  rate d' = rate d ∧ dsbyte d' = dsbyte d ∧ outputLen d' = outputLen d.

Lemma permute_absorbs full tl d :
  rate_ok (rate d) → (length full mod rate d = 0)%nat → length tl = rate d →
  a d = absorb (replicate 25 0) (blocks (rate d) full) → buf d = tl →
  length (storage d) = maxRate → dir d = spongeAbsorbing →
  absorbs (full ++ tl) (permute d) ∧ same_kind d (permute d)
  ∧ a (permute d) = absorb (replicate 25 0) (blocks (rate d) (full ++ tl)).
Proof.
  intros Hr Hf Ht Ha Hb Hs Hd. unfold permute. rewrite Hd.
  assert (keccakF1600 (xorInGeneric (a d) (buf d)) = absorb (replicate 25 0) (blocks (rate d) (full ++ tl))) as E.
  { by rewrite absorb_snoc, Ha, Hb. }
  split_and!; [|done|exact E]. exists (full ++ tl), []. simpl. rewrite app_nil_r, length_app, Ht.
  split_and!; try done; [apply mod_add_r; [apply Hr|done]|apply Hr].
Qed.

Lemma write_loop_absorbs fuel p m d :
  rate_ok (rate d) → absorbs m d → (length p ≤ fuel)%nat →
  ∃ d', write_loop fuel p d = Ok d' ∧ absorbs (m ++ p) d' ∧ same_kind d d'.
Proof.
  revert p m d. induction fuel as [|fuel IH]; intros p m d Hr Hm Hp.
  { destruct p; [|simpl in Hp; lia]. exists d. by rewrite app_nil_r. }
  destruct p as [|x p]; [exists d; by rewrite app_nil_r|]. cbn [write_loop]. set (q := x :: p) in *.
  assert (0 < length q)%nat as Hq by (simpl; lia). clearbody q. clear x p.
  destruct Hm as (full & tl & -> & Hf & Ht & Ha & Hlo & Hhi & Hst & Hsl & Hd).
  destruct Hr as [[Hr0 Hr1] Hr8]. rewrite Hlo, Hhi, Nat.sub_0_r.
  assert (∀ d' p', same_kind d d' → absorbs (full ++ tl ++ take p' q) d' → (0 < p')%nat →
    ∃ d'', write_loop fuel (drop p' q) d' = Ok d'' ∧ absorbs ((full ++ tl) ++ q) d'' ∧ same_kind d d'')
    as Hrest.
  { intros d' p' (K1 & K2 & K3) Hab Hp'.
    destruct (IH (drop p' q) _ d' ltac:(by rewrite K1) Hab) as (d'' & E & Hab' & (L1 & L2 & L3)).
    { rewrite length_drop. lia. }
    exists d''. split_and!; [done| |unfold same_kind; split_and!; congruence].
    rewrite <- !(assoc_L (++)), take_drop in Hab'. by rewrite <- (assoc_L (++)). }
  destruct ((length tl =? 0)%nat && (rate d <=? length q)%nat) eqn:Efast.
  - apply andb_true_iff in Efast as [E1%Nat.eqb_eq E2%Nat.leb_le]. destruct tl; [|done].
    apply Hrest; [done| |lia]. exists (full ++ take (rate d) q), [].
    assert (length (take (rate d) q) = rate d) as Hl by (rewrite length_take; lia).
    simpl. rewrite app_nil_r, length_app, Hl, Ha, absorb_snoc by done. split_and!; try done.
    by apply mod_add_r.
  - set (todo := Nat.min (rate d - length tl) (length q)).
    assert (length (take todo q) = todo) as Hl by (rewrite length_take; lia).
    cbn [hi lo set_buf rate set_storage]. rewrite ?Hlo, ?Nat.sub_0_r.
    set (st := overwrite (length tl) (take todo q) (storage d)).
    assert (take (length tl + todo) st = tl ++ take todo q) as Htk.
    { rewrite <- Hl at 1. unfold st. rewrite take_overwrite by (rewrite Hl, Hsl; lia). by rewrite Hst. }
    assert (length st = maxRate) as Hlst by (unfold st; rewrite length_overwrite; [done|rewrite Hl, Hsl; lia]).
    destruct (Nat.eqb_spec (length tl + todo) (rate d)) as [Efull|Eno].
    + edestruct (permute_absorbs full (tl ++ take todo q) (set_buf O (length tl + todo) (set_storage st d)))
        as (Hab & Hk & _); try done.
      * by rewrite length_app, Hl.
      * unfold buf. simpl. by rewrite Nat.sub_0_r, drop_0.
      * apply Hrest; [|done|lia]. by destruct Hk as (? & ? & ?).
    + apply Hrest; [done| |lia]. exists full, (tl ++ take todo q). simpl. rewrite length_app, Hl.
      split_and!; try done. lia.
Qed.

Lemma write_all_absorbs data m d :
  rate_ok (rate d) → absorbs m d →
  ∃ d', write_all data d = Ok d' ∧ absorbs (m ++ concat data) d' ∧ same_kind d d'.
Proof.
  revert m d. induction data as [|b data IH]; intros m d Hr Hm.
  { exists d. by rewrite app_nil_r. }
  destruct (write_loop_absorbs (length b) b m d Hr Hm ltac:(lia)) as (d1 & E1 & Hm1 & (K1 & K2 & K3)).
  destruct (IH (m ++ b) d1 ltac:(by rewrite K1) Hm1) as (d2 & E2 & Hm2 & (L1 & L2 & L3)).
  exists d2. simpl. unfold Write. destruct Hm as (? & ? & _ & _ & _ & _ & _ & _ & _ & _ & ->).
  rewrite E1. simpl. rewrite E2, (assoc_L (++)). split_and!; [done|done|unfold same_kind; split_and!; congruence].
Qed.

Lemma new_absorbs r n ds : (0 < r)%nat → absorbs [] (new r n ds).
Proof.
  intros Hr. exists [], []. cbn [rate new length]. rewrite Nat.Div0.mod_0_l. split_and!; try done.
  unfold blocks. cbn [length]. by rewrite Nat.Div0.div_0_l.
Qed.

(** A sponge that is squeezed: [A] is its state and the rest of the current
    output block is in [buf]. *)
Definition squeezes (A : list Z) (d : state) : Prop :=
  a d = A ∧ length A = 25%nat ∧ (lo d < rate d)%nat ∧ hi d = rate d ∧ length (storage d) = maxRate
  ∧ take (rate d) (storage d) = take (rate d) (concat (map le_put A)) ∧ dir d = spongeSqueezing.

Lemma refill_squeezes d :
  rate_ok (rate d) → length (a d) = 25%nat → length (storage d) = maxRate → dir d = spongeSqueezing →
  squeezes (a d) (refill d) ∧ lo (refill d) = O ∧ same_kind d (refill d).
Proof.
  intros [[Hr0 Hr1] Hr8] Ha Hs Hd.
  assert (length (take (rate d) (storage d)) = rate d) as Hl by (rewrite length_take; lia).
  assert (copyOutGeneric (a d) (take (rate d) (storage d)) = take (rate d) (concat (map le_put (a d)))) as E.
  { rewrite copyOutGeneric_spec; rewrite Hl; [done|done|]. unfold maxRate in *. lia. }
  assert (length (take (rate d) (concat (map le_put (a d)))) = rate d) as Hl'.
  { rewrite length_take, length_concat_lanes, Ha. unfold maxRate in *. lia. }
  split_and!; [|done|done]. unfold squeezes, refill. cbn [a set_buf set_storage lo rate hi storage dir].
  rewrite E. split_and!; try done.
  - rewrite length_app, length_drop, Hl'. lia.
  - by rewrite take_app_le, take_ge by lia.
Qed.

Lemma pad_block full tl r ds :
  (0 < r)%nat → (length full mod r = 0)%nat → (length tl < r)%nat →
  ∃ blk, pad r ds (full ++ tl) = full ++ blk ∧ length blk = r ∧
    overwrite (r - 1)
      [zb (bz (nth (r - 1) (tl ++ ds :: replicate (r - S (length tl)) x00) x00) ⊕ 0x80)]
      (tl ++ ds :: replicate (r - S (length tl)) x00) = blk.
Proof.
  intros Hr Hf Ht. set (q := (r - length tl)%nat).
  assert ((length (full ++ tl)) mod r = length tl)%nat as Hm.
  { apply Nat.Div0.div_exact in Hf. rewrite length_app, Hf, Nat.add_comm, Nat.mul_comm, Nat.Div0.mod_add.
    by apply Nat.mod_small. }
  unfold pad. rewrite Hm. fold q. rewrite <- (assoc_L (++)). eexists. split; [done|].
  destruct (Nat.eqb_spec q 1) as [E|E].
  - replace (r - S (length tl))%nat with 0%nat by lia. replace (r - 1)%nat with (length tl) by lia.
    rewrite app_nth2, Nat.sub_diag by lia. cbn [nth replicate]. split; [rewrite length_app; simpl; lia|].
    unfold overwrite. by rewrite take_app_length, (drop_ge (tl ++ [ds])), app_nil_r by (rewrite length_app; simpl; lia).
  - split. { rewrite length_app. simpl. rewrite length_app, length_replicate. simpl. lia. }
    replace (r - S (length tl))%nat with (q - 2 + 1)%nat by lia. rewrite replicate_add. simpl.
    set (pre := tl ++ ds :: replicate (q - 2) x00).
    assert (tl ++ ds :: replicate (q - 2) x00 ++ [x00] = pre ++ [x00]) as -> by (unfold pre; by rewrite <- (assoc_L (++))).
    assert (r - 1 = length pre)%nat as -> by (unfold pre; rewrite length_app; simpl; rewrite length_replicate; lia).
    rewrite app_nth2, Nat.sub_diag by lia. unfold overwrite.
    rewrite take_app_length, (drop_ge (pre ++ [x00])), app_nil_r by (rewrite length_app; simpl; lia).
    unfold pre. by rewrite <- (assoc_L (++)).
Qed.

Lemma overwrite_take n i b s :
  (i + length b ≤ n)%nat → (n ≤ length s)%nat → take n (overwrite i b s) = overwrite i b (take n s).
Proof.
  intros Hi Hn. unfold overwrite. rewrite take_take, Nat.min_l by lia.
  rewrite take_app_ge by (rewrite length_take; lia). f_equal.
  rewrite length_take, Nat.min_l by lia. rewrite take_app_ge by lia. f_equal.
  rewrite take_drop_commute. do 2 f_equal. lia.
Qed.

Lemma nth_take {A : Type} (n i : nat) (l : list A) (x : A) : (i < n)%nat → nth i (take n l) x = nth i l x.
Proof. revert n i. induction l as [|y l IH]; intros [|n] [|i] H; simpl; try done; try lia. apply IH. lia. Qed.

Lemma padAndPermute_squeezes m d :
  rate_ok (rate d) → absorbs m d →
  squeezes (absorb (replicate 25 0) (blocks (rate d) (pad (rate d) (dsbyte d) m))) (padAndPermute d)
  ∧ lo (padAndPermute d) = O ∧ same_kind d (padAndPermute d).
Proof.
  intros Hr (full & tl & -> & Hf & Ht & Ha & Hlo & Hhi & Hst & Hsl & Hd).
  destruct (pad_block full tl (rate d) (dsbyte d)) as (blk & -> & Hbl & Hblk); [apply Hr|done|done|].
  unfold padAndPermute. rewrite Hhi.
  set (s1 := overwrite (length tl) _ (storage d)).
  assert (length (dsbyte d :: replicate (rate d - S (length tl)) x00) = rate d - length tl)%nat as Hl1.
  { simpl. rewrite length_replicate. lia. }
  assert (length tl + (rate d - length tl) ≤ length (storage d))%nat as Hle.
  { rewrite Hsl. destruct Hr as [[_ ?] _]. lia. }
  assert (take (rate d) s1 = tl ++ dsbyte d :: replicate (rate d - S (length tl)) x00) as Ht1.
  { replace (rate d) with (length tl + (rate d - length tl))%nat at 1 by lia. rewrite <- Hl1 at 1. unfold s1.
    rewrite take_overwrite by (rewrite Hl1; lia). by rewrite Hst. }
  assert (length s1 = maxRate) as Hs1 by (unfold s1; rewrite length_overwrite; [done|rewrite Hl1; lia]).
  rewrite <- Ht1, nth_take in Hblk by lia.
  set (last := [_]) in *. destruct Hr as [[Hr0 Hr1] Hr8].
  assert (length last = 1%nat) as Hlast by done. clearbody last.
  rewrite <- overwrite_take in Hblk by lia.
  set (d1 := set_buf 0 (rate d) (set_storage (overwrite (rate d - 1) last s1) d)).
  assert (length (storage d1) = maxRate) as Hsd1.
  { simpl. rewrite length_overwrite by lia. done. }
  edestruct (permute_absorbs full blk d1) as (_ & (K1 & K2 & K3) & Ea); try done.
  { unfold buf. simpl. by rewrite Nat.sub_0_r, drop_0. }
  destruct (refill_squeezes (set_dir spongeSqueezing (permute d1))) as (Hsq & Hlo' & (L1 & L2 & L3)).
  - simpl. by rewrite K1.
  - simpl. rewrite Ea. by apply length_absorb.
  - unfold permute. simpl. rewrite Hd. exact Hsd1.
  - done.
  - split_and!; [|done|unfold same_kind; split_and!; simpl in *; congruence].
    simpl in Hsq. by rewrite Ea in Hsq.
Qed.

Lemma read_loop_squeeze fuel n A d k :
  rate_ok (rate d) → squeezes A d → (n ≤ fuel)%nat → (lo d + n ≤ S k * rate d)%nat →
  ∃ d', read_loop fuel n d = Ok (take n (drop (lo d) (squeeze (rate d) (S k) A)), d').
Proof.
  revert n A d k. induction fuel as [|fuel IH]; intros n A d k Hr Hsq Hn Hk.
  { destruct n; [|lia]. exists d. by rewrite take_0. }
  destruct n as [|n]; [exists d; by rewrite take_0|]. cbn [read_loop].
  destruct Hsq as (Ha & Hl & Hlo & Hhi & Hs & Ht & Hd). rewrite Hhi.
  set (j := Nat.min (S n) (rate d - lo d)). set (blk := take (rate d) (concat (map le_put A))) in *.
  assert (length blk = rate d) as Hlb.
  { unfold blk. rewrite length_take, length_concat_lanes, Hl. destruct Hr as [[_ ?] _]. unfold maxRate in *. lia. }
  assert (buf d = drop (lo d) blk) as Hb.
  { unfold buf. rewrite Hhi, <- Ht, take_drop_commute. do 2 f_equal. lia. }
  rewrite Hb. cbn [hi lo set_buf]. cbn [squeeze]. fold blk.
  destruct (Nat.eqb_spec (rate d - (lo d + j)) 0) as [E|E].
  - set (d1 := set_buf (lo d + j) (rate d) d).
    destruct (refill_squeezes (set_a (keccakF1600 (a d1)) d1)) as (Hsq1 & Hlo1 & (K1 & _)); [done| |done|done|].
    { simpl. apply keccakF1600_rounds. by rewrite Ha. }
    assert (permute d1 = refill (set_a (keccakF1600 (a d1)) d1)) as Ep by (unfold permute; simpl; by rewrite Hd).
    rewrite <- Ep in Hsq1, Hlo1, K1. simpl in Hsq1, K1. rewrite Ha in Hsq1.
    destruct k as [|k].
    + assert (S n - j = 0)%nat as -> by lia. exists (permute d1).
      assert (read_loop fuel 0 (permute d1) = Ok ([], permute d1)) as -> by (by destruct fuel).
      simpl. rewrite !app_nil_r. f_equal. f_equal. f_equal. lia.
    + destruct (IH (S n - j)%nat (keccakF1600 A) (permute d1) k) as (d2 & ->); [by rewrite K1|done|lia|rewrite Hlo1, K1; lia|].
      exists d2. cbn [rbind]. rewrite Hlo1, drop_0, K1. rewrite (proj2 (keccakF1600_rounds A Hl)).
      f_equal. f_equal. rewrite (drop_app_le blk) by lia. rewrite (take_app_ge (drop _ blk)) by (rewrite length_drop; lia).
      rewrite length_drop, Hlb. f_equal; [apply take_ge; rewrite length_drop; lia|].
      replace j with (rate d - lo d)%nat by lia. done.
  - assert (j = S n) as -> by lia. rewrite Nat.sub_diag. eexists.
    destruct fuel; simpl; rewrite app_nil_r, drop_app_le, take_app_le by (rewrite ?length_drop; lia); done.
Qed.

Lemma Sum_absorbs inp m d :
  rate_ok (rate d) → absorbs m d →
  Sum inp d = Ok (inp ++ sponge (rate d) (dsbyte d) (outputLen d) m).
Proof.
  intros Hr Hm. destruct (padAndPermute_squeezes m d Hr Hm) as (Hsq & Hlo & (K1 & K2 & K3)).
  pose proof Hm as (full & tl & _ & _ & _ & _ & Hlo0 & _ & _ & _ & Hd).
  assert (clone d = Ok d) as E.
  { unfold clone. rewrite Hd, Hlo0, Nat.sub_0_r. destruct d. simpl in *. by subst. }
  unfold Sum. rewrite E. cbn [rbind]. unfold Read. rewrite Hd.
  destruct (read_loop_squeeze (outputLen d) (outputLen d) _ _ (outputLen d / rate d) ltac:(by rewrite K1) Hsq)
    as (d' & ->); [lia| |].
  - rewrite Hlo, K1. destruct Hr as [[Hr0 _] _].
    pose proof (Nat.div_mod (outputLen d) (rate d) ltac:(lia)).
    pose proof (Nat.mod_upper_bound (outputLen d) (rate d) ltac:(lia)). simpl. lia.
  - cbn [rbind]. unfold sponge. by rewrite Hlo, drop_0, K1, Nat.add_1_r.
Qed.

(** [crypto.Keccak256] always gives the 32 bytes of the sponge. *)
Lemma Keccak256_sponge data : Keccak256 data = Ok (sponge 136 x01 32 (concat data)).
Proof.
  assert (rate_ok 136) as Hr by (split; [unfold maxRate; lia|done]).
  unfold Keccak256. destruct (write_all_absorbs data [] NewKeccak256) as (d & -> & Hd & (K1 & K2 & K3)); [done|apply new_absorbs; lia|].
  cbn [rbind]. rewrite (Sum_absorbs [] (concat data)) by (done || by rewrite K1). by rewrite K1, K2, K3.
Qed.

Lemma length_sponge_256 m : length (sponge 136 x01 32 m) = 32%nat.
Proof.
  unfold sponge. set (A := absorb _ _). assert (length A = 25%nat) as HA by by apply length_absorb.
  change (32 / 136 + 1)%nat with 1%nat. cbn [squeeze]. rewrite app_nil_r, !length_take, length_concat_lanes, HA. done.
Qed.

(** C33: whatever the pieces the input is written in, [Sum] appends the digest of
    the reference sponge over the whole input: the fast path, the buffering, the
    padding and the squeezing of the source implement it for every rate that is
    a whole number of lanes within the storage. *)
Theorem Write_Sum_sponge r n ds data inp :
  rate_ok r →
  (let? d := write_all data (new r n ds) in Sum inp d) = Ok (inp ++ sponge r ds n (concat data)).
Proof.
  intros Hr. destruct (write_all_absorbs data [] (new r n ds)) as (d & -> & Hd & (K1 & K2 & K3)); [done|apply new_absorbs, Hr|].
  cbn [rbind]. rewrite (Sum_absorbs inp (concat data)) by (done || by rewrite K1). by rewrite K1, K2, K3.
Qed.

Lemma Write_Sum_sponge_witness :
  (let? d := write_all [[x61]; [x62; x63]] (new 136 32 x01) in Sum [x2a] d)
  = Ok ([x2a] ++ sponge 136 x01 32 [x61; x62; x63]).
Proof. apply (Write_Sum_sponge 136 32 x01 [[x61]; [x62; x63]] [x2a]). split; [|done]. unfold maxRate. lia. Defined.

(** The digest of the empty input. *)
Example Keccak256_empty :
  Keccak256 []
  = Ok [xc5; xd2; x46; x01; x86; xf7; x23; x3c; x92; x7e; x7d; xb2; xdc; xc7; x03; xc0;
        xe5; x00; xb6; x53; xca; x82; x27; x3b; x7b; xfa; xd8; x04; x5d; x85; xa4; x70].
Proof. vm_compute. reflexivity. Qed.

(** [clone] of a sponge that is being squeezed is a copy only for the rate
    168: it computes the start of the unread output as if the capacity of [buf]
    ended at the rate, not at the end of the storage.  For a smaller rate it
    panics while fewer than 168 - rate bytes have been read, and afterwards
    gives back 168 - rate bytes already read. *)
Theorem clone_squeezing d :
  dir d = spongeSqueezing → (lo d ≤ hi d)%nat → hi d = rate d → (rate d ≤ maxRate)%nat →
  clone d = if decide (lo d < maxRate - rate d)%nat then Panic
            else Ok (set_buf (lo d - (maxRate - rate d)) (hi d) d).
Proof.
  intros Hd Hlo Hhi Hr. unfold clone. rewrite Hd.
  destruct (Nat.ltb_spec (rate d) (maxRate - lo d)); case_decide; try lia; [done|].
  do 2 f_equal; [lia|done].
Qed.

Lemma clone_squeezing_witness :
  (let? (_, d) := Read 1 NewShake256 in clone d) = Panic.
Proof.
  assert (∃ d, Read 1 NewShake256 = Ok ([nth 0 (sponge 136 x1f 1 []) x00], d)
            ∧ dir d = spongeSqueezing ∧ lo d = 1%nat ∧ hi d = 136%nat ∧ rate d = 136%nat) as (d & E & H1 & H2 & H3 & H4).
  { eexists. split; [vm_compute; reflexivity|]. done. }
  rewrite E. cbn [rbind]. rewrite (clone_squeezing d); rewrite ?H1, ?H2, ?H3, ?H4; unfold maxRate; try lia; done.
Defined.

End Sha3.
