(* ===== verification/CoreTypes.v ===== *)
(** Block data (src/core/types/block.go, transaction.go, istanbul.go and
    src/common/types.go): headers, transactions and blocks with their RLP form,
    header hashing with the Istanbul rules, and the consensus data kept in the
    header's extra field. *)

From S2P Require Import Prelude RlpEncode RlpRaw RlpDecode RlpRoundtrip RlpTotal KeccakF Sha3.

Module Codec.
Import Rlp Raw Dec Roundtrip Total.

(** ** Values with an RLP form

    The interface between a data type and the rlp package: the Go type the
    encoder and decoder see and the conversions to and from it. *)
Class Codec (A : Type) := {
  ctyp : typ;
  to_val : A → val;
  of_val : val → option A;
  of_to : ∀ a, of_val (to_val a) = Some a }.

(** [rlp.EncodeToBytes] and [rlp.DecodeBytes] at such a type. *)
Definition encode {A} `{Codec A} (a : A) : result encErr bytes := EncodeToBytes ctyp (to_val a).
Definition decode {A} `{Codec A} (b : bytes) : result rlpErr A :=
  let? v := DecodeBytes ctyp b in
  match of_val v with Some a => Ok a | None => Panic end.

(** The values with an encoding below 2^64 bytes that decoding gives back. *)
Definition encodable {A} `{Codec A} (a : A) : Prop :=
  wt ctyp (to_val a) ∧ dec_ok ctyp (to_val a) ∧ ∃ bs, rlp ctyp (to_val a) = Some bs ∧ zlen bs < 2 ^ 64.

Lemma encode_decode {A} `{Codec A} (a : A) :
  encodable a → ∃ bs, encode a = Ok bs ∧ decode bs = Ok a.
Proof.
  intros (Hwt & Hok & bs & Hbs & Hlen). exists bs. unfold encode, decode.
  destruct (decode_encode ctyp (to_val a) bs) as [-> ->]; [done..|]. simpl. by rewrite of_to.
Qed.

(** [rlpHash] and [RLPHash]: an encoding error leaves the hash of no input.
    The pieces [rlp.Encode] writes to the hash are those of [toBytes]. *)
Definition hash256 (data : list bytes) : bytes :=
  match Sha3.Keccak256 data with Ok h => h | _ => [] end.
Lemma length_hash256 data : length (hash256 data) = 32%nat.
Proof. unfold hash256. rewrite Sha3.Keccak256_sponge. apply Sha3.length_sponge_256. Qed.
Definition rlpHash {A} `{Codec A} (a : A) : bytes :=
  hash256 [match encode a with Ok b => b | _ => [] end].

(** Lists of byte arrays, as [[]common.Address] and [[][]byte]. *)
Fixpoint of_list {A} (f : val → option A) (vs : list val) : option (list A) :=
  match vs with
  | [] => Some []
  | v :: vs => a ← f v; l ← of_list f vs; Some (a :: l)
  end.

Lemma of_list_map {A} (f : val → option A) (g : A → val) l :
  (∀ a, f (g a) = Some a) → of_list f (map g l) = Some l.
Proof. intros Hf. induction l as [|a l IH]; [done|]. simpl. by rewrite Hf, IH. Qed.

Definition of_bytes (v : val) : option bytes :=
  match v with VBytes b | VByteArray b => Some b | _ => None end.

(** ** Codecs without a crash *)

(** A codec whose Go type is decoded in finite time, and whose conversions cover
    every value of that type the decoder returns. *)
Class TotalCodec (A : Type) `{Codec A} := {
  ctyp_finite : finite_typ ctyp = true;
  to_val_shaped : ∀ a : A, shaped ctyp (to_val a) = true;
  of_val_decoded : ∀ v, decoded ctyp v → is_Some (of_val v) }.

Lemma encode_no_crash {A} `{TotalCodec A} (a : A) : ¬ is_crash (encode a).
Proof. apply EncodeToBytes_no_crash, to_val_shaped. Qed.

Lemma decode_no_crash {A} `{TotalCodec A} b : ¬ is_crash (decode (A:=A) b).
Proof.
  unfold decode. destruct (DecodeBytes_ends ctyp b ctyp_finite) as [(v & -> & Hv)|[e ->]]; simpl.
  - destruct (of_val_decoded v Hv) as [a ->]. by intros [|].
  - by intros [|].
Qed.

(** Values of the shapes the types ask for. *)
Ltac inv_decoded :=
  repeat (match goal with
  | H : _ ∧ _ |- _ => destruct H
  | H : context [match ?x with _ => _ end] |- _ => is_var x; destruct x
  end; simpl in *; try done).

Lemma of_list_decoded {A} (f : val → option A) (P : val → Prop) vs :
  Forall P vs → (∀ v, P v → is_Some (f v)) → is_Some (of_list f vs).
Proof.
  intros Hvs Hf. induction Hvs as [|v vs Hv _ [l IH]]; [by eexists|].
  simpl. destruct (Hf v Hv) as [a ->]. simpl. rewrite IH. by eexists.
Qed.

End Codec.

Module Types.
Import Rlp Raw Dec Roundtrip Total Codec.

(** ** src/common/types.go *)

Definition AddressLength : nat := 20.
Definition HashLength : nat := 32.

(** The last [n] bytes of [b], filled up with zeros on the left: [SetBytes] on a fresh array. *)
Definition set_bytes (n : nat) (b : bytes) : bytes :=
  let b := if (n <? length b)%nat then drop (length b - n) b else b in
  replicate (n - length b) x00 ++ b.
Definition BytesToHash (b : bytes) : bytes := set_bytes HashLength b.
Definition BytesToAddress (b : bytes) : bytes := set_bytes AddressLength b.

Definition emptyHash : bytes := replicate HashLength x00.
Definition emptyAddr : bytes := replicate AddressLength x00.
Definition EmptyHash (h : bytes) : bool := bool_decide (h = emptyHash).

(** ** Headers

    The integer fields are never nil: headers are decoded, or built by the
    engine with every field set. *)
Record Header := mkHeader {
  ParentHash : bytes;
  UncleHash : bytes;
  Coinbase : bytes;
  Root : bytes;
  TxHash : bytes;
  ReceiptHash : bytes;
  Bloom : bytes;
  Difficulty : Z;
  Number : Z;
  GasLimit : Z;
  GasUsed : Z;
  Time : Z;
  Extra : bytes;
  MixDigest : bytes;
  Nonce : bytes }.

Definition header_typ : typ :=
  TStruct [TByteArray 32; TByteArray 32; TByteArray 20; TByteArray 32; TByteArray 32; TByteArray 32;
           TByteArray 256; TBigInt; TBigInt; TBigInt; TBigInt; TBigInt; TBytes; TByteArray 32; TByteArray 8].
Definition header_val (h : Header) : val :=
  VStruct [VByteArray (ParentHash h); VByteArray (UncleHash h); VByteArray (Coinbase h);
           VByteArray (Root h); VByteArray (TxHash h); VByteArray (ReceiptHash h); VByteArray (Bloom h);
           VBig (Some (Difficulty h)); VBig (Some (Number h)); VBig (Some (GasLimit h));
           VBig (Some (GasUsed h)); VBig (Some (Time h)); VBytes (Extra h);
           VByteArray (MixDigest h); VByteArray (Nonce h)].
Definition of_header_val (v : val) : option Header :=
  match v with
  | VStruct [VByteArray a; VByteArray b; VByteArray c; VByteArray d; VByteArray e; VByteArray f;
             VByteArray g; VBig (Some h); VBig (Some i); VBig (Some j); VBig (Some k); VBig (Some l);
             VBytes m; VByteArray n; VByteArray o] =>
      Some (mkHeader a b c d e f g h i j k l m n o)
  | _ => None
  end.

Lemma of_to_header x : of_header_val (header_val x) = Some x.
Proof. by destruct x. Qed.
#[global] Instance header_codec : Codec Header :=
  {| ctyp := header_typ; to_val := header_val; of_val := of_header_val; of_to := of_to_header |}.

Definition set_Extra (x : bytes) (h : Header) : Header :=
  mkHeader (ParentHash h) (UncleHash h) (Coinbase h) (Root h) (TxHash h) (ReceiptHash h) (Bloom h)
    (Difficulty h) (Number h) (GasLimit h) (GasUsed h) (Time h) x (MixDigest h) (Nonce h).

(** The byte arrays have their lengths and the integers are not negative. *)
Definition header_wf (h : Header) : Prop :=
  length (ParentHash h) = 32%nat ∧ length (UncleHash h) = 32%nat ∧ length (Coinbase h) = 20%nat ∧
  length (Root h) = 32%nat ∧ length (TxHash h) = 32%nat ∧ length (ReceiptHash h) = 32%nat ∧
  length (Bloom h) = 256%nat ∧ 0 ≤ Difficulty h ∧ 0 ≤ Number h ∧ 0 ≤ GasLimit h ∧ 0 ≤ GasUsed h ∧
  0 ≤ Time h ∧ length (MixDigest h) = 32%nat ∧ length (Nonce h) = 8%nat.

(** ** Istanbul extra data (src/core/types/istanbul.go) *)

Definition IstanbulDigest : bytes :=
  [x63; x74; x69; x63; x61; x6c; x20; x62; x79; x7a; x61; x6e; x74; x69; x6e; x65;
   x20; x66; x61; x75; x6c; x74; x20; x74; x6f; x6c; x65; x72; x61; x6e; x63; x65].
Definition IstanbulExtraVanity : nat := 32.
Definition IstanbulExtraSeal : nat := 65.

Record IstanbulExtra := mkExtra {
  Validators : list bytes;
  Seal : bytes;
  CommittedSeal : list bytes }.

Definition extra_typ : typ := TStruct [TSlice (TByteArray 20); TBytes; TSlice TBytes].
Definition extra_val (e : IstanbulExtra) : val :=
  VStruct [VSlice (map VByteArray (Validators e)); VBytes (Seal e); VSlice (map VBytes (CommittedSeal e))].
Definition of_extra_val (v : val) : option IstanbulExtra :=
  match v with
  | VStruct [VSlice vs; VBytes s; VSlice cs] =>
      vs ← of_list of_bytes vs; cs ← of_list of_bytes cs; Some (mkExtra vs s cs)
  | _ => None
  end.

Lemma of_to_extra x : of_extra_val (extra_val x) = Some x.
Proof. destruct x. simpl. by rewrite !of_list_map. Qed.
#[global] Instance extra_codec : Codec IstanbulExtra :=
  {| ctyp := extra_typ; to_val := extra_val; of_val := of_extra_val; of_to := of_to_extra |}.

Inductive typesErr := ErrInvalidIstanbulHeaderExtra | ErrRlp (e : rlpErr).

Definition ExtractIstanbulExtra (h : Header) : result typesErr IstanbulExtra :=
  if (length (Extra h) <? IstanbulExtraVanity)%nat then Err ErrInvalidIstanbulHeaderExtra
  else match decode (drop IstanbulExtraVanity (Extra h)) with
       | Ok e => Ok e
       | Err e => Err (ErrRlp e)
       | Panic => Panic
       | NoFuel => NoFuel
       end.

Definition IstanbulFilteredHeader (h : Header) (keepSeal : bool) : option Header :=
  match ExtractIstanbulExtra h with
  | Ok e =>
      let e := mkExtra (Validators e) (if keepSeal then Seal e else []) [] in
      match encode e with
      | Ok payload => Some (set_Extra (take IstanbulExtraVanity (Extra h) ++ payload) h)
      | _ => None
      end
  | _ => None
  end.

(** [Header.Hash]. *)
Definition header_Hash (h : Header) : bytes :=
  if bool_decide (MixDigest h = IstanbulDigest) then
    match IstanbulFilteredHeader h true with
    | Some h' => rlpHash h'
    | None => rlpHash h
    end
  else rlpHash h.

(** ** Transactions and blocks

    The contents of a transaction and of a block; the cached hash and size are
    functions of them. *)
Record txdata := mkTx {
  AccountNonce : Z;
  Price : Z;
  tx_GasLimit : Z;
  Recipient : option bytes;
  Amount : Z;
  Payload : bytes;
  V : Z;
  R : Z;
  S_ : Z }.

Definition tx_typ : typ :=
  TStruct [TUint 64; TBigInt; TBigInt; TPtrNil (TByteArray 20); TBigInt; TBytes; TBigInt; TBigInt; TBigInt].
Definition tx_val (t : txdata) : val :=
  VStruct [VUint (AccountNonce t); VBig (Some (Price t)); VBig (Some (tx_GasLimit t));
           VPtr (VByteArray <$> Recipient t); VBig (Some (Amount t)); VBytes (Payload t);
           VBig (Some (V t)); VBig (Some (R t)); VBig (Some (S_ t))].
Definition of_tx_val (v : val) : option txdata :=
  match v with
  | VStruct [VUint n; VBig (Some p); VBig (Some g); VPtr to; VBig (Some a); VBytes d;
             VBig (Some v); VBig (Some r); VBig (Some s)] =>
      to ← match to with
           | None => Some None
           | Some (VByteArray b) => Some (Some b)
           | _ => None
           end;
      Some (mkTx n p g to a d v r s)
  | _ => None
  end.

Lemma of_to_tx x : of_tx_val (tx_val x) = Some x.
Proof. by destruct x as [? ? ? []]. Qed.
#[global] Instance tx_codec : Codec txdata :=
  {| ctyp := tx_typ; to_val := tx_val; of_val := of_tx_val; of_to := of_to_tx |}.

Definition tx_Hash (t : txdata) : bytes := rlpHash t.

Record Block := mkBlock {
  header : Header;
  transactions : list txdata;
  uncles : list Header }.

Definition of_ptr {A} (f : val → option A) (v : val) : option A :=
  match v with VPtr (Some v) => f v | _ => None end.
Definition ptr_to (v : val) : val := VPtr (Some v).

Definition block_typ : typ :=
  TStruct [TPtr header_typ; TSlice (TPtr tx_typ); TSlice (TPtr header_typ)].
Definition block_val (b : Block) : val :=
  VStruct [ptr_to (header_val (header b)); VSlice (map (fun t => ptr_to (tx_val t)) (transactions b));
           VSlice (map (fun h => ptr_to (header_val h)) (uncles b))].
Definition of_block_val (v : val) : option Block :=
  match v with
  | VStruct [h; VSlice txs; VSlice us] =>
      h ← of_ptr of_header_val h;
      txs ← of_list (of_ptr of_tx_val) txs;
      us ← of_list (of_ptr of_header_val) us;
      Some (mkBlock h txs us)
  | _ => None
  end.

Lemma of_to_block x : of_block_val (block_val x) = Some x.
Proof.
  destruct x as [h txs us]. unfold block_val, of_block_val, ptr_to. cbn [of_ptr header transactions uncles].
  rewrite of_to_header. cbn [mbind option_bind].
  rewrite (of_list_map (of_ptr of_tx_val)) by apply of_to_tx. cbn [mbind option_bind].
  by rewrite (of_list_map (of_ptr of_header_val)) by apply of_to_header.
Qed.
#[global] Instance block_codec : Codec Block :=
  {| ctyp := block_typ; to_val := block_val; of_val := of_block_val; of_to := of_to_block |}.

Definition block_Number (b : Block) : Z := Number (header b).
Definition block_Hash (b : Block) : bytes := header_Hash (header b).
Definition WithSeal (b : Block) (h : Header) : Block := mkBlock h (transactions b) (uncles b).

(** ** No crash *)

Lemma of_ptr_decoded {A} (f : val → option A) t :
  (∀ v, decoded t v → is_Some (f v)) → ∀ v, decoded (TPtr t) v → is_Some (of_ptr f v).
Proof. intros Hf v Hv. simpl in Hv. destruct v as [| | | | | | | | | |[v|]|]; try done. by apply Hf. Qed.

Lemma header_decoded v : decoded header_typ v → is_Some (of_header_val v).
Proof. intros Hv. unfold header_typ in Hv. simpl in Hv. inv_decoded. Qed.
Lemma tx_decoded v : decoded tx_typ v → is_Some (of_tx_val v).
Proof. intros Hv. unfold tx_typ in Hv. simpl in Hv. inv_decoded. Qed.
Lemma header_shaped h : shaped header_typ (header_val h) = true.
Proof. done. Qed.
Lemma tx_shaped t : shaped tx_typ (tx_val t) = true.
Proof. by destruct t as [? ? ? []]. Qed.

Lemma block_decoded v : decoded block_typ v → is_Some (of_block_val v).
Proof.
  intros Hv. unfold block_typ in Hv. cbn [decoded] in Hv.
  destruct v as [| | | | | | | | |l| |]; try done. destruct l as [|h [|txs [|us [|]]]]; try by destruct_and? Hv.
  destruct Hv as (Hh & Htxs & Hus & _). destruct txs as [| | | | | | |txs| | | |]; try done.
  destruct us as [| | | | | | |us| | | |]; try done. unfold of_block_val.
  destruct (of_ptr_decoded of_header_val header_typ header_decoded h Hh) as [h' ->]. cbn [mbind option_bind].
  destruct (of_list_decoded (of_ptr of_tx_val) _ txs Htxs (of_ptr_decoded _ tx_typ tx_decoded)) as [txs' ->].
  cbn [mbind option_bind].
  destruct (of_list_decoded (of_ptr of_header_val) _ us Hus (of_ptr_decoded _ header_typ header_decoded)) as [us' ->].
  by eexists.
Qed.

Lemma block_shaped b : shaped block_typ (block_val b) = true.
Proof.
  unfold block_typ, block_val, ptr_to. cbn [shaped]. rewrite header_shaped. simpl.
  rewrite !andb_true_iff, !forallb_forall. split_and!; [|..|done]; intros v (x & <- & _)%in_map_iff.
  - exact (tx_shaped x).
  - done.
Qed.

#[global] Instance extra_total : TotalCodec IstanbulExtra.
Proof.
  split; [done| |].
  - intros [vs s cs]. simpl. rewrite !andb_true_iff, !forallb_forall.
    split_and!; try done; by intros v (x & <- & _)%in_map_iff.
  - intros v Hv. unfold ctyp, extra_codec, extra_typ in Hv. cbn [decoded] in Hv.
    destruct v as [| | | | | | | | |l| |]; try done. destruct l as [|vs [|s [|cs [|]]]]; try by destruct_and? Hv.
    destruct Hv as (Hvs & Hs & Hcs & _). destruct vs as [| | | | | | |vs| | | |]; try done.
    destruct s; try done. destruct cs as [| | | | | | |cs| | | |]; try done. unfold of_val, extra_codec, of_extra_val.
    destruct (of_list_decoded of_bytes _ vs Hvs) as [vs' ->]; [by intros []|]. cbn [mbind option_bind].
    destruct (of_list_decoded of_bytes _ cs Hcs) as [cs' ->]; [by intros []|]. by eexists.
Qed.

(** The extra data that decoding gives has validators of 20 bytes. *)
Lemma of_list_bytes_lengths n vs l :
  Forall (decoded (TByteArray n)) vs → of_list of_bytes vs = Some l → Forall (fun a => length a = n) l.
Proof.
  intros Hvs. revert l. induction Hvs as [|v vs Hv _ IH]; intros l E; [by injection E as <-|].
  destruct v; try done. simpl in E. destruct (of_list of_bytes vs) as [l'|]; [|done]. injection E as <-.
  constructor; [done|by apply IH].
Qed.

Lemma ExtractIstanbulExtra_lengths h e :
  ExtractIstanbulExtra h = Ok e → Forall (fun a => length a = AddressLength) (Validators e).
Proof.
  unfold ExtractIstanbulExtra. destruct (_ <? _)%nat; [done|]. intros E.
  destruct (decode (drop IstanbulExtraVanity (Extra h))) as [e'| | |] eqn:Ed; try done. injection E as ->.
  unfold decode in Ed. destruct (DecodeBytes_ends _ (drop IstanbulExtraVanity (Extra h)) (ctyp_finite (A:=IstanbulExtra)))
    as [(v & Ev & Hv)|[x Ex]]; [|by rewrite Ex in Ed]. rewrite Ev in Ed. simpl in Ed.
  unfold ctyp, extra_codec, extra_typ in Hv. cbn [decoded] in Hv.
  destruct v as [| | | | | | | | |l| |]; try done. destruct l as [|vs [|s [|cs [|]]]]; try by destruct_and? Hv.
  destruct Hv as (Hvs & Hs & Hcs & _). destruct vs as [| | | | | | |vs| | | |]; try done.
  destruct s; try done. destruct cs as [| | | | | | |cs| | | |]; try done. unfold of_extra_val in Ed.
  destruct (of_list of_bytes vs) as [vs'|] eqn:Evs; [|done]. cbn [mbind option_bind] in Ed.
  destruct (of_list of_bytes cs) as [cs'|]; [|done]. simpl in Ed. injection Ed as <-. simpl.
  by eapply of_list_bytes_lengths.
Qed.

(** Extra data of 20-byte validators whose encoding is shorter than 2^64 bytes. *)
Definition extra_small (e : IstanbulExtra) : Prop :=
  ∃ bs, rlp extra_typ (extra_val e) = Some bs ∧ zlen bs < 2 ^ 64.

Lemma extra_encodable e :
  Forall (fun a => length a = AddressLength) (Validators e) → extra_small e → encodable e.
Proof.
  intros Hv Hs. split; [|split; [|exact Hs]].
  - unfold ctyp, to_val, extra_codec, extra_typ, extra_val. cbn [wt]. split_and!; try done.
    + by apply Forall_map.
    + by apply Forall_map, Forall_true.
  - unfold ctyp, to_val, extra_codec, extra_typ, extra_val. cbn [dec_ok]. split_and!; try done.
    + apply Forall_map. eapply Forall_impl; [exact Hv|]. intros a Ha. split; [done|]. by intros ->.
    + by apply Forall_map, Forall_true.
Qed.

Lemma rlp_items_Some {A B} (f : A → option bytes) (g : B → A) l :
  (∀ x, is_Some (f (g x))) → is_Some (rlp_items f (map g l)).
Proof.
  intros Hf. induction l as [|x l [bs IH]]; [by eexists|]. simpl. destruct (Hf x) as [b ->]. simpl. rewrite IH. by eexists.
Qed.

Lemma encode_extra_Ok e : Forall (fun a => length a = AddressLength) (Validators e) → ∃ bs, encode e = Ok bs.
Proof.
  intros Hv. assert (is_Some (rlp extra_typ (extra_val e))) as [bs Hbs].
  { unfold extra_typ, extra_val. cbn [rlp].
    destruct (rlp_items_Some (rlp (TByteArray 20)) VByteArray (Validators e)) as [b1 E1]; [by eexists|].
    destruct (rlp_items_Some (rlp TBytes) VBytes (CommittedSeal e)) as [b2 E2]; [by eexists|].
    cbn [rlp] in E1, E2. rewrite E1, E2. by eexists. }
  assert (wt extra_typ (extra_val e)) as Hwt.
  { unfold extra_typ, extra_val. cbn [wt]. split_and!; try done; [by apply Forall_map|by apply Forall_map, Forall_true]. }
  pose proof (writer_writes extra_typ (extra_val e) Hwt) as Hw. rewrite Hbs in Hw. destruct (Hw reset) as (w & Ew & _).
  exists (toBytes w). unfold encode, EncodeToBytes, ctyp, to_val, extra_codec. by rewrite Ew.
Qed.

Lemma IstanbulFilteredHeader_Some h e keep :
  ExtractIstanbulExtra h = Ok e → is_Some (IstanbulFilteredHeader h keep).
Proof.
  intros He. unfold IstanbulFilteredHeader. rewrite He.
  destruct (encode_extra_Ok (mkExtra (Validators e) (if keep then Seal e else []) [])) as [bs ->]; [|by eexists].
  exact (ExtractIstanbulExtra_lengths h e He).
Qed.

(** A bound far above what headers have. *)
Lemma rlp_items_strings {A} (f : A → option bytes) (g : bytes → A) n l :
  (∀ b, f (g b) = Some (enc_str b)) → 0 ≤ n < 2 ^ 62 → Forall (fun b => zlen b ≤ n) l →
  ∃ bs, rlp_items f (map g l) = Some bs ∧ zlen bs ≤ (n + 9) * zlen l.
Proof.
  intros Hf Hn Hl. induction Hl as [|b l Hb Hl (bs & E & Hbs)]; [exists []; simpl; split; [done|lia]|].
  cbn [map rlp_items]. rewrite Hf. cbn [mbind option_bind]. rewrite E. cbn [mbind option_bind].
  exists (enc_str b ++ bs). split; [done|]. rewrite length_app. simpl length.
  enough (zlen (enc_str b) ≤ n + 9) by lia. unfold enc_str.
  pose proof (enc_head_length 0x80 0xB7 (zlen b) ltac:(lia)) as Hh.
  destruct b as [|x [|y b]]; [simpl; lia| |rewrite length_app; lia].
  destruct (_ <? _); simpl in *; lia.
Qed.

Lemma extra_small_bound e :
  Forall (fun a => length a = AddressLength) (Validators e) → zlen (Seal e) ≤ 65 →
  Forall (fun a => length a = IstanbulExtraSeal) (CommittedSeal e) →
  zlen (Validators e) < 2 ^ 32 → zlen (CommittedSeal e) < 2 ^ 32 → extra_small e.
Proof.
  intros Hv Hs Hc Hnv Hnc. unfold extra_small, extra_typ, extra_val. cbn [rlp].
  destruct (rlp_items_strings (rlp (TByteArray 20)) VByteArray 20 (Validators e)) as (b1 & E1 & H1); [done|lia| |].
  { eapply Forall_impl; [exact Hv|]. intros a Ha. simpl in Ha. unfold AddressLength in Ha. lia. }
  destruct (rlp_items_strings (rlp TBytes) VBytes 65 (CommittedSeal e)) as (b2 & E2 & H2); [done|lia| |].
  { eapply Forall_impl; [exact Hc|]. intros a Ha. simpl in Ha. unfold IstanbulExtraSeal in Ha. lia. }
  destruct (rlp_items_strings (rlp TBytes) VBytes 65 [Seal e]) as (b3 & E3 & H3); [done|lia|by constructor|].
  cbn [rlp map rlp_items mbind option_bind] in E1, E2, E3. injection E3 as <-. rewrite app_nil_r in H3. rewrite E1, E2.
  eexists. split; [reflexivity|].
  pose proof (enc_list_length b1 ltac:(lia)). pose proof (enc_list_length b2 ltac:(lia)). simpl length in H3.
  set (body := enc_list b1 ++ enc_str (Seal e) ++ enc_list b2 ++ []).
  assert (zlen body < 2 ^ 50) as Hb by (subst body; rewrite !length_app; simpl; lia).
  pose proof (enc_list_length body ltac:(lia)). lia.
Qed.

(** Replacing the part after the vanity and reading it back. *)
Lemma Extract_set_Extra h e e' payload :
  ExtractIstanbulExtra h = Ok e → Validators e' = Validators e → extra_small e' → encode e' = Ok payload →
  ExtractIstanbulExtra (set_Extra (take IstanbulExtraVanity (Extra h) ++ payload) h) = Ok e'.
Proof.
  intros He HV Hs Ep. pose proof (ExtractIstanbulExtra_lengths h e He) as Hl. rewrite <- HV in Hl.
  destruct (encode_decode e' (extra_encodable e' Hl Hs)) as (bs & Eb & Ed).
  assert (bs = payload) as -> by congruence. unfold ExtractIstanbulExtra in He |- *. simpl.
  destruct (Nat.ltb_spec (length (Extra h)) IstanbulExtraVanity); [done|].
  assert (length (take IstanbulExtraVanity (Extra h)) = IstanbulExtraVanity) as Ht by (rewrite length_take; lia).
  rewrite drop_app_length' by done. rewrite Ed, length_app, Ht.
  by destruct (Nat.ltb_spec (IstanbulExtraVanity + length payload) IstanbulExtraVanity); [lia|].
Qed.

End Types.
