(* ===== verification/IstValidator.v ===== *)
(** Istanbul validator sets (src/consensus/istanbul/validator/default.go,
    validator.go, and src/consensus/istanbul/validator.go, config.go), with the
    checksummed address strings of src/common/types.go they are sorted by. *)

From stdpp Require Import sorting.
From S2P Require Import Prelude RlpEncode RlpRaw RlpDecode RlpRoundtrip KeccakF Sha3 CoreTypes.

Module Validator.
Import Codec Types.

(** ** Address strings *)

(** [hex.EncodeToString]. *)
Definition hexdigit (n : Z) : byte := if n <? 10 then zb (48 + n) else zb (87 + n).
Definition hexEncode (b : bytes) : bytes :=
  concat (map (fun x => [hexdigit (bz x / 16); hexdigit (bz x mod 16)]) b).

(** The character at [i] of the lower-case hex string, in upper case when it is
    a letter and the nibble [i] of the hash exceeds 7. *)
Definition checksum_char (hash : bytes) (i : nat) (c : byte) : byte :=
  let hashByte := bz (nth (i / 2) hash x00) in
  let hashByte := if (i mod 2 =? 0)%nat then Z.shiftr hashByte 4 else Z.land hashByte 0xf in
  if (57 <? bz c) && (7 <? hashByte) then zb (bz c - 32) else c.

Definition Hex (a : bytes) : bytes :=
  let unchecksummed := hexEncode a in
  [x30; x78] ++ imap (checksum_char (hash256 [unchecksummed])) unchecksummed.

(** [strings.Compare(s, t) < 0]. *)
Fixpoint bytes_lt (s t : bytes) : bool :=
  match s, t with
  | [], [] => false
  | [], _ :: _ => true
  | _ :: _, [] => false
  | x :: s, y :: t => if bz x <? bz y then true else if bz y <? bz x then false else bytes_lt s t
  end.

Definition Less (a b : bytes) : bool := bytes_lt (Hex a) (Hex b).

(** [sort.Sort]: the strings of different addresses differ ([Hex_inj]), so every
    sorting algorithm gives the same list ([sort_unique]). *)
Fixpoint insert_sorted (a : bytes) (l : list bytes) : list bytes :=
  match l with
  | [] => [a]
  | b :: l' => if Less b a then b :: insert_sorted a l' else a :: l
  end.
Definition sort (l : list bytes) : list bytes := foldr insert_sorted [] l.

(** ** The set

    A validator is known by its address; [selector] is one of the two functions
    a set is made with. *)
Inductive ProposalSelector := roundRobin | sticky.

Record defaultSet := mkSet {
  validators : list bytes;
  proposer : option bytes;
  selector : ProposalSelector }.

Definition newDefaultSet (addrs : list bytes) (sel : ProposalSelector) : defaultSet :=
  let vs := sort addrs in mkSet vs (head vs) sel.

(** The policy is a uint64; an unknown one is round-robin. *)
Definition RoundRobin : Z := 0.
Definition Sticky : Z := 1.
Definition NewSet (addrs : list bytes) (policy : Z) : defaultSet :=
  if policy =? RoundRobin then newDefaultSet addrs roundRobin
  else if policy =? Sticky then newDefaultSet addrs sticky
  else newDefaultSet addrs roundRobin.

Definition Size (s : defaultSet) : Z := zlen (validators s).
Definition List (s : defaultSet) : list bytes := validators s.
Definition GetByIndex (s : defaultSet) (i : Z) : option bytes :=
  if i <? Size s then validators s !! Z.to_nat i else None.

Fixpoint index_of (addr : bytes) (i : Z) (l : list bytes) : Z * option bytes :=
  match l with
  | [] => (-1, None)
  | v :: l => if bool_decide (addr = v) then (i, Some v) else index_of addr (i + 1) l
  end.
Definition GetByAddress (s : defaultSet) (addr : bytes) : Z * option bytes :=
  index_of addr 0 (validators s).

Definition GetProposer (s : defaultSet) : option bytes := proposer s.
(** [reflect.DeepEqual] of two interfaces, either of which may be nil. *)
Definition IsProposer (s : defaultSet) (addr : bytes) : bool :=
  bool_decide (GetProposer s = snd (GetByAddress s addr)).

Definition calcSeed (s : defaultSet) (prev : bytes) (round : Z) : Z :=
  let '(idx, val) := GetByAddress s prev in
  let offset := match val with Some _ => idx | None => 0 end in
  u64 (offset + round).

Definition emptyAddress (addr : bytes) : bool := bool_decide (addr = emptyAddr).

Definition roundRobinProposer (s : defaultSet) (prev : bytes) (round : Z) : option bytes :=
  if Size s =? 0 then None
  else
    let seed := if emptyAddress prev then round else u64 (calcSeed s prev round + 1) in
    GetByIndex s (seed mod Size s).

Definition stickyProposer (s : defaultSet) (prev : bytes) (round : Z) : option bytes :=
  if Size s =? 0 then None
  else
    let seed := if emptyAddress prev then round else calcSeed s prev round in
    GetByIndex s (seed mod Size s).

Definition select (s : defaultSet) (prev : bytes) (round : Z) : option bytes :=
  match selector s with
  | roundRobin => roundRobinProposer s prev round
  | sticky => stickyProposer s prev round
  end.

Definition CalcProposer (s : defaultSet) (lastProposer : bytes) (round : Z) : defaultSet :=
  mkSet (validators s) (select s lastProposer round) (selector s).

Definition AddValidator (s : defaultSet) (addr : bytes) : bool * defaultSet :=
  if bool_decide (addr ∈ validators s) then (false, s)
  else (true, mkSet (sort (validators s ++ [addr])) (proposer s) (selector s)).

Fixpoint remove_first (addr : bytes) (l : list bytes) : option (list bytes) :=
  match l with
  | [] => None
  | v :: l => if bool_decide (v = addr) then Some l else cons v <$> remove_first addr l
  end.
Definition RemoveValidator (s : defaultSet) (addr : bytes) : bool * defaultSet :=
  match remove_first addr (validators s) with
  | Some l => (true, mkSet l (proposer s) (selector s))
  | None => (false, s)
  end.

Definition Copy (s : defaultSet) : defaultSet := newDefaultSet (validators s) (selector s).

(** [int(math.Ceil(float64(n)/3)) - 1], exact for the sizes a slice can have. *)
Definition F (s : defaultSet) : Z := (Size s + 2) / 3 - 1.

(** [copy(addrs[i][:], extraData[i*20:])] of a whole number of addresses. *)
Definition ExtractValidators (extraData : bytes) : list bytes :=
  map (fun i => take AddressLength (drop (i * AddressLength) extraData))
    (seq 0 (length extraData / AddressLength)).
Definition ValidExtraData (extraData : bytes) : bool := (length extraData mod AddressLength =? 0)%nat.

(** ** Address strings are ordered and tell addresses apart *)

#[local] Opaque hash256.

Definition lower (c : byte) : byte :=
  if (65 <=? bz c) && (bz c <=? 70) then zb (bz c + 32) else c.

Lemma nibble_cases (P : Z → Prop) :
  Forall P (map Z.of_nat (seq 0 16)) → ∀ n, 0 ≤ n < 16 → P n.
Proof.
  intros HP n Hn. rewrite Forall_forall in HP. apply HP, list_elem_of_In, in_map_iff.
  exists (Z.to_nat n). split; [lia|]. apply in_seq. lia.
Qed.

Lemma lower_checksum_char hash i n :
  0 ≤ n < 16 → lower (checksum_char hash i (hexdigit n)) = hexdigit n.
Proof.
  intros Hn. unfold checksum_char. destruct (7 <? _); rewrite ?andb_true_r, ?andb_false_r.
  - revert n Hn. apply nibble_cases. by repeat constructor.
  - revert n Hn. apply nibble_cases. by repeat constructor.
Qed.

Lemma hexdigit_inj n m : 0 ≤ n < 16 → 0 ≤ m < 16 → hexdigit n = hexdigit m → n = m.
Proof.
  intros Hn Hm E%(f_equal bz). unfold hexdigit in E.
  destruct (Z.ltb_spec n 10), (Z.ltb_spec m 10); rewrite !bz_zb_small in E by lia; lia.
Qed.

Lemma hexEncode_inj a b : hexEncode a = hexEncode b → a = b.
Proof.
  revert b. induction a as [|x a IH]; intros [|y b]; try done. unfold hexEncode. simpl.
  intros [= H1 H2 H3]. pose proof (bz_range x). pose proof (bz_range y).
  apply hexdigit_inj in H1; [|split; [apply Z.div_pos|apply Z.div_lt_upper_bound]; lia..].
  apply hexdigit_inj in H2; [|apply Z.mod_pos_bound; lia..].
  rewrite (IH b H3). f_equal. apply bz_inj.
  rewrite (Z.div_mod (bz x) 16), (Z.div_mod (bz y) 16) by lia. congruence.
Qed.

Lemma Forall_hexEncode (P : byte → Prop) a :
  (∀ n, 0 ≤ n < 16 → P (hexdigit n)) → Forall P (hexEncode a).
Proof.
  intros HP. induction a as [|x a IH]; [constructor|]. pose proof (bz_range x).
  repeat constructor; [apply HP..|exact IH]; [split; [apply Z.div_pos|apply Z.div_lt_upper_bound]; lia|].
  apply Z.mod_pos_bound. lia.
Qed.

Lemma Hex_inj a b : Hex a = Hex b → a = b.
Proof.
  assert (∀ c, lower <$> drop 2 (Hex c) = hexEncode c) as Hl.
  { intros c. change (drop 2 (Hex c)) with (imap (checksum_char (hash256 [hexEncode c])) (hexEncode c)).
    rewrite fmap_imap.
    trans (imap (const id) (hexEncode c)); [|by rewrite imap_const, list_fmap_id].
    apply imap_ext. intros i x Hx. simpl.
    apply (Forall_lookup_1 (fun x => lower (checksum_char _ i x) = x) (hexEncode c) i x); [|done].
    apply Forall_hexEncode. intros n Hn. by apply lower_checksum_char. }
  intros H. apply hexEncode_inj. by rewrite <- !Hl, H.
Qed.

Lemma bytes_lt_irrefl s : bytes_lt s s = false.
Proof. induction s as [|x s IH]; [done|]. simpl. by rewrite Z.ltb_irrefl. Qed.

Lemma bytes_lt_trans s t u : bytes_lt s t = true → bytes_lt t u = true → bytes_lt s u = true.
Proof.
  revert t u. induction s as [|x s IH]; intros [|y t] [|z u]; simpl; try done.
  destruct (Z.ltb_spec (bz x) (bz y)), (Z.ltb_spec (bz y) (bz x)), (Z.ltb_spec (bz y) (bz z)),
    (Z.ltb_spec (bz z) (bz y)), (Z.ltb_spec (bz x) (bz z)), (Z.ltb_spec (bz z) (bz x));
    try lia; try done; eauto.
Qed.

Lemma bytes_lt_total s t : bytes_lt s t = false → bytes_lt t s = false → s = t.
Proof.
  revert t. induction s as [|x s IH]; intros [|y t]; simpl; try done.
  destruct (Z.ltb_spec (bz x) (bz y)), (Z.ltb_spec (bz y) (bz x)); try lia; try done.
  intros H1 H2. f_equal; [apply bz_inj; lia|by apply IH].
Qed.

Definition before (a b : bytes) : Prop := Less b a = false.

#[global] Instance before_trans : Transitive before.
Proof.
  intros a b c Hab Hbc. unfold before, Less in *. apply not_true_iff_false. intros Hca.
  destruct (bytes_lt (Hex a) (Hex b)) eqn:E.
  - rewrite (bytes_lt_trans _ _ _ Hca E) in Hbc. done.
  - rewrite (bytes_lt_total _ _ E Hab) in Hca. congruence.
Qed.
#[global] Instance before_antisymm : AntiSymm (=) before.
Proof. intros a b Hab Hba. by apply Hex_inj, bytes_lt_total. Qed.
Lemma before_total a b : before a b ∨ before b a.
Proof.
  unfold before, Less. destruct (bytes_lt (Hex b) (Hex a)) eqn:E; [|by left]. right.
  apply not_true_iff_false. intros E'. pose proof (bytes_lt_trans _ _ _ E E') as H. by rewrite bytes_lt_irrefl in H.
Qed.

Lemma insert_sorted_perm a l : insert_sorted a l ≡ₚ a :: l.
Proof.
  induction l as [|b l IH]; [done|]. simpl. destruct (Less b a); [|done].
  rewrite IH. apply perm_swap.
Qed.

Lemma sort_perm l : sort l ≡ₚ l.
Proof. induction l as [|a l IH]; [done|]. simpl. by rewrite insert_sorted_perm, IH. Qed.

Lemma insert_sorted_sorted a l : StronglySorted before l → StronglySorted before (insert_sorted a l).
Proof.
  induction 1 as [|b l Hl IH Hb]; [by repeat constructor|]. simpl. destruct (Less b a) eqn:E.
  - constructor; [done|]. rewrite insert_sorted_perm. constructor; [|done].
    destruct (before_total a b) as [H|H]; [|done]. unfold before in H. congruence.
  - constructor; [by constructor|]. constructor; [done|]. eapply Forall_impl; [exact Hb|].
    intros c Hc. by trans b.
Qed.

Lemma sort_sorted l : StronglySorted before (sort l).
Proof. induction l as [|a l IH]; [constructor|]. by apply insert_sorted_sorted. Qed.

Lemma sort_unique l l' : StronglySorted before l' → l' ≡ₚ l → sort l = l'.
Proof.
  intros Hs Hp. apply (StronglySorted_unique before); [apply sort_sorted|done|].
  by rewrite sort_perm, Hp.
Qed.

(** ** The invariant of a set and its operations *)

Definition valid (s : defaultSet) : Prop := NoDup (validators s) ∧ StronglySorted before (validators s).

Lemma newDefaultSet_valid addrs sel : NoDup addrs → valid (newDefaultSet addrs sel).
Proof. intros Hn. split; [by rewrite (sort_perm addrs)|apply sort_sorted]. Qed.

Lemma index_of_spec addr i l :
  match index_of addr i l with
  | (k, Some v) => v = addr ∧ i ≤ k < i + zlen l ∧ l !! Z.to_nat (k - i) = Some addr
  | (k, None) => k = -1 ∧ addr ∉ l
  end.
Proof.
  revert i. induction l as [|v l IH]; intros i; simpl; [split; [done|apply not_elem_of_nil]|].
  case_bool_decide as E.
  - subst. rewrite Z.sub_diag. split_and!; [done|lia|lia|done].
  - specialize (IH (i + 1)). destruct (index_of addr (i + 1) l) as [k [w|]].
    + destruct IH as (-> & Hk & Hl). split_and!; [done|lia|lia|].
      replace (Z.to_nat (k - i)) with (S (Z.to_nat (k - (i + 1)))) by lia. done.
    + destruct IH as [-> Hn]. split; [done|]. by apply not_elem_of_cons.
Qed.

Lemma GetByAddress_Some s addr v : snd (GetByAddress s addr) = Some v ↔ v = addr ∧ addr ∈ validators s.
Proof.
  unfold GetByAddress. pose proof (index_of_spec addr 0 (validators s)) as H.
  destruct (index_of addr 0 (validators s)) as [k [w|]]; simpl.
  - destruct H as (-> & _ & Hl). apply list_elem_of_lookup_2 in Hl. naive_solver.
  - naive_solver.
Qed.

Lemma remove_first_spec addr l :
  match remove_first addr l with
  | Some l' => ∃ l1 l2, l = l1 ++ addr :: l2 ∧ l' = l1 ++ l2
  | None => addr ∉ l
  end.
Proof.
  induction l as [|v l IH]; simpl; [apply not_elem_of_nil|]. case_bool_decide as E.
  - subst. by exists [], l.
  - destruct (remove_first addr l) as [l'|]; simpl.
    + destruct IH as (l1 & l2 & -> & ->). by exists (v :: l1), l2.
    + apply not_elem_of_cons. done.
Qed.

Lemma AddValidator_spec s addr :
  valid s →
  let '(ok, s') := AddValidator s addr in
  valid s' ∧ (ok = true ↔ addr ∉ validators s) ∧
  (∀ a, a ∈ validators s' ↔ a = addr ∨ a ∈ validators s) ∧ proposer s' = proposer s.
Proof.
  intros [Hn Hs]. unfold AddValidator. case_bool_decide as E.
  - split_and!; [done| |naive_solver|done]. split; [done|]. by intros [].
  - split_and!; [|done| |done].
    + split; [|apply sort_sorted]. simpl. rewrite sort_perm. apply NoDup_app. split_and!; [done| |apply NoDup_singleton].
      set_solver.
    + intros a. simpl. rewrite (sort_perm (validators s ++ [addr])). set_solver.
Qed.

Lemma RemoveValidator_spec s addr :
  valid s →
  let '(ok, s') := RemoveValidator s addr in
  valid s' ∧ (ok = true ↔ addr ∈ validators s) ∧
  (∀ a, a ∈ validators s' ↔ a ≠ addr ∧ a ∈ validators s) ∧ proposer s' = proposer s.
Proof.
  intros [Hn Hs]. unfold RemoveValidator. pose proof (remove_first_spec addr (validators s)) as H.
  destruct (remove_first addr (validators s)) as [l|].
  - destruct H as (l1 & l2 & E & ->). rewrite E in *. split_and!; simpl; [|set_solver| |done].
    + split; simpl.
      { rewrite <- Permutation_middle in Hn. by apply NoDup_cons in Hn as [_ ?]. }
      { apply StronglySorted_app in Hs as (H3 & H1 & H2). apply StronglySorted_inv in H2 as [H2 H4].
        apply StronglySorted_app. split_and!; [set_solver|done|done]. }
    + intros a. rewrite <- Permutation_middle in Hn. apply NoDup_cons in Hn as [Hn _]. set_solver.
  - split_and!; [done| |set_solver|done]. split; done.
Qed.

(** adding and removing a validator do to the set of addresses what they
    say, report whether they changed it, and keep the list free of duplicates
    and sorted; the proposer in use does not change. *)
Theorem Add_Remove_spec s addr :
  valid s →
  (let '(ok, s') := AddValidator s addr in
   valid s' ∧ (ok = true ↔ addr ∉ validators s) ∧
   (∀ a, a ∈ validators s' ↔ a = addr ∨ a ∈ validators s) ∧ proposer s' = proposer s) ∧
  (let '(ok, s') := RemoveValidator s addr in
   valid s' ∧ (ok = true ↔ addr ∈ validators s) ∧
   (∀ a, a ∈ validators s' ↔ a ≠ addr ∧ a ∈ validators s) ∧ proposer s' = proposer s).
Proof. intros Hv. split; [by apply AddValidator_spec|by apply RemoveValidator_spec]. Qed.

(** ** Proposer rotation *)

(** The index both selectors take is a start that depends on the last proposer, plus the round. *)
Lemma select_index s prev round :
  0 < Size s → 0 ≤ round → round + Size s < 2 ^ 64 →
  ∃ b, 0 ≤ b ≤ Size s ∧
    ∀ k, 0 ≤ k → round + Size s + k < 2 ^ 64 →
      select s prev (round + k) = validators s !! Z.to_nat ((b + round + k) mod Size s).
Proof.
  intros Hn Hr Hb. assert (∀ i, 0 ≤ i → GetByIndex s (i mod Size s) = validators s !! Z.to_nat (i mod Size s)) as Hget.
  { intros i Hi. unfold GetByIndex. pose proof (Z.mod_pos_bound i (Size s) Hn). by zdecide. }
  assert (∃ o, 0 ≤ o < Size s ∧ ∀ round, calcSeed s prev round = u64 (o + round)) as (o & Ho & Hseed).
  { unfold calcSeed. pose proof (index_of_spec prev 0 (validators s)) as H. unfold GetByAddress.
    destruct (index_of prev 0 (validators s)) as [i [v|]].
    - destruct H as (_ & Hi & _). exists i. unfold Size. split; [lia|done].
    - exists 0. split; [lia|done]. }
  assert ((Size s =? 0) = false) as Hz by (apply Z.eqb_neq; lia).
  unfold select, roundRobinProposer, stickyProposer. rewrite Hz. destruct (emptyAddress prev).
  - exists 0. split; [lia|]. intros k Hk Hk'. destruct (selector s); apply Hget; lia.
  - destruct (selector s).
    + exists (o + 1). split; [lia|]. intros k Hk Hk'. rewrite Hseed, !u64_small, Hget by (rewrite ?u64_small; lia).
      do 2 f_equal. f_equal. lia.
    + exists o. split; [lia|]. intros k Hk Hk'. rewrite Hseed, u64_small, Hget by lia. do 2 f_equal. f_equal. lia.
Qed.

Lemma rotation_perm b n :
  (0 < n)%nat → 0 ≤ b →
  map (fun k => Z.to_nat ((b + Z.of_nat k) mod Z.of_nat n)) (seq 0 n) ≡ₚ seq 0 n.
Proof.
  intros Hn Hb. apply submseteq_length_Permutation; [|by rewrite length_map].
  apply NoDup_submseteq.
  - apply (NoDup_fmap_2_strong (A:=nat)); [|apply NoDup_ListNoDup, seq_NoDup].
    intros i j Hi Hj E. apply list_elem_of_In, in_seq in Hi. apply list_elem_of_In, in_seq in Hj.
    pose proof (Z.mod_pos_bound (b + Z.of_nat i) (Z.of_nat n) ltac:(lia)).
    pose proof (Z.mod_pos_bound (b + Z.of_nat j) (Z.of_nat n) ltac:(lia)).
    pose proof (Z.div_mod (b + Z.of_nat i) (Z.of_nat n) ltac:(lia)) as Hdi.
    pose proof (Z.div_mod (b + Z.of_nat j) (Z.of_nat n) ltac:(lia)) as Hdj.
    set (qi := (b + Z.of_nat i) / Z.of_nat n) in *. set (qj := (b + Z.of_nat j) / Z.of_nat n) in *.
    assert (qi = qj) by nia. nia.
  - intros x (i & <- & _)%list_elem_of_In%in_map_iff. apply list_elem_of_In, in_seq.
    pose proof (Z.mod_pos_bound (b + Z.of_nat i) (Z.of_nat n) ltac:(lia)). lia.
Qed.

Lemma map_lookup_seq {A} (l : list A) : map (fun i => l !! i) (seq 0 (length l)) = map Some l.
Proof.
  apply list_eq. intros i. rewrite !(list_lookup_fmap (A:=_) (B:=option A)).
  destruct (decide (i < length l)%nat).
  - rewrite lookup_seq_lt by lia. simpl. destruct (lookup_lt_is_Some_2 l i) as [x E]; [done|]. by rewrite E.
  - rewrite lookup_seq_ge by lia. by rewrite lookup_ge_None_2 by lia.
Qed.

(** over as many consecutive rounds as there are validators, each validator
    is the proposer exactly once, whoever proposed the last block and under
    either policy (as long as the round numbers do not reach 2^64). *)
Theorem proposers_rotate s lastProposer round :
  0 < Size s → 0 ≤ round → round + 2 * Size s < 2 ^ 64 →
  map (fun k => GetProposer (CalcProposer s lastProposer (round + Z.of_nat k))) (seq 0 (length (validators s)))
  ≡ₚ map Some (validators s).
Proof.
  intros Hn Hr Hb. destruct (select_index s lastProposer round) as (b & Hb0 & Hsel); [lia..|].
  assert (map (fun k => GetProposer (CalcProposer s lastProposer (round + Z.of_nat k))) (seq 0 (length (validators s)))
    = map (fun i => validators s !! i)
        (map (fun k => Z.to_nat ((b + round + Z.of_nat k) mod Z.of_nat (length (validators s))))
           (seq 0 (length (validators s))))) as ->.
  { rewrite map_map. apply map_ext_in. intros k Hk%in_seq. apply Hsel; unfold Size in *; lia. }
  rewrite <- map_lookup_seq. apply Permutation_map. apply rotation_perm; unfold Size in *; lia.
Qed.

Definition addr_of (n : Z) : bytes := BytesToAddress (be_bytes n).
Definition set_of (ns : list Z) : defaultSet := NewSet (map addr_of ns) RoundRobin.

Definition list_subset (ms ns : list Z) : bool := forallb (fun m => existsb (Z.eqb m) ns) ms.

Lemma set_of_perm ns : validators (set_of ns) ≡ₚ map addr_of ns.
Proof. apply sort_perm. Qed.
Lemma Size_set_of ns : Size (set_of ns) = zlen ns.
Proof. unfold Size. by rewrite (Permutation_length (set_of_perm ns)), length_map. Qed.
Lemma subset_set_of ms ns : list_subset ms ns = true → map addr_of ms ⊆ validators (set_of ns).
Proof.
  intros H x Hx. rewrite set_of_perm. apply list_elem_of_In, in_map_iff in Hx as (m & <- & Hm).
  apply list_elem_of_In, in_map. unfold list_subset in H. rewrite forallb_forall in H.
  specialize (H m Hm). apply existsb_exists in H as (n & Hn & E%Z.eqb_eq). by subst.
Qed.

Lemma proposers_rotate_witness :
  map (fun k => GetProposer (CalcProposer (set_of [1; 2; 3]) (addr_of 2) (5 + Z.of_nat k))) (seq 0 3)
  ≡ₚ map Some (validators (set_of [1; 2; 3])).
Proof.
  rewrite <- (Size_set_of [1; 2; 3] : Size (set_of [1; 2; 3]) = 3) at 1.
  apply (proposers_rotate (set_of [1; 2; 3]) (addr_of 2) 5); rewrite ?Size_set_of; done.
Defined.

(** ** Fault tolerance *)

Lemma F_spec s : 0 < Size s → Size s = 3 * F s + 1 ∨ Size s = 3 * F s + 2 ∨ Size s = 3 * F s + 3.
Proof.
  intros Hn. unfold F. pose proof (Z.div_mod (Size s + 2) 3 ltac:(lia)).
  pose proof (Z.mod_pos_bound (Size s + 2) 3 ltac:(lia)). lia.
Qed.

Lemma overlap_length {A} `{EqDecision A} (l l1 l2 : list A) :
  NoDup l1 → NoDup l2 → l1 ⊆ l → l2 ⊆ l →
  (length l1 + length l2 ≤ length l + length (filter (.∈ l2) l1))%nat.
Proof.
  intros H1 H2 S1 S2.
  assert (length l1 = length (filter (.∈ l2) l1) + length (filter (fun x => x ∉ l2) l1))%nat as ->.
  { clear. induction l1 as [|x l1 IH]; [done|]. rewrite !filter_cons. repeat case_decide; simpl; try done; lia. }
  assert (l2 ++ filter (fun x => x ∉ l2) l1 ⊆+ l) as Hs.
  { apply NoDup_submseteq.
    2: { intros x [Hx|Hx]%elem_of_app; [by apply S2|]. apply list_elem_of_filter in Hx as [_ Hx]. by apply S1. }
    apply NoDup_app. split_and!; [done| |by apply NoDup_filter].
    intros x Hx Hx'. apply list_elem_of_filter in Hx' as [? _]. done. }
  apply submseteq_length in Hs. rewrite length_app in Hs. lia.
Qed.

(** two quorums, sets of more than 2F validators, have at least 4F + 2 - n
    members in common.  For n = 3F + 1 validators that is F + 1, more than the
    faulty nodes tolerated. *)
Theorem quorum_overlap s q1 q2 :
  0 < Size s → NoDup q1 → NoDup q2 → q1 ⊆ validators s → q2 ⊆ validators s →
  2 * F s < zlen q1 → 2 * F s < zlen q2 →
  4 * F s + 2 - Size s ≤ zlen (filter (.∈ q2) q1) ∧
  (Size s = 3 * F s + 1 → F s < zlen (filter (.∈ q2) q1)).
Proof.
  intros Hn H1 H2 S1 S2 L1 L2. pose proof (overlap_length _ _ _ H1 H2 S1 S2). unfold Size in *. lia.
Qed.

Lemma quorum_overlap_witness :
  F (set_of [1; 2; 3; 4]) < zlen (filter (.∈ map addr_of [2; 3; 4]) (map addr_of [1; 2; 3])).
Proof.
  apply (quorum_overlap (set_of [1; 2; 3; 4]) (map addr_of [1; 2; 3]) (map addr_of [2; 3; 4]));
    unfold F; rewrite ?Size_set_of; try done; try (by apply subset_set_of).
  - apply (bool_decide_unpack _). by vm_compute.
  - apply (bool_decide_unpack _). by vm_compute.
Defined.

(** with other numbers of validators the overlap can be too small.  Among
    six validators F is 1 and two quorums can be disjoint; among five it is 1
    and two quorums can have a single validator in common, which may be faulty. *)
Theorem quorums_can_be_disjoint :
  (F (set_of [1; 2; 3; 4; 5; 6]) = 1 ∧
   2 * F (set_of [1; 2; 3; 4; 5; 6]) < zlen (map addr_of [1; 2; 3]) ∧
   2 * F (set_of [1; 2; 3; 4; 5; 6]) < zlen (map addr_of [4; 5; 6]) ∧
   map addr_of [1; 2; 3] ++ map addr_of [4; 5; 6] ≡ₚ validators (set_of [1; 2; 3; 4; 5; 6]) ∧
   filter (.∈ map addr_of [4; 5; 6]) (map addr_of [1; 2; 3]) = []) ∧
  (F (set_of [1; 2; 3; 4; 5]) = 1 ∧
   map addr_of [1; 2; 3] ⊆ validators (set_of [1; 2; 3; 4; 5]) ∧
   map addr_of [3; 4; 5] ⊆ validators (set_of [1; 2; 3; 4; 5]) ∧
   2 * F (set_of [1; 2; 3; 4; 5]) < zlen (map addr_of [1; 2; 3]) ∧
   filter (.∈ map addr_of [3; 4; 5]) (map addr_of [1; 2; 3]) = [addr_of 3]).
Proof.
  unfold F. rewrite !Size_set_of. split_and!; try done; try (by apply subset_set_of); try (by vm_compute).
Qed.

Lemma Add_Remove_spec_witness :
  valid (snd (AddValidator (set_of [1; 2]) (addr_of 3))) ∧
  validators (snd (RemoveValidator (set_of [1; 2]) (addr_of 1))) = [addr_of 2].
Proof.
  assert (valid (set_of [1; 2])) as Hv.
  { apply newDefaultSet_valid. apply (bool_decide_unpack _). by vm_compute. }
  split; [|by vm_compute].
  pose proof (Add_Remove_spec (set_of [1; 2]) (addr_of 3) Hv) as [H _].
  destruct (AddValidator (set_of [1; 2]) (addr_of 3)) as [ok s]. apply H.
Defined.

End Validator.
