(* ===== verification/Prque.v ===== *)
(** The priority queue of the consensus core
    (src/vendor/gopkg.in/karalabe/cookiejar.v2/collections/prque/prque.go and
    sstack.go) over the binary heap of Go's container/heap.  The blocks of the
    source's stack are one list: item [i] is [blocks[i/blockSize][i%blockSize]].
    A priority is the integer value of its float32. *)

From Stdlib Require Import ZifyNat.
From stdpp Require Import sorting.
From S2P Require Import Prelude.

Module Prque.

#[local] Ltac Zify.zify_post_hook ::= Z.to_euclidean_division_equations.

Section Prque.
Context {A : Type}.

Abbreviation queue := (list (A * Z)).

Definition New : queue := [].
Definition Empty (q : queue) : bool := bool_decide (length q = O).

(** [Less]: the higher priority is first. *)
Definition Less (q : queue) (i j : nat) : bool :=
  match q !! i, q !! j with
  | Some x, Some y => snd y <? snd x
  | _, _ => false
  end.

Definition Swap (q : queue) (i j : nat) : queue :=
  match q !! i, q !! j with
  | Some x, Some y => <[j := x]> (<[i := y]> q)
  | _, _ => q
  end.

(** [heap.up] and [heap.down]; the index halves, respectively doubles. *)
Fixpoint up (fuel j : nat) (q : queue) : queue :=
  match fuel with
  | O => q
  | S fuel =>
      let i := ((j - 1) / 2)%nat in
      if (i =? j)%nat || negb (Less q j i) then q else up fuel i (Swap q i j)
  end.

Fixpoint down (fuel i n : nat) (q : queue) : queue :=
  match fuel with
  | O => q
  | S fuel =>
      let j1 := (2 * i + 1)%nat in
      if (n <=? j1)%nat then q
      else
        let j := if (j1 + 1 <? n)%nat && negb (Less q j1 (j1 + 1)) then (j1 + 1)%nat else j1 in
        if negb (Less q j i) then q else down fuel j n (Swap q i j)
  end.

Definition Push (x : A) (prio : Z) (q : queue) : queue :=
  let q := q ++ [(x, prio)] in up (length q) (length q - 1) q.

(** On an empty queue the source panics. *)
Definition Pop (q : queue) : option ((A * Z) * queue) :=
  match q with
  | [] => None
  | _ =>
      let n := (length q - 1)%nat in
      let q := down (length q) 0 n (Swap q 0 n) in
      match q !! n with Some x => Some (x, take n q) | None => None end
  end.

(** [heap.Init] and [heap.Fix] at the root, where [up] has nothing to do. *)
Fixpoint init_loop (i : nat) (q : queue) : queue :=
  match i with
  | O => q
  | S i => init_loop i (down (S (length q)) i (length q) q)
  end.
Definition Init (q : queue) : queue := init_loop (length q / 2) q.
Definition Fix0 (q : queue) : queue := down (S (length q)) 0 (length q) q.

(** ** The heap *)

Lemma length_Swap q i j : length (Swap q i j) = length q.
Proof. unfold Swap. repeat case_match; by rewrite ?length_insert. Qed.

Lemma length_up fuel j q : length (up fuel j q) = length q.
Proof.
  revert j q. induction fuel as [|fuel IH]; intros j q; [done|]. simpl. case_match; [done|].
  by rewrite IH, length_Swap.
Qed.

Lemma length_down fuel i n q : length (down fuel i n q) = length q.
Proof.
  revert i q. induction fuel as [|fuel IH]; intros i q; [done|]. cbn [down].
  case_match; [done|]. case_match; [done|]. by rewrite IH, length_Swap.
Qed.

Lemma Swap_perm q i j : Swap q i j ≡ₚ q.
Proof.
  unfold Swap. destruct (q !! i) as [x|] eqn:Ei; [|done]. destruct (q !! j) as [y|] eqn:Ej; [|done].
  destruct (decide (i = j)) as [-> |Hij].
  { simplify_eq. rewrite list_insert_insert_eq, list_insert_id; done. }
  symmetry. rewrite Permutation_inj. split; [by rewrite !length_insert|].
  exists (fun k => if decide (k = i) then j else if decide (k = j) then i else k). split.
  - intros a b. repeat case_decide; congruence.
  - intros k. repeat case_decide; subst.
    + rewrite list_lookup_insert_eq; [done|]. rewrite length_insert. by eapply lookup_lt_Some.
    + rewrite list_lookup_insert_ne by done. rewrite list_lookup_insert_eq; [done|]. by eapply lookup_lt_Some.
    + by rewrite !list_lookup_insert_ne.
Qed.

Lemma up_perm fuel j q : up fuel j q ≡ₚ q.
Proof.
  revert j q. induction fuel as [|fuel IH]; intros j q; [done|]. simpl. case_match; [done|].
  by rewrite IH, Swap_perm.
Qed.

Lemma down_perm fuel i n q : down fuel i n q ≡ₚ q.
Proof.
  revert i q. induction fuel as [|fuel IH]; intros i q; [done|]. cbn [down].
  case_match; [done|]. case_match; [done|]. by rewrite IH, Swap_perm.
Qed.

Lemma Push_perm x prio q : Push x prio q ≡ₚ (x, prio) :: q.
Proof. unfold Push. by rewrite up_perm, Permutation_app_comm. Qed.

Lemma Pop_Some q : q ≠ [] → ∃ x q', Pop q = Some (x, q') ∧ x :: q' ≡ₚ q.
Proof.
  intros Hq. destruct q as [|a q]; [done|]. unfold Pop. set (l := a :: q) in *.
  set (n := (length l - 1)%nat). set (l' := down (length l) 0 n (Swap l 0 n)).
  assert (length l' = S n) as Hl by (unfold l'; rewrite length_down, length_Swap; unfold n; simpl; lia).
  destruct (lookup_lt_is_Some_2 l' n) as [x Hx]; [lia|]. unfold l. rewrite Hx.
  exists x, (take n l'). split; [done|]. trans l'; [|unfold l'; by rewrite down_perm, Swap_perm].
  rewrite <- (take_drop n l') at 2. rewrite (drop_S _ x), drop_ge by (done || lia).
  by rewrite <- Permutation_cons_append.
Qed.

Definition pr (q : list (A * Z)) (k : nat) : Z := match q !! k with Some x => snd x | None => 0 end.

(** The first [n] items form a heap: no item exceeds its parent. *)
Definition heap (n : nat) (q : list (A * Z)) : Prop :=
  ∀ k, (0 < k < n)%nat → pr q k ≤ pr q ((k - 1) / 2).

Lemma pr_Swap q i j k :
  (i < length q)%nat → (j < length q)%nat →
  pr (Swap q i j) k = if decide (k = j) then pr q i else if decide (k = i) then pr q j else pr q k.
Proof.
  intros Hi Hj. unfold pr, Swap. destruct (lookup_lt_is_Some_2 q i Hi) as [x Ex].
  destruct (lookup_lt_is_Some_2 q j Hj) as [y Ey]. rewrite Ex, Ey.
  repeat case_decide; subst.
  - by rewrite list_lookup_insert_eq by (by rewrite length_insert).
  - rewrite list_lookup_insert_ne by done. by rewrite list_lookup_insert_eq.
  - by rewrite !list_lookup_insert_ne.
Qed.

Lemma Less_pr q i j :
  (i < length q)%nat → (j < length q)%nat → Less q i j = (pr q j <? pr q i).
Proof.
  intros Hi Hj. unfold pr, Less. destruct (lookup_lt_is_Some_2 q i Hi) as [x ->].
  by destruct (lookup_lt_is_Some_2 q j Hj) as [y ->].
Qed.

Lemma up_heap fuel j n q :
  (j < n ≤ length q)%nat → (j < fuel)%nat →
  (∀ k, (0 < k < n)%nat → k ≠ j → pr q k ≤ pr q ((k - 1) / 2)) →
  (∀ k, (0 < k < n)%nat → (0 < j)%nat → ((k - 1) / 2)%nat = j → pr q k ≤ pr q ((j - 1) / 2)) →
  heap n (up fuel j q).
Proof.
  revert j q. induction fuel as [|fuel IH]; intros j q Hj Hfuel Hother Hchild; [lia|]. cbn [up].
  remember ((j - 1) / 2)%nat as i eqn:Ei. assert (i ≤ j)%nat as Hij by lia.
  destruct (Nat.eqb_spec i j) as [E|E]; cbn [andb orb negb].
  { assert (j = 0)%nat by lia. intros k Hk. apply Hother; lia. }
  rewrite Less_pr by lia. destruct (Z.ltb_spec (pr q i) (pr q j)) as [Hlt|Hge]; cbn [andb orb negb].
  - apply IH; [rewrite length_Swap; lia|lia|..].
    + intros k Hk Hki. rewrite !pr_Swap by lia. repeat case_decide; try lia.
      * by apply Hchild; [lia..|].
      * specialize (Hother k Hk). replace ((k - 1) / 2)%nat with i in Hother by done. lia.
      * apply Hother; lia.
    + intros k Hk Hi Hpar. rewrite !pr_Swap by lia.
      assert (pr q i ≤ pr q ((i - 1) / 2)) by (apply Hother; lia).
      specialize (Hother k Hk). rewrite Hpar in Hother. repeat case_decide; lia.
  - intros k Hk. destruct (decide (k = j)) as [-> |]; [by rewrite <- Ei|]. by apply Hother.
Qed.

(** The heap below index [m]. *)
Definition heap_from (m n : nat) (q : queue) : Prop :=
  ∀ k, (0 < k < n)%nat → (m ≤ (k - 1) / 2)%nat → pr q k ≤ pr q ((k - 1) / 2).

Lemma down_heap_from m fuel i n q :
  (n ≤ length q)%nat → (n < fuel + i)%nat → (m ≤ i < n)%nat →
  (∀ k, (0 < k < n)%nat → (m ≤ (k - 1) / 2)%nat → ((k - 1) / 2)%nat ≠ i → pr q k ≤ pr q ((k - 1) / 2)) →
  (∀ k, (0 < k < n)%nat → (0 < i)%nat → (m ≤ (i - 1) / 2)%nat → ((k - 1) / 2)%nat = i → pr q k ≤ pr q ((i - 1) / 2)) →
  heap_from m n (down fuel i n q).
Proof.
  revert i q. induction fuel as [|fuel IH]; intros i q Hn Hfuel Hi Hother Hchild; [lia|]. cbn [down].
  destruct (Nat.leb_spec n (2 * i + 1)) as [Hle|Hgt].
  { intros k Hk Hm. apply Hother; [done|done|]. lia. }
  remember (2 * i + 1)%nat as j1 eqn:Ej1. set (b := (j1 + 1 <? n)%nat && negb (Less q j1 (j1 + 1))).
  assert (∃ j, (if b then j1 + 1 else j1)%nat = j ∧ (i < j < n)%nat ∧ ((j - 1) / 2)%nat = i ∧
    ∀ k, (0 < k < n)%nat → ((k - 1) / 2)%nat = i → pr q k ≤ pr q j) as (j & -> & Hj & Hpj & Hmax).
  { unfold b. destruct (Nat.ltb_spec (j1 + 1) n); cbn [andb orb negb].
    - rewrite Less_pr by lia. destruct (Z.ltb_spec (pr q (j1 + 1)) (pr q j1)); cbn [andb orb negb].
      + exists j1. split_and!; [done|lia..|]. intros k Hk Hpk.
        assert (k = j1 ∨ k = j1 + 1)%nat as [-> | ->] by lia; lia.
      + exists (j1 + 1)%nat. split_and!; [done|lia..|]. intros k Hk Hpk.
        assert (k = j1 ∨ k = j1 + 1)%nat as [-> | ->] by lia; lia.
    - exists j1. split_and!; [done|lia..|]. intros k Hk Hpk. assert (k = j1) as -> by lia. lia. }
  rewrite Less_pr by lia. destruct (Z.ltb_spec (pr q i) (pr q j)) as [Hlt|Hge]; cbn [andb orb negb].
  - apply IH; [rewrite length_Swap; lia|lia|lia|..].
    + intros k Hk Hm Hkj. rewrite !pr_Swap by lia. repeat case_decide; try subst k; try lia.
      * apply Hchild; lia.
      * by apply Hmax.
      * apply Hother; lia.
    + intros k Hk _ Hm Hpk. rewrite !pr_Swap by lia. rewrite Hpj. repeat case_decide; try subst k; try lia.
      specialize (Hother k Hk). rewrite Hpk in Hother. apply Hother; lia.
  - intros k Hk Hm. destruct (decide (((k - 1) / 2)%nat = i)) as [Hpk|Hpk]; [|by apply Hother].
    rewrite Hpk. etrans; [by apply Hmax|done].
Qed.

Lemma down_heap fuel i n q :
  (n ≤ length q)%nat → (n < fuel + i)%nat → (i < n)%nat →
  (∀ k, (0 < k < n)%nat → ((k - 1) / 2)%nat ≠ i → pr q k ≤ pr q ((k - 1) / 2)) →
  (∀ k, (0 < k < n)%nat → (0 < i)%nat → ((k - 1) / 2)%nat = i → pr q k ≤ pr q ((i - 1) / 2)) →
  heap n (down fuel i n q).
Proof.
  intros Hn Hf Hi Ho Hc k Hk. apply (down_heap_from 0); [done|done|lia|intros; by apply Ho|intros; by apply Hc|done|lia].
Qed.

Lemma down_above fuel i n q k : (n ≤ k)%nat → (n ≤ length q)%nat → (i < n)%nat → down fuel i n q !! k = q !! k.
Proof.
  revert i q. induction fuel as [|fuel IH]; intros i q Hk Hn Hi; [done|]. cbn [down].
  destruct (Nat.leb_spec n (2 * i + 1)); [done|].
  set (j := if (_ && _)%bool then _ else _). assert (j < n)%nat as Hj.
  { unfold j. destruct (Nat.ltb_spec (2 * i + 1 + 1) n); cbn [andb]; [case_match|]; lia. }
  case_match; [done|]. rewrite IH; [|done|by rewrite length_Swap|done].
  unfold Swap. repeat case_match; try done; by rewrite !list_lookup_insert_ne by lia.
Qed.

Lemma heap_max q k : heap (length q) q → (k < length q)%nat → pr q k ≤ pr q 0.
Proof.
  intros Hh. induction k as [k IH] using lt_wf_ind. intros Hk.
  destruct (decide (k = 0%nat)) as [-> |]; [done|].
  etrans; [apply Hh; lia|]. apply IH; lia.
Qed.

Lemma Push_heap x prio q : heap (length q) q → heap (length (Push x prio q)) (Push x prio q).
Proof.
  intros Hh. unfold Push. rewrite length_up. apply up_heap; rewrite length_app; cbn [length]; [lia|lia|..].
  - intros k Hk Hne. specialize (Hh k ltac:(lia)). unfold pr in *.
    rewrite !lookup_app_l by lia. done.
  - intros k Hk Hpos Hpar. lia.
Qed.

Lemma Pop_heap q x q' :
  heap (length q) q → Pop q = Some (x, q') →
  heap (length q') q' ∧ ∀ y, y ∈ q → snd y ≤ snd x.
Proof.
  intros Hh. destruct q as [|a q]; [done|]. unfold Pop. set (l := a :: q) in *.
  remember (length l - 1)%nat as n eqn:En. assert (length l = S n) as Hl by (unfold l in *; simpl in *; lia).
  rewrite Hl. remember (down (S n) 0 n (Swap l 0 n)) as l' eqn:El.
  destruct (l' !! n) as [z|] eqn:Ez; [|done]. intros [= -> <-]. rewrite El in Ez.
  assert (pr l 0 = snd x) as Hx.
  { destruct (decide (n = 0%nat)) as [-> |Hn0].
    - cbn [down Nat.leb] in Ez. replace (snd x) with (pr (Swap l 0 0) 0) by (unfold pr; by rewrite Ez).
      rewrite pr_Swap by lia. by case_decide.
    - rewrite down_above in Ez by (rewrite ?length_Swap; lia).
      replace (snd x) with (pr (Swap l 0 n) n) by (unfold pr; by rewrite Ez).
      rewrite pr_Swap by lia. by case_decide. }
  split.
  - assert (length l' = S n) as Hl' by (by rewrite El, length_down, length_Swap).
    rewrite length_take, Hl', Nat.min_l by lia. assert (heap n l') as Hd.
    { rewrite El. destruct (decide (n = 0%nat)) as [-> |Hn0]; [intros k Hk; lia|].
      apply down_heap; rewrite ?length_Swap; [lia..| |lia].
      intros k Hk Hpar. rewrite !pr_Swap by lia. specialize (Hh k ltac:(lia)).
      repeat case_decide; try lia; done. }
    intros k Hk. specialize (Hd k Hk). unfold pr in *. rewrite !lookup_take_lt by lia. done.
  - intros y [k Hk]%list_elem_of_lookup. pose proof (lookup_lt_Some _ _ _ Hk).
    rewrite <- Hx. replace (snd y) with (pr l k) by (unfold pr; by rewrite Hk). by apply heap_max.
Qed.

(** [Pop] returns the item at the root. *)
Lemma Pop_root q x q' : Pop q = Some (x, q') → q !! 0%nat = Some x.
Proof.
  destruct q as [|a q]; [done|]. unfold Pop. set (l := a :: q). set (n := (length l - 1)%nat). intros E.
  assert (down (length l) 0 n (Swap l 0 n) !! n = Swap l 0 n !! n) as Ed.
  { destruct (decide (n = 0%nat)) as [-> |Hn]; [by destruct q as [|b q]|].
    apply down_above; [done|rewrite length_Swap; unfold n; lia|lia]. }
  rewrite Ed in E. unfold Swap in E. destruct (lookup_lt_is_Some_2 l n) as [y Hy]; [unfold n; simpl; lia|].
  rewrite Hy in E. change (l !! 0%nat) with (Some a) in E. cbv iota in E.
  rewrite list_lookup_insert_eq in E by (rewrite length_insert; by eapply lookup_lt_Some). by injection E as <- _.
Qed.

Lemma length_init_loop i q : length (init_loop i q) = length q.
Proof. revert q. induction i as [|i IH]; intros q; [done|]. cbn [init_loop]. by rewrite IH, length_down. Qed.

Lemma init_loop_perm i q : init_loop i q ≡ₚ q.
Proof. revert q. induction i as [|i IH]; intros q; [done|]. cbn [init_loop]. by rewrite IH, down_perm. Qed.

Lemma init_loop_heap i q : (i ≤ length q)%nat → heap_from i (length q) q → heap (length q) (init_loop i q).
Proof.
  revert q. induction i as [|i IH]; intros q Hi Hh; [intros k Hk; apply Hh; [done|lia]|]. cbn [init_loop].
  remember (down (S (length q)) i (length q) q) as q' eqn:Eq. assert (length q' = length q) as Hl by (subst q'; apply length_down).
  rewrite <- Hl. apply IH; [lia|]. rewrite Hl, Eq.
  apply down_heap_from; [lia|lia|lia| |].
  - intros k Hk Hm Hne. apply Hh; [done|lia].
  - intros k Hk Hi0 Hm. lia.
Qed.

Lemma Init_spec q : Init q ≡ₚ q ∧ heap (length (Init q)) (Init q).
Proof.
  unfold Init. split; [apply init_loop_perm|]. rewrite length_init_loop. apply init_loop_heap; [lia|]. intros k Hk Hm. lia.
Qed.

(** The root replaced by any other item. *)
Lemma Fix0_spec x y q :
  heap (length (x :: q)) (x :: q) → Fix0 (y :: q) ≡ₚ y :: q ∧ heap (length (Fix0 (y :: q))) (Fix0 (y :: q)).
Proof.
  intros Hh. unfold Fix0. remember (y :: q) as l eqn:El. split; [apply down_perm|]. rewrite (length_down (S (length l)) 0 (length l) l). subst l. apply down_heap; [done|lia|simpl; lia| |intros; lia].
  intros k Hk Hne. specialize (Hh k Hk). unfold pr in *. destruct k as [|k]; [lia|]. destruct ((S k - 1) / 2)%nat; [lia|]. exact Hh.
Qed.

(** Push all the items of a list, and pop until the queue is empty. *)
Definition push_all (l : list (A * Z)) : list (A * Z) := foldl (fun q x => Push (fst x) (snd x) q) New l.
Fixpoint pop_all (fuel : nat) (q : list (A * Z)) : list (A * Z) :=
  match fuel with
  | O => []
  | S fuel => match Pop q with None => [] | Some (x, q) => x :: pop_all fuel q end
  end.

Lemma push_all_spec l : push_all l ≡ₚ l ∧ heap (length (push_all l)) (push_all l).
Proof.
  induction l as [|x l [IHp IHh]] using rev_ind; [split; [done|intros k Hk; simpl in *; lia]|].
  unfold push_all in *. rewrite foldl_app. cbn [foldl]. split; [|by apply Push_heap].
  rewrite Push_perm, IHp. destruct x. by rewrite Permutation_app_comm.
Qed.

Lemma pop_all_spec fuel q :
  heap (length q) q → (length q ≤ fuel)%nat →
  pop_all fuel q ≡ₚ q ∧ StronglySorted (fun x y => snd y ≤ snd x) (pop_all fuel q).
Proof.
  revert q. induction fuel as [|fuel IH]; intros q Hh Hl.
  { destruct q; [|simpl in *; lia]. split; [done|constructor]. }
  cbn [pop_all]. destruct (decide (q = [])) as [-> |Hq]; [split; [done|constructor]|].
  destruct (Pop_Some q Hq) as (x & q' & E & Hp). rewrite E.
  destruct (Pop_heap q x q' Hh E) as [Hh' Hmax]. pose proof (Permutation_length Hp) as Hlen.
  destruct (IH q' Hh') as [IHp IHs]; [simpl in *; lia|]. split; [by rewrite IHp|].
  constructor; [done|]. rewrite IHp. apply Forall_forall. intros y Hy. apply Hmax. rewrite <- Hp.
  by right.
Qed.

(** whatever is pushed, popping until the queue is empty gives back exactly
    the items pushed, in decreasing order of priority. *)
Theorem pop_all_sorted (l : list (A * Z)) :
  pop_all (length l) (push_all l) ≡ₚ l ∧
  StronglySorted (fun x y => snd y ≤ snd x) (pop_all (length l) (push_all l)).
Proof.
  destruct (push_all_spec l) as [Hp Hh]. pose proof (Permutation_length Hp).
  destruct (pop_all_spec (length l) (push_all l)) as [Hq Hs]; [done|lia|]. split; [by rewrite Hq|done].
Qed.

End Prque.
End Prque.
