(* ===== verification/IstTypes.v ===== *)
(** Data of the Istanbul consensus core: views, subjects and proposals
    (src/consensus/istanbul/types.go), messages and states (core/types.go),
    message sets (core/message_set.go), the state of a round
    (core/roundstate.go), round-change sets (core/roundchange.go) and message
    priorities (core/backlog.go). *)

From S2P Require Import Prelude RlpEncode RlpRaw RlpDecode RlpRoundtrip RlpTotal KeccakF Sha3 CoreTypes IstValidator.

Module Ist.
Import Rlp Raw Dec Roundtrip Total Codec Types Validator.

(** ** src/consensus/istanbul/types.go *)

Record View := mkView { Round : Z; Sequence : Z }.

Definition view_typ : typ := TStruct [TBigInt; TBigInt].
Definition view_val (v : View) : val := VStruct [VBig (Some (Round v)); VBig (Some (Sequence v))].
Definition of_view_val (v : val) : option View :=
  match v with VStruct [VBig (Some r); VBig (Some s)] => Some (mkView r s) | _ => None end.
Lemma of_to_view x : of_view_val (view_val x) = Some x.
Proof. by destruct x. Qed.
#[global] Instance view_codec : Codec View :=
  {| ctyp := view_typ; to_val := view_val; of_val := of_view_val; of_to := of_to_view |}.

(** [View.Cmp]: by sequence, then by round. *)
Definition view_Cmp (v y : View) : comparison :=
  match Sequence v ?= Sequence y with
  | Eq => Round v ?= Round y
  | c => c
  end.

(** A proposal is a block; a request may come without one. *)
Abbreviation Proposal := Block.
Record Request := mkRequest { req_Proposal : option Block }.

Record Preprepare := mkPreprepare { pp_View : View; pp_Proposal : Block }.

Definition preprepare_typ : typ := TStruct [TPtr view_typ; TPtr block_typ].
Definition preprepare_val (p : Preprepare) : val :=
  VStruct [ptr_to (view_val (pp_View p)); ptr_to (block_val (pp_Proposal p))].
Definition of_preprepare_val (v : val) : option Preprepare :=
  match v with
  | VStruct [w; b] => w ← of_ptr of_view_val w; b ← of_ptr of_block_val b; Some (mkPreprepare w b)
  | _ => None
  end.
Lemma of_to_preprepare x : of_preprepare_val (preprepare_val x) = Some x.
Proof.
  destruct x as [w b]. unfold preprepare_val, of_preprepare_val, ptr_to. cbn [of_ptr pp_View pp_Proposal].
  rewrite of_to_view. cbn [mbind option_bind]. by rewrite of_to_block.
Qed.
#[global] Instance preprepare_codec : Codec Preprepare :=
  {| ctyp := preprepare_typ; to_val := preprepare_val; of_val := of_preprepare_val; of_to := of_to_preprepare |}.

Record Subject := mkSubject { sub_View : View; Digest : bytes }.

#[global] Instance View_eq_dec : EqDecision View.
Proof. solve_decision. Defined.
#[global] Instance Subject_eq_dec : EqDecision Subject.
Proof. solve_decision. Defined.

Definition subject_typ : typ := TStruct [TPtr view_typ; TByteArray 32].
Definition subject_val (s : Subject) : val := VStruct [ptr_to (view_val (sub_View s)); VByteArray (Digest s)].
Definition of_subject_val (v : val) : option Subject :=
  match v with
  | VStruct [w; VByteArray d] => w ← of_ptr of_view_val w; Some (mkSubject w d)
  | _ => None
  end.
Lemma of_to_subject x : of_subject_val (subject_val x) = Some x.
Proof. by destruct x as [[]]. Qed.
#[global] Instance subject_codec : Codec Subject :=
  {| ctyp := subject_typ; to_val := subject_val; of_val := of_subject_val; of_to := of_to_subject |}.

(** ** utils.go *)

(** [crypto.PubkeyToAddress] of a key's 65 bytes. *)
Definition PubkeyToAddress (pub : bytes) : bytes := BytesToAddress (drop 12 (hash256 [drop 1 pub])).
(** [SigToPub] is [crypto.SigToPub] of a digest and a signature, as the key's bytes. *)
Definition GetSignatureAddress (SigToPub : bytes → bytes → option bytes) (data sig : bytes) : option bytes :=
  PubkeyToAddress <$> SigToPub (hash256 [data]) sig.

(** ** core/types.go *)

Inductive State := StateAcceptRequest | StatePreprepared | StatePrepared | StateCommitted.
#[global] Instance State_eq_dec : EqDecision State.
Proof. solve_decision. Defined.
Definition state_num (s : State) : Z :=
  match s with StateAcceptRequest => 0 | StatePreprepared => 1 | StatePrepared => 2 | StateCommitted => 3 end.
Definition state_Cmp (s y : State) : comparison := state_num s ?= state_num y.

Definition msgPreprepare : Z := 0.
Definition msgPrepare : Z := 1.
Definition msgCommit : Z := 2.
Definition msgRoundChange : Z := 3.

(** What a commit message signs (core.go). *)
Definition PrepareCommittedSeal (hash : bytes) : bytes := hash ++ [zb msgCommit].

Record message := mkMessage {
  Code : Z;
  Msg : bytes;
  msg_Address : bytes;
  Signature : bytes;
  msg_CommittedSeal : bytes }.

Definition message_typ : typ := TStruct [TUint 64; TBytes; TByteArray 20; TBytes; TBytes].
Definition message_val (m : message) : val :=
  VStruct [VUint (Code m); VBytes (Msg m); VByteArray (msg_Address m); VBytes (Signature m);
           VBytes (msg_CommittedSeal m)].
Definition of_message_val (v : val) : option message :=
  match v with
  | VStruct [VUint c; VBytes m; VByteArray a; VBytes s; VBytes cs] => Some (mkMessage c m a s cs)
  | _ => None
  end.
Lemma of_to_message x : of_message_val (message_val x) = Some x.
Proof. by destruct x. Qed.
#[global] Instance message_codec : Codec message :=
  {| ctyp := message_typ; to_val := message_val; of_val := of_message_val; of_to := of_to_message |}.

Definition msg_Payload (m : message) : result encErr bytes := encode m.
Definition PayloadNoSig (m : message) : result encErr bytes :=
  encode (mkMessage (Code m) (Msg m) (msg_Address m) [] (msg_CommittedSeal m)).
(** [message.Decode]. *)
Definition msg_Decode {A} `{Codec A} (m : message) : result rlpErr A := decode (Msg m).

Record roundChange := mkRoundChange { rc_Round : Z; rc_Sequence : Z; rc_Digest : bytes }.
Definition roundChange_typ : typ := TStruct [TBigInt; TBigInt; TByteArray 32].
Definition roundChange_val (r : roundChange) : val :=
  VStruct [VBig (Some (rc_Round r)); VBig (Some (rc_Sequence r)); VByteArray (rc_Digest r)].
Definition of_roundChange_val (v : val) : option roundChange :=
  match v with
  | VStruct [VBig (Some r); VBig (Some s); VByteArray d] => Some (mkRoundChange r s d)
  | _ => None
  end.
Lemma of_to_roundChange x : of_roundChange_val (roundChange_val x) = Some x.
Proof. by destruct x. Qed.
#[global] Instance roundChange_codec : Codec roundChange :=
  {| ctyp := roundChange_typ; to_val := roundChange_val; of_val := of_roundChange_val; of_to := of_to_roundChange |}.

(** ** Messages are coded without a crash *)

Lemma view_decoded v : decoded view_typ v → is_Some (of_view_val v).
Proof. intros Hv. simpl in Hv. inv_decoded. Qed.
#[global] Instance message_total : TotalCodec message.
Proof. split; [done|done|]. intros v Hv. unfold message_typ in Hv. simpl in *. inv_decoded. Qed.
#[global] Instance subject_total : TotalCodec Subject.
Proof. split; [done|done|]. intros v Hv. simpl in *. inv_decoded. Qed.
#[global] Instance roundChange_total : TotalCodec roundChange.
Proof. split; [done|done|]. intros v Hv. simpl in *. inv_decoded. Qed.
#[global] Instance preprepare_total : TotalCodec Preprepare.
Proof.
  split; [done| |].
  - intros p. unfold to_val, ctyp, preprepare_codec, preprepare_typ, preprepare_val, ptr_to. cbn [shaped].
    rewrite block_shaped. done.
  - intros v Hv. unfold ctyp, preprepare_codec, preprepare_typ in Hv. cbn [decoded] in Hv.
    destruct v as [| | | | | | | | |l| |]; try done. destruct l as [|w [|b [|]]]; try by destruct_and? Hv.
    destruct Hv as (Hw & Hb & _). unfold of_val, preprepare_codec, of_preprepare_val.
    destruct (of_ptr_decoded of_view_val view_typ view_decoded w Hw) as [w' ->]. cbn [mbind option_bind].
    destruct (of_ptr_decoded of_block_val block_typ block_decoded b Hb) as [b' ->]. by eexists.
Qed.

(** ** core/message_set.go

    The messages of a set, by the hash of their RLP form; its [view] is always
    zero and not read. *)
Record messageSet := mkMessageSet { ms_valSet : defaultSet; messages : gmap bytes message }.

Definition newMessageSet (valSet : defaultSet) : messageSet := mkMessageSet valSet ∅.
Definition ms_verify (ms : messageSet) (m : message) : bool :=
  match snd (GetByAddress (ms_valSet ms) (msg_Address m)) with Some _ => true | None => false end.
Definition addVerifiedMessage (m : message) (ms : messageSet) : messageSet :=
  mkMessageSet (ms_valSet ms) (<[rlpHash m := m]> (messages ms)).
(** [None] is [ErrUnauthorizedAddress]. *)
Definition ms_Add (m : message) (ms : messageSet) : option messageSet :=
  if ms_verify ms m then Some (addVerifiedMessage m ms) else None.
(** Go ranges over the map in any order; this is one of them. *)
Definition ms_Values (ms : messageSet) : list message := (map_to_list (messages ms)).*2.
Definition ms_Size (ms : messageSet) : Z := Z.of_nat (base.size (messages ms)).

(** ** core/roundstate.go *)

Record roundState := mkRoundState {
  round : Z;
  sequence : Z;
  rPreprepare : option Preprepare;
  Prepares : messageSet;
  Commits : messageSet;
  lockedHash : bytes;
  pendingRequest : option Request }.

Definition newRoundState (view : View) (valSet : defaultSet) (locked : bytes)
    (preprepare : option Preprepare) (pending : option Request) : roundState :=
  mkRoundState (Round view) (Sequence view) preprepare (newMessageSet valSet) (newMessageSet valSet)
    locked pending.

Definition rs_Subject (s : roundState) : option Subject :=
  p ← rPreprepare s; Some (mkSubject (mkView (round s) (sequence s)) (block_Hash (pp_Proposal p))).
Definition SetPreprepare (p : Preprepare) (s : roundState) : roundState :=
  mkRoundState (round s) (sequence s) (Some p) (Prepares s) (Commits s) (lockedHash s) (pendingRequest s).
Definition rs_Proposal (s : roundState) : option Block := pp_Proposal <$> rPreprepare s.
Definition set_lockedHash (h : bytes) (s : roundState) : roundState :=
  mkRoundState (round s) (sequence s) (rPreprepare s) (Prepares s) (Commits s) h (pendingRequest s).
Definition LockHash (s : roundState) : roundState :=
  match rPreprepare s with
  | Some p => set_lockedHash (block_Hash (pp_Proposal p)) s
  | None => s
  end.
Definition UnlockHash (s : roundState) : roundState := set_lockedHash emptyHash s.
Definition IsHashLocked (s : roundState) : bool := negb (bool_decide (lockedHash s = emptyHash)).
Definition set_Prepares (ms : messageSet) (s : roundState) : roundState :=
  mkRoundState (round s) (sequence s) (rPreprepare s) ms (Commits s) (lockedHash s) (pendingRequest s).
Definition set_Commits (ms : messageSet) (s : roundState) : roundState :=
  mkRoundState (round s) (sequence s) (rPreprepare s) (Prepares s) ms (lockedHash s) (pendingRequest s).
Definition set_pendingRequest (r : option Request) (s : roundState) : roundState :=
  mkRoundState (round s) (sequence s) (rPreprepare s) (Prepares s) (Commits s) (lockedHash s) r.

(** ** core/roundchange.go: [roundChangeSet], by the low 64 bits of the round *)

Record roundChangeSet := mkRcs { rcs_valSet : defaultSet; roundChanges : gmap Z messageSet }.

Definition newRoundChangeSet (valSet : defaultSet) : roundChangeSet := mkRcs valSet ∅.

(** The set, with the round's message set in it also when the message is refused, and
    the number of messages for the round. *)
Definition rcs_Add (r : Z) (m : message) (rcs : roundChangeSet) : roundChangeSet * option Z :=
  let k := u64 r in
  let ms := default (newMessageSet (rcs_valSet rcs)) (roundChanges rcs !! k) in
  match ms_Add m ms with
  | Some ms' => (mkRcs (rcs_valSet rcs) (<[k := ms']> (roundChanges rcs)), Some (ms_Size ms'))
  | None => (mkRcs (rcs_valSet rcs) (<[k := ms]> (roundChanges rcs)), None)
  end.

Definition rcs_Clear (r : Z) (rcs : roundChangeSet) : roundChangeSet :=
  mkRcs (rcs_valSet rcs)
    (filter (fun kv => ¬ (ms_Size (snd kv) = 0 ∨ fst kv < u64 r)) (roundChanges rcs)).

Definition max_round (num : Z) (kv : Z * messageSet) (acc : option Z) : option Z :=
  if ms_Size (snd kv) <? num then acc
  else
    let r := i64 (fst kv) in
    match acc with
    | None => Some r
    | Some m => if m <? r then Some r else acc
    end.
Definition MaxRound (num : Z) (rcs : roundChangeSet) : option Z :=
  foldr (max_round num) None (map_to_list (roundChanges rcs)).

(** ** core/backlog.go: priorities *)

Definition msgPriority (code : Z) : Z :=
  if code =? msgPreprepare then 1 else if code =? msgCommit then 2 else if code =? msgPrepare then 3 else 0.

(** [float32(n)] of a uint64: 24 significant bits, to nearest, ties to even. *)
Definition f32 (n : Z) : Z :=
  if n <? 2 ^ 24 then n
  else
    let e := Z.log2 n - 23 in
    let q := n / 2 ^ e in
    let r := n mod 2 ^ e in
    let half := 2 ^ (e - 1) in
    (if (half <? r) || ((r =? half) && Z.odd q) then q + 1 else q) * 2 ^ e.

Definition toPriority (code : Z) (view : View) : Z :=
  - f32 (u64 (u64 (u64 (Sequence view) * 1000) + u64 (u64 (Round view) * 10) + msgPriority code)).

End Ist.
