(* ===== verification/IstCore.v ===== *)
(** The Istanbul consensus core (src/consensus/istanbul/core): the state of a
    node and the handlers of core.go, handler.go, request.go, preprepare.go,
    prepare.go, commit.go, roundchange.go, backlog.go and final_committed.go, as
    functions from the state to the next state and the effects on the outside.

    The goroutine of [handleEvents] runs one event at a time to the end; what the
    handlers post to the event mux, also from new goroutines, is an effect, and
    comes back as an event whenever the environment delivers it.  [None] is a
    run-time panic. *)

From S2P Require Import Prelude RlpEncode RlpRaw RlpDecode RlpRoundtrip KeccakF Sha3 CoreTypes.
From S2P Require Import IstValidator Prque IstTypes.

Module Core.
Import Rlp Raw Dec Roundtrip Codec Types Validator Ist.

(** ** State, events and effects *)

(** The errors of core/errors.go, and those of the calls the handlers pass on. *)
Inductive coreErr :=
| errInconsistentSubject | errNotFromProposer | errFutureMessage | errOldMessage | errInvalidMessage
| errFailedDecodePreprepare | errFailedDecodePrepare | errFailedDecodeCommit
| ErrUnauthorizedAddress | ErrFutureBlock | ErrVerify | ErrDecode | ErrEncode | ErrSignature.
#[global] Instance coreErr_eq_dec : EqDecision coreErr.
Proof. solve_decision. Defined.

(** A validator set object; its validators are pointers, so that those of two
    objects differ even when their addresses agree. *)
Record vset := mkVset { v_id : Z; v_set : defaultSet }.
Record source := mkSource { src_set : Z; src_addr : bytes }.

Record Config := mkConfig {
  RequestTimeout : Z;
  (** what converting a float64 of 2^64 or more to uint64 gives on the platform *)
  float_overflow : Z → Z }.

Inductive event :=
| RequestEvent (proposal : option Block)
| MessageEvent (payload : bytes)
| backlogEvent (src : source) (msg : message)
| timeoutEvent
| FinalCommittedEvent (proposal : Block) (proposer : bytes)
| StartEvent (lastSequence : Z) (lastProposer : bytes) (lastProposal : option Block)
| StopEvent.

Inductive effect :=
| Broadcast (valSet : defaultSet) (payload : bytes)
| Gossip (valSet : defaultSet) (payload : bytes)
| Commit (proposal : Block) (seals : list bytes)
| Post (ev : event)
| FuturePreprepareTimer (duration : Z) (src : source) (msg : message)
| RoundChangeTimer (nanoseconds : Z)
| StopFuturePreprepareTimer
| StopRoundChangeTimer.

(** What the backend answers during one event (src/consensus/istanbul/backend.go). *)
Inductive verifyResult := VerifyOk | VerifyFuture (duration : Z) | VerifyFailed.
Record Backend := mkBackend {
  bk_Validators : option Block → vset;
  bk_LastProposal : option Block * bytes;
  bk_Verify : Block → verifyResult;
  bk_Commit : Block → list bytes → bool;
  bk_Sign : bytes → option bytes;
  (** [crypto.SigToPub] of a digest and a signature, as the key's 65 bytes *)
  bk_SigToPub : bytes → bytes → option bytes }.

Record core := mkCore {
  config : Config;
  address : bytes;
  state : State;
  lastProposer : bytes;
  lastProposal : option Block;
  valSet : option vset;
  waitingForRoundChange : bool;
  backlogs : gmap (Z * bytes) (list (message * Z));
  current : option roundState;
  rcSet : option roundChangeSet;
  pendingRequests : list (Request * Z) }.

(** [core.New]. *)
Definition New (cfg : Config) (addr : bytes) : core :=
  mkCore cfg addr StateAcceptRequest emptyAddr None None false ∅ None None [].

Definition set_state (x : State) (c : core) : core :=
  mkCore (config c) (address c) x (lastProposer c) (lastProposal c) (valSet c)
    (waitingForRoundChange c) (backlogs c) (current c) (rcSet c) (pendingRequests c).
Definition set_last (p : option Block) (a : bytes) (c : core) : core :=
  mkCore (config c) (address c) (state c) a p (valSet c)
    (waitingForRoundChange c) (backlogs c) (current c) (rcSet c) (pendingRequests c).
Definition set_valSet (x : vset) (c : core) : core :=
  mkCore (config c) (address c) (state c) (lastProposer c) (lastProposal c) (Some x)
    (waitingForRoundChange c) (backlogs c) (current c) (rcSet c) (pendingRequests c).
Definition set_waiting (x : bool) (c : core) : core :=
  mkCore (config c) (address c) (state c) (lastProposer c) (lastProposal c) (valSet c)
    x (backlogs c) (current c) (rcSet c) (pendingRequests c).
Definition set_backlogs (x : gmap (Z * bytes) (list (message * Z))) (c : core) : core :=
  mkCore (config c) (address c) (state c) (lastProposer c) (lastProposal c) (valSet c)
    (waitingForRoundChange c) x (current c) (rcSet c) (pendingRequests c).
Definition set_current (x : roundState) (c : core) : core :=
  mkCore (config c) (address c) (state c) (lastProposer c) (lastProposal c) (valSet c)
    (waitingForRoundChange c) (backlogs c) (Some x) (rcSet c) (pendingRequests c).
Definition set_rcSet (x : roundChangeSet) (c : core) : core :=
  mkCore (config c) (address c) (state c) (lastProposer c) (lastProposal c) (valSet c)
    (waitingForRoundChange c) (backlogs c) (current c) (Some x) (pendingRequests c).
Definition set_pendingRequests (x : list (Request * Z)) (c : core) : core :=
  mkCore (config c) (address c) (state c) (lastProposer c) (lastProposal c) (valSet c)
    (waitingForRoundChange c) (backlogs c) (current c) (rcSet c) x.

(** ** The monad of the handlers *)

Definition M (A : Type) : Type := core → option (A * core * list effect).
Definition ret {A} (a : A) : M A := fun c => Some (a, c, []).
Definition panic {A} : M A := fun _ => None.
Definition bind {A B} (m : M A) (k : A → M B) : M B := fun c =>
  match m c with
  | Some (a, c, e) =>
      match k a c with
      | Some (b, c, e') => Some (b, c, e ++ e')
      | None => None
      end
  | None => None
  end.
Definition get : M core := fun c => Some (c, c, []).
Definition modify (f : core → core) : M unit := fun c => Some (tt, f c, []).
Definition emit (e : effect) : M unit := fun c => Some (tt, c, [e]).
(** A pointer that must not be nil. *)
Definition deref {A} (o : option A) : M A := match o with Some a => ret a | None => panic end.

Declare Scope core_scope.
Notation "x <- m ;; k" := (bind m (fun x => k)) : core_scope.
Notation "m ;;; k" := (bind m (fun _ => k)) : core_scope.
#[local] Open Scope core_scope.

Definition get_current : M roundState := c <- get ;; deref (current c).
Definition get_valSet : M vset := c <- get ;; deref (valSet c).
Definition get_rcSet : M roundChangeSet := c <- get ;; deref (rcSet c).

(** Decoding and encoding, with an error as [None]. *)
Definition try {E A} (r : result E A) : M (option A) :=
  match r with
  | Ok a => ret (Some a)
  | Err _ => ret None
  | Panic | NoFuel => panic
  end.

(** ** Handlers *)

Section handlers.
Context (B : Backend).

(** *** core.go *)

Definition currentView : M View := rs <- get_current ;; ret (mkView (round rs) (sequence rs)).

Definition isProposer_of (c : core) : bool :=
  match valSet c with None => false | Some v => IsProposer (v_set v) (address c) end.
Definition isProposer : M bool := c <- get ;; ret (isProposer_of c).


Definition finalizeMessage (code : Z) (body : bytes) : M (option bytes) :=
  c <- get ;;
  seal <- (if code =? msgCommit then
             rs <- get_current ;;
             ret (match rs_Proposal rs with
                  | Some p => bk_Sign B (PrepareCommittedSeal (block_Hash p))
                  | None => Some []
                  end)
           else ret (Some [])) ;;
  match seal with
  | None => ret None
  | Some seal =>
      data <- try (PayloadNoSig (mkMessage code body (address c) [] seal)) ;;
      match data with
      | None => ret None
      | Some data =>
          match bk_Sign B data with
          | None => ret None
          | Some sig => try (msg_Payload (mkMessage code body (address c) sig seal))
          end
      end
  end.

Definition broadcast (code : Z) (body : bytes) : M unit :=
  payload <- finalizeMessage code body ;;
  match payload with
  | None => ret tt
  | Some payload => v <- get_valSet ;; emit (Broadcast (v_set v) payload)
  end.

Definition stopTimer : M unit := emit StopFuturePreprepareTimer ;;; emit StopRoundChangeTimer.

(** [uint64(math.Pow(2, float64(round))) * RequestTimeout] milliseconds, in the
    nanoseconds of a [time.Duration]. *)
Definition roundTimeout (cfg : Config) (round : Z) : Z :=
  let p := if u64 round <? 64 then 2 ^ u64 round else float_overflow cfg (u64 round) in
  i64 (i64 (u64 (p * RequestTimeout cfg)) * 1000000).

Definition newRoundChangeTimer : M unit :=
  stopTimer ;;;
  rs <- get_current ;; c <- get ;; emit (RoundChangeTimer (roundTimeout (config c) (round rs))).

Definition updateRoundState (view : View) (vs : defaultSet) (roundChange : bool) : M unit :=
  modify (fun c =>
    match current c with
    | Some rs =>
        if roundChange then
          if IsHashLocked rs
          then set_current (newRoundState view vs (lockedHash rs) (rPreprepare rs) (pendingRequest rs)) c
          else set_current (newRoundState view vs emptyHash None (pendingRequest rs)) c
        else set_current (newRoundState view vs emptyHash None None) c
    | None => set_current (newRoundState view vs emptyHash None None) c
    end).

(** *** request.go *)

Definition checkRequestMsg (rs : option roundState) (r : Request) : option (option coreErr) :=
  match req_Proposal r with
  | None => Some (Some errInvalidMessage)
  | Some p =>
      rs ← rs;
      Some (match sequence rs ?= block_Number p with
            | Gt => Some errOldMessage
            | Lt => Some errFutureMessage
            | Eq => None
            end)
  end.

Fixpoint pending_loop (fuel : nat) (rs : option roundState) (q : list (Request * Z))
    : option (list (Request * Z) * list effect) :=
  match fuel with
  | O => Some (q, [])
  | S fuel =>
      match Prque.Pop q with
      | None => Some (q, [])
      | Some ((r, prio), q) =>
          err ← checkRequestMsg rs r;
          match err with
          | Some errFutureMessage => Some (Prque.Push r prio q, [])
          | Some _ => pending_loop fuel rs q
          | None =>
              '(q, e) ← pending_loop fuel rs q;
              Some (q, Post (RequestEvent (req_Proposal r)) :: e)
          end
      end
  end.

Definition processPendingRequests : M unit := fun c =>
  '(q, e) ← pending_loop (length (pendingRequests c)) (current c) (pendingRequests c);
  Some (tt, set_pendingRequests q c, e).

(** *** backlog.go *)

Definition checkMessage (c : core) (msgCode : Z) (view : View) : option (option coreErr) :=
  rs ← current c;
  let cv := mkView (round rs) (sequence rs) in
  Some (match view_Cmp view cv with
        | Gt => Some errFutureMessage
        | Lt => Some errOldMessage
        | Eq =>
            if waitingForRoundChange c then Some errFutureMessage
            else if bool_decide (state c = StateAcceptRequest) && (msgPreprepare <? msgCode)
            then Some errFutureMessage
            else None
        end).

(** The view of a message in a backlog; [None] when it cannot be decoded. *)
Definition message_view (m : message) : option View :=
  if Code m =? msgPreprepare then
    match msg_Decode (A:=Preprepare) m with Ok p => Some (pp_View p) | _ => None end
  else
    match msg_Decode (A:=Subject) m with Ok s => Some (sub_View s) | _ => None end.

Definition storeBacklog (m : message) (src : source) : M unit := fun c =>
  if bool_decide (src_addr src = address c) then Some (tt, c, [])
  else
    let key := (src_set src, src_addr src) in
    let q := default [] (backlogs c !! key) in
    let q := match message_view m with
             | Some v => Prque.Push m (toPriority (Code m) v) q
             | None => q
             end in
    Some (tt, set_backlogs (<[key := q]> (backlogs c)) c, []).

Fixpoint backlog_loop (fuel : nat) (c : core) (src : source) (q : list (message * Z))
    : option (list (message * Z) * list effect) :=
  match fuel with
  | O => Some (q, [])
  | S fuel =>
      match Prque.Pop q with
      | None => Some (q, [])
      | Some ((m, prio), q) =>
          match message_view m with
          | None => backlog_loop fuel c src q
          | Some view =>
              err ← checkMessage c (Code m) view;
              match err with
              | Some errFutureMessage => Some (Prque.Push m prio q, [])
              | Some _ => backlog_loop fuel c src q
              | None =>
                  '(q, e) ← backlog_loop fuel c src q;
                  Some (q, Post (backlogEvent src m) :: e)
              end
          end
      end
  end.

(** Every backlog is processed on its own, so that the order in which Go ranges over
    the map does not matter but for the order of the posts. *)
Fixpoint process_backlogs (c : core) (l : list ((Z * bytes) * list (message * Z)))
    : option (gmap (Z * bytes) (list (message * Z)) * list effect) :=
  match l with
  | [] => Some (∅, [])
  | (key, q) :: l =>
      '(q, e) ← backlog_loop (length q) c (mkSource (fst key) (snd key)) q;
      '(m, es) ← process_backlogs c l;
      Some (<[key := q]> m, e ++ es)
  end.

Definition processBacklog : M unit := fun c =>
  '(m, e) ← process_backlogs c (map_to_list (backlogs c));
  Some (tt, set_backlogs m c, e).

Definition setState (s : State) : M unit :=
  modify (set_state s) ;;;
  (if bool_decide (s = StateAcceptRequest) then processPendingRequests else ret tt) ;;;
  processBacklog.

(** *** roundchange.go (sending) *)

Definition catchUpRound (view : View) : M unit :=
  get_current ;;;
  v <- get_valSet ;;
  modify (set_waiting true) ;;;
  updateRoundState view (v_set v) true ;;;
  rcs <- get_rcSet ;;
  modify (set_rcSet (rcs_Clear (Round view) rcs)) ;;;
  newRoundChangeTimer.

Definition sendRoundChange (r : Z) : M unit :=
  cv <- currentView ;;
  if r <=? Round cv then ret tt
  else
    catchUpRound (mkView r (Sequence cv)) ;;;
    cv <- currentView ;;
    payload <- try (encode (mkRoundChange (Round cv) (Sequence cv) emptyHash)) ;;
    match payload with
    | None => ret tt
    | Some payload => broadcast msgRoundChange payload
    end.

Definition sendNextRoundChange : M unit := cv <- currentView ;; sendRoundChange (Round cv + 1).

(** *** preprepare.go *)

Definition sendPreprepare (request : Request) : M unit :=
  rs <- get_current ;;
  p <- deref (req_Proposal request) ;;
  if sequence rs =? block_Number p then
    ok <- isProposer ;;
    if (ok : bool) then
      cv <- currentView ;;
      preprepare <- try (encode (mkPreprepare cv p)) ;;
      match preprepare with
      | None => ret tt
      | Some preprepare => broadcast msgPreprepare preprepare
      end
    else ret tt
  else ret tt.

Definition modify_current (f : roundState → roundState) : M unit :=
  rs <- get_current ;; modify (set_current (f rs)).

(** *** prepare.go and commit.go (sending) *)

Definition send_subject (code : Z) : M unit :=
  rs <- get_current ;;
  sub <- deref (rs_Subject rs) ;;
  body <- try (encode sub) ;;
  match body with
  | None => ret tt
  | Some body => broadcast code body
  end.
Definition sendPrepare : M unit := send_subject msgPrepare.
Definition sendCommit : M unit := send_subject msgCommit.

Definition handlePreprepare (m : message) (src : source) : M (option coreErr) :=
  p <- try (msg_Decode (A:=Preprepare) m) ;;
  match p with
  | None => ret (Some errFailedDecodePreprepare)
  | Some p =>
      c <- get ;;
      err <- deref (checkMessage c msgPreprepare (pp_View p)) ;;
      match err with
      | Some err => ret (Some err)
      | None =>
          v <- get_valSet ;;
          if negb (IsProposer (v_set v) (src_addr src)) then ret (Some errNotFromProposer)
          else
            match bk_Verify B (pp_Proposal p) with
            | VerifyFuture duration =>
                emit StopFuturePreprepareTimer ;;;
                emit (FuturePreprepareTimer duration src m) ;;;
                ret (Some ErrFutureBlock)
            | VerifyFailed => sendNextRoundChange ;;; ret (Some ErrVerify)
            | VerifyOk =>
                c <- get ;;
                (if bool_decide (state c = StateAcceptRequest) then
                   rs <- get_current ;;
                   if IsHashLocked rs && negb (bool_decide (block_Hash (pp_Proposal p) = lockedHash rs))
                   then sendNextRoundChange
                   else
                     modify_current (SetPreprepare p) ;;;
                     setState StatePreprepared ;;;
                     sendPrepare
                 else ret tt) ;;;
                ret None
            end
      end
  end.

(** *** prepare.go *)

(** [verifyPrepare] and [verifyCommit]. *)
Definition verify_subject (sub : Subject) : M (option coreErr) :=
  rs <- get_current ;;
  ret (if bool_decide (rs_Subject rs = Some sub) then None else Some errInconsistentSubject).

Definition acceptPrepare (m : message) : M unit :=
  modify_current (fun rs =>
    match ms_Add m (Prepares rs) with Some ms => set_Prepares ms rs | None => rs end).

Definition handlePrepare (m : message) (src : source) : M (option coreErr) :=
  sub <- try (msg_Decode (A:=Subject) m) ;;
  match sub with
  | None => ret (Some errFailedDecodePrepare)
  | Some sub =>
      c <- get ;;
      err <- deref (checkMessage c msgPrepare (sub_View sub)) ;;
      match err with
      | Some err => ret (Some err)
      | None =>
          err <- verify_subject sub ;;
          match err with
          | Some err => ret (Some err)
          | None =>
              acceptPrepare m ;;;
              rs <- get_current ;; v <- get_valSet ;; c <- get ;;
              (if (IsHashLocked rs || (2 * F (v_set v) <? ms_Size (Prepares rs)))
                  && bool_decide (state_Cmp (state c) StatePrepared = Lt)
               then modify_current LockHash ;;; setState StatePrepared ;;; sendCommit
               else ret tt) ;;;
              ret None
          end
      end
  end.

(** *** commit.go *)

(** [core.commit]; the seals are cut or filled up to 65 bytes. *)
Definition commit : M unit :=
  setState StateCommitted ;;;
  rs <- get_current ;;
  match rs_Proposal rs with
  | None => ret tt
  | Some p =>
      let seals := map (fun v => fit IstanbulExtraSeal (msg_CommittedSeal v)) (ms_Values (Commits rs)) in
      emit (Commit p seals) ;;;
      if bk_Commit B p seals then ret tt
      else modify_current UnlockHash ;;; sendNextRoundChange
  end.

Definition acceptCommit (m : message) : M unit :=
  modify_current (fun rs =>
    match ms_Add m (Commits rs) with Some ms => set_Commits ms rs | None => rs end).

Definition handleCommit (m : message) (src : source) : M (option coreErr) :=
  sub <- try (msg_Decode (A:=Subject) m) ;;
  match sub with
  | None => ret (Some errFailedDecodeCommit)
  | Some sub =>
      c <- get ;;
      err <- deref (checkMessage c msgCommit (sub_View sub)) ;;
      match err with
      | Some err => ret (Some err)
      | None =>
          err <- verify_subject sub ;;
          match err with
          | Some err => ret (Some err)
          | None =>
              acceptCommit m ;;;
              rs <- get_current ;; v <- get_valSet ;; c <- get ;;
              (if (2 * F (v_set v) <? ms_Size (Commits rs))
                  && bool_decide (state_Cmp (state c) StateCommitted = Lt)
               then modify_current LockHash ;;; commit
               else ret tt) ;;;
              ret None
          end
      end
  end.

(** *** core.go: a new round *)

Definition startNewRound (newView : View) (lastP : option Block) (roundChange : bool) : M unit :=
  get_valSet ;;;
  newView <- (match lastP with
              | Some _ => ret newView
              | None =>
                  p <- deref (fst (bk_LastProposal B)) ;;
                  if Sequence newView <? block_Number p then
                    modify (set_last (Some p) (snd (bk_LastProposal B))) ;;;
                    ret (mkView 0 (block_Number p + 1))
                  else ret newView
              end) ;;
  c <- get ;;
  let v := bk_Validators B (lastProposal c) in
  modify (set_valSet v) ;;;
  modify (set_rcSet (newRoundChangeSet (v_set v))) ;;;
  updateRoundState newView (v_set v) roundChange ;;;
  modify (set_valSet (mkVset (v_id v) (CalcProposer (v_set v) (lastProposer c) (u64 (Round newView))))) ;;;
  modify (set_waiting false) ;;;
  setState StateAcceptRequest ;;;
  c <- get ;;
  (if roundChange && isProposer_of c then
     match current c with
     | None => ret tt
     | Some rs =>
         if IsHashLocked rs then sendPreprepare (mkRequest (rs_Proposal rs))
         else match pendingRequest rs with Some r => sendPreprepare r | None => ret tt end
     end
   else ret tt) ;;;
  newRoundChangeTimer.

(** *** roundchange.go *)

Definition handleRoundChange (m : message) (src : source) : M (option coreErr) :=
  rc <- try (msg_Decode (A:=roundChange) m) ;;
  match rc with
  | None => ret (Some errInvalidMessage)
  | Some rc =>
      cv <- currentView ;;
      if negb (rc_Sequence rc =? Sequence cv) then ret (Some errInvalidMessage)
      else if rc_Round rc <? Round cv then ret (Some errOldMessage)
      else
        rcs <- get_rcSet ;;
        let '(rcs, num) := rcs_Add (rc_Round rc) m rcs in
        modify (set_rcSet rcs) ;;;
        match num with
        | None => ret (Some ErrUnauthorizedAddress)
        | Some num =>
            v <- get_valSet ;; c <- get ;;
            if waitingForRoundChange c && (num =? F (v_set v) + 1) then
              (if Round cv <? rc_Round rc then sendRoundChange (rc_Round rc) else ret tt) ;;; ret None
            else if (num =? 2 * F (v_set v) + 1) && (waitingForRoundChange c || (Round cv <? rc_Round rc)) then
              startNewRound (mkView (rc_Round rc) (rc_Sequence rc)) None true ;;; ret None
            else if Round cv <? rc_Round rc then ret (Some errFutureMessage)
            else ret None
        end
  end.

(** *** request.go *)

Definition handleRequest (r : Request) : M (option coreErr) :=
  rs <- get_current ;;
  err <- deref (checkRequestMsg (Some rs) r) ;;
  match err with
  | Some err => ret (Some err)
  | None =>
      modify_current (set_pendingRequest (Some r)) ;;;
      c <- get ;;
      (if bool_decide (state c = StateAcceptRequest) then sendPreprepare r else ret tt) ;;;
      ret None
  end.

(** The priority is [float32(-Number.Int64())]. *)
Definition storeRequestMsg (r : Request) : M unit :=
  p <- deref (req_Proposal r) ;;
  c <- get ;;
  let n := i64 (- i64 (block_Number p)) in
  let prio := if n <? 0 then - f32 (- n) else f32 n in
  modify (set_pendingRequests (Prque.Push r prio (pendingRequests c))).

(** *** handler.go *)

Definition handleCheckedMsg (m : message) (src : source) : M (option coreErr) :=
  let testBacklog (h : M (option coreErr)) : M (option coreErr) :=
    err <- h ;;
    (if bool_decide (err = Some errFutureMessage) then storeBacklog m src else ret tt) ;;; ret err in
  if Code m =? msgPreprepare then testBacklog (handlePreprepare m src)
  else if Code m =? msgPrepare then testBacklog (handlePrepare m src)
  else if Code m =? msgCommit then testBacklog (handleCommit m src)
  else if Code m =? msgRoundChange then handleRoundChange m src
  else ret (Some errInvalidMessage).

(** The error is nil exactly when the signer is a validator. *)
Definition CheckValidatorSignature (vs : defaultSet) (data sig : bytes) : option coreErr :=
  match GetSignatureAddress (bk_SigToPub B) data sig with
  | None => Some ErrSignature
  | Some signer =>
      match snd (GetByAddress vs signer) with
      | Some _ => None
      | None => Some ErrUnauthorizedAddress
      end
  end.

Definition handleMsg (payload : bytes) : M (option coreErr) :=
  m <- try (decode (A:=message) payload) ;;
  match m with
  | None => ret (Some ErrDecode)
  | Some m =>
      data <- try (PayloadNoSig m) ;;
      match data with
      | None => ret (Some ErrEncode)
      | Some data =>
          v <- get_valSet ;;
          match CheckValidatorSignature (v_set v) data (Signature m) with
          | Some err => ret (Some err)
          | None =>
              match snd (GetByAddress (v_set v) (msg_Address m)) with
              | None => ret (Some ErrUnauthorizedAddress)
              | Some addr => handleCheckedMsg m (mkSource (v_id v) addr)
              end
          end
      end
  end.

Definition handleTimeoutMsg : M unit :=
  c <- get ;;
  next <- (if negb (waitingForRoundChange c) then
             rcs <- get_rcSet ;; v <- get_valSet ;;
             match MaxRound (F (v_set v) + 1) rcs with
             | None => ret None
             | Some maxRound =>
                 rs <- get_current ;;
                 ret (if round rs <? maxRound then Some maxRound else None)
             end
           else ret None) ;;
  match next with
  | Some maxRound => sendRoundChange maxRound
  | None =>
      match fst (bk_LastProposal B) with
      | None => sendNextRoundChange
      | Some p =>
          rs <- get_current ;;
          if sequence rs <? block_Number p
          then startNewRound (mkView 0 (block_Number p + 1)) (Some p) false
          else sendNextRoundChange
      end
  end.

(** *** final_committed.go *)

Definition handleFinalCommitted (proposal : Block) (proposer : bytes) : M unit :=
  rs <- get_current ;;
  if sequence rs <=? block_Number proposal then
    modify (set_last (Some proposal) proposer) ;;;
    startNewRound (mkView 0 (block_Number proposal + 1)) (Some proposal) false
  else ret tt.

Definition Start (lastSequence : Z) (proposer : bytes) (proposal : option Block) : M unit :=
  modify (set_last proposal proposer) ;;;
  modify (set_valSet (bk_Validators B proposal)) ;;;
  startNewRound (mkView 0 (lastSequence + 1)) proposal false.

(** One turn of [handleEvents]. *)
Definition gossip (payload : bytes) : M unit := v <- get_valSet ;; emit (Gossip (v_set v) payload).

Definition handleEvent (ev : event) : M unit :=
  match ev with
  | StartEvent seq proposer proposal => Start seq proposer proposal
  | StopEvent => stopTimer
  | RequestEvent proposal =>
      let r := mkRequest proposal in
      err <- handleRequest r ;;
      if bool_decide (err = Some errFutureMessage) then storeRequestMsg r else ret tt
  | MessageEvent payload =>
      err <- handleMsg payload ;;
      if bool_decide (err = None) then gossip payload else ret tt
  | backlogEvent src m =>
      err <- handleCheckedMsg m src ;;
      if bool_decide (err = None) then
        payload <- try (msg_Payload m) ;;
        match payload with Some payload => gossip payload | None => ret tt end
      else ret tt
  | timeoutEvent => handleTimeoutMsg
  | FinalCommittedEvent proposal proposer => handleFinalCommitted proposal proposer
  end.

End handlers.
End Core.
