(* ===== verification/IstCoreInv.v ===== *)
(** Properties of the Istanbul core of a node (IstCore.v): the invariant of its
    state and, for every event, what the handlers do to the view, the lock, the
    accepted proposal and the message sets. *)

From S2P Require Import Prelude RlpEncode RlpRaw RlpDecode RlpRoundtrip KeccakF Sha3 CoreTypes.
From S2P Require Import IstValidator Prque IstTypes IstCore.

Module CoreInv.
Import Rlp Raw Dec Roundtrip Codec Types Validator Ist Core.
#[local] Open Scope core_scope.
#[local] Opaque hash256 EncodeToBytes DecodeBytes.

(** ** A weakest precondition for the handlers

    [wp pan m Q c]: from [c], [m] ends in [Q], or panics and [pan] holds. *)
Definition wp (pan : Prop) {A} (m : M A) (Q : A → core → list effect → Prop) (c : core) : Prop :=
  match m c with Some (a, c', es) => Q a c' es | None => pan end.

Lemma wp_ret pan {A} (a : A) Q c : Q a c [] → wp pan (ret a) Q c.
Proof. done. Qed.
Lemma wp_bind pan {A B} (m : M A) (k : A → M B) Q c :
  wp pan m (fun a c' es => wp pan (k a) (fun b c'' es' => Q b c'' (es ++ es')) c') c →
  wp pan (bind m k) Q c.
Proof.
  unfold wp, bind. destruct (m c) as [[[a c1] e1]|]; [|done].
  by destruct (k a c1) as [[[b c2] e2]|].
Qed.
Lemma wp_mono pan {A} (m : M A) (Q Q' : A → core → list effect → Prop) c :
  wp pan m Q c → (∀ a c' es, Q a c' es → Q' a c' es) → wp pan m Q' c.
Proof. unfold wp. destruct (m c) as [[[a c1] e1]|]; auto. Qed.
Lemma wp_get pan Q c : Q c c [] → wp pan get Q c.
Proof. done. Qed.
Lemma wp_modify pan f Q c : Q tt (f c) [] → wp pan (modify f) Q c.
Proof. done. Qed.
Lemma wp_emit pan e Q c : Q tt c [e] → wp pan (emit e) Q c.
Proof. done. Qed.
Lemma wp_deref pan {A} (o : option A) a Q c : o = Some a → Q a c [] → wp pan (deref o) Q c.
Proof. by intros ->. Qed.
Lemma wp_try pan {E A} (r : result E A) Q c :
  (is_crash r → pan) → (∀ a, r = Ok a → Q (Some a) c []) → (∀ e, r = Err e → Q None c []) →
  wp pan (try r) Q c.
Proof. destruct r; unfold wp, is_crash; simpl; eauto. Qed.

(** The encoders and decoders the handlers call do not crash, unless [pan]. *)
Record codecs_ok (pan : Prop) : Prop := {
  enc_message : ∀ m : message, is_crash (encode m) → pan;
  enc_subject : ∀ s : Subject, is_crash (encode s) → pan;
  enc_preprepare : ∀ p : Preprepare, is_crash (encode p) → pan;
  enc_roundChange : ∀ r : roundChange, is_crash (encode r) → pan;
  dec_message : ∀ b, is_crash (decode (A:=message) b) → pan;
  dec_subject : ∀ b, is_crash (decode (A:=Subject) b) → pan;
  dec_preprepare : ∀ b, is_crash (decode (A:=Preprepare) b) → pan;
  dec_roundChange : ∀ b, is_crash (decode (A:=roundChange) b) → pan }.

(** ** Effects other than commits *)

Definition is_commit (e : effect) : bool := match e with Commit _ _ => true | _ => false end.
Definition quiet (es : list effect) : Prop := Forall (fun e => is_commit e = false) es.

Lemma quiet_nil : quiet [].
Proof. constructor. Qed.
Lemma quiet_cons e es : is_commit e = false → quiet es → quiet (e :: es).
Proof. by constructor. Qed.
Lemma quiet_app es es' : quiet es → quiet es' → quiet (es ++ es').
Proof. apply Forall_app_2. Qed.
#[export] Hint Resolve quiet_nil quiet_cons quiet_app : ist.

(** Symbolic execution of a handler. *)
Ltac step :=
  match goal with
  | |- wp _ (bind _ _) _ _ => apply wp_bind
  | |- wp _ (ret _) _ _ => apply wp_ret
  | |- wp _ get _ _ => apply wp_get
  | |- wp _ (modify _) _ _ => apply wp_modify
  | |- wp _ (emit _) _ _ => apply wp_emit
  | |- wp _ get_current _ _ => unfold get_current
  | |- wp _ get_valSet _ _ => unfold get_valSet
  | |- wp _ get_rcSet _ _ => unfold get_rcSet
  | |- wp _ currentView _ _ => unfold currentView
  | |- wp _ (modify_current _) _ _ => unfold modify_current
  | |- wp _ (deref _) _ _ => eapply wp_deref; [eassumption || reflexivity|]
  end.
Ltac steps := repeat step.

Section specs.
Context (pan : Prop) (Hcodec : codecs_ok pan) (B : Backend).

Lemma wp_finalizeMessage code body Q c rs :
  current c = Some rs → (∀ o, Q o c []) → wp pan (finalizeMessage B code body) Q c.
Proof.
  intros Hrs HQ. unfold finalizeMessage. step. step. step.
  apply wp_mono with (Q := fun _ c' es => c' = c ∧ es = []).
  { destruct (code =? msgCommit); steps; done. }
  intros [seal|] c' es [-> ->]; [|by steps]. steps.
  apply wp_try; [apply Hcodec|..]; intros a _; [|by steps].
  destruct (bk_Sign B a); [|by steps]. by apply wp_try; [apply Hcodec|..].
Qed.

Lemma wp_broadcast code body Q c rs v :
  current c = Some rs → valSet c = Some v → (∀ es, quiet es → Q tt c es) →
  wp pan (broadcast B code body) Q c.
Proof.
  intros Hrs Hv HQ. unfold broadcast. steps. eapply wp_finalizeMessage; [done|]. intros [payload|]; steps.
  - apply HQ. auto with ist.
  - apply HQ. auto with ist.
Qed.

Lemma wp_newRoundChangeTimer Q c rs :
  current c = Some rs → (∀ es, quiet es → Q tt c es) → wp pan newRoundChangeTimer Q c.
Proof. intros Hrs HQ. unfold newRoundChangeTimer, stopTimer. steps. apply HQ. auto 10 with ist. Qed.

(** What remains of a round state in a later round. *)
Definition carry (o : option roundState) (view : View) (vs : defaultSet) (roundChange : bool) : roundState :=
  match o with
  | Some rs =>
      if roundChange then
        if IsHashLocked rs then newRoundState view vs (lockedHash rs) (rPreprepare rs) (pendingRequest rs)
        else newRoundState view vs emptyHash None (pendingRequest rs)
      else newRoundState view vs emptyHash None None
  | None => newRoundState view vs emptyHash None None
  end.

Lemma wp_updateRoundState view vs rch Q c :
  Q tt (set_current (carry (current c) view vs rch) c) [] → wp pan (updateRoundState view vs rch) Q c.
Proof.
  intros HQ. unfold updateRoundState. steps. unfold carry in HQ.
  destruct (current c); [|done]. destruct rch; [|done]. by destruct (IsHashLocked _).
Qed.

Lemma wp_sendRoundChange r Q c rs v rcs :
  current c = Some rs → valSet c = Some v → rcSet c = Some rcs →
  (r ≤ round rs → Q tt c []) →
  (round rs < r → ∀ es, quiet es →
     Q tt (set_rcSet (rcs_Clear r rcs)
             (set_current (carry (current c) (mkView r (sequence rs)) (v_set v) true) (set_waiting true c))) es) →
  wp pan (sendRoundChange B r) Q c.
Proof.
  intros Hrs Hv Hrcs Hold Hnew. unfold sendRoundChange. steps. cbn [Round Sequence].
  destruct (Z.leb_spec r (round rs)); steps; [auto|].
  unfold catchUpRound. steps. apply wp_updateRoundState. steps. cbn [Round].
  eapply wp_newRoundChangeTimer; [reflexivity|]. intros es1 Hes1. steps.
  set (c' := set_rcSet _ _).
  assert (current c' = Some (carry (current c) (mkView r (sequence rs)) (v_set v) true)) as Hc' by done.
  steps. apply wp_try; [apply Hcodec|..]; intros x _.
  - eapply wp_broadcast; [done|done|]. intros es2 Hes2. apply Hnew; [done|]. simpl. auto with ist.
  - steps. apply Hnew; [done|]. simpl. auto with ist.
Qed.

(** *** Processing stored requests and messages only posts events *)

Lemma pending_loop_quiet fuel rs q : ∃ q' es, pending_loop fuel (Some rs) q = Some (q', es) ∧ quiet es.
Proof.
  revert q. induction fuel as [|fuel IH]; intros q; simpl; [eauto with ist|].
  destruct (Prque.Pop q) as [[[r prio] q1]|]; [|eauto with ist].
  destruct (IH q1) as (q2 & es & E & Hes). unfold checkRequestMsg.
  destruct (req_Proposal r) as [p|]; simpl; [|rewrite E; eauto].
  destruct (sequence rs ?= block_Number p); simpl; rewrite ?E; simpl; eauto 10 with ist.
Qed.

Lemma backlog_loop_quiet fuel c rs src q :
  current c = Some rs → ∃ q' es, backlog_loop fuel c src q = Some (q', es) ∧ quiet es.
Proof.
  intros Hrs. revert q. induction fuel as [|fuel IH]; intros q; simpl; [eauto with ist|].
  destruct (Prque.Pop q) as [[[m prio] q1]|]; [|eauto with ist].
  destruct (IH q1) as (q2 & es & E & Hes). destruct (message_view m) as [view|]; [|rewrite E; eauto].
  unfold checkMessage. rewrite Hrs. cbn [mbind option_bind].
  destruct (view_Cmp _ _); [destruct (waitingForRoundChange c); [|destruct (bool_decide _ && _)]|..];
    rewrite ?E; cbn [mbind option_bind]; eauto 10 with ist.
Qed.

Lemma process_backlogs_quiet c rs l :
  current c = Some rs → ∃ m es, process_backlogs c l = Some (m, es) ∧ quiet es.
Proof.
  intros Hrs. induction l as [|[key q] l (m & es & E & Hes)]; simpl; [eauto with ist|].
  destruct (backlog_loop_quiet (length q) c rs (mkSource (fst key) (snd key)) q Hrs) as (q' & es' & E' & Hes').
  rewrite E'. simpl. rewrite E. simpl. eauto with ist.
Qed.

(** A state that differs only in the stored requests and messages. *)
Definition with_queues (c : core) (b : gmap (Z * bytes) (list (message * Z))) (q : list (Request * Z)) : core :=
  set_pendingRequests q (set_backlogs b c).

Lemma wp_setState s Q c rs :
  current c = Some rs → (∀ b q es, quiet es → Q tt (with_queues (set_state s c) b q) es) →
  wp pan (setState s) Q c.
Proof.
  intros Hrs HQ. unfold setState. steps.
  apply wp_mono with (Q := fun _ c' es => ∃ q, c' = set_pendingRequests q (set_state s c) ∧ quiet es).
  { case_bool_decide.
    - unfold wp, processPendingRequests.
      destruct (pending_loop_quiet (length (pendingRequests (set_state s c))) rs (pendingRequests (set_state s c)))
        as (q' & es & E & Hes).
      replace (current (set_state s c)) with (Some rs) by done. rewrite E. simpl. eauto.
    - apply wp_ret. exists (pendingRequests c). split; [by destruct c|auto with ist]. }
  intros [] c' es (q & -> & Hes). unfold wp, processBacklog. set (c1 := set_pendingRequests q _).
  destruct (process_backlogs_quiet c1 rs (map_to_list (backlogs c1)) Hrs) as (m & es' & E & Hes').
  rewrite E. simpl. apply (HQ m q). auto with ist.
Qed.

Lemma wp_sendPreprepare r Q c rs v :
  current c = Some rs → valSet c = Some v → is_Some (req_Proposal r) →
  (∀ es, quiet es → Q tt c es) → wp pan (sendPreprepare B r) Q c.
Proof.
  intros Hrs Hv [p Hp] HQ. unfold sendPreprepare. steps.
  destruct (sequence rs =? block_Number p); [|steps; auto with ist]. unfold isProposer. steps.
  destruct (isProposer_of c); steps; [|auto with ist].
  apply wp_try; [apply Hcodec|..]; intros x _; [|steps; auto with ist].
  eapply wp_broadcast; [done..|]. intros es Hes. apply HQ. simpl. auto with ist.
Qed.

Lemma wp_send_subject code Q c rs v sub :
  current c = Some rs → valSet c = Some v → rs_Subject rs = Some sub →
  (∀ es, quiet es → Q tt c es) → wp pan (send_subject B code) Q c.
Proof.
  intros Hrs Hv Hsub HQ. unfold send_subject. steps.
  apply wp_try; [apply Hcodec|..]; intros x _; [|steps; auto with ist].
  eapply wp_broadcast; [done..|]. intros es Hes. apply HQ. simpl. auto with ist.
Qed.

(** *** A new round *)

(** A lock comes with the proposal it is on, and a pending request with its block. *)
Definition rs_ok (rs : roundState) : Prop :=
  (IsHashLocked rs = true → ∃ p, rPreprepare rs = Some p ∧ lockedHash rs = block_Hash (pp_Proposal p)) ∧
  (∀ r, pendingRequest rs = Some r → is_Some (req_Proposal r)).

Lemma carry_ok o view vs rch : (∀ rs, o = Some rs → rs_ok rs) → rs_ok (carry o view vs rch).
Proof.
  intros Ho. destruct o as [rs|]; simpl; [|by split]. destruct (Ho rs eq_refl) as [Hl Hp].
  destruct rch; [|by split]. destruct (IsHashLocked rs) eqn:E; [|by split].
  split; [|done]. intros _. auto.
Qed.

(** The view, last proposal and proposer of the round that starts. *)
Definition new_view (newView : View) (lastP : option Block) (c : core) (view : View)
    (lp : option Block) (lpr : bytes) : Prop :=
  (view = newView ∧ lp = lastProposal c ∧ lpr = lastProposer c) ∨
  (lastP = None ∧ ∃ p, fst (bk_LastProposal B) = Some p ∧ Sequence newView < block_Number p ∧
    view = mkView 0 (block_Number p + 1) ∧ lp = Some p ∧ lpr = snd (bk_LastProposal B)).

Definition new_round (c : core) (view : View) (lp : option Block) (lpr : bytes) (rch : bool)
    (b : gmap (Z * bytes) (list (message * Z))) (q : list (Request * Z)) : core :=
  let v := bk_Validators B lp in
  mkCore (config c) (address c) StateAcceptRequest lpr lp
    (Some (mkVset (v_id v) (CalcProposer (v_set v) lpr (u64 (Round view))))) false b
    (Some (carry (current c) view (v_set v) rch)) (Some (newRoundChangeSet (v_set v))) q.

Lemma wp_startNewRound newView lastP rch Q c v0 :
  valSet c = Some v0 → (∀ rs, current c = Some rs → rs_ok rs) →
  (lastP = None → fst (bk_LastProposal B) = None → pan) →
  (∀ view lp lpr b q es, new_view newView lastP c view lp lpr → quiet es →
     Q tt (new_round c view lp lpr rch b q) es) →
  wp pan (startNewRound B newView lastP rch) Q c.
Proof.
  intros Hv Hok Hpan HQ. unfold startNewRound. steps.
  apply wp_mono with (Q := fun view c' es => ∃ lp lpr,
    new_view newView lastP c view lp lpr ∧ c' = set_last lp lpr c ∧ es = []).
  { destruct lastP as [lastP|]; steps.
    - exists (lastProposal c), (lastProposer c). split_and!; [by left|by destruct c|done].
    - destruct (fst (bk_LastProposal B)) as [p|] eqn:Ep; [|unfold wp; simpl; auto].
      steps. destruct (Z.ltb_spec (Sequence newView) (block_Number p)); steps.
      + exists (Some p), (snd (bk_LastProposal B)). split_and!; [right; eauto 10|done|done].
      + exists (lastProposal c), (lastProposer c). split_and!; [by left|by destruct c|done]. }
  intros view c' es (lp & lpr & Hview & -> & ->). steps. apply wp_updateRoundState. steps.
  cbn [lastProposer set_last lastProposal set_valSet set_rcSet current]. set (vs := bk_Validators B lp).
  set (rs' := carry (current c) view (v_set vs) rch).
  assert (rs_ok rs') as [Hlock Hpend] by (by apply carry_ok).
  eapply wp_setState; [reflexivity|]. intros b q es1 Hes1. steps.
  set (c2 := with_queues _ b q).
  assert (c2 = new_round c view lp lpr rch b q) as Hc2 by done.
  apply wp_mono with (Q := fun _ c' es => c' = c2 ∧ quiet es).
  { destruct (rch && isProposer_of c2); [|steps; auto with ist].
    replace (current c2) with (Some rs') by done. destruct (IsHashLocked rs') eqn:El.
    - destruct (Hlock eq_refl) as (p & Hp & _).
      eapply wp_sendPreprepare; [done|done| |by auto with ist]. simpl. unfold rs_Proposal. by rewrite Hp.
    - destruct (pendingRequest rs') as [r|] eqn:Er; [|steps; auto with ist].
      eapply wp_sendPreprepare; [done|done|by apply Hpend|by auto with ist]. }
  intros [] c' es (-> & Hes). eapply wp_newRoundChangeTimer; [done|]. intros es3 Hes3.
  rewrite Hc2. apply HQ; [done|]. simpl. auto 10 with ist.
Qed.

End specs.

(** ** The invariant *)

Definition view_of (rs : roundState) : View := mkView (round rs) (sequence rs).

(** A set of messages of kind [code], all on the subject [sub] and from the validators [vs]. *)
Definition votes (code : Z) (vs : list bytes) (sub : option Subject) (ms : messageSet) : Prop :=
  validators (ms_valSet ms) = vs ∧
  map_Forall (fun h m => h = rlpHash m ∧ Code m = code ∧ msg_Address m ∈ vs ∧
    ∃ s, msg_Decode (A:=Subject) m = Ok s ∧ sub = Some s) (messages ms).

Definition inv (st : State) (waiting : bool) (rs : roundState) (v : vset) (rcs : roundChangeSet) : Prop :=
  rs_ok rs ∧
  (st ≠ StateAcceptRequest → waiting = true ∨ is_Some (rPreprepare rs)) ∧
  votes msgPrepare (validators (v_set v)) (rs_Subject rs) (Prepares rs) ∧
  votes msgCommit (validators (v_set v)) (rs_Subject rs) (Commits rs) ∧
  (st = StateAcceptRequest ∨ waiting = true → messages (Prepares rs) = ∅ ∧ messages (Commits rs) = ∅) ∧
  validators (rcs_valSet rcs) = validators (v_set v).

Definition Inv (c : core) : Prop :=
  ∃ rs v rcs, current c = Some rs ∧ valSet c = Some v ∧ rcSet c = Some rcs ∧
    inv (state c) (waitingForRoundChange c) rs v rcs.

(** ** What a step may do *)

(** The view does not go back.  Within a sequence a lock stays, unless a commit
    was tried.  Within a view the state does not go back and the accepted
    proposal stays. *)
Definition progress (c : core) (rs : roundState) (c' : core) (rs' : roundState) (es : list effect) : Prop :=
  view_Cmp (view_of rs) (view_of rs') ≠ Gt ∧
  (sequence rs' = sequence rs → IsHashLocked rs = true →
     lockedHash rs' = lockedHash rs ∨ ∃ e, e ∈ es ∧ is_commit e = true) ∧
  (view_of rs' = view_of rs → state c ≠ StateAcceptRequest → waitingForRoundChange c = false →
     state_num (state c) ≤ state_num (state c') ∧ waitingForRoundChange c' = false ∧
     rPreprepare rs' = rPreprepare rs).

(** The block handed to the backend is the one accepted in the current view, and
    more than 2F COMMIT messages on it, from validators, are at hand. *)
Definition commit_justified (c : core) (rs : roundState) (v : vset) (e : effect) : Prop :=
  match e with
  | Commit p seals =>
      (∃ pp, rPreprepare rs = Some pp ∧ pp_Proposal pp = p) ∧
      state c ≠ StateAcceptRequest ∧ state c ≠ StateCommitted ∧ waitingForRoundChange c = false ∧
      ∃ ms, votes msgCommit (validators (v_set v)) (Some (mkSubject (view_of rs) (block_Hash p))) ms ∧
        2 * F (v_set v) < ms_Size ms ∧
        seals = map (fun m => fit IstanbulExtraSeal (msg_CommittedSeal m)) (ms_Values ms)
  | _ => True
  end.

Definition good (c : core) (c' : core) (es : list effect) : Prop :=
  Inv c' ∧
  ∀ rs v, current c = Some rs → valSet c = Some v →
    (∃ rs', current c' = Some rs' ∧ progress c rs c' rs' es) ∧ Forall (commit_justified c rs v) es.

Lemma quiet_justified c rs v es : quiet es → Forall (commit_justified c rs v) es.
Proof. intros Hq. eapply Forall_impl; [exact Hq|]. by intros []. Qed.

Lemma view_Cmp_refl v : view_Cmp v v = Eq.
Proof. unfold view_Cmp. by rewrite !Z.compare_refl. Qed.

Lemma view_Cmp_not_Gt v w :
  view_Cmp v w ≠ Gt ↔ Sequence v < Sequence w ∨ Sequence v = Sequence w ∧ Round v ≤ Round w.
Proof.
  unfold view_Cmp. destruct (Z.compare_spec (Sequence v) (Sequence w)), (Z.compare_spec (Round v) (Round w));
    split; intros H'; try congruence; try lia; intros; congruence.
Qed.

Lemma progress_refl c rs c' es :
  state_num (state c) ≤ state_num (state c') → waitingForRoundChange c' = waitingForRoundChange c →
  progress c rs c' rs es.
Proof. intros Hs Hw. split_and!; [by rewrite view_Cmp_refl|by left|by rewrite Hw]. Qed.

(** A step that changes nothing but the stored requests and messages. *)
Lemma good_stay c c' es :
  Inv c → quiet es → state c' = state c → waitingForRoundChange c' = waitingForRoundChange c →
  current c' = current c → valSet c' = valSet c → rcSet c' = rcSet c → good c c' es.
Proof.
  intros (rs & v & rcs & Hrs & Hv & Hrcs & Hi) Hq E1 E2 E3 E4 E5. split.
  { exists rs, v, rcs. rewrite E1, E2, E3, E4, E5. done. }
  intros rs0 v0 ? ?. simplify_eq. split; [|by apply quiet_justified].
  exists rs. split; [congruence|]. apply progress_refl; [by rewrite E1|done].
Qed.

Lemma votes_empty code vs sub s : validators s = vs → votes code vs sub (newMessageSet s).
Proof. intros <-. split; [done|]. apply map_Forall_empty. Qed.

Lemma carry_sets o view vs rch :
  Prepares (carry o view vs rch) = newMessageSet vs ∧ Commits (carry o view vs rch) = newMessageSet vs ∧
  view_of (carry o view vs rch) = view.
Proof. destruct o; simpl; repeat case_match; by destruct view. Qed.

Lemma carry_locked rs view vs :
  IsHashLocked rs = true → lockedHash (carry (Some rs) view vs true) = lockedHash rs.
Proof. intros H. simpl. by rewrite H. Qed.

Lemma good_then c c1 es1 c2 es2 :
  good c c1 es1 → quiet es2 → state c2 = state c1 → waitingForRoundChange c2 = waitingForRoundChange c1 →
  current c2 = current c1 → valSet c2 = valSet c1 → rcSet c2 = rcSet c1 → good c c2 (es1 ++ es2).
Proof.
  intros [(rs1 & v1 & rcs1 & H1 & H2 & H3 & Hi) Hp] Hq E1 E2 E3 E4 E5. split.
  { exists rs1, v1, rcs1. by rewrite E1, E2, E3, E4, E5. }
  intros rs v Hrs Hv. destruct (Hp rs v Hrs Hv) as [(rs' & Hrs' & P1 & P2 & P3) Hj]. split.
  - exists rs'. rewrite E3. split; [done|]. split_and!; [done| |by rewrite E1, E2].
    intros Hs Hl. destruct (P2 Hs Hl) as [?|(e & He & ?)]; [by left|]. right. exists e. split; [|done].
    apply elem_of_app. by left.
  - apply Forall_app. split; [done|by apply quiet_justified].
Qed.

(** The state after [sendRoundChange] to a later round, and after [startNewRound]. *)
Definition round_changed (c : core) (rs : roundState) (v : vset) (rcs : roundChangeSet) (r : Z) : core :=
  set_rcSet (rcs_Clear r rcs)
    (set_current (carry (current c) (mkView r (sequence rs)) (v_set v) true) (set_waiting true c)).

Lemma carry_Inv st waiting o view v rch rcs :
  (∀ rs, o = Some rs → rs_ok rs) → validators (rcs_valSet rcs) = validators (v_set v) →
  (st ≠ StateAcceptRequest → waiting = true) →
  inv st waiting (carry o view (v_set v) rch) v rcs.
Proof.
  intros Hok Hrcs Hw. destruct (carry_sets o view (v_set v) rch) as (E1 & E2 & _).
  split_and!; [by apply carry_ok|intros H; left; auto|..]; rewrite ?E1, ?E2; try done; by apply votes_empty.
Qed.

Lemma round_changed_Inv c rs v rcs r :
  Inv c → current c = Some rs → valSet c = Some v → rcSet c = Some rcs → Inv (round_changed c rs v rcs r).
Proof.
  intros (rs0 & v0 & rcs0 & Hrs & Hv & Hrcs & Hi) E1 E2 E3.
  rewrite E1 in Hrs. rewrite E2 in Hv. rewrite E3 in Hrcs. injection Hrs as <-. injection Hv as <-. injection Hrcs as <-.
  exists (carry (current c) (mkView r (sequence rs)) (v_set v) true), v, (rcs_Clear r rcs).
  split_and!; try done. apply carry_Inv; [|by apply Hi|done]. rewrite E1. intros rs' [= <-]. apply Hi.
Qed.

Lemma new_round_Inv B c view lp lpr rch b q :
  (∀ rs, current c = Some rs → rs_ok rs) → Inv (new_round B c view lp lpr rch b q).
Proof.
  intros Hok. eexists _, _, _. split_and!; [done..|].
  destruct (carry_sets (current c) view (v_set (bk_Validators B lp)) rch) as (E1 & E2 & _).
  split_and!; simpl; [by apply carry_ok|done|..]; rewrite ?E1, ?E2; try done; by apply votes_empty.
Qed.

Lemma good_round_changed c rs v rcs r es :
  Inv c → current c = Some rs → valSet c = Some v → rcSet c = Some rcs → round rs < r → quiet es →
  good c (round_changed c rs v rcs r) es.
Proof.
  intros Hi Hrs Hv Hrcs Hr Hq. split; [by apply round_changed_Inv|].
  intros rs0 v0 Ers Ev0. rewrite Hrs in Ers. rewrite Hv in Ev0. injection Ers as <-. injection Ev0 as <-. split; [|by apply quiet_justified].
  exists (carry (current c) (mkView r (sequence rs)) (v_set v) true). split; [done|].
  destruct (carry_sets (current c) (mkView r (sequence rs)) (v_set v) true) as (_ & _ & Ev).
  split_and!.
  - rewrite Ev. apply view_Cmp_not_Gt. simpl. lia.
  - intros _ Hl. left. rewrite Hrs. by apply carry_locked.
  - rewrite Ev. intros [= ?]. lia.
Qed.

Lemma good_new_round B c rs view lp lpr rch b q es :
  Inv c → current c = Some rs → quiet es →
  view_Cmp (view_of rs) view ≠ Gt → (view = view_of rs → waitingForRoundChange c = true) →
  (rch = false → sequence rs < Sequence view) →
  good c (new_round B c view lp lpr rch b q) es.
Proof.
  intros Hi Hrs Hq Hle Hw Hseq. split.
  { apply new_round_Inv. destruct Hi as (rs0 & v0 & rcs0 & H1 & _ & _ & Hi & _). intros rs1 ?. by simplify_eq. }
  intros rs0 v0 Ers _. rewrite Hrs in Ers. injection Ers as <-. split; [|by apply quiet_justified].
  exists (carry (current c) view (v_set (bk_Validators B lp)) rch). split; [done|].
  destruct (carry_sets (current c) view (v_set (bk_Validators B lp)) rch) as (_ & _ & Ev).
  set (rs' := carry _ _ _ _) in *. split_and!.
  - by rewrite Ev.
  - intros Hs Hl. left. destruct rch.
    + unfold rs'. rewrite Hrs. by apply carry_locked.
    + specialize (Hseq eq_refl). assert (sequence rs' = Sequence view) by (by rewrite <- Ev). lia.
  - rewrite Ev. intros E _ Hnw. rewrite (Hw E) in Hnw. done.
Qed.

Lemma votes_add code vs sub s m ms ms' :
  votes code vs sub ms → ms_Add m ms = Some ms' → Code m = code →
  msg_Decode (A:=Subject) m = Ok s → sub = Some s → votes code vs sub ms'.
Proof.
  intros [<- Hall] Hadd Hcode Hdec Hsub. unfold ms_Add in Hadd.
  destruct (ms_verify ms m) eqn:Hv; [|done]. injection Hadd as <-. split; [done|].
  apply map_Forall_insert_2; [|done]. split_and!; [done|done| |eauto].
  unfold ms_verify in Hv. destruct (snd _) eqn:E; [|done]. by apply GetByAddress_Some in E as [_ ?].
Qed.

Lemma votes_none code vs sub sub' ms : votes code vs sub ms → messages ms = ∅ → votes code vs sub' ms.
Proof. intros [Hv _] E. split; [done|]. rewrite E. apply map_Forall_empty. Qed.

Lemma LockHash_ok rs :
  rs_ok rs → rs_ok (LockHash rs) ∧ rs_Subject (LockHash rs) = rs_Subject rs ∧
  view_of (LockHash rs) = view_of rs ∧ rPreprepare (LockHash rs) = rPreprepare rs ∧
  Prepares (LockHash rs) = Prepares rs ∧ Commits (LockHash rs) = Commits rs ∧
  (IsHashLocked rs = true → lockedHash (LockHash rs) = lockedHash rs).
Proof.
  intros Hok. unfold LockHash. destruct (rPreprepare rs) as [p|] eqn:E; [|by split_and!].
  destruct Hok as [Hl Hp]. split_and!; try done.
  - split; [|done]. intros _. exists p. split; [exact E|done].
  - intros H. destruct (Hl H) as (p' & Hp' & ->). rewrite E in Hp'. by injection Hp' as <-.
Qed.

Lemma checkMessage_ok c rs code view :
  current c = Some rs → checkMessage c code view = Some None →
  view = view_of rs ∧ waitingForRoundChange c = false ∧ (msgPreprepare < code → state c ≠ StateAcceptRequest).
Proof.
  intros Hrs. unfold checkMessage. rewrite Hrs. simpl.
  destruct (view_Cmp view _) eqn:E; try done. destruct (waitingForRoundChange c); [done|].
  intros H. split_and!; [|done|].
  - destruct view as [r q]. unfold view_Cmp in E. cbn [Sequence Round] in E. unfold view_of.
    destruct (Z.compare_spec q (sequence rs)); [|done..].
    destruct (Z.compare_spec r (round rs)); [|done..]. congruence.
  - intros Hcode Hst. rewrite bool_decide_true in H by done. simpl in H.
    rewrite (proj2 (Z.ltb_lt _ _) Hcode) in H. done.
Qed.

Lemma checkMessage_total c rs code view : current c = Some rs → is_Some (checkMessage c code view).
Proof. intros Hrs. unfold checkMessage. rewrite Hrs. simpl. eauto. Qed.

(** ** The handlers *)

Section handlers.
Context (pan : Prop) (Hcodec : codecs_ok pan) (B : Backend).

Lemma wp_sendRoundChange_good r Q c :
  Inv c → (∀ c' es, good c c' es → Q tt c' es) → wp pan (sendRoundChange B r) Q c.
Proof.
  intros Hi HQ. pose proof Hi as (rs & v & rcs & Hrs & Hv & Hrcs & _).
  eapply wp_sendRoundChange; [done..| |].
  - intros _. apply HQ, good_stay; auto with ist.
  - intros Hr es Hes. by apply HQ, (good_round_changed c rs v rcs r).
Qed.

Lemma wp_sendNextRoundChange_good Q c :
  Inv c → (∀ c' es, good c c' es → Q tt c' es) → wp pan (sendNextRoundChange B) Q c.
Proof.
  intros Hi HQ. pose proof Hi as (rs & v & rcs & Hrs & Hv & Hrcs & _).
  unfold sendNextRoundChange. steps. by apply wp_sendRoundChange_good.
Qed.

Lemma good_here c : Inv c → good c c [].
Proof. intros Hi. apply good_stay; auto with ist. Qed.

Lemma accept_good p c rs b q es :
  Inv c → current c = Some rs → state c = StateAcceptRequest → waitingForRoundChange c = false →
  (IsHashLocked rs = true → block_Hash (pp_Proposal p) = lockedHash rs) → quiet es →
  good c (with_queues (set_state StatePreprepared (set_current (SetPreprepare p rs) c)) b q) es.
Proof.
  intros (rs0 & v & rcs & Hrs & Hv & Hrcs & Hok & Hacc & Hp & Hc & Hempty & Hvs) E Hst Hw Hlock Hq.
  rewrite E in Hrs. injection Hrs as <-. destruct (Hempty (or_introl Hst)) as [Ep Ec]. split.
  - exists (SetPreprepare p rs), v, rcs. split_and!; [done..|]. simpl. rewrite Hw.
    refine (conj _ (conj _ (conj _ (conj _ (conj _ Hvs))))).
    + destruct Hok as [Hl Hpend]. split; [|done]. intros H. exists p. split; [done|]. symmetry. by apply Hlock.
    + intros _. right. simpl. eauto.
    + by eapply votes_none.
    + by eapply votes_none.
    + by intros [?|?].
  - intros rs0 v0 E0 Ev0. rewrite E in E0. injection E0 as <-. split; [|by apply quiet_justified].
    exists (SetPreprepare p rs). split; [done|]. split_and!; [apply view_Cmp_not_Gt; simpl; lia|by left|done].
Qed.

Lemma handlePreprepare_good m src c :
  Inv c → wp pan (handlePreprepare B m src) (fun _ c' es => good c c' es) c.
Proof.
  intros Hi. pose proof (good_here c Hi) as Hg. pose proof Hi as (rs & v & rcs & Hrs & Hv & Hrcs & _).
  unfold handlePreprepare. step. apply wp_try; [apply Hcodec| |]; [intros p _|intros e _; by steps].
  step. step. destruct (checkMessage_total c rs msgPreprepare (pp_View p) Hrs) as [err Eerr].
  step. eapply wp_deref; [exact Eerr|]. destruct err as [err|]; [by steps|].
  destruct (checkMessage_ok c rs _ _ Hrs Eerr) as (Hview & Hw & _). steps.
  destruct (IsProposer _ _); cbn [negb]; [|by steps].
  destruct (bk_Verify B (pp_Proposal p)) as [|d|].
  - steps. case_bool_decide as Hst; [|by steps]. steps.
    destruct (IsHashLocked rs && _) eqn:Elock.
    + apply wp_sendNextRoundChange_good; [done|]. intros c' es Hg'. steps. simpl. by rewrite !app_nil_r.
    + steps. eapply wp_setState; [reflexivity|]. intros b q es Hes. steps.
      eapply wp_send_subject; [done|done|done|reflexivity|]. intros es' Hes'. steps.
      apply accept_good; [done|done|done|done| |simpl; auto 10 with ist].
      intros Hl. rewrite Hl in Elock. simpl in Elock. by apply negb_false_iff, bool_decide_eq_true in Elock.
  - steps. apply good_stay; simpl; auto 10 with ist.
  - step. apply wp_sendNextRoundChange_good; [done|]. intros c' es Hg'. steps. simpl. by rewrite app_nil_r.
Qed.

(** The round state with more messages in it, or another lock on the same proposal. *)
Definition similar (rs rs1 : roundState) : Prop :=
  view_of rs1 = view_of rs ∧ rPreprepare rs1 = rPreprepare rs ∧
  (IsHashLocked rs = true → lockedHash rs1 = lockedHash rs).

Lemma similar_Subject rs rs1 : similar rs rs1 → rs_Subject rs1 = rs_Subject rs.
Proof. intros ([= E1 E2] & E3 & _). unfold rs_Subject. by rewrite E1, E2, E3. Qed.

Lemma similar_Inv c rs rs1 v rcs st b q :
  current c = Some rs → valSet c = Some v → rcSet c = Some rcs →
  inv (state c) (waitingForRoundChange c) rs v rcs →
  state c ≠ StateAcceptRequest → waitingForRoundChange c = false → st ≠ StateAcceptRequest →
  view_of rs1 = view_of rs → rPreprepare rs1 = rPreprepare rs → rs_ok rs1 →
  votes msgPrepare (validators (v_set v)) (rs_Subject rs1) (Prepares rs1) →
  votes msgCommit (validators (v_set v)) (rs_Subject rs1) (Commits rs1) →
  Inv (with_queues (set_state st (set_current rs1 c)) b q).
Proof.
  intros Hrs Hv Hrcs Hi Hst Hw Hst1 Hview Hpp Hok1 Hp1 Hc1.
  exists rs1, v, rcs. split_and!; [done..|]. simpl. rewrite Hw.
  refine (conj Hok1 (conj _ (conj Hp1 (conj Hc1 (conj _ _))))).
  - intros _. right. rewrite Hpp. destruct Hi as (_ & Hacc & _). destruct (Hacc Hst) as [H|H]; [congruence|done].
  - by intros [?|?].
  - apply Hi.
Qed.

Lemma good_similar c rs rs1 v rcs st b q es :
  current c = Some rs → valSet c = Some v → rcSet c = Some rcs →
  inv (state c) (waitingForRoundChange c) rs v rcs →
  state c ≠ StateAcceptRequest → waitingForRoundChange c = false →
  similar rs rs1 → rs_ok rs1 →
  votes msgPrepare (validators (v_set v)) (rs_Subject rs1) (Prepares rs1) →
  votes msgCommit (validators (v_set v)) (rs_Subject rs1) (Commits rs1) →
  state_num (state c) ≤ state_num st → Forall (commit_justified c rs v) es →
  good c (with_queues (set_state st (set_current rs1 c)) b q) es.
Proof.
  intros Hrs Hv Hrcs Hi Hst Hw (S1 & S2 & S3) Hok1 Hp1 Hc1 Hle Hj. split.
  - eapply similar_Inv; try done. intros ->. by destruct (state c).
  - intros rs0 v0 E0 E1. rewrite Hrs in E0. rewrite Hv in E1. injection E0 as <-. injection E1 as <-.
    split; [|done]. exists rs1. split; [done|]. split_and!; [by rewrite S1, view_Cmp_refl|by auto|done].
Qed.

Lemma set_current_queues rs c : set_current rs c = with_queues (set_state (state c) (set_current rs c)) (backlogs c) (pendingRequests c).
Proof. by destruct c. Qed.

Lemma handlePrepare_good m src c :
  Code m = msgPrepare → Inv c → wp pan (handlePrepare B m src) (fun _ c' es => good c c' es) c.
Proof.
  intros Hcode Hi. pose proof (good_here c Hi) as Hg. pose proof Hi as (rs & v & rcs & Hrs & Hv & Hrcs & Hinv).
  unfold handlePrepare. step. apply wp_try; [apply Hcodec| |]; [intros sub Hsub|intros e _; by steps].
  step. step. destruct (checkMessage_total c rs msgPrepare (sub_View sub) Hrs) as [err Eerr].
  step. eapply wp_deref; [exact Eerr|]. destruct err as [err|]; [by steps|].
  destruct (checkMessage_ok c rs _ _ Hrs Eerr) as (Hview & Hw & Hst). specialize (Hst ltac:(done)).
  unfold verify_subject. steps. case_bool_decide as Hs; [|by steps].
  unfold acceptPrepare. steps. destruct Hinv as (Hok & Hacc & Hp & Hc & Hempty & Hvs).
  set (rs1 := match ms_Add m (Prepares rs) with Some ms => set_Prepares ms rs | None => rs end).
  assert (similar rs rs1 ∧ rs_ok rs1 ∧ Commits rs1 = Commits rs ∧
    votes msgPrepare (validators (v_set v)) (rs_Subject rs1) (Prepares rs1)) as (Hsim & Hok1 & Hc1 & Hp1).
  { unfold rs1. destruct (ms_Add m (Prepares rs)) as [ms|] eqn:E; [|by split_and!].
    split_and!; try done; apply (votes_add _ _ _ sub _ _ _ Hp E Hcode Hsub Hs). }
  clearbody rs1. steps. destruct (_ && _) eqn:Econd.
  - steps. destruct (LockHash_ok rs1 Hok1) as (L1 & L2 & L3 & L4 & L5 & L6 & L7).
    eapply wp_setState; [reflexivity|]. intros b q es Hes. steps.
    eapply (wp_send_subject pan Hcodec B msgCommit _ _ (LockHash rs1) v sub); [done|done| |].
    { by rewrite L2, (similar_Subject rs rs1 Hsim). }
    intros es' Hes'. steps. destruct Hsim as (S1 & S2 & S3).
    apply andb_true_iff in Econd as [_ Hlt%bool_decide_eq_true].
    change (state_num (state c) < state_num StatePrepared) in Hlt.
    eapply (good_similar c rs (LockHash rs1) v rcs); try done.
    + split_and!; [congruence|congruence|]. intros Hl. rewrite L7; [auto|].
      unfold IsHashLocked in *. by rewrite (S3 Hl).
    + by rewrite L2, L5.
    + rewrite L2, L6, Hc1. by rewrite (similar_Subject rs rs1).
    + lia.
    + apply quiet_justified. simpl. auto 10 with ist.
  - steps. rewrite (set_current_queues rs1 c). eapply (good_similar c rs rs1 v rcs); try done.
    rewrite Hc1. by rewrite (similar_Subject rs rs1).
Qed.

(** *** Committing *)

Lemma good_commit_failed c rs rs1 v rcs b q es :
  Inv c → current c = Some rs → valSet c = Some v → rcSet c = Some rcs →
  view_of rs1 = view_of rs →
  Inv (with_queues (set_state StateCommitted (set_current rs1 c)) b q) →
  Forall (commit_justified c rs v) es → (∃ e, e ∈ es ∧ is_commit e = true) →
  good c (round_changed (with_queues (set_state StateCommitted (set_current rs1 c)) b q) rs1 v rcs (round rs1 + 1)) es.
Proof.
  intros Hi Hrs Hv Hrcs Hview Hi1 Hj He. split; [by apply round_changed_Inv|].
  intros rs0 v0 E0 E1. rewrite Hrs in E0. rewrite Hv in E1. injection E0 as <-. injection E1 as <-.
  split; [|done]. eexists. split; [done|].
  pose proof (carry_sets (Some rs1) (mkView (round rs1 + 1) (sequence rs1)) (v_set v) true) as (_ & _ & Ev).
  injection Hview as Hr Hs. split_and!; [|by right|].
  - simpl current. rewrite Ev. apply view_Cmp_not_Gt. simpl. lia.
  - simpl current. rewrite Ev. unfold view_of. intros [= ?]. lia.
Qed.

Lemma Unlock_ok rs : rs_ok rs → rs_ok (UnlockHash rs).
Proof. intros [_ Hp]. split; [|done]. intros H. unfold IsHashLocked in H. by rewrite bool_decide_true in H. Qed.

Lemma wp_commit_good c rs rs1 v rcs :
  Inv c → current c = Some rs → valSet c = Some v → rcSet c = Some rcs →
  state c ≠ StateAcceptRequest → state c ≠ StateCommitted → waitingForRoundChange c = false →
  view_of rs1 = view_of rs → rPreprepare rs1 = rPreprepare rs → rs_ok rs1 →
  (IsHashLocked rs = true → lockedHash rs1 = lockedHash rs) →
  votes msgPrepare (validators (v_set v)) (rs_Subject rs1) (Prepares rs1) →
  votes msgCommit (validators (v_set v)) (rs_Subject rs1) (Commits rs1) →
  2 * F (v_set v) < ms_Size (Commits rs1) →
  wp pan (commit B) (fun _ c' es => good c c' es) (set_current rs1 c).
Proof.
  intros Hi Hrs Hv Hrcs Hst Hnc Hw Hview Hpp Hok1 Hlock Hp1 Hc1 Hnum. unfold commit. step.
  eapply wp_setState; [reflexivity|]. intros b q es Hes. steps.
  pose proof Hi as (rs0 & v0 & rcs0 & E1 & E2 & E3 & Hinv).
  assert (rs0 = rs ∧ v0 = v ∧ rcs0 = rcs) as (-> & -> & ->) by (split_and!; congruence). clear E1 E2 E3.
  assert (is_Some (rPreprepare rs)) as [pp Epp].
  { destruct Hinv as (_ & Hacc & _). destruct (Hacc Hst); [congruence|done]. }
  unfold rs_Proposal. rewrite Hpp, Epp. cbn [fmap option_fmap option_map].
  set (seals := map _ _). steps.
  assert (∀ es1 es2, quiet es1 → quiet es2 →
    Forall (commit_justified c rs v) (es1 ++ [Commit (pp_Proposal pp) seals] ++ es2)) as Hj.
  { intros es1 es2 Q1 Q2. apply Forall_app. split; [by apply quiet_justified|]. simpl.
    constructor; [|by apply quiet_justified]. split_and!; [by eauto|done|done|done|].
    exists (Commits rs1). split_and!; [|done|done].
    replace (Some (mkSubject (view_of rs) (block_Hash (pp_Proposal pp)))) with (rs_Subject rs1); [done|].
    unfold rs_Subject. rewrite Hpp, Epp. cbn [mbind option_bind]. by rewrite <- Hview. }
  destruct (bk_Commit B (pp_Proposal pp) seals).
  - steps. eapply (good_similar c rs rs1 v rcs); try done.
    + by destruct (state c).
    + by apply (Hj es []); auto with ist.
  - steps. set (c2 := set_current (UnlockHash rs1) _).
    assert (c2 = with_queues (set_state StateCommitted (set_current (UnlockHash rs1) c)) b q) as -> by done.
    assert (Inv (with_queues (set_state StateCommitted (set_current (UnlockHash rs1) c)) b q)) as Hi2.
    { eapply similar_Inv; try done. by apply Unlock_ok. }
    unfold sendNextRoundChange. steps. eapply wp_sendRoundChange; [done|done|done|done| |].
    { cbn [Round UnlockHash set_lockedHash round]. lia. }
    intros _ es2 Hes2. simpl app.
    apply (good_commit_failed c rs (UnlockHash rs1) v rcs b q); try done.
    + by apply Hj.
    + exists (Commit (pp_Proposal pp) seals). split; [|done]. set_solver.
Qed.

Lemma handleCommit_good m src c :
  Code m = msgCommit → Inv c → wp pan (handleCommit B m src) (fun _ c' es => good c c' es) c.
Proof.
  intros Hcode Hi. pose proof (good_here c Hi) as Hg. pose proof Hi as (rs & v & rcs & Hrs & Hv & Hrcs & Hinv).
  unfold handleCommit. step. apply wp_try; [apply Hcodec| |]; [intros sub Hsub|intros e _; by steps].
  step. step. destruct (checkMessage_total c rs msgCommit (sub_View sub) Hrs) as [err Eerr].
  step. eapply wp_deref; [exact Eerr|]. destruct err as [err|]; [by steps|].
  destruct (checkMessage_ok c rs _ _ Hrs Eerr) as (Hview & Hw & Hst). specialize (Hst ltac:(done)).
  unfold verify_subject. steps. case_bool_decide as Hs; [|by steps].
  unfold acceptCommit. steps. pose proof Hinv as (Hok & Hacc & Hp & Hc & Hempty & Hvs).
  set (rs1 := match ms_Add m (Commits rs) with Some ms => set_Commits ms rs | None => rs end).
  assert (similar rs rs1 ∧ rs_ok rs1 ∧ Prepares rs1 = Prepares rs ∧
    votes msgCommit (validators (v_set v)) (rs_Subject rs1) (Commits rs1)) as (Hsim & Hok1 & Hp1 & Hc1).
  { unfold rs1. destruct (ms_Add m (Commits rs)) as [ms|] eqn:E; [|by split_and!].
    split_and!; try done; apply (votes_add _ _ _ sub _ _ _ Hc E Hcode Hsub Hs). }
  clearbody rs1. steps. pose proof (similar_Subject rs rs1 Hsim) as Esub. destruct (_ && _) eqn:Econd.
  - apply andb_true_iff in Econd as [Hnum%Z.ltb_lt Hlt%bool_decide_eq_true].
    change (state_num (state c) < state_num StateCommitted) in Hlt.
    steps. destruct (LockHash_ok rs1 Hok1) as (L1 & L2 & L3 & L4 & L5 & L6 & L7). destruct Hsim as (S1 & S2 & S3).
    eapply wp_mono; [eapply (wp_commit_good c rs (LockHash rs1) v rcs); try done|].
    + intros E. by rewrite E in Hlt.
    + congruence.
    + congruence.
    + intros Hl. rewrite L7; [auto|]. unfold IsHashLocked in *. by rewrite (S3 Hl).
    + by rewrite L2, L5, Hp1, Esub.
    + by rewrite L2, L6.
    + by rewrite L6.
    + intros [] c' es Hgood. steps. simpl. by rewrite app_nil_r.
  - steps. rewrite (set_current_queues rs1 c). eapply (good_similar c rs rs1 v rcs); try done.
    by rewrite Hp1, Esub.
Qed.

(** *** Round changes, timeouts, requests *)

Lemma good_from c c1 c' es :
  state c1 = state c → waitingForRoundChange c1 = waitingForRoundChange c → current c1 = current c →
  valSet c1 = valSet c → good c1 c' es → good c c' es.
Proof.
  intros E1 E2 E3 E4 [Hi Hg]. split; [done|]. unfold progress, commit_justified in *. by rewrite E1, E2, E3, E4 in Hg.
Qed.

Lemma rcs_Add_valSet r m rcs : rcs_valSet (fst (rcs_Add r m rcs)) = rcs_valSet rcs.
Proof. unfold rcs_Add. by case_match. Qed.

Lemma set_rcSet_Inv c rcs rcs' :
  Inv c → rcSet c = Some rcs → rcs_valSet rcs' = rcs_valSet rcs → Inv (set_rcSet rcs' c).
Proof.
  intros (rs & v & rcs0 & Hrs & Hv & Hrcs & H1 & H2 & H3 & H4 & H5 & H6) E Evs. rewrite E in Hrcs. injection Hrcs as <-.
  exists rs, v, rcs'. split_and!; try done. simpl.
  refine (conj H1 (conj H2 (conj H3 (conj H4 (conj H5 _))))). by rewrite Evs.
Qed.

Lemma wp_startNewRound_good view lastP rch Q c rs :
  Inv c → current c = Some rs → (lastP = None → fst (bk_LastProposal B) = None → pan) →
  view_Cmp (view_of rs) view ≠ Gt → (view = view_of rs → waitingForRoundChange c = true) →
  (rch = false → sequence rs < Sequence view) →
  (∀ c' es, good c c' es → Q tt c' es) → wp pan (startNewRound B view lastP rch) Q c.
Proof.
  intros Hi Hrs Hlast Hle Hw Hseq HQ. pose proof Hi as (rs0 & v & rcs & E & Hv & Hrcs & Hok & _).
  eapply wp_startNewRound; [done|exact Hv|by intros; simplify_eq|done|].
  intros view' lp lpr b q es Hnv Hes. apply HQ. apply (good_new_round B c rs); try done.
  - destruct Hnv as [(-> & _)|(_ & p & _ & Hlt & -> & _)]; [done|].
    apply view_Cmp_not_Gt. apply view_Cmp_not_Gt in Hle. simpl in *. lia.
  - destruct Hnv as [(-> & _)|(_ & p & _ & Hlt & -> & _)]; [done|].
    intros [= ? Hs]. apply view_Cmp_not_Gt in Hle. simpl in *. lia.
  - intros Hr. specialize (Hseq Hr). destruct Hnv as [(-> & _)|(_ & p & _ & Hlt & -> & _)]; [done|]. simpl. lia.
Qed.

Lemma handleRoundChange_good m src c :
  Inv c → (fst (bk_LastProposal B) = None → pan) →
  wp pan (handleRoundChange B m src) (fun _ c' es => good c c' es) c.
Proof.
  intros Hi Hlast. pose proof (good_here c Hi) as Hg. pose proof Hi as (rs & v & rcs & Hrs & Hv & Hrcs & Hinv).
  unfold handleRoundChange. step. apply wp_try; [apply Hcodec| |]; [intros rc _|intros e _; by steps].
  steps. cbn [Sequence Round].
  destruct (Z.eqb_spec (rc_Sequence rc) (sequence rs)) as [Hseq|]; cbn [negb]; [|by steps].
  destruct (Z.ltb_spec (rc_Round rc) (round rs)) as [|Hge]; [by steps|]. steps.
  pose proof (rcs_Add_valSet (rc_Round rc) m rcs) as Evs.
  destruct (rcs_Add (rc_Round rc) m rcs) as [rcs' num]. simpl in Evs. steps.
  set (c1 := set_rcSet rcs' c). assert (Inv c1) as Hi1 by (by eapply set_rcSet_Inv).
  assert (∀ es, quiet es → good c c1 es) as Hstay.
  { intros es Hes. apply (good_from c c1); try done. apply good_stay; try done. }
  destruct num as [num|]; [|steps; apply Hstay; auto with ist]. steps.
  destruct (waitingForRoundChange c1 && _).
  - destruct (round rs <? rc_Round rc).
    + steps. apply wp_sendRoundChange_good; [done|]. intros c' es Hg'. steps. simpl. rewrite app_nil_r.
      by apply (good_from c c1).
    + steps. apply Hstay. auto with ist.
  - destruct ((num =? _) && _) eqn:E.
    + apply andb_true_iff in E as [_ E]. step.
      eapply (wp_startNewRound_good _ None true _ c1 rs); try done.
      * apply view_Cmp_not_Gt. simpl. lia.
      * intros [= Hr _]. apply orb_true_iff in E as [E|E%Z.ltb_lt]; [done|lia].
      * intros c' es Hg'. steps. simpl. rewrite app_nil_r. by apply (good_from c c1).
    + destruct (round rs <? rc_Round rc); steps; apply Hstay; auto with ist.
Qed.

Lemma handleTimeoutMsg_good c :
  Inv c → wp pan (handleTimeoutMsg B) (fun _ c' es => good c c' es) c.
Proof.
  intros Hi. pose proof Hi as (rs & v & rcs & Hrs & Hv & Hrcs & Hinv). unfold handleTimeoutMsg. steps.
  apply wp_mono with (Q := fun _ c' es => c' = c ∧ es = []).
  { destruct (negb (waitingForRoundChange c)); steps; [|done].
    destruct (MaxRound (F (v_set v) + 1) rcs); steps; done. }
  intros [r|] c' es [-> ->]; [by apply wp_sendRoundChange_good|].
  destruct (fst (bk_LastProposal B)) as [p|] eqn:Ep; [|by apply wp_sendNextRoundChange_good].
  steps. destruct (Z.ltb_spec (sequence rs) (block_Number p)); [|by apply wp_sendNextRoundChange_good].
  eapply wp_startNewRound_good; try done.
  - apply view_Cmp_not_Gt. simpl. lia.
  - unfold view_of. intros [= ? ?]. lia.
  - simpl. lia.
Qed.

Lemma set_last_Inv c p a : Inv c → Inv (set_last p a c).
Proof. done. Qed.

Lemma handleFinalCommitted_good p a c :
  Inv c → wp pan (handleFinalCommitted B p a) (fun _ c' es => good c c' es) c.
Proof.
  intros Hi. pose proof Hi as (rs & v & rcs & Hrs & Hv & Hrcs & Hinv). unfold handleFinalCommitted. steps.
  destruct (Z.leb_spec (sequence rs) (block_Number p)); [|steps; by apply good_here].
  steps. eapply (wp_startNewRound_good _ (Some p) false _ (set_last (Some p) a c) rs); try done.
  - apply view_Cmp_not_Gt. simpl. lia.
  - unfold view_of. intros [= ? ?]. lia.
  - simpl. lia.
Qed.

Lemma set_pendingRequest_Inv r c rs :
  Inv c → current c = Some rs → is_Some (req_Proposal r) →
  Inv (set_current (set_pendingRequest (Some r) rs) c) ∧
  ∀ es, quiet es → good c (set_current (set_pendingRequest (Some r) rs) c) es.
Proof.
  intros Hi Hrs Hr. assert (Inv (set_current (set_pendingRequest (Some r) rs) c)) as Hi'.
  { destruct Hi as (rs0 & v & rcs & E & Hv & Hrcs & H1 & H2 & H3 & H4 & H5 & H6).
    rewrite Hrs in E. injection E as <-. exists (set_pendingRequest (Some r) rs), v, rcs. split_and!; try done. simpl.
    refine (conj _ (conj H2 (conj H3 (conj H4 (conj H5 H6))))). split; [apply H1|]. by intros ? [= <-]. }
  split; [done|]. intros es Hes. split; [done|]. intros rs0 v0 E0 E1. rewrite Hrs in E0. injection E0 as <-.
  split; [|by apply quiet_justified]. exists (set_pendingRequest (Some r) rs). split; [done|].
  split_and!; [apply view_Cmp_not_Gt; simpl; lia|by left|done].
Qed.

Lemma handleRequest_good r c :
  Inv c → wp pan (handleRequest B r) (fun err c' es =>
    good c c' es ∧ (err = Some errFutureMessage → is_Some (req_Proposal r))) c.
Proof.
  intros Hi. pose proof Hi as (rs & v & rcs & Hrs & Hv & Hrcs & Hinv). unfold handleRequest. step. step. step. step.
  step. step. unfold checkRequestMsg. destruct (req_Proposal r) as [p|] eqn:Ep.
  - step. destruct (sequence rs ?= block_Number p); [|steps; split; [by apply good_here|eauto]..].
    destruct (set_pendingRequest_Inv r c rs Hi Hrs ltac:(rewrite Ep; eauto)) as [Hi' Hg].
    steps. case_bool_decide; [|steps; split; [apply Hg; auto with ist|done]].
    eapply wp_sendPreprepare; [done|done|done|rewrite Ep; eauto|]. intros es Hes. steps.
    split; [apply Hg; simpl; auto with ist|done].
  - steps. split; [by apply good_here|done].
Qed.

(** *** Events *)

Lemma handleCheckedMsg_good m src c :
  Inv c → (fst (bk_LastProposal B) = None → pan) →
  wp pan (handleCheckedMsg B m src) (fun _ c' es => good c c' es) c.
Proof.
  intros Hi Hlast.
  assert (∀ h : M (option coreErr), wp pan h (fun _ c' es => good c c' es) c →
    wp pan (err <- h ;; (if bool_decide (err = Some errFutureMessage) then storeBacklog m src else ret tt) ;;; ret err)
      (fun _ c' es => good c c' es) c) as Htest.
  { intros h Hh. step. eapply wp_mono; [exact Hh|]. intros err c1 es1 Hg. step. case_bool_decide.
    - unfold storeBacklog, wp. case_bool_decide; simpl; (eapply good_then; [exact Hg|..]; try done; auto with ist).
    - steps. eapply good_then; [exact Hg|..]; try done; simpl; auto with ist. }
  unfold handleCheckedMsg. destruct (Z.eqb_spec (Code m) msgPreprepare).
  { apply Htest. by apply handlePreprepare_good. }
  destruct (Z.eqb_spec (Code m) msgPrepare); [by apply Htest, handlePrepare_good|].
  destruct (Z.eqb_spec (Code m) msgCommit); [by apply Htest, handleCommit_good|].
  destruct (Z.eqb_spec (Code m) msgRoundChange); [by apply handleRoundChange_good|].
  steps. by apply good_here.
Qed.

Lemma handleMsg_good payload c :
  Inv c → (fst (bk_LastProposal B) = None → pan) →
  wp pan (handleMsg B payload) (fun _ c' es => good c c' es) c.
Proof.
  intros Hi Hlast. pose proof (good_here c Hi) as Hg. pose proof Hi as (rs & v & rcs & Hrs & Hv & Hrcs & Hinv).
  unfold handleMsg. step. apply wp_try; [apply Hcodec| |]; [intros m _|intros e _; by steps].
  step. apply wp_try; [apply Hcodec| |]; [intros data _|intros e _; by steps]. steps.
  destruct (CheckValidatorSignature _ _ _ _); [by steps|].
  destruct (snd _); [|by steps]. by apply handleCheckedMsg_good.
Qed.

Definition is_start (ev : event) : bool := match ev with StartEvent _ _ _ => true | _ => false end.

Lemma good_gossip payload c c1 es1 Q :
  good c c1 es1 → (∀ es, good c c1 (es1 ++ es) → Q tt c1 es) → wp pan (gossip payload) Q c1.
Proof.
  intros Hg HQ. pose proof Hg as [(rs & v & rcs & Hrs & Hv & _) _]. unfold gossip. steps. apply HQ.
  eapply good_then; [exact Hg|..]; try done. simpl. auto with ist.
Qed.

Lemma handleEvent_good ev c :
  Inv c → is_start ev = false → (fst (bk_LastProposal B) = None → pan) →
  wp pan (handleEvent B ev) (fun _ c' es => good c c' es) c.
Proof.
  intros Hi Hstart Hlast. assert (∀ c1 es1, good c c1 es1 → good c c1 (es1 ++ [])) as Hnil.
  { intros c1 es1. by rewrite app_nil_r. }
  destruct ev as [proposal|payload|src m| |p a|seq pr p|]; cbn [handleEvent]; [..|done|].
  - step. eapply wp_mono; [by apply handleRequest_good|]. intros err c1 es1 [Hg Hfut]. case_bool_decide as E; [|by steps; auto].
    destruct (Hfut E) as [p Hp]. simpl in Hp. unfold storeRequestMsg. simpl. rewrite Hp. steps.
    eapply good_then; [exact Hg|..]; try done. simpl. auto with ist.
  - step. eapply wp_mono; [by apply handleMsg_good|]. intros err c1 es1 Hg. case_bool_decide; [|by steps; auto].
    eapply good_gossip; [exact Hg|by intros].
  - step. eapply wp_mono; [by apply handleCheckedMsg_good|]. intros err c1 es1 Hg. case_bool_decide; [|by steps; auto].
    step. apply wp_try; [apply Hcodec| |]; intros x _; [|by steps; simpl; auto]. eapply good_gossip; [exact Hg|by intros].
  - by apply handleTimeoutMsg_good.
  - by apply handleFinalCommitted_good.
  - unfold stopTimer. steps. apply good_stay; simpl; auto with ist.
Qed.

Lemma Start_Inv seq pr p c :
  (∀ rs, current c = Some rs → rs_ok rs) → (p = None → fst (bk_LastProposal B) = None → pan) →
  wp pan (handleEvent B (StartEvent seq pr p)) (fun _ c' es => Inv c' ∧ quiet es) c.
Proof.
  intros Hok Hlast. cbn [handleEvent]. unfold Start. steps.
  eapply wp_startNewRound; [done|reflexivity|done|done|]. intros view lp lpr b q es _ Hes. split; [|done].
  by apply new_round_Inv.
Qed.

End handlers.

(** ** Reachable states *)

(** The states of a node that has been started, under any events and any answers of the backend. *)
Inductive reachable (cfg : Config) (addr : bytes) : core → Prop :=
| reach_start B seq pr p c es :
    handleEvent B (StartEvent seq pr p) (New cfg addr) = Some (tt, c, es) → reachable cfg addr c
| reach_step B ev c c' es :
    reachable cfg addr c → handleEvent B ev c = Some (tt, c', es) → reachable cfg addr c'.

Lemma codecs_True : codecs_ok True.
Proof. by split. Qed.

Lemma reachable_Inv cfg addr c : reachable cfg addr c → Inv c.
Proof.
  induction 1 as [B seq pr p c es E|B ev c c' es _ IH E].
  - pose proof (Start_Inv True codecs_True B seq pr p (New cfg addr)) as H. unfold wp in H. rewrite E in H. by apply H.
  - destruct (is_start ev) eqn:Es.
    + destruct ev; try done.
      pose proof (Start_Inv True codecs_True B lastSequence lastProposer0 lastProposal0 c) as H.
      unfold wp in H. rewrite E in H. apply H; [|done].
      destruct IH as (rs & v & rcs & Hrs & _ & _ & Hok & _). intros rs0 E0. by simplify_eq.
    + pose proof (handleEvent_good True codecs_True B ev c IH Es) as H. unfold wp in H. rewrite E in H. by apply H.
Qed.

Lemma step_good cfg addr B ev c c' es :
  reachable cfg addr c → is_start ev = false → handleEvent B ev c = Some (tt, c', es) → good c c' es.
Proof.
  intros Hr Hs E. pose proof (handleEvent_good True codecs_True B ev c (reachable_Inv _ _ _ Hr) Hs) as H.
  unfold wp in H. rewrite E in H. by apply H.
Qed.

End CoreInv.
