(* ===== verification/IstCoreThms.v ===== *)
(** What the Istanbul core guarantees over all its reachable states: the encoded
    messages of the core never make it crash, no event does once a chain is
    there, a block is handed over only with a quorum of COMMIT messages, views
    never go back and locks hold. *)

From S2P Require Import Prelude RlpEncode RlpRaw RlpDecode RlpRoundtrip RlpTotal KeccakF Sha3 CoreTypes.
From S2P Require Import IstValidator Prque IstTypes IstCore IstCoreInv.

Module CoreThms.
Import Rlp Raw Dec Roundtrip Total Codec Types Validator Ist Core CoreInv.

(** ** Messages are coded without a crash *)

Lemma codecs_total : codecs_ok False.
Proof. split; intros ?; (apply encode_no_crash || apply decode_no_crash). Qed.

(** ** A network of four validators

    Signatures are replaced by the number of the key that made them. *)

Definition pub (key : byte) : bytes := replicate 65 key.
Definition addr1 : bytes := Eval vm_compute in PubkeyToAddress (pub x01).
Definition addr2 : bytes := Eval vm_compute in PubkeyToAddress (pub x02).
Definition addr3 : bytes := Eval vm_compute in PubkeyToAddress (pub x03).
Definition addr4 : bytes := Eval vm_compute in PubkeyToAddress (pub x04).
Definition key_addr (key : byte) : bytes :=
  if bool_decide (key = x01) then addr1 else if bool_decide (key = x02) then addr2
  else if bool_decide (key = x03) then addr3 else addr4.
Definition four : defaultSet := Eval vm_compute in
  NewSet (map key_addr [x01; x02; x03; x04]) RoundRobin.

Definition sample_block (n : Z) : Block :=
  mkBlock (mkHeader emptyHash emptyHash emptyAddr emptyHash emptyHash emptyHash (replicate 256 x00) 1 n 0 0 n []
    emptyHash (replicate 8 x00)) [] [].

(** The backend of the validator with key 2, whose chain ends with [last]. *)
Definition backend (last : Block) : Backend :=
  mkBackend (fun _ => mkVset 1 four) (Some last, emptyAddr) (fun _ => VerifyOk) (fun _ _ => true)
    (fun _ => Some [x02]) (fun _ sig => match sig with [key] => Some (pub key) | _ => None end).
Definition sample_cfg : Config := mkConfig 10000 (fun _ => 0).

Definition enc {A} `{Codec A} (a : A) : bytes := match encode a with Ok b => b | _ => [] end.
(** A message signed with [key] that names [from] as its sender. *)
Definition signed (key from : byte) (code : Z) (body seal : bytes) : event :=
  MessageEvent (enc (mkMessage code body (key_addr from) [key] seal)).
(** The same message as it comes back from a backlog. *)
Definition stored (key from : byte) (code : Z) (body seal : bytes) : event :=
  backlogEvent (mkSource 1 (key_addr from)) (mkMessage code body (key_addr from) [key] seal).

Fixpoint run (B : Backend) (evs : list event) (c : core) : option core :=
  match evs with
  | [] => Some c
  | ev :: evs => match handleEvent B ev c with None => None | Some (_, c, _) => run B evs c end
  end.

Lemma run_reachable cfg addr B evs c c' :
  reachable cfg addr c → run B evs c = Some c' → reachable cfg addr c'.
Proof.
  revert c. induction evs as [|ev evs IH]; intros c Hc E; simpl in E; [by simplify_eq|].
  destruct (handleEvent B ev c) as [[[[] c1] es1]|] eqn:E1; [|done].
  eapply IH; [|exact E]. by eapply reach_step.
Qed.

Definition start : event := StartEvent 0 emptyAddr (Some (sample_block 0)).
Definition view01 : View := mkView 0 1.
Definition body1 : bytes := Eval vm_compute in enc (mkSubject view01 (block_Hash (sample_block 1))).
Definition proposal1 : event := stored x03 x03 msgPreprepare (enc (mkPreprepare view01 (sample_block 1))) [].
Definition commit_vote (key : byte) : event := stored key key msgCommit body1 [key].
Definition prepare_vote (key : byte) : event := stored key key msgPrepare body1 [].

Definition after (B : Backend) (evs : list event) (c : core) : core := default c (run B evs c).

Definition started : core := Eval vm_compute in
  after (backend (sample_block 0)) [start] (New sample_cfg (key_addr x02)).
(** The proposal of the first proposer, key 3, has been accepted. *)
Definition preprepared : core := Eval vm_compute in after (backend (sample_block 0)) [proposal1] started.
(** Two validators have voted to commit it. *)
Definition nearly : core := Eval vm_compute in
  after (backend (sample_block 0)) [commit_vote x01; commit_vote x03] preprepared.
(** Three have voted to prepare it, and it is locked. *)
Definition locked : core := Eval vm_compute in
  after (backend (sample_block 0)) [prepare_vote x01; prepare_vote x03; prepare_vote x04] preprepared.
(** The node has timed out and waits for a change of round. *)
Definition waiting : core := Eval vm_compute in after (backend (sample_block 0)) [timeoutEvent] started.

Lemma started_reachable : reachable sample_cfg (key_addr x02) started.
Proof.
  eapply (reach_start _ _ (backend (sample_block 0)) 0 emptyAddr (Some (sample_block 0))). vm_compute. reflexivity.
Qed.

Lemma preprepared_reachable : reachable sample_cfg (key_addr x02) preprepared.
Proof.
  apply (run_reachable _ _ (backend (sample_block 0)) [proposal1] started); [apply started_reachable|].
  vm_cast_no_check (eq_refl (Some preprepared)).
Qed.
Lemma nearly_reachable : reachable sample_cfg (key_addr x02) nearly.
Proof.
  apply (run_reachable _ _ (backend (sample_block 0)) [commit_vote x01; commit_vote x03] preprepared);
    [apply preprepared_reachable|].
  vm_cast_no_check (eq_refl (Some nearly)).
Qed.
Lemma locked_reachable : reachable sample_cfg (key_addr x02) locked.
Proof.
  apply (run_reachable _ _ (backend (sample_block 0)) [prepare_vote x01; prepare_vote x03; prepare_vote x04] preprepared);
    [apply preprepared_reachable|].
  vm_cast_no_check (eq_refl (Some locked)).
Qed.
Lemma waiting_reachable : reachable sample_cfg (key_addr x02) waiting.
Proof.
  apply (run_reachable _ _ (backend (sample_block 0)) [timeoutEvent] started); [apply started_reachable|].
  vm_cast_no_check (eq_refl (Some waiting)).
Qed.

Lemma nearly_current : ∃ rs, current nearly = Some rs.
Proof. destruct (reachable_Inv _ _ _ nearly_reachable) as (rs & _ & _ & Hrs & _). by exists rs. Qed.
Lemma locked_current : ∃ rs, current locked = Some rs ∧ IsHashLocked rs = true.
Proof.
  assert (match current locked with Some rs => IsHashLocked rs | None => false end = true) as H
    by vm_cast_no_check (eq_refl true).
  destruct (current locked) as [rs|]; [by exists rs|done].
Qed.

(** The state and the effects of a step, when there is no panic. *)
Definition next (B : Backend) (ev : event) (c : core) : core :=
  match handleEvent B ev c with Some (_, c', _) => c' | None => c end.
Definition effects (B : Backend) (ev : event) (c : core) : list effect :=
  match handleEvent B ev c with Some (_, _, es) => es | None => [] end.
Definition steps (B : Backend) (ev : event) (c : core) : bool :=
  match handleEvent B ev c with Some _ => true | None => false end.

Lemma steps_next B ev c : steps B ev c = true → handleEvent B ev c = Some (tt, next B ev c, effects B ev c).
Proof. unfold steps, next, effects. by destruct (handleEvent B ev c) as [[[[] c'] es]|]. Qed.

Lemma has_commit es : existsb is_commit es = true → ∃ p seals, Commit p seals ∈ es.
Proof.
  intros ([| |p seals| | | | |] & Hin & He)%existsb_exists; try done. exists p, seals. by apply list_elem_of_In.
Qed.

(** ** Safety *)

Lemma no_commit_at_start B ev c c' es :
  is_start ev = true → (∀ rs, current c = Some rs → rs_ok rs) → handleEvent B ev c = Some (tt, c', es) → quiet es.
Proof.
  intros Hs Hok E. destruct ev as [| | | | |seq pr p|]; try done.
  pose proof (Start_Inv True codecs_True B seq pr p c Hok) as H. unfold wp in H. rewrite E in H. by apply H.
Qed.

Lemma reachable_rs_ok cfg addr c rs : reachable cfg addr c → current c = Some rs → rs_ok rs.
Proof. intros (rs0 & v & rcs & E & _ & _ & Hok & _)%reachable_Inv E'. by simplify_eq. Qed.

(** C1: a node hands a block to its backend only when it is the proposal it has
    accepted in its current view, it has not committed in this view before and is
    not waiting for a change of round, and more than 2F different COMMIT messages
    on exactly that view and block, all naming validators of the current set as
    senders, are at hand; the seals it hands over are the ones in those messages. *)
Theorem Commit_has_quorum cfg addr B ev c c' es p seals :
  reachable cfg addr c → handleEvent B ev c = Some (tt, c', es) → Commit p seals ∈ es →
  ∃ rs v pp ms, current c = Some rs ∧ valSet c = Some v ∧
    rPreprepare rs = Some pp ∧ pp_Proposal pp = p ∧
    (state c = StatePreprepared ∨ state c = StatePrepared) ∧ waitingForRoundChange c = false ∧
    votes msgCommit (validators (v_set v)) (Some (mkSubject (view_of rs) (block_Hash p))) ms ∧
    2 * F (v_set v) < ms_Size ms ∧
    seals = map (fun m => fit IstanbulExtraSeal (msg_CommittedSeal m)) (ms_Values ms).
Proof.
  intros Hr E Hin. destruct (is_start ev) eqn:Hs.
  { pose proof (no_commit_at_start B ev c c' es Hs (fun rs => reachable_rs_ok _ _ _ rs Hr) E) as Hq.
    unfold quiet in Hq. rewrite Forall_forall in Hq. by specialize (Hq _ Hin). }
  destruct (reachable_Inv _ _ _ Hr) as (rs & v & rcs & Hrs & Hv & _).
  destruct (step_good _ _ _ _ _ _ _ Hr Hs E) as [_ H]. destruct (H rs v Hrs Hv) as [_ Hj].
  rewrite Forall_forall in Hj. destruct (Hj _ Hin) as ((pp & Hpp & Hp) & Ha & Hc & Hw & ms & Hms & Hsz & Hseals).
  exists rs, v, pp, ms. split_and!; try done. destruct (state c); naive_solver.
Qed.

Lemma Commit_has_quorum_witness :
  ∃ c' es p seals,
    handleEvent (backend (sample_block 0)) (commit_vote x04) nearly = Some (tt, c', es) ∧ Commit p seals ∈ es ∧
    ∃ rs v pp ms, current nearly = Some rs ∧ valSet nearly = Some v ∧
      rPreprepare rs = Some pp ∧ pp_Proposal pp = p ∧
      (state nearly = StatePreprepared ∨ state nearly = StatePrepared) ∧ waitingForRoundChange nearly = false ∧
      votes msgCommit (validators (v_set v)) (Some (mkSubject (view_of rs) (block_Hash p))) ms ∧
      2 * F (v_set v) < ms_Size ms ∧
      seals = map (fun m => fit IstanbulExtraSeal (msg_CommittedSeal m)) (ms_Values ms).
Proof.
  assert (steps (backend (sample_block 0)) (commit_vote x04) nearly
    && existsb is_commit (effects (backend (sample_block 0)) (commit_vote x04) nearly) = true) as [E Hc]%andb_true_iff
    by vm_cast_no_check (eq_refl true).
  apply steps_next in E. apply has_commit in Hc as (p & seals & Hin).
  eexists _, _, p, seals. split; [exact E|]. split; [exact Hin|].
  exact (Commit_has_quorum _ _ _ _ _ _ _ _ _ nearly_reachable E Hin).
Defined.

(** C34: in every state a started node can reach, under any events and any answers
    of its backend, the current round, its validators and the set of round
    changes exist; the PREPARE and COMMIT messages it counts are of their kind,
    on the subject of the current view, from validators of the current set and
    filed under their own hash; past the first state of a round there is a
    proposal, and in it there are no votes; a locked hash is that of the
    accepted proposal. *)
Theorem reachable_states_consistent cfg addr c : reachable cfg addr c → Inv c.
Proof. apply reachable_Inv. Qed.

Lemma reachable_states_consistent_witness : reachable sample_cfg (key_addr x02) nearly ∧ Inv nearly.
Proof. split; [exact nearly_reachable|]. exact (reachable_states_consistent _ _ _ nearly_reachable). Defined.

(** C4: no event moves a started node to an earlier view (sequence first, then
    round), and as long as the view stays, a node that has accepted a proposal
    keeps it, does not go back to an earlier state of the round, and does not
    start to wait for a change of round. *)
Theorem views_never_go_back cfg addr B ev c c' es rs :
  reachable cfg addr c → is_start ev = false → handleEvent B ev c = Some (tt, c', es) → current c = Some rs →
  ∃ rs', current c' = Some rs' ∧ view_Cmp (view_of rs) (view_of rs') ≠ Gt ∧
    (view_of rs' = view_of rs → state c ≠ StateAcceptRequest → waitingForRoundChange c = false →
     state_num (state c) ≤ state_num (state c') ∧ waitingForRoundChange c' = false ∧ rPreprepare rs' = rPreprepare rs).
Proof.
  intros Hr Hs E Hrs. destruct (reachable_Inv _ _ _ Hr) as (rs0 & v & rcs & Hrs0 & Hv & _).
  destruct (step_good _ _ _ _ _ _ _ Hr Hs E) as [_ H]. destruct (H rs v Hrs Hv) as [(rs' & Hrs' & Hle & _ & Hst) _].
  by exists rs'.
Qed.

Lemma views_never_go_back_witness :
  ∃ c' es rs, handleEvent (backend (sample_block 0)) (prepare_vote x04) nearly = Some (tt, c', es) ∧
    current nearly = Some rs ∧
    ∃ rs', current c' = Some rs' ∧ view_Cmp (view_of rs) (view_of rs') ≠ Gt ∧
      (view_of rs' = view_of rs → state nearly ≠ StateAcceptRequest → waitingForRoundChange nearly = false →
       state_num (state nearly) ≤ state_num (state c') ∧ waitingForRoundChange c' = false ∧
       rPreprepare rs' = rPreprepare rs).
Proof.
  assert (steps (backend (sample_block 0)) (prepare_vote x04) nearly = true) as E by vm_cast_no_check (eq_refl true).
  apply steps_next in E. destruct nearly_current as [rs Hrs]. eexists _, _, rs. split; [exact E|]. split; [exact Hrs|].
  apply (views_never_go_back _ _ _ _ _ _ _ _ nearly_reachable) with (2 := E); [reflexivity|exact Hrs].
Defined.

(** C3: once a node has locked a block, every event leaves the lock in place as
    long as the sequence does not change, round changes included, unless the
    event handed a block to the backend (a failed insertion unlocks). *)
Theorem locks_hold cfg addr B ev c c' es rs :
  reachable cfg addr c → is_start ev = false → handleEvent B ev c = Some (tt, c', es) →
  current c = Some rs → IsHashLocked rs = true →
  ∃ rs', current c' = Some rs' ∧
    (sequence rs' = sequence rs → lockedHash rs' = lockedHash rs ∨ ∃ p seals, Commit p seals ∈ es).
Proof.
  intros Hr Hs E Hrs Hl. destruct (reachable_Inv _ _ _ Hr) as (rs0 & v & rcs & Hrs0 & Hv & _).
  destruct (step_good _ _ _ _ _ _ _ Hr Hs E) as [_ H]. destruct (H rs v Hrs Hv) as [(rs' & Hrs' & _ & Hk & _) _].
  exists rs'. split; [done|]. intros Hseq. destruct (Hk Hseq Hl) as [|(e & He & Hc)]; [by left|right].
  destruct e; try done. by eexists _, _.
Qed.

Lemma locks_hold_witness :
  ∃ c' es rs, handleEvent (backend (sample_block 0)) timeoutEvent locked = Some (tt, c', es) ∧
    current locked = Some rs ∧ IsHashLocked rs = true ∧
    ∃ rs', current c' = Some rs' ∧
      (sequence rs' = sequence rs → lockedHash rs' = lockedHash rs ∨ ∃ p seals, Commit p seals ∈ es).
Proof.
  assert (steps (backend (sample_block 0)) timeoutEvent locked = true) as E by vm_cast_no_check (eq_refl true).
  apply steps_next in E. destruct locked_current as (rs & Hrs & Hl). eexists _, _, rs.
  split; [exact E|]. split; [exact Hrs|]. split; [exact Hl|].
  apply (locks_hold _ _ _ _ _ _ _ _ locked_reachable) with (2 := E); [reflexivity|exact Hrs|exact Hl].
Defined.

(** C5: no event makes a started node panic, whatever bytes come in as messages,
    as long as the backend has a last block; nor does starting a new node. *)
Theorem handleEvent_no_panic cfg addr B ev c :
  (reachable cfg addr c ∨ c = New cfg addr ∧ is_start ev = true) → is_Some (fst (bk_LastProposal B)) →
  ∃ c' es, handleEvent B ev c = Some (tt, c', es).
Proof.
  intros Hc [p Hp]. assert (∀ Q : core → list effect → Prop,
    wp False (handleEvent B ev) (fun _ c' es => Q c' es) c → ∃ c' es, handleEvent B ev c = Some (tt, c', es)) as Hwp.
  { unfold wp. intros Q. destruct (handleEvent B ev c) as [[[[] c'] es]|]; [by eauto|done]. }
  assert (∀ rs, current c = Some rs → rs_ok rs) as Hok.
  { destruct Hc as [Hr|[-> _]]; [|done]. intros rs. by apply reachable_rs_ok with cfg addr. }
  destruct (is_start ev) eqn:Hs.
  - destruct ev as [| | | | |seq pr lp|]; try done.
    eapply Hwp, (Start_Inv False codecs_total); [exact Hok|]. intros _. by rewrite Hp.
  - destruct Hc as [Hr|[_ ?]]; [|done].
    eapply (Hwp (good c)), (handleEvent_good False codecs_total); [by eapply reachable_Inv|done|by rewrite Hp].
Qed.

Lemma handleEvent_no_panic_witness :
  ∃ c' es, handleEvent (backend (sample_block 0)) (MessageEvent [xc3; x05; x81; x00]) nearly = Some (tt, c', es).
Proof.
  apply (handleEvent_no_panic sample_cfg (key_addr x02)); [left; exact nearly_reachable|by eexists].
Defined.

End CoreThms.
