(* ===== verification/IstCoreRuns.v ===== *)
(** Runs of the Istanbul core that go against what its comments and the protocol
    intend: a quorum of one validator's messages, a change of sequence with the
    validators of an old block, a lock that outlives its sequence, and round
    timers that overflow. *)

From S2P Require Import Prelude RlpEncode RlpRaw RlpDecode RlpRoundtrip RlpTotal KeccakF Sha3 CoreTypes.
From S2P Require Import IstValidator Prque IstTypes IstCore IstCoreInv IstCoreThms.

Module CoreRuns.
Import Rlp Raw Dec Roundtrip Total Codec Types Validator Ist Core CoreInv CoreThms.

(** ** Quorums of messages *)

(** The event is a message that the signature check attributes to [addr]. *)
Definition signed_by (B : Backend) (addr : bytes) (ev : event) : bool :=
  match ev with
  | MessageEvent payload =>
      match decode (A:=message) payload with
      | Ok m =>
          match PayloadNoSig m with
          | Ok data => bool_decide (GetSignatureAddress (bk_SigToPub B) data (Signature m) = Some addr)
          | _ => false
          end
      | _ => false
      end
  | _ => false
  end.

(** A proposal and three COMMIT messages with different seals, all signed with key 3. *)
Definition one_key : list event :=
  signed x03 x03 msgPreprepare (enc (mkPreprepare view01 (sample_block 1))) []
  :: map (fun seal => signed x03 x03 msgCommit body1 [seal]) [x01; x02; x03].


(** ** A change of sequence by timeout *)

(** a node that times out after the chain has passed it starts the round of
    the next block, but with the validators of the last block it had noted
    itself and the proposer computed from that block's proposer: the two
    arguments for the new block and its proposer are not used, and
    [lastProposal] stays as it was. *)
Theorem timeout_keeps_old_validators cfg addr B c c' es rs p :
  reachable cfg addr c → waitingForRoundChange c = true → current c = Some rs →
  fst (bk_LastProposal B) = Some p → sequence rs < block_Number p →
  handleEvent B timeoutEvent c = Some (tt, c', es) →
  option_map view_of (current c') = Some (mkView 0 (block_Number p + 1)) ∧
  lastProposal c' = lastProposal c ∧ lastProposer c' = lastProposer c ∧
  valSet c' = Some (mkVset (v_id (bk_Validators B (lastProposal c)))
                      (CalcProposer (v_set (bk_Validators B (lastProposal c))) (lastProposer c) 0)).
Proof.
  intros Hr Hw Hrs Hp Hlt E. destruct (reachable_Inv _ _ _ Hr) as (rs0 & v & rcs & Hrs0 & Hv & _ & Hok & _).
  rewrite Hrs in Hrs0. injection Hrs0 as <-.
  assert (wp True (handleEvent B timeoutEvent) (fun _ c' _ => ∃ b q,
    c' = new_round B c (mkView 0 (block_Number p + 1)) (lastProposal c) (lastProposer c) false b q) c) as H.
  { cbn [handleEvent]. unfold handleTimeoutMsg. CoreInv.steps. rewrite Hw. simpl. CoreInv.steps. rewrite Hp. CoreInv.steps.
    destruct (Z.ltb_spec (sequence rs) (block_Number p)); [|lia].
    eapply wp_startNewRound; [exact codecs_True|exact Hv|by intros; simplify_eq|done|].
    intros view lp lpr b q es' [(-> & -> & ->)|(? & _)] _; [by eauto|done]. }
  unfold wp in H. rewrite E in H. destruct H as (b & q & ->). simpl. split_and!; try done. by rewrite Hrs.
Qed.

Lemma timeout_keeps_old_validators_witness :
  ∃ c' es, handleEvent (backend (sample_block 5)) timeoutEvent waiting = Some (tt, c', es) ∧
    option_map view_of (current c') = Some (mkView 0 6) ∧
    lastProposal c' = lastProposal waiting ∧ lastProposer c' = lastProposer waiting ∧
    valSet c' = Some (mkVset (v_id (bk_Validators (backend (sample_block 5)) (lastProposal waiting)))
      (CalcProposer (v_set (bk_Validators (backend (sample_block 5)) (lastProposal waiting))) (lastProposer waiting) 0)).
Proof.
  assert (CoreThms.steps (backend (sample_block 5)) timeoutEvent waiting = true) as E by vm_cast_no_check (eq_refl true).
  apply steps_next in E. destruct (current waiting) as [rs|] eqn:Hrs; [|discriminate Hrs].
  eexists _, _. split; [exact E|].
  apply (timeout_keeps_old_validators _ _ (backend (sample_block 5)) waiting _ _ rs (sample_block 5) waiting_reachable)
    with (5 := E); [reflexivity|exact Hrs|reflexivity|].
  injection Hrs as <-. reflexivity.
Defined.

(** ** A lock that outlives its sequence *)

Definition change_message (key : byte) (view : View) : event :=
  signed key key msgRoundChange (enc (mkRoundChange (Round view) (Sequence view) emptyHash)) [].

(** The locked node of sequence 1, whose chain meanwhile ends with block 5, gets
    ROUND CHANGE messages of the other validators. *)
Definition overtaken : option core :=
  run (backend (sample_block 5)) (map (fun key => change_message key (mkView 1 1)) [x01; x03; x04]) locked.

Definition lock_status (c : core) : option (View * bytes * bool) :=
  option_map (fun rs => (view_of rs, lockedHash rs, waitingForRoundChange c)) (current c).

(** The proposal of key 3 for block 6, in view (0, 6). *)
Definition proposal6 : event :=
  signed x03 x03 msgPreprepare (enc (mkPreprepare (mkView 0 6) (sample_block 6))) [].


(** ** Round timers *)

(** with the default request timeout of ten seconds the timer of round [r] is
    2^r times ten seconds up to round 29; in round 30 the duration overflows and
    is negative, so that the timer fires at once. *)
Theorem roundTimeout_overflows :
  RequestTimeout sample_cfg = 10000 ∧
  (∀ r, 0 ≤ r ≤ 29 → roundTimeout sample_cfg r = 2 ^ r * 10 ^ 10) ∧
  roundTimeout sample_cfg 30 < 0.
Proof.
  split; [reflexivity|]. split; [|vm_compute; reflexivity]. intros r Hr. unfold roundTimeout. simpl.
  rewrite (u64_small r) by lia. destruct (Z.ltb_spec r 64); [|lia].
  assert (2 ^ r ≤ 2 ^ 29) by (apply Z.pow_le_mono_r; lia). assert (0 < 2 ^ r) by lia.
  rewrite (u64_small (2 ^ r * 10000)) by lia. rewrite (i64_small (2 ^ r * 10000)) by lia.
  rewrite i64_small by lia. lia.
Qed.

End CoreRuns.
