(* ===== verification/IstSnapshot.v ===== *)
(** Validator voting (src/consensus/istanbul/backend/snapshot.go): a snapshot of
    the validators and of the votes on them, and its update by headers.

    The tally of a snapshot is a cache of the count of its votes; the file shows
    that it stays exact, that a validator has one vote per account, and that
    validators change only with the votes of a majority. *)

From S2P Require Import Prelude RlpEncode RlpRaw RlpDecode RlpRoundtrip RlpTotal KeccakF Sha3 CoreTypes.
From S2P Require Import IstValidator IstTypes.

Module Snapshot.
Import Rlp Raw Dec Roundtrip Total Codec Types Validator Ist.

(** The errors of engine.go and those of the calls it passes on. *)
Inductive engineErr :=
| errInvalidProposal | errInvalidSignature | errUnknownBlock | errUnauthorized | errInvalidDifficulty
| errInvalidExtraDataFormat | errInvalidMixDigest | errInvalidNonce | errInvalidUncleHash | errInvalidTimestamp
| errInvalidVotingChain | errInvalidVote | errInvalidCommittedSeals | errEmptyCommittedSeals
| ErrFutureBlock | ErrUnknownAncestor | ErrExtra (e : typesErr) | ErrRecover | ErrSign | ErrEncoding | ErrDatabase.
#[global] Instance typesErr_eq_dec : EqDecision typesErr.
Proof. solve_decision. Defined.
#[global] Instance engineErr_eq_dec : EqDecision engineErr.
Proof. solve_decision. Defined.

(** ** The signer of a header (engine.go) *)

Section snapshot.
(** [crypto.SigToPub] of a digest and a signature, as the key's bytes. *)
Context (SigToPub : bytes → bytes → option bytes).

(** Encoding the nil header that stands for undecodable extra data gives an empty list. *)
Definition sigHash (h : Header) : bytes :=
  match IstanbulFilteredHeader h false with
  | Some h' => rlpHash h'
  | None => hash256 [[xc0]]
  end.

(** The cache of recent addresses is keyed by the header's hash, which covers all
    that is read here. *)
Definition ecrecover (h : Header) : result engineErr bytes :=
  match ExtractIstanbulExtra h with
  | Ok extra =>
      match GetSignatureAddress SigToPub (sigHash h) (Seal extra) with
      | Some addr => Ok addr
      | None => Err ErrRecover
      end
  | Err e => Err (ErrExtra e)
  | Panic => Panic
  | NoFuel => NoFuel
  end.

(** ** Snapshots *)

Record Vote := mkVote {
  vote_Validator : bytes;
  vote_Block : Z;
  vote_Address : bytes;
  vote_Authorize : bool }.

Record Tally := mkTally { tally_Authorize : bool; tally_Votes : Z }.

Record Snapshot := mkSnapshot {
  Epoch : Z;
  snap_Number : Z;
  snap_Hash : bytes;
  Votes : list Vote;
  tallies : gmap bytes Tally;
  ValSet : defaultSet }.

Definition set_Votes (x : list Vote) (s : Snapshot) : Snapshot :=
  mkSnapshot (Epoch s) (snap_Number s) (snap_Hash s) x (tallies s) (ValSet s).
Definition set_tallies (x : gmap bytes Tally) (s : Snapshot) : Snapshot :=
  mkSnapshot (Epoch s) (snap_Number s) (snap_Hash s) (Votes s) x (ValSet s).
Definition set_ValSet (x : defaultSet) (s : Snapshot) : Snapshot :=
  mkSnapshot (Epoch s) (snap_Number s) (snap_Hash s) (Votes s) (tallies s) x.

Definition newSnapshot (epoch number : Z) (hash : bytes) (valSet : defaultSet) : Snapshot :=
  mkSnapshot epoch number hash [] ∅ valSet.

Definition snap_copy (s : Snapshot) : Snapshot := set_ValSet (Copy (ValSet s)) s.

Definition checkVote (s : Snapshot) (address : bytes) (authorize : bool) : bool :=
  match snd (GetByAddress (ValSet s) address) with
  | Some _ => negb authorize
  | None => authorize
  end.

Definition cast (address : bytes) (authorize : bool) (s : Snapshot) : bool * Snapshot :=
  if negb (checkVote s address authorize) then (false, s)
  else
    let new := match tallies s !! address with
               | Some old => mkTally (tally_Authorize old) (tally_Votes old + 1)
               | None => mkTally authorize 1
               end in
    (true, set_tallies (<[address := new]> (tallies s)) s).

Definition uncast (address : bytes) (authorize : bool) (s : Snapshot) : bool * Snapshot :=
  match tallies s !! address with
  | None => (false, s)
  | Some tally =>
      if negb (Bool.eqb (tally_Authorize tally) authorize) then (false, s)
      else if 1 <? tally_Votes tally
      then (true, set_tallies (<[address := mkTally (tally_Authorize tally) (tally_Votes tally - 1)]> (tallies s)) s)
      else (true, set_tallies (delete address (tallies s)) s)
  end.

(** ** apply *)

Definition nonceAuthVote : bytes := replicate 8 xff.
Definition nonceDropVote : bytes := replicate 8 x00.

(** The first vote of [validator] on [address], and the other votes. *)
Fixpoint take_vote (validator address : bytes) (votes : list Vote) : option (Vote * list Vote) :=
  match votes with
  | [] => None
  | v :: votes =>
      if bool_decide (vote_Validator v = validator) && bool_decide (vote_Address v = address) then Some (v, votes)
      else '(w, rest) ← take_vote validator address votes; Some (w, v :: rest)
  end.

Definition discard_previous (validator address : bytes) (s : Snapshot) : Snapshot :=
  match take_vote validator address (Votes s) with
  | Some (v, rest) => set_Votes rest (snd (uncast (vote_Address v) (vote_Authorize v) s))
  | None => s
  end.

(** The votes cast by [validator] are uncast and dropped, in order. *)
Fixpoint discard_by (validator : bytes) (kept votes : list Vote) (s : Snapshot) : Snapshot :=
  match votes with
  | [] => set_Votes kept s
  | v :: votes =>
      if bool_decide (vote_Validator v = validator)
      then discard_by validator kept votes (snd (uncast (vote_Address v) (vote_Authorize v) s))
      else discard_by validator (kept ++ [v]) votes s
  end.

Definition discard_on (address : bytes) (s : Snapshot) : Snapshot :=
  set_tallies (delete address (tallies s))
    (set_Votes (filter (fun v => vote_Address v ≠ address) (Votes s)) s).

(** A vote that has passed changes the validators. *)
Definition conclude (address : bytes) (s : Snapshot) : Snapshot :=
  let tally := default (mkTally false 0) (tallies s !! address) in
  if Size (ValSet s) / 2 <? tally_Votes tally then
    let s :=
      if tally_Authorize tally then set_ValSet (snd (AddValidator (ValSet s) address)) s
      else
        let s := set_ValSet (snd (RemoveValidator (ValSet s) address)) s in
        discard_by address [] (Votes s) s in
    discard_on address s
  else s.

Definition vote_of (h : Header) : option bool :=
  if bool_decide (Nonce h = nonceAuthVote) then Some true
  else if bool_decide (Nonce h = nonceDropVote) then Some false
  else None.

Definition record_vote (validator : bytes) (number : Z) (address : bytes) (authorize : bool) (s : Snapshot) : Snapshot :=
  let '(ok, s) := cast address authorize s in
  if ok then set_Votes (Votes s ++ [mkVote validator number address authorize]) s else s.

(** One turn of the loop over the headers; a zero epoch is a division by zero. *)
Definition apply_header (s : Snapshot) (h : Header) : result engineErr Snapshot :=
  let number := u64 (Number h) in
  if Epoch s =? 0 then Panic
  else
    let s := if number mod Epoch s =? 0 then set_tallies ∅ (set_Votes [] s) else s in
    let? validator := ecrecover h in
    match snd (GetByAddress (ValSet s) validator) with
    | None => Err errUnauthorized
    | Some _ =>
        let s := discard_previous validator (Coinbase h) s in
        match vote_of h with
        | None => Err errInvalidVote
        | Some authorize =>
            Ok (conclude (Coinbase h) (record_vote validator number (Coinbase h) authorize s))
        end
    end.

Fixpoint apply_headers (s : Snapshot) (hs : list Header) : result engineErr Snapshot :=
  match hs with
  | [] => Ok s
  | h :: hs => let? s := apply_header s h in apply_headers s hs
  end.

Fixpoint contiguous (n : Z) (hs : list Header) : bool :=
  match hs with
  | [] => true
  | h :: hs => (u64 (Number h) =? u64 (n + 1)) && contiguous (u64 (Number h)) hs
  end.

Definition apply (s : Snapshot) (hs : list Header) : result engineErr Snapshot :=
  match last hs with
  | None => Ok s
  | Some h =>
      if negb (contiguous (snap_Number s) hs) then Err errInvalidVotingChain
      else
        let? s' := apply_headers (snap_copy s) hs in
        Ok (mkSnapshot (Epoch s') (u64 (snap_Number s' + zlen hs)) (header_Hash h) (Votes s') (tallies s') (ValSet s'))
  end.

(** [validators]: a selection sort by exchange. *)
Fixpoint exchange (x : bytes) (l : list bytes) : bytes * list bytes :=
  match l with
  | [] => (x, [])
  | y :: l =>
      if bytes_lt y x then let '(m, l) := exchange y l in (m, x :: l)
      else let '(m, l) := exchange x l in (m, y :: l)
  end.
Fixpoint exchange_sort (fuel : nat) (l : list bytes) : list bytes :=
  match fuel, l with
  | S fuel, x :: l => let '(m, l) := exchange x l in m :: exchange_sort fuel l
  | _, _ => l
  end.
Definition snap_validators (s : Snapshot) : list bytes :=
  exchange_sort (length (List (ValSet s))) (List (ValSet s)).

(** ** The tally is the count of the votes *)

Definition votes_on (a : bytes) (votes : list Vote) : list Vote := filter (fun v => vote_Address v = a) votes.

(** The tally of [a], counted anew, when [vs] are the validators. *)
Definition recount (vs : list bytes) (votes : list Vote) (a : bytes) : option Tally :=
  match length (votes_on a votes) with
  | O => None
  | S n => Some (mkTally (negb (bool_decide (a ∈ vs))) (Z.of_nat (S n)))
  end.

Definition counted (vs : list bytes) (votes : list Vote) (t : gmap bytes Tally) : Prop :=
  ∀ a, t !! a = recount vs votes a.

(** A vote to add an account that is no validator, or to drop one that is. *)
Definition useful (vs : list bytes) (v : Vote) : Prop :=
  vote_Authorize v = negb (bool_decide (vote_Address v ∈ vs)).

Definition ballot (v : Vote) : bytes * bytes := (vote_Validator v, vote_Address v).

(** Validators in order and without duplicates; one vote per validator and account;
    only validators have votes, and only useful ones; an exact tally. *)
Record votes_ok (vs : list bytes) (votes : list Vote) (t : gmap bytes Tally) : Prop := {
  ok_once : NoDup (ballot <$> votes);
  ok_voters : Forall (fun v => vote_Validator v ∈ vs) votes;
  ok_useful : Forall (useful vs) votes;
  ok_counted : counted vs votes t }.

Definition consistent (s : Snapshot) : Prop :=
  valid (ValSet s) ∧ votes_ok (validators (ValSet s)) (Votes s) (tallies s).

Lemma recount_perm vs votes votes' a : votes ≡ₚ votes' → recount vs votes a = recount vs votes' a.
Proof. intros Hp. unfold recount, votes_on. by rewrite Hp. Qed.

Lemma recount_other vs v votes a : vote_Address v ≠ a → recount vs (v :: votes) a = recount vs votes a.
Proof. intros Hne. unfold recount, votes_on. by rewrite filter_cons_False. Qed.

Lemma recount_same vs v votes :
  recount vs (v :: votes) (vote_Address v) =
  Some (mkTally (negb (bool_decide (vote_Address v ∈ vs))) (Z.of_nat (S (length (votes_on (vote_Address v) votes))))).
Proof. unfold recount, votes_on. by rewrite filter_cons_True. Qed.

Lemma uncast_counted vs v votes s :
  useful vs v → counted vs (v :: votes) (tallies s) →
  ∃ t, snd (uncast (vote_Address v) (vote_Authorize v) s) = set_tallies t s ∧ counted vs votes t.
Proof.
  intros Hu Hc. pose proof (Hc (vote_Address v)) as E. rewrite recount_same in E. unfold uncast. rewrite E. simpl.
  rewrite <- Hu, Bool.eqb_reflx. simpl. destruct (length (votes_on (vote_Address v) votes)) as [|n] eqn:En.
  - eexists. split; [reflexivity|]. intros a. destruct (decide (vote_Address v = a)) as [<-|Hne].
    + rewrite lookup_delete_eq. unfold recount. by rewrite En.
    + rewrite lookup_delete_ne by done. by rewrite (Hc a), recount_other.
  - destruct (Z.ltb_spec 1 (Z.of_nat (S (S n)))); [|lia]. eexists. split; [reflexivity|].
    intros a. destruct (decide (vote_Address v = a)) as [<-|Hne].
    + rewrite lookup_insert_eq. unfold recount. rewrite En. do 2 f_equal; [done|lia].
    + rewrite lookup_insert_ne by done. by rewrite (Hc a), recount_other.
Qed.

Lemma take_vote_spec validator address votes :
  match take_vote validator address votes with
  | Some (v, rest) => ballot v = (validator, address) ∧ votes ≡ₚ v :: rest
  | None => (validator, address) ∉ ballot <$> votes
  end.
Proof.
  induction votes as [|v votes IH]; [by apply not_elem_of_nil|]. simpl. unfold ballot at 1.
  destruct (bool_decide (vote_Validator v = validator) && bool_decide (vote_Address v = address)) eqn:E.
  - apply andb_true_iff in E as [E1%bool_decide_eq_true E2%bool_decide_eq_true]. by subst.
  - destruct (take_vote validator address votes) as [[w rest]|]; simpl.
    + destruct IH as [Hw Hp]. split; [done|]. rewrite Hp. apply perm_swap.
    + apply not_elem_of_cons. split; [|done]. intros [= -> ->]. by rewrite !bool_decide_eq_true_2 in E.
Qed.

Lemma discard_previous_ok vs validator address s :
  votes_ok vs (Votes s) (tallies s) →
  ∃ votes t, discard_previous validator address s = set_tallies t (set_Votes votes s) ∧
    votes_ok vs votes t ∧ (validator, address) ∉ ballot <$> votes ∧ votes ⊆ Votes s.
Proof.
  intros [Ho Hv Hu Hc]. unfold discard_previous. pose proof (take_vote_spec validator address (Votes s)) as H.
  destruct (take_vote validator address (Votes s)) as [[v rest]|].
  - destruct H as [Hb Hp]. rewrite Hp in Ho, Hv, Hu. apply Forall_cons in Hv as [_ Hv]. apply Forall_cons in Hu as [Huv Hu].
    simpl in Ho. rewrite Hb in Ho. apply NoDup_cons in Ho as [Hnot Ho].
    destruct (uncast_counted vs v rest s Huv) as (t & -> & Ht).
    { intros a. rewrite (Hc a). by apply recount_perm. }
    exists rest, t. split_and!; [done|done| |rewrite Hp; set_solver]. done.
  - exists (Votes s), (tallies s). split_and!; [by destruct s|done|done|done].
Qed.

Lemma checkVote_spec s a auth :
  checkVote s a auth = true ↔ auth = negb (bool_decide (a ∈ validators (ValSet s))).
Proof.
  unfold checkVote. pose proof (GetByAddress_Some (ValSet s) a) as H.
  destruct (snd (GetByAddress (ValSet s) a)) as [v|].
  - destruct (proj1 (H v) eq_refl) as [_ Hin]. rewrite bool_decide_eq_true_2 by done. by destruct auth.
  - rewrite bool_decide_eq_false_2; [by destruct auth|]. intros Hin. by specialize (proj2 (H a) (conj eq_refl Hin)).
Qed.

Lemma record_vote_ok validator number address authorize s :
  votes_ok (validators (ValSet s)) (Votes s) (tallies s) → validator ∈ validators (ValSet s) →
  (validator, address) ∉ ballot <$> Votes s →
  ∃ votes t, record_vote validator number address authorize s = set_tallies t (set_Votes votes s) ∧
    votes_ok (validators (ValSet s)) votes t ∧
    (votes = Votes s ∨ votes = Votes s ++ [mkVote validator number address authorize]).
Proof.
  intros Hok Hin Hnew. unfold record_vote, cast. destruct (checkVote s address authorize) eqn:E; simpl.
  - apply checkVote_spec in E. set (v := mkVote validator number address authorize). destruct Hok as [Ho Hv Hu Hc].
    set (new := match tallies s !! address with Some old => _ | None => _ end).
    exists (Votes s ++ [v]), (<[address := new]> (tallies s)). split; [reflexivity|]. split; [|by right]. split.
    + rewrite fmap_app. apply NoDup_app. split_and!; [done| |apply NoDup_singleton]. set_solver.
    + apply Forall_app. split; [done|by apply Forall_singleton].
    + apply Forall_app. split; [done|by apply Forall_singleton].
    + intros a. rewrite (recount_perm _ _ (v :: Votes s)) by by rewrite <- Permutation_cons_append.
      destruct (decide (address = a)) as [<-|Hne].
      * rewrite lookup_insert_eq. subst new. rewrite (Hc address), (recount_same _ v). simpl. unfold recount.
        destruct (length (votes_on address (Votes s))); simpl; rewrite <- E; do 2 f_equal; lia.
      * rewrite lookup_insert_ne by done. by rewrite (Hc a), recount_other.
  - exists (Votes s), (tallies s). split_and!; [by destruct s|done|by left].
Qed.

Lemma discard_by_spec vs validator kept votes s :
  Forall (useful vs) votes → counted vs (kept ++ votes) (tallies s) →
  ∃ t, discard_by validator kept votes s =
         set_tallies t (set_Votes (kept ++ filter (fun v => vote_Validator v ≠ validator) votes) s) ∧
    counted vs (kept ++ filter (fun v => vote_Validator v ≠ validator) votes) t.
Proof.
  revert kept s. induction votes as [|v votes IH]; intros kept s Hu Hc; cbn [discard_by].
  { rewrite filter_nil, app_nil_r in *. exists (tallies s). by destruct s. }
  apply Forall_cons in Hu as [Hv Hu]. case_bool_decide as E.
  - rewrite filter_cons_False by tauto. destruct (uncast_counted vs v (kept ++ votes) s Hv) as (t1 & -> & Ht1).
    { intros a. rewrite (Hc a). apply recount_perm. by rewrite Permutation_middle. }
    by destruct (IH kept (set_tallies t1 s) Hu Ht1) as (t & -> & Ht); exists t.
  - rewrite filter_cons_True by done.
    destruct (IH (kept ++ [v]) s Hu) as (t & E1 & Ht); [by rewrite <- app_assoc|].
    rewrite <- app_assoc in E1, Ht. by exists t.
Qed.

Lemma NoDup_ballots (P : Vote → Prop) `{∀ v, Decision (P v)} votes :
  NoDup (ballot <$> votes) → NoDup (ballot <$> filter P votes).
Proof. intros Hn. eapply sublist_NoDup; [exact Hn|]. apply fmap_sublist, sublist_filter. Qed.

Lemma discard_on_ok vs vs' a votes t :
  NoDup (ballot <$> votes) → Forall (fun v => vote_Validator v ∈ vs') votes → Forall (useful vs) votes →
  counted vs votes t → (∀ b, b ≠ a → b ∈ vs' ↔ b ∈ vs) →
  votes_ok vs' (filter (fun v => vote_Address v ≠ a) votes) (delete a t).
Proof.
  intros Ho Hv Hu Hc Hvs.
  assert (∀ b, b ≠ a → bool_decide (b ∈ vs') = bool_decide (b ∈ vs)) as Hdec.
  { intros b Hb. by apply bool_decide_ext, Hvs. }
  rewrite Forall_forall in Hv, Hu. split.
  - by apply NoDup_ballots.
  - apply Forall_forall. intros v [_ Hin]%list_elem_of_filter. by apply Hv.
  - apply Forall_forall. intros v [Hne Hin]%list_elem_of_filter. unfold useful. rewrite Hdec by done. by apply Hu.
  - intros b. unfold recount, votes_on. destruct (decide (b = a)) as [->|Hne].
    + rewrite lookup_delete_eq. destruct (filter _ (filter _ votes)) as [|v l] eqn:E; [done|].
      assert (v ∈ v :: l) as Hin by left. rewrite <- E in Hin.
      by apply list_elem_of_filter in Hin as [? [? _]%list_elem_of_filter].
    + rewrite lookup_delete_ne by done. rewrite (Hc b). unfold recount, votes_on. rewrite Hdec by done.
      rewrite (list_filter_filter_l (fun v => vote_Address v = b)); [done|]. by intros v <-.
Qed.

(** The validators [vs'] are [vs] with [a] added or removed. *)
Definition toggled (a : bytes) (vs vs' : list bytes) : Prop :=
  ∀ b, b ∈ vs' ↔ (if decide (b = a) then a ∉ vs else b ∈ vs).

Lemma discard_by_fields validator kept votes s :
  Epoch (discard_by validator kept votes s) = Epoch s ∧ snap_Number (discard_by validator kept votes s) = snap_Number s.
Proof.
  revert kept s. induction votes as [|v votes IH]; intros kept s; simpl; [done|]. case_bool_decide; [|apply IH].
  destruct (IH kept (snd (uncast (vote_Address v) (vote_Authorize v) s))) as [-> ->]. unfold uncast. by repeat case_match.
Qed.

Lemma conclude_fields a s : Epoch (conclude a s) = Epoch s ∧ snap_Number (conclude a s) = snap_Number s.
Proof. unfold conclude. case_match; [|done]. case_match; [done|]. unfold discard_on. simpl.
  apply (discard_by_fields a [] (Votes s) (set_ValSet (snd (RemoveValidator (ValSet s) a)) s)).
Qed.

Lemma conclude_ok a s :
  consistent s →
  consistent (conclude a s) ∧
  (conclude a s = s ∨
   Size (ValSet s) < 2 * zlen (votes_on a (Votes s)) ∧
   toggled a (validators (ValSet s)) (validators (ValSet (conclude a s)))).
Proof.
  intros [Hval [Ho Hv Hu Hc]]. unfold conclude. rewrite (Hc a). unfold recount.
  destruct (length (votes_on a (Votes s))) as [|n] eqn:En; simpl.
  { destruct (Z.ltb_spec (Size (ValSet s) / 2) 0) as [Hlt|]; [|by split; [|left]].
    pose proof (Z.div_pos (Size (ValSet s)) 2). unfold Size in *. lia. }
  destruct (Z.ltb_spec (Size (ValSet s) / 2) (Z.of_nat (S n))) as [Hlt|]; [|by split; [|left]].
  assert (Size (ValSet s) < 2 * Z.of_nat (S n)) by (pose proof (Z.mod_pos_bound (Size (ValSet s)) 2); pose proof (Z.div_mod (Size (ValSet s)) 2); lia).
  case_bool_decide as Ha; simpl.
  - pose proof (RemoveValidator_spec (ValSet s) a Hval) as HR. destruct (RemoveValidator (ValSet s) a) as [ok vs'].
    destruct HR as (Hval' & _ & Hin' & _). simpl.
    destruct (discard_by_spec (validators (ValSet s)) a [] (Votes s) (set_ValSet vs' s)) as (t & -> & Ht); [done..|].
    simpl in *. split; [split; [done|]|right; split; [lia|]]; simpl.
    + apply (discard_on_ok (validators (ValSet s))); [by apply NoDup_ballots| | |done|].
      * apply Forall_forall. intros v [Hne Hin]%list_elem_of_filter. apply Hin'. rewrite Forall_forall in Hv. auto.
      * apply Forall_forall. intros v [Hne Hin]%list_elem_of_filter. rewrite Forall_forall in Hu. auto.
      * intros b Hb. rewrite Hin'. tauto.
    + intros b. rewrite Hin'. case_decide; naive_solver.
  - pose proof (AddValidator_spec (ValSet s) a Hval) as HR. destruct (AddValidator (ValSet s) a) as [ok vs'].
    destruct HR as (Hval' & _ & Hin' & _). simpl. split; [split; [done|]|right; split; [lia|]]; simpl.
    + apply (discard_on_ok (validators (ValSet s))); try done.
      * eapply Forall_impl; [exact Hv|]. intros v Hin. apply Hin'. by right.
      * intros b Hb. rewrite Hin'. naive_solver.
    + intros b. rewrite Hin'. case_decide; naive_solver.
Qed.

(** ** One header *)

Definition voters (a : bytes) (votes : list Vote) : list bytes := vote_Validator <$> votes_on a votes.

Lemma voters_NoDup a votes : NoDup (ballot <$> votes) → NoDup (voters a votes).
Proof.
  intros Hn. apply (NoDup_ballots (fun v => vote_Address v = a)) in Hn.
  apply (NoDup_fmap_1 (fun w => (w, a))). unfold voters. rewrite <- list_fmap_compose.
  erewrite list_fmap_ext; [exact Hn|]. intros i v Hv. unfold ballot, compose.
  by apply list_elem_of_lookup_2, list_elem_of_filter in Hv as [-> _].
Qed.

Lemma voters_elem a votes w : w ∈ voters a votes ↔ ∃ v, v ∈ votes ∧ vote_Validator v = w ∧ vote_Address v = a.
Proof.
  unfold voters. rewrite list_elem_of_fmap. split.
  - intros (v & -> & [<- Hin]%list_elem_of_filter). by exists v.
  - intros (v & Hin & <- & <-). exists v. split; [done|]. by apply list_elem_of_filter.
Qed.

(** A snapshot as a header finds it: without votes in a block that starts an epoch. *)
Definition at_header (s : Snapshot) (h : Header) : Snapshot :=
  if u64 (Number h) mod Epoch s =? 0 then set_tallies ∅ (set_Votes [] s) else s.

Lemma votes_ok_nil vs : votes_ok vs [] ∅.
Proof. split; [constructor|done|done|]. intros a. by rewrite lookup_empty. Qed.

Lemma at_header_ok s h : consistent s → consistent (at_header s h) ∧ ValSet (at_header s h) = ValSet s ∧ Votes (at_header s h) ⊆ Votes s.
Proof.
  intros [Hv Hok]. unfold at_header. case_match; [|done]. split_and!; [|done|apply list_subseteq_nil]. split; [done|apply votes_ok_nil].
Qed.

(** Either nothing changes but the votes, or the validators change by the header's
    coinbase and those who have voted for that are more than half of them. *)
Lemma apply_header_ok s h s' :
  consistent s → apply_header s h = Ok s' →
  consistent s' ∧ Epoch s' = Epoch s ∧ snap_Number s' = snap_Number s ∧
  (ValSet s' = ValSet s ∨
   ∃ signer ws, ecrecover h = Ok signer ∧ NoDup ws ∧ Size (ValSet s) < 2 * zlen ws ∧
     (∀ w, w ∈ ws → w ∈ validators (ValSet s) ∧
        (w = signer ∨ ∃ v, v ∈ Votes s ∧ vote_Validator v = w ∧ vote_Address v = Coinbase h)) ∧
     toggled (Coinbase h) (validators (ValSet s)) (validators (ValSet s'))).
Proof.
  intros Hcon. unfold apply_header. destruct (Epoch s =? 0); [done|]. fold (at_header s h).
  destruct (at_header_ok s h Hcon) as ([Hval Hok] & Evs & Hsub). destruct (ecrecover h) as [signer|e| |]; try done. simpl.
  destruct (snd (GetByAddress (ValSet (at_header s h)) signer)) as [x|] eqn:Hs; [|done].
  apply GetByAddress_Some in Hs as [_ Hs]. destruct (vote_of h) as [auth|]; [|done].
  destruct (discard_previous_ok _ signer (Coinbase h) _ Hok) as (votes1 & t1 & -> & Hok1 & Hnot & Hsub1).
  set (s1 := set_tallies t1 (set_Votes votes1 (at_header s h))).
  destruct (record_vote_ok signer (u64 (Number h)) (Coinbase h) auth s1 Hok1 Hs Hnot) as (votes2 & t2 & -> & Hok2 & Hv2).
  set (s2 := set_tallies t2 (set_Votes votes2 s1)). intros [= <-].
  assert (consistent s2) as Hc2 by by split.
  assert (Epoch s2 = Epoch s ∧ snap_Number s2 = snap_Number s ∧ ValSet s2 = ValSet s) as (HE & HN & HV).
  { subst s2 s1. simpl. unfold at_header. by case_match. }
  assert (Epoch (conclude (Coinbase h) s2) = Epoch s2 ∧ snap_Number (conclude (Coinbase h) s2) = snap_Number s2) as [HE' HN'].
  { apply conclude_fields. }
  destruct (conclude_ok (Coinbase h) s2 Hc2) as [Hc3 Hch]. rewrite HE', HN'. split_and!; [done..|].
  destruct Hch as [->|[Hsz Htog]]; [by left|right]. exists signer, (voters (Coinbase h) votes2).
  rewrite HV in Hsz, Htog. split_and!; [done|by apply voters_NoDup, Hok2| | |done].
  - unfold voters. rewrite length_fmap. exact Hsz.
  - intros w (v & Hv & <- & Ha)%voters_elem. split.
    + destruct Hok2 as [_ Hvs _ _]. rewrite Forall_forall in Hvs. rewrite <- HV. by apply Hvs.
    + destruct Hv2 as [->| ->]; [right; exists v; naive_solver|].
      apply elem_of_app in Hv as [Hv|Hv]; [right; exists v; naive_solver|left].
      apply list_elem_of_singleton in Hv as ->. done.
Qed.

(** ** What voting depends on

    The proposer of a snapshot's set is not part of the voting: it is set anew by
    [Copy], and again by [CalcProposer] in every round. *)

Definition plain_set (s : defaultSet) : defaultSet := mkSet (validators s) None (selector s).
Definition voting (s : Snapshot) : Snapshot :=
  mkSnapshot (Epoch s) 0 [] (Votes s) (tallies s) (plain_set (ValSet s)).

(** Snapshots that agree in all but the proposer. *)
#[export] Instance Snapshot_equiv : Equiv Snapshot := fun s s' =>
  voting s = voting s' ∧ snap_Number s = snap_Number s' ∧ snap_Hash s = snap_Hash s'.
#[export] Instance Snapshot_equivalence : Equivalence (≡@{Snapshot}).
Proof.
  split; [by intros s|intros s s' (? & ? & ?); by split_and!|].
  intros s1 s2 s3 (E1 & ? & ?) (E2 & ? & ?). split_and!; by etrans.
Qed.

Definition rmap {E A B} (f : A → B) (r : result E A) : result E B := let? a := r in Ok (f a).

Lemma AddValidator_plain s a : snd (AddValidator (plain_set s) a) = plain_set (snd (AddValidator s a)).
Proof. unfold AddValidator, plain_set. simpl. by case_bool_decide. Qed.
Lemma RemoveValidator_plain s a : snd (RemoveValidator (plain_set s) a) = plain_set (snd (RemoveValidator s a)).
Proof. unfold RemoveValidator, plain_set. simpl. by case_match. Qed.

Lemma uncast_voting a auth s : snd (uncast a auth (voting s)) = voting (snd (uncast a auth s)).
Proof. unfold uncast. simpl. by repeat case_match. Qed.

Lemma discard_previous_voting v a s : discard_previous v a (voting s) = voting (discard_previous v a s).
Proof.
  unfold discard_previous. simpl. destruct (take_vote v a (Votes s)) as [[w rest]|]; [|done]. by rewrite uncast_voting.
Qed.

Lemma record_vote_voting v n a auth s : record_vote v n a auth (voting s) = voting (record_vote v n a auth s).
Proof.
  unfold record_vote, cast. change (checkVote (voting s) a auth) with (checkVote s a auth). by destruct (checkVote s a auth).
Qed.

Lemma discard_by_voting v kept votes s : discard_by v kept votes (voting s) = voting (discard_by v kept votes s).
Proof.
  revert kept s. induction votes as [|w votes IH]; intros kept s; simpl; [done|].
  case_bool_decide; [by rewrite uncast_voting, IH|apply IH].
Qed.

Lemma conclude_voting a s : conclude a (voting s) = voting (conclude a s).
Proof.
  unfold conclude. change (tallies (voting s)) with (tallies s). change (Size (ValSet (voting s))) with (Size (ValSet s)).
  case_match; [|done]. case_match.
  - change (ValSet (voting s)) with (plain_set (ValSet s)). by rewrite AddValidator_plain.
  - change (ValSet (voting s)) with (plain_set (ValSet s)). rewrite RemoveValidator_plain.
    set (s1 := set_ValSet (snd (RemoveValidator (ValSet s) a)) s).
    change (set_ValSet (plain_set (snd (RemoveValidator (ValSet s) a))) (voting s)) with (voting s1).
    change (Votes (voting s1)) with (Votes s1). by rewrite discard_by_voting.
Qed.

Lemma apply_header_voting s h : apply_header (voting s) h = rmap voting (apply_header s h).
Proof.
  unfold apply_header. change (Epoch (voting s)) with (Epoch s). destruct (Epoch s =? 0); [done|].
  set (s1 := if _ mod _ =? 0 then set_tallies ∅ (set_Votes [] s) else s).
  replace (if _ mod _ =? 0 then set_tallies ∅ (set_Votes [] (voting s)) else voting s) with (voting s1)
    by (subst s1; by case_match).
  destruct (ecrecover h) as [signer|e| |]; try done. simpl.
  change (GetByAddress (plain_set (ValSet s1)) signer) with (GetByAddress (ValSet s1) signer).
  destruct (snd (GetByAddress (ValSet s1) signer)); [|done]. destruct (vote_of h); [|done].
  by rewrite discard_previous_voting, record_vote_voting, conclude_voting.
Qed.

Lemma apply_headers_voting s hs : apply_headers (voting s) hs = rmap voting (apply_headers s hs).
Proof.
  revert s. induction hs as [|h hs IH]; intros s; [done|]. simpl. rewrite apply_header_voting.
  destruct (apply_header s h); [|done..]. apply IH.
Qed.

Lemma apply_headers_app s hs1 hs2 :
  apply_headers s (hs1 ++ hs2) = (let? s := apply_headers s hs1 in apply_headers s hs2).
Proof.
  revert s. induction hs1 as [|h hs1 IH]; intros s; [done|]. simpl. destruct (apply_header s h); [apply IH|done..].
Qed.

(** ** Several headers *)

Lemma plain_Copy s : valid s → plain_set (Copy s) = plain_set s.
Proof. intros [_ Hs]. unfold plain_set, Copy, newDefaultSet. simpl. by rewrite (sort_unique _ (validators s)). Qed.

Lemma voting_copy s : valid (ValSet s) → voting (snap_copy s) = voting s.
Proof. intros Hv. unfold voting, snap_copy. simpl. by rewrite plain_Copy. Qed.

Lemma snap_copy_plain s s' : s ≡ s' → snap_copy s = snap_copy s'.
Proof.
  destruct s as [? ? ? ? ? []], s' as [? ? ? ? ? []]. intros (E & HN & HH). unfold voting, plain_set in E. simpl in *.
  by simplify_eq.
Qed.

(** The result of [apply] depends on a snapshot only up to the proposer of its set. *)
#[export] Instance apply_proper : Proper ((≡) ==> (=) ==> (fun r r' => rmap voting r = rmap voting r')) apply.
Proof.
  intros s s' Hs hs _ <-. unfold apply. destruct (last hs) as [h|].
  - destruct Hs as (Hv & HN & HH) eqn:E. clear E. rewrite <- HN. rewrite (snap_copy_plain s s' (conj Hv (conj HN HH))). done.
  - destruct Hs as (Hv & _ & _). unfold rmap. simpl. by rewrite Hv.
Qed.

Lemma apply_headers_consistent s hs s' : consistent s → apply_headers s hs = Ok s' → consistent s' ∧ snap_Number s' = snap_Number s.
Proof.
  revert s. induction hs as [|h hs IH]; intros s Hc E; simpl in E; [by simplify_eq|].
  apply rbind_Ok in E as (s1 & E1 & E2). destruct (apply_header_ok _ _ _ Hc E1) as (Hc1 & _ & HN & _).
  destruct (IH s1 Hc1 E2) as [? ->]. done.
Qed.

Lemma snap_copy_consistent s : consistent s → consistent (snap_copy s).
Proof.
  intros [Hv Hok]. pose proof (plain_Copy (ValSet s) Hv) as E. injection E as E.
  split; simpl; [by apply newDefaultSet_valid, Hv|]. by rewrite E.
Qed.

Lemma apply_consistent s hs s' : consistent s → apply s hs = Ok s' → consistent s'.
Proof.
  intros Hc. unfold apply. destruct (last hs); [|by intros; simplify_eq]. destruct (negb _); [done|].
  intros (s1 & E & E')%rbind_Ok. apply apply_headers_consistent in E as [Hc1 _]; [|by apply snap_copy_consistent].
  by simplify_eq.
Qed.

Lemma contiguous_u64 n m hs : u64 n = u64 m → contiguous n hs = contiguous m hs.
Proof.
  intros E. destruct hs as [|h hs]; [done|]. simpl. replace (u64 (n + 1)) with (u64 (m + 1)); [done|].
  unfold u64 in *. rewrite Z.add_mod, <- E, <- Z.add_mod; lia.
Qed.

Lemma contiguous_app n hs1 hs2 :
  contiguous n (hs1 ++ hs2) = contiguous n hs1 && contiguous (n + zlen hs1) hs2.
Proof.
  revert n. induction hs1 as [|h hs1 IH]; intros n.
  - simpl. f_equal. lia.
  - simpl. rewrite IH. destruct (Z.eqb_spec (u64 (Number h)) (u64 (n + 1))) as [E|]; [|done]. simpl. f_equal.
    apply contiguous_u64. unfold u64 in *. rewrite E. rewrite Z.add_mod_idemp_l by lia. f_equal. lia.
Qed.

Lemma apply_equiv s s' hs a :
  s ≡ s' → apply s hs = Ok a → ∃ b, apply s' hs = Ok b ∧ a ≡ b.
Proof.
  intros Hs E. unfold apply in *. destruct (last hs) as [h|] eqn:Hl; [|injection E as <-; by exists s'].
  rewrite <- (snap_copy_plain s s' Hs). destruct Hs as (_ & <- & _). rewrite E. by exists a.
Qed.

Lemma apply_header_Epoch s h s' : apply_header s h = Ok s' → Epoch s' = Epoch s ∧ Epoch s ≠ 0.
Proof.
  unfold apply_header. destruct (Z.eqb_spec (Epoch s) 0); [done|]. fold (at_header s h).
  intros (signer & _ & E)%rbind_Ok. destruct (snd _); [|done]. destruct (vote_of h); [|done]. injection E as <-.
  split; [|done]. rewrite (proj1 (conclude_fields _ _)). unfold record_vote, cast.
  assert (Epoch (at_header s h) = Epoch s) as Ha by (unfold at_header; by case_match).
  assert (∀ a auth t, Epoch (snd (uncast a auth t)) = Epoch t) as Hu.
  { intros a auth t. unfold uncast. by repeat case_match. }
  unfold discard_previous. repeat case_match; simpl; simplify_eq; simpl; try done; by rewrite ?Hu.
Qed.

Lemma apply_headers_Epoch s hs s' : apply_headers s hs = Ok s' → Epoch s' = Epoch s.
Proof.
  revert s. induction hs as [|h hs IH]; intros s E; simpl in E; [by simplify_eq|].
  apply rbind_Ok in E as (s1 & E1 & E2). rewrite (IH s1 E2). by apply apply_header_Epoch in E1 as [-> _].
Qed.

Lemma apply_Epoch s hs s' : apply s hs = Ok s' → Epoch s' = Epoch s.
Proof.
  unfold apply. destruct (last hs); [|by intros; simplify_eq]. destruct (negb _); [done|].
  intros (s1 & E & E')%rbind_Ok. simplify_eq. simpl. by apply apply_headers_Epoch in E.
Qed.

Lemma ecrecover_no_crash h : ¬ is_crash (ecrecover h).
Proof.
  unfold ecrecover, ExtractIstanbulExtra. destruct (_ <? _)%nat; [by intros [|]|].
  pose proof (decode_no_crash (A:=IstanbulExtra) (drop IstanbulExtraVanity (Extra h))) as Hn.
  destruct (decode _) as [e|e| |]; [case_match; by intros [|]|by intros [|]|by destruct Hn; left|by destruct Hn; right].
Qed.

Lemma apply_no_crash s hs : Epoch s ≠ 0 → ¬ is_crash (apply s hs).
Proof.
  assert (∀ hs s, Epoch s ≠ 0 → ¬ is_crash (apply_headers s hs)) as Hh.
  { clear. intros hs. induction hs as [|h hs IH]; intros s Hs; [by intros [|]|]. simpl.
    destruct (apply_header s h) as [s1|e| |] eqn:E; simpl.
    - apply IH. by apply apply_header_Epoch in E as [-> _].
    - by intros [|].
    - unfold apply_header in E. destruct (Z.eqb_spec (Epoch s) 0); [done|]. pose proof (ecrecover_no_crash h) as Hn.
      destruct (ecrecover h); simpl in E; [by repeat case_match|done|by destruct Hn; left|done].
    - unfold apply_header in E. destruct (Z.eqb_spec (Epoch s) 0); [done|]. pose proof (ecrecover_no_crash h) as Hn.
      destruct (ecrecover h); simpl in E; [by repeat case_match|done|done|by destruct Hn; right]. }
  intros Hs. unfold apply. destruct (last hs); [|by intros [|]]. destruct (negb _); [by intros [|]|].
  specialize (Hh hs (snap_copy s) Hs). destruct (apply_headers _ hs); simpl; try done; by intros [|].
Qed.

(** Applying headers in two steps, with the snapshot between them kept and copied,
    gives the same voting as applying them in one. *)
Lemma apply_two s hs1 hs2 s1 s2 :
  consistent s → hs2 ≠ [] → apply s hs1 = Ok s1 → apply s1 hs2 = Ok s2 →
  ∃ s2', apply s (hs1 ++ hs2) = Ok s2' ∧ s2' ≡ s2.
Proof.
  intros Hc Hne E1 E2. destruct (last hs1) as [h1|] eqn:Hl1.
  2: { apply last_None in Hl1 as ->. injection E1 as <-. by exists s2. }
  pose proof (apply_consistent _ _ _ Hc E1) as Hc1.
  unfold apply in E1, E2 |- *. rewrite Hl1 in E1. rewrite last_app.
  destruct (last hs2) as [h2|] eqn:Hl2; [|by apply last_None in Hl2].
  rewrite contiguous_app. destruct (contiguous (snap_Number s) hs1); [|done]. simpl in E1 |- *.
  apply rbind_Ok in E1 as (t1 & E1 & [= <-]). simpl in E2.
  destruct (apply_headers_consistent _ _ _ (snap_copy_consistent s Hc) E1) as [Hct HN1]. simpl in HN1. rewrite HN1 in *.
  rewrite (contiguous_u64 (u64 _) (snap_Number s + zlen hs1)) in E2 by apply u64_idemp.
  destruct (contiguous _ hs2); [|done]. simpl in E2 |- *. apply rbind_Ok in E2 as (t2 & E2 & [= <-]).
  rewrite apply_headers_app, E1. simpl.
  match type of E2 with apply_headers ?c _ = _ => assert (voting c = voting t1) as Hv end.
  { rewrite voting_copy by apply Hc1. done. }
  pose proof (apply_headers_voting t1 hs2) as H1. rewrite <- Hv, apply_headers_voting, E2 in H1.
  destruct (apply_headers t1 hs2) as [t2'|e| |] eqn:E3; try done.
  assert (voting t2' = voting t2) as Hvt by (unfold rmap in H1; cbn [rbind] in H1; congruence). clear H1. simpl. eexists. split; [reflexivity|].
  destruct (apply_headers_consistent _ _ _ Hct E3) as [_ HN2].
  apply apply_headers_consistent in E2 as [_ HN3]; [|by apply snap_copy_consistent]. simpl in HN3.
  split; [exact Hvt|]. split; [simpl|done].
  rewrite HN2, HN1, HN3, length_app. unfold u64. rewrite Z.add_mod_idemp_l by lia. f_equal. lia.
Qed.

(** And back: if the headers can be applied, they can be applied in two steps. *)
Lemma apply_split s hs1 hs2 c :
  consistent s → apply s (hs1 ++ hs2) = Ok c →
  ∃ s1 s2, apply s hs1 = Ok s1 ∧ apply s1 hs2 = Ok s2 ∧ s2 ≡ c.
Proof.
  intros Hc E. destruct (last hs1) as [h1|] eqn:Hl1.
  2: { apply last_None in Hl1 as ->. by exists s, c. }
  destruct (last hs2) as [h2|] eqn:Hl2.
  2: { apply last_None in Hl2 as ->. rewrite app_nil_r in E. by exists c, c. }
  unfold apply in E. rewrite last_app, Hl2, contiguous_app in E.
  destruct (contiguous (snap_Number s) hs1) eqn:Hk1; [|done]. simpl in E.
  destruct (contiguous (snap_Number s + zlen hs1) hs2) eqn:Hk2; [|done]. simpl in E.
  rewrite apply_headers_app in E. apply rbind_Ok in E as (t2 & (t1 & E1 & E2)%rbind_Ok & [= <-]).
  destruct (apply_headers_consistent _ _ _ (snap_copy_consistent s Hc) E1) as [Hct HN1]. simpl in HN1.
  destruct (apply_headers_consistent _ _ _ Hct E2) as [_ HN2].
  set (s1 := mkSnapshot (Epoch t1) (u64 (snap_Number t1 + zlen hs1)) (header_Hash h1) (Votes t1) (tallies t1) (ValSet t1)).
  assert (apply s hs1 = Ok s1) as Ea by (unfold apply; by rewrite Hl1, Hk1, E1).
  pose proof (apply_consistent _ _ _ Hc Ea) as Hc1.
  assert (voting (snap_copy s1) = voting t1) as Hv by by rewrite voting_copy by apply Hc1.
  pose proof (apply_headers_voting (snap_copy s1) hs2) as H1. rewrite Hv, apply_headers_voting, E2 in H1.
  destruct (apply_headers (snap_copy s1) hs2) as [t2'|e| |] eqn:E3; try done.
  assert (voting t2' = voting t2) as Hvt by (unfold rmap in H1; cbn [rbind] in H1; congruence).
  destruct (apply_headers_consistent _ _ _ (snap_copy_consistent s1 Hc1) E3) as [_ HN3]. simpl in HN3.
  exists s1. eexists. split; [done|]. unfold apply. rewrite Hl2, (contiguous_u64 _ (snap_Number s + zlen hs1)).
  2: { simpl. by rewrite u64_idemp, HN1. }
  rewrite Hk2, E3. split; [reflexivity|]. split; [exact Hvt|]. split; [simpl|done].
  rewrite HN2, HN1, HN3, length_app. unfold u64. rewrite HN1, Z.add_mod_idemp_l by lia. f_equal. lia.
Qed.

(** C30: a header changes the set of validators only by its coinbase, and only when
    more than half of the validators, each counted once, have voted for that:
    the signer of the header itself and those with a standing vote on the same
    account. *)
Theorem validators_change_by_majority s h s' :
  consistent s → apply_header s h = Ok s' →
  ValSet s' = ValSet s ∨
  ∃ signer ws, ecrecover h = Ok signer ∧ NoDup ws ∧ Size (ValSet s) < 2 * zlen ws ∧
    (∀ w, w ∈ ws → w ∈ validators (ValSet s) ∧
       (w = signer ∨ ∃ v, v ∈ Votes s ∧ vote_Validator v = w ∧ vote_Address v = Coinbase h)) ∧
    (∀ b, b ∈ validators (ValSet s') ↔
       if decide (b = Coinbase h) then Coinbase h ∉ validators (ValSet s) else b ∈ validators (ValSet s)).
Proof. intros Hc E. by destruct (apply_header_ok s h s' Hc E) as (_ & _ & _ & H). Qed.

(** C31: applying headers keeps a snapshot consistent: its validators are sorted and
    without duplicates, every vote is of a current validator, is useful, and is
    that validator's only one on the account, and the cached tally of every
    account is exactly the recount of the votes on it. *)
Theorem tally_is_exact s hs s' : consistent s → apply s hs = Ok s' → consistent s'.
Proof. apply apply_consistent. Qed.

(** a snapshot kept on the way can stand for the headers before it: applying
    headers to it gives the same votes, tallies and validators as applying all of
    them to the first snapshot. *)
Theorem apply_in_two_steps s hs1 hs2 s1 s2 :
  consistent s → hs2 ≠ [] → apply s hs1 = Ok s1 → apply s1 hs2 = Ok s2 →
  ∃ s2', apply s (hs1 ++ hs2) = Ok s2' ∧ s2' ≡ s2.
Proof. apply apply_two. Qed.

End snapshot.

(** ** A sample

    One validator, whose signatures are the number of its key. *)

Definition key_of (_ sig : bytes) : option bytes := match sig with [key] => Some (replicate 65 key) | _ => None end.
Definition signer1 : bytes := Eval vm_compute in PubkeyToAddress (replicate 65 x01).
Definition other : bytes := Eval vm_compute in replicate 20 x02.
Definition signed_header (n : Z) (coinbase nonce : bytes) : Header :=
  mkHeader emptyHash emptyHash coinbase emptyHash emptyHash emptyHash (replicate 256 x00) 1 n 0 0 n
    (replicate 32 x00 ++ [xc3; xc0; x01; xc0]) emptyHash nonce.
Definition one_validator : Snapshot := newSnapshot 30000 0 emptyHash (mkSet [signer1] (Some signer1) roundRobin).
Definition header1 : Header := signed_header 1 other nonceAuthVote.
Definition header2 : Header := signed_header 2 (replicate 20 x03) nonceAuthVote.

Lemma one_validator_consistent : consistent one_validator.
Proof. split; [|apply votes_ok_nil]. split; simpl; [apply NoDup_singleton|by repeat constructor]. Qed.

Lemma is_ok_Ok {E A} (r : result E A) : is_ok r = true → ∃ a, r = Ok a.
Proof. destruct r; try done. by eexists. Qed.

Lemma validators_change_by_majority_witness :
  ∃ s', apply_header key_of one_validator header1 = Ok s' ∧
    (ValSet s' = ValSet one_validator ∨
     ∃ signer ws, ecrecover key_of header1 = Ok signer ∧ NoDup ws ∧ Size (ValSet one_validator) < 2 * zlen ws ∧
       (∀ w, w ∈ ws → w ∈ validators (ValSet one_validator) ∧
          (w = signer ∨ ∃ v, v ∈ Votes one_validator ∧ vote_Validator v = w ∧ vote_Address v = Coinbase header1)) ∧
       (∀ b, b ∈ validators (ValSet s') ↔
          if decide (b = Coinbase header1) then Coinbase header1 ∉ validators (ValSet one_validator)
          else b ∈ validators (ValSet one_validator))).
Proof.
  destruct (is_ok_Ok (apply_header key_of one_validator header1)) as [s' E]; [vm_cast_no_check (eq_refl true)|].
  exists s'. split; [exact E|]. exact (validators_change_by_majority key_of _ _ _ one_validator_consistent E).
Defined.

Lemma tally_is_exact_witness : ∃ s', apply key_of one_validator [header1] = Ok s' ∧ consistent s'.
Proof.
  destruct (is_ok_Ok (apply key_of one_validator [header1])) as [s' E]; [vm_cast_no_check (eq_refl true)|].
  exists s'. split; [exact E|]. exact (tally_is_exact key_of _ _ _ one_validator_consistent E).
Defined.

Lemma apply_in_two_steps_witness :
  ∃ s1 s2 s2', apply key_of one_validator [header1] = Ok s1 ∧ apply key_of s1 [header2] = Ok s2 ∧
    apply key_of one_validator [header1; header2] = Ok s2' ∧ s2' ≡ s2.
Proof.
  assert (is_ok (let? s1 := apply key_of one_validator [header1] in apply key_of s1 [header2]) = true) as H
    by vm_cast_no_check (eq_refl true).
  destruct (is_ok_Ok _ H) as (s2 & (s1 & E1 & E2)%rbind_Ok).
  assert ([header2] ≠ []) as Hne by discriminate.
  destruct (apply_in_two_steps key_of one_validator [header1] [header2] s1 s2 one_validator_consistent Hne E1 E2) as (s2' & E & Hs).
  exists s1, s2, s2'. split; [exact E1|]. split; [exact E2|]. split; [exact E|exact Hs].
Defined.

End Snapshot.
