(* ===== verification/IstEngine.v ===== *)
(** The Istanbul engine (src/consensus/istanbul/backend/engine.go and backend.go):
    snapshots found through the caches and the chain, header verification,
    committed seals, and the preparation and sealing of blocks.

    The cache of snapshots and the database are interfaces; what the engine needs
    of the cache is that it returns what was put in.  [M] threads the two through
    the functions that may fail. *)

From S2P Require Import Prelude RlpEncode RlpRaw RlpDecode RlpRoundtrip RlpTotal KeccakF Sha3 CoreTypes.
From S2P Require Import IstValidator IstTypes IstSnapshot.

Module Engine.
Import Rlp Raw Dec Roundtrip Total Codec Types Validator Ist Snapshot.

(** ** Caches and databases *)

(** The ARC cache of golang-lru: [cache_get] also updates the recency, and adding an
    entry may evict others. *)
Class Cache (C V : Type) := {
  cache_get : bytes → C → option V * C;
  cache_add : bytes → V → C → C;
  cache_add_sound k v c k' v' :
    fst (cache_get k' (cache_add k v c)) = Some v' → (k' = k ∧ v' = v) ∨ fst (cache_get k' c) = Some v';
  cache_get_sound k c k' v' :
    fst (cache_get k' (snd (cache_get k c))) = Some v' → fst (cache_get k' c) = Some v' }.

(** What [json.Marshal] makes of a snapshot.  The set is an interface whose value has
    no exported field, and comes out as an object without members. *)
Inductive jsonObject := JObject.
Record blob := mkBlob {
  j_number : Z;
  j_hash : bytes;
  j_votes : list Vote;
  j_tally : gmap bytes Tally;
  j_validators : jsonObject }.

(** A key-value store; [None] of [db_put] is a failed write. *)
Class Database (D : Type) := {
  db_get : bytes → D → option blob;
  db_put : bytes → blob → D → option D }.

(** [consensus.ChainReader]. *)
Record ChainReader := mkChain {
  GetHeader : bytes → Z → option Header;
  GetHeaderByNumber : Z → option Header;
  CurrentHeader : Header }.

Record EngineConfig := mkEngineConfig {
  cfg_Epoch : Z;
  ProposerPolicy : Z;
  BlockPeriod : Z;
  BlockPauseTime : Z }.

Section engine.
Context {C D : Type} `{Cache C Snapshot} `{Database D}.
Context (SigToPub : bytes → bytes → option bytes).
Context (config : EngineConfig) (chain : ChainReader).
(** [time.Now().Unix()]. *)
Context (now : Z).

(** ** The monad *)

Record EngineState := mkEngine { recents : C; db : D }.

Definition M (A : Type) : Type := EngineState → result engineErr A * EngineState.
Definition ret {A} (a : A) : M A := fun st => (Ok a, st).
Definition fail {A} (e : engineErr) : M A := fun st => (Err e, st).
Definition bind {A B} (m : M A) (k : A → M B) : M B := fun st =>
  let '(x, st) := m st in
  match x with
  | Ok a => k a st
  | Err e => (Err e, st)
  | Panic => (Panic, st)
  | NoFuel => (NoFuel, st)
  end.
(** A pure computation that may fail. *)
Definition lift {A} (r : result engineErr A) : M A := fun st => (r, st).

#[local] Notation "x <- m ;; k" := (bind m (fun x => k)).
#[local] Notation "m ;;; k" := (bind m (fun _ => k)).

(** ** Storing snapshots *)

Definition snapshot_key (hash : bytes) : bytes :=
  map (fun z => zb z) [105; 115; 116; 97; 110; 98; 117; 108; 45; 115; 110; 97; 112; 115; 104; 111; 116] ++ hash.

Definition marshal (s : Snapshot) : blob := mkBlob (snap_Number s) (snap_Hash s) (Votes s) (tallies s) JObject.
(** [json.Unmarshal] refuses an object for a field whose type is an interface with
    methods: it does not know which type to make. *)
Definition unmarshal_set (j : jsonObject) : option defaultSet := match j with JObject => None end.
Definition unmarshal (epoch : Z) (b : blob) : option Snapshot :=
  vs ← unmarshal_set (j_validators b);
  Some (mkSnapshot epoch (j_number b) (j_hash b) (j_votes b) (j_tally b) vs).

Definition loadSnapshot (epoch : Z) (hash : bytes) (d : D) : option Snapshot :=
  b ← db_get (snapshot_key hash) d; unmarshal epoch b.

Definition store (s : Snapshot) : M unit := fun st =>
  match db_put (snapshot_key (snap_Hash s)) (marshal s) (db st) with
  | Some d => (Ok tt, mkEngine (recents st) d)
  | None => (Err ErrDatabase, st)
  end.

Definition recents_Get (hash : bytes) : M (option Snapshot) := fun st =>
  let '(o, c) := cache_get hash (recents st) in (Ok o, mkEngine c (db st)).
Definition recents_Add (hash : bytes) (s : Snapshot) : M unit := fun st =>
  (Ok tt, mkEngine (cache_add hash s (recents st)) (db st)).
Definition load (hash : bytes) : M (option Snapshot) := fun st =>
  (Ok (loadSnapshot (cfg_Epoch config) hash (db st)), st).

(** ** Snapshots *)

Definition checkpointInterval : Z := 1024.

Definition extract (h : Header) : result engineErr IstanbulExtra :=
  match ExtractIstanbulExtra h with
  | Ok e => Ok e
  | Err e => Err (ErrExtra e)
  | Panic => Panic
  | NoFuel => NoFuel
  end.

(** The snapshot of the genesis block; [verify] is [VerifyHeader]. *)
Definition genesis_snapshot (verify : Header → M unit) : M Snapshot :=
  match GetHeaderByNumber chain 0 with
  | None => lift Panic
  | Some genesis =>
      verify genesis ;;;
      extra <- lift (extract genesis) ;;
      let snap := newSnapshot (cfg_Epoch config) 0 (header_Hash genesis)
                    (NewSet (Validators extra) (ProposerPolicy config)) in
      store snap ;;; ret snap
  end.

(** The header to apply: the last of the given parents, or the chain's. *)
Definition gather (number : Z) (hash : bytes) (parents : list Header) : result engineErr (Header * list Header) :=
  match last parents with
  | Some h =>
      if bool_decide (header_Hash h = hash) && (u64 (Number h) =? number) then Ok (h, removelast parents)
      else Err ErrUnknownAncestor
  | None =>
      match GetHeader chain hash number with
      | Some h => Ok (h, [])
      | None => Err ErrUnknownAncestor
      end
  end.

(** The loop of [snapshot]: the snapshot to start from, and the headers after it, the
    latest first. *)
Fixpoint find_snapshot (fuel : nat) (verify : Header → M unit) (number : Z) (hash : bytes)
    (parents headers : list Header) : M (Snapshot * list Header) :=
  match fuel with
  | O => lift NoFuel
  | S fuel =>
      s <- recents_Get hash ;;
      match s with
      | Some s => ret (s, headers)
      | None =>
          s <- (if number mod checkpointInterval =? 0 then load hash else ret None) ;;
          match s with
          | Some s => ret (s, headers)
          | None =>
              if number =? 0 then s <- genesis_snapshot verify ;; ret (s, headers)
              else
                hp <- lift (gather number hash parents) ;;
                find_snapshot fuel verify (number - 1) (ParentHash (fst hp)) (snd hp) (headers ++ [fst hp])
          end
      end
  end.

(** Each turn of the loop goes one block back. *)
Definition snapshot (verify : Header → M unit) (number : Z) (hash : bytes) (parents : list Header) : M Snapshot :=
  sh <- find_snapshot (S (Z.to_nat number)) verify number hash parents [] ;;
  s <- lift (apply SigToPub (fst sh) (rev (snd sh))) ;;
  recents_Add (snap_Hash s) s ;;;
  (if (snap_Number s mod checkpointInterval =? 0) && negb (bool_decide (snd sh = [])) then store s else ret tt) ;;;
  ret s.

(** ** Header verification *)

Definition emptyNonce : bytes := replicate 8 x00.
Definition defaultDifficulty : Z := 1.
(** [CalcUncleHash(nil)]. *)
Definition nilUncleHash : bytes := hash256 [[xc0]].

(** The checks of [verifyHeader] before [verifyCascadingFields]. *)
Definition verify_fields (h : Header) : result engineErr unit :=
  if now <? Time h then Err ErrFutureBlock
  else
    match ExtractIstanbulExtra h with
    | Panic => Panic
    | NoFuel => NoFuel
    | Err _ => Err errInvalidExtraDataFormat
    | Ok _ =>
        if negb (bool_decide (Nonce h = emptyNonce)) && negb (bool_decide (Nonce h = nonceAuthVote))
           && negb (bool_decide (Nonce h = nonceDropVote))
        then Err errInvalidNonce
        else if negb (bool_decide (MixDigest h = IstanbulDigest)) then Err errInvalidMixDigest
        else if negb (bool_decide (UncleHash h = nilUncleHash)) then Err errInvalidUncleHash
        else if negb (Difficulty h =? defaultDifficulty) then Err errInvalidDifficulty
        else Ok tt
    end.

(** [verifySigner], with the parent's snapshot at hand. *)
Definition check_signer (snap : Snapshot) (h : Header) : result engineErr unit :=
  let? signer := ecrecover SigToPub h in
  match snd (GetByAddress (ValSet snap) signer) with
  | Some _ => Ok tt
  | None => Err errUnauthorized
  end.

(** The loop over the committed seals: the validators not seen yet, and the count. *)
Fixpoint count_seals (proposalSeal : bytes) (vs : defaultSet) (n : Z) (seals : list bytes) : result engineErr Z :=
  match seals with
  | [] => Ok n
  | seal :: seals =>
      match GetSignatureAddress SigToPub proposalSeal seal with
      | None => Err errInvalidSignature
      | Some addr =>
          let '(ok, vs) := RemoveValidator vs addr in
          if ok then count_seals proposalSeal vs (n + 1) seals else Err errInvalidCommittedSeals
      end
  end.

(** [verifyCommittedSeals], with the parent's snapshot at hand. *)
Definition check_seals (snap : Snapshot) (h : Header) : result engineErr unit :=
  let? extra := extract h in
  if bool_decide (CommittedSeal extra = []) then Err errEmptyCommittedSeals
  else
    let? n := count_seals (PrepareCommittedSeal (header_Hash h)) (Copy (ValSet snap)) 0 (CommittedSeal extra) in
    if n <=? 2 * F (ValSet snap) then Err errInvalidCommittedSeals else Ok tt.

Definition verifySigner (verify : Header → M unit) (h : Header) (parents : list Header) : M unit :=
  let number := u64 (Number h) in
  if number =? 0 then fail errUnknownBlock
  else
    snap <- snapshot verify (number - 1) (ParentHash h) parents ;;
    lift (check_signer snap h).

Definition verifyCommittedSeals (verify : Header → M unit) (h : Header) (parents : list Header) : M unit :=
  let number := u64 (Number h) in
  if number =? 0 then ret tt
  else
    snap <- snapshot verify (number - 1) (ParentHash h) parents ;;
    lift (check_seals snap h).

Definition parent_of (h : Header) (parents : list Header) : option Header :=
  match last parents with
  | Some p => Some p
  | None => GetHeader chain (ParentHash h) (u64 (Number h) - 1)
  end.

Definition verifyCascadingFields (verify : Header → M unit) (h : Header) (parents : list Header) : M unit :=
  let number := u64 (Number h) in
  if number =? 0 then ret tt
  else
    match parent_of h parents with
    | None => fail ErrUnknownAncestor
    | Some parent =>
        if negb (u64 (Number parent) =? number - 1) || negb (bool_decide (header_Hash parent = ParentHash h))
        then fail ErrUnknownAncestor
        else if u64 (Time h) <? u64 (u64 (Time parent) + BlockPeriod config) then fail errInvalidTimestamp
        else
          snapshot verify (number - 1) (ParentHash h) parents ;;;
          verifySigner verify h parents ;;;
          verifyCommittedSeals verify h parents
    end.

(** [verifyHeader] and [snapshot] call each other, but the second only on the genesis
    block, for which the first asks for no snapshot: two levels are enough. *)
Fixpoint verifyHeader (fuel : nat) (h : Header) (parents : list Header) : M unit :=
  match fuel with
  | O => lift NoFuel
  | S fuel =>
      lift (verify_fields h) ;;;
      verifyCascadingFields (fun genesis => verifyHeader fuel genesis []) h parents
  end.
Definition VerifyHeader (h : Header) : M unit := verifyHeader 2 h [].

(** [VerifyHeaders]: every header with the ones before it as parents, each with its
    own result. *)
Fixpoint verify_batch (before hs : list Header) (st : EngineState) : list (result engineErr unit) * EngineState :=
  match hs with
  | [] => ([], st)
  | h :: hs =>
      let '(x, st) := verifyHeader 2 h before st in
      let '(xs, st) := verify_batch (before ++ [h]) hs st in (x :: xs, st)
  end.
Definition VerifyHeaders (hs : list Header) : EngineState → list (result engineErr unit) * EngineState :=
  verify_batch [] hs.

Definition VerifyUncles (b : Block) : result engineErr unit :=
  if bool_decide (length (uncles b) = 0%nat) then Ok tt else Err errInvalidUncleHash.

Definition VerifySeal (h : Header) : M unit :=
  if u64 (Number h) =? 0 then fail errUnknownBlock
  else if negb (Difficulty h =? defaultDifficulty) then fail errInvalidDifficulty
  else verifySigner VerifyHeader h [].

(** The snapshot calls from outside of a verification. *)
Definition snapshot_at (number : Z) (hash : bytes) : M Snapshot := snapshot VerifyHeader number hash [].

(** ** Extra data *)

Definition write_extra (h : Header) (e : IstanbulExtra) : result engineErr Header :=
  match encode e with
  | Ok payload => Ok (set_Extra (take IstanbulExtraVanity (Extra h) ++ payload) h)
  | Err _ => Err ErrEncoding
  | Panic => Panic
  | NoFuel => NoFuel
  end.

Definition writeSeal (h : Header) (seal : bytes) : result engineErr Header :=
  if negb (length seal mod IstanbulExtraSeal =? 0)%nat then Err errInvalidSignature
  else
    let? e := extract h in
    write_extra h (mkExtra (Validators e) seal (CommittedSeal e)).

Definition writeCommittedSeals (h : Header) (seals : list bytes) : result engineErr Header :=
  if bool_decide (seals = []) then Err errInvalidCommittedSeals
  else if negb (forallb (fun seal => (length seal =? IstanbulExtraSeal)%nat) seals) then Err errInvalidCommittedSeals
  else
    let? e := extract h in
    write_extra h (mkExtra (Validators e) (Seal e) seals).

Definition prepareExtra (h : Header) (vals : list bytes) : result engineErr bytes :=
  let extra := Extra h ++ replicate (IstanbulExtraVanity - length (Extra h)) x00 in
  match encode (mkExtra vals [] []) with
  | Ok payload => Ok (take IstanbulExtraVanity extra ++ payload)
  | Err _ => Err ErrEncoding
  | Panic => Panic
  | NoFuel => NoFuel
  end.

(** ** Snapshots are those of the chain *)

Fixpoint linked (hs : list Header) : Prop :=
  match hs with
  | [] => True
  | h :: hs => match hs with [] => True | h' :: _ => ParentHash h' = header_Hash h end ∧ linked hs
  end.

Definition genesis_of (g : Header) (e : IstanbulExtra) : Snapshot :=
  newSnapshot (cfg_Epoch config) 0 (header_Hash g) (NewSet (Validators e) (ProposerPolicy config)).

(** [s] comes, up to the proposer of its set, from applying to the genesis snapshot
    headers of the numbers 1, 2, ... that are linked by their hashes and end with
    the one of hash [hash]. *)
Definition is_snapshot (hash : bytes) (s : Snapshot) : Prop :=
  ∃ g e hs s', GetHeaderByNumber chain 0 = Some g ∧ extract g = Ok e ∧ linked hs ∧
    (∀ h, last hs = Some h → header_Hash h = hash) ∧
    apply SigToPub (genesis_of g e) hs = Ok s' ∧ s' ≡ s.

(** What the engine relies on: the chain finds headers by their hash, and the
    validators of the genesis block are different accounts. *)
Record chain_ok : Prop := {
  chain_hash : ∀ hash n h, GetHeader chain hash n = Some h → header_Hash h = hash;
  chain_genesis : ∀ g e, GetHeaderByNumber chain 0 = Some g → extract g = Ok e → NoDup (Validators e) }.

Context (Hchain : chain_ok).

Lemma linked_app hs1 hs2 :
  linked hs1 → linked hs2 →
  (∀ h1 h2, last hs1 = Some h1 → head hs2 = Some h2 → ParentHash h2 = header_Hash h1) → linked (hs1 ++ hs2).
Proof.
  induction hs1 as [|h hs1 IH]; intros H1 H2 Hl; [done|]. destruct H1 as [Hh H1]. simpl. split.
  - destruct hs1 as [|h' hs1]; simpl in *; [|done]. destruct hs2; [done|]. by apply Hl.
  - apply IH; [done|done|]. intros h1 h2 E1 E2. apply Hl; [|done]. by rewrite last_cons, E1.
Qed.

Lemma NewSet_valid addrs policy : NoDup addrs → valid (NewSet addrs policy).
Proof. intros Hn. unfold NewSet. repeat case_match; by apply newDefaultSet_valid. Qed.

Lemma genesis_consistent g e : GetHeaderByNumber chain 0 = Some g → extract g = Ok e → consistent (genesis_of g e).
Proof. intros Hg He. split; [apply NewSet_valid; by eapply chain_genesis|apply votes_ok_nil]. Qed.

Lemma is_snapshot_apply h hs hash s s2 :
  is_snapshot (ParentHash h) s → linked (h :: hs) → (∀ h', last (h :: hs) = Some h' → header_Hash h' = hash) →
  apply SigToPub s (h :: hs) = Ok s2 → is_snapshot hash s2.
Proof.
  intros (g & e & hs0 & s' & Hg & He & Hlk & Hlast & Ha & Heq) Hl Hend E.
  destruct (apply_equiv SigToPub s s' (h :: hs) s2) as (b & Eb & Hb); [by symmetry|done|].
  destruct (apply_two SigToPub (genesis_of g e) hs0 (h :: hs) s' b) as (c & Ec & Hc);
    [by apply genesis_consistent|done|done|done|].
  exists g, e, (hs0 ++ h :: hs), c. split_and!; try done.
  - apply linked_app; [done|done|]. intros h1 h2 E1 [= <-]. symmetry. by apply Hlast.
  - intros h'. rewrite last_app. destruct (last (h :: hs)) as [x|] eqn:El; [|by apply last_None in El].
    intros [= <-]. by apply Hend.
  - rewrite Hc. by symmetry.
Qed.

Lemma is_snapshot_Epoch hash s : is_snapshot hash s → Epoch s = cfg_Epoch config.
Proof.
  intros (g & e & hs & s' & _ & _ & _ & _ & Ha & (Hv & _ & _)). apply apply_Epoch in Ha.
  apply (f_equal Epoch) in Hv. simpl in *. congruence.
Qed.

Lemma is_snapshot_consistent hash s : is_snapshot hash s → consistent s.
Proof.
  intros (g & e & hs & s' & Hg & He & _ & _ & Ha & (Hv & _ & _)).
  pose proof (apply_consistent SigToPub _ _ _ (genesis_consistent g e Hg He) Ha) as [Hval Hok].
  destruct s as [? ? ? ? ? []], s' as [? ? ? ? ? []]. unfold voting, plain_set in Hv. simpl in *. by simplify_eq.
Qed.

(** ** Weakest preconditions *)

(** The snapshots in the cache are right. *)
Definition sound (st : EngineState) : Prop :=
  ∀ hash s, fst (cache_get hash (recents st)) = Some s → is_snapshot hash s.

(** A setting in which nothing panics. *)
Definition setting_ok : Prop :=
  cfg_Epoch config ≠ 0 ∧ ∃ g, GetHeaderByNumber chain 0 = Some g ∧ u64 (Number g) = 0.

(** From sound caches [m] leads to sound caches, its value satisfies [Q], and it
    panics or runs out of fuel only in a bad setting. *)
Definition spec {A} (m : M A) (Q : A → Prop) : Prop := ∀ st, sound st →
  let '(x, st') := m st in
  sound st' ∧ match x with Ok a => Q a | Err _ => True | _ => ¬ setting_ok end.

Lemma spec_ret {A} (a : A) (Q : A → Prop) : Q a → spec (ret a) Q.
Proof. by intros HQ st Hst. Qed.
Lemma spec_fail {A} e (Q : A → Prop) : spec (fail e) Q.
Proof. by intros st Hst. Qed.
Lemma spec_bind {A B} (m : M A) (k : A → M B) Q1 Q : spec m Q1 → (∀ a, Q1 a → spec (k a) Q) → spec (bind m k) Q.
Proof.
  intros Hm Hk st Hst. unfold bind. specialize (Hm st Hst). destruct (m st) as [[a|e| |] st1]; try done.
  destruct Hm as [Hst1 HQ1]. by apply Hk.
Qed.
Lemma spec_lift {A} (r : result engineErr A) (Q : A → Prop) :
  (∀ a, r = Ok a → Q a) → (setting_ok → ¬ is_crash r) → spec (lift r) Q.
Proof.
  intros HQ Hr st Hst. simpl. destruct r; (split; [done|]); auto; intros Hs; destruct (Hr Hs); [by left|by right].
Qed.
Lemma spec_weaken {A} (m : M A) (Q Q' : A → Prop) : spec m Q → (∀ a, Q a → Q' a) → spec m Q'.
Proof. intros Hm HQ st Hst. specialize (Hm st Hst). destruct (m st) as [[] ?]; naive_solver. Qed.

Lemma spec_recents_Get hash : spec (recents_Get hash) (fun o => ∀ s, o = Some s → is_snapshot hash s).
Proof.
  intros st Hst. unfold recents_Get. destruct (cache_get hash (recents st)) as [o c] eqn:E. split.
  - intros k v Hk. apply Hst, (cache_get_sound hash). by rewrite E.
  - intros s ->. apply Hst. by rewrite E.
Qed.
Lemma spec_recents_Add hash s : is_snapshot hash s → spec (recents_Add hash s) (fun _ => True).
Proof.
  intros Hs st Hst. split; [|done]. intros k v [[-> ->]|Hk]%cache_add_sound; [done|by apply Hst].
Qed.
Lemma spec_store s : spec (store s) (fun _ => True).
Proof. intros st Hst. unfold store. by destruct (db_put _ _ _). Qed.
Lemma spec_load hash : spec (load hash) (fun o => o = None).
Proof. intros st Hst. unfold load, loadSnapshot. split; [done|]. by destruct (db_get _ _) as [[? ? ? ? []]|]. Qed.

Lemma extract_no_crash h : ¬ is_crash (extract h).
Proof.
  unfold extract, ExtractIstanbulExtra. destruct (_ <? _)%nat; [by intros [|]|].
  pose proof (decode_no_crash (A:=IstanbulExtra) (drop IstanbulExtraVanity (Extra h))) as Hn.
  destruct (decode _); [by intros [|]|by intros [|]|by destruct Hn; left|by destruct Hn; right].
Qed.

(** ** The search for a snapshot *)

Definition gathered (target : bytes) (hs : list Header) (hash : bytes) : Prop :=
  linked (rev hs) ∧ (∀ h, head hs = Some h → header_Hash h = target) ∧
  match last hs with Some h => ParentHash h = hash | None => target = hash end.

Lemma gather_hash number hash parents h rest : gather number hash parents = Ok (h, rest) → header_Hash h = hash.
Proof.
  unfold gather. destruct (last parents) as [p|].
  - destruct (bool_decide (header_Hash p = hash)) eqn:E; [|done]. simpl. case_match; [|done].
    intros [= <- <-]. by apply bool_decide_eq_true in E.
  - destruct (GetHeader chain hash number) as [p|] eqn:E; [|done]. intros [= <- <-]. by eapply chain_hash.
Qed.

Lemma gather_no_crash number hash parents : ¬ is_crash (gather number hash parents).
Proof. unfold gather. repeat case_match; by intros [|]. Qed.

Lemma gathered_snoc target hs h : gathered target hs (header_Hash h) → gathered target (hs ++ [h]) (ParentHash h).
Proof.
  intros (Hl & Hh & Hlast). split_and!.
  - rewrite rev_app_distr. simpl. split; [|done]. destruct (rev hs) as [|x l] eqn:E; [done|].
    rewrite <- (rev_involutive hs), E in Hlast. simpl in Hlast. by rewrite last_snoc in Hlast.
  - intros x. destruct hs as [|y hs]; simpl in *; [|by apply Hh]. intros [= <-]. by rewrite Hlast.
  - by rewrite last_snoc.
Qed.

Lemma genesis_snapshot_spec verify hash :
  (∀ g, GetHeaderByNumber chain 0 = Some g → spec (verify g) (fun _ => True)) →
  spec (genesis_snapshot verify) (is_snapshot hash).
Proof.
  intros Hv. unfold genesis_snapshot. destruct (GetHeaderByNumber chain 0) as [g|] eqn:Hg.
  - eapply spec_bind; [by apply Hv|]. intros _ _. eapply spec_bind.
    { apply spec_lift; [by intros a E; exact E|]. intros _. apply extract_no_crash. }
    intros e He. simpl in He. eapply spec_bind; [apply spec_store|]. intros _ _. apply spec_ret.
    by exists g, e, [], (genesis_of g e).
  - intros st Hst. split; [done|]. intros (_ & g & Hg' & _). congruence.
Qed.

Lemma find_snapshot_spec fuel verify number hash parents headers target :
  (∀ g, GetHeaderByNumber chain 0 = Some g → spec (verify g) (fun _ => True)) →
  0 ≤ number < Z.of_nat fuel → gathered target headers hash →
  spec (find_snapshot fuel verify number hash parents headers)
    (fun sh => ∃ hash', gathered target (snd sh) hash' ∧ is_snapshot hash' (fst sh)).
Proof.
  intros Hv. revert number hash parents headers. induction fuel as [|fuel IH]; intros number hash parents headers Hn Hg; [lia|].
  cbn [find_snapshot]. eapply spec_bind; [apply spec_recents_Get|]. intros [s|] Hs; [apply spec_ret; by eauto|].
  apply spec_bind with (Q1 := fun o => o = None).
  { case_match; [apply spec_load|by apply spec_ret]. }
  intros _ ->. destruct (Z.eqb_spec number 0).
  - eapply spec_bind; [apply genesis_snapshot_spec with (hash := hash); exact Hv|]. intros s0 Hs0. apply spec_ret. by eauto.
  - apply spec_bind with (Q1 := fun hp => header_Hash (fst hp) = hash).
    { apply spec_lift; [intros [h rest]; apply gather_hash|intros _; apply gather_no_crash]. }
    intros [h rest] <-. apply IH; [simpl; lia|]. by apply gathered_snoc.
Qed.

Lemma is_snapshot_Hash hash s : is_snapshot hash s → is_snapshot (snap_Hash s) s.
Proof.
  intros (g & e & hs & s' & Hg & He & Hl & Hlast & Ha & Heq). exists g, e, hs, s'. split_and!; try done.
  intros h Eh. destruct Heq as (_ & _ & <-). unfold apply in Ha. rewrite Eh in Ha.
  destruct (negb _); [done|]. apply rbind_Ok in Ha as (t & _ & Et). by injection Et as <-.
Qed.

Lemma snapshot_spec verify number hash parents :
  (∀ g, GetHeaderByNumber chain 0 = Some g → spec (verify g) (fun _ => True)) → 0 ≤ number →
  spec (snapshot verify number hash parents) (is_snapshot hash).
Proof.
  intros Hv Hn. unfold snapshot. eapply spec_bind.
  { apply find_snapshot_spec with (target := hash); [exact Hv|lia|]. by split_and!. }
  intros [s hs] (hash' & (Hl & Hh & Hlast) & Hs). simpl in *.
  apply spec_bind with (Q1 := is_snapshot hash).
  - apply spec_lift.
    + intros s2 E. destruct (rev hs) as [|h l] eqn:Er.
      { injection E as <-. rewrite <- (rev_involutive hs), Er in Hlast. simpl in Hlast. by subst. }
      eapply is_snapshot_apply; [|exact Hl| |exact E].
      * rewrite <- (rev_involutive hs), Er in Hlast. simpl in Hlast. rewrite last_snoc in Hlast. by rewrite Hlast.
      * intros h' E'. apply Hh. rewrite <- (rev_involutive hs), Er, rev_alt.
        change (head (reverse (h :: l)) = Some h'). by rewrite head_reverse.
    + intros [HE _]. apply apply_no_crash. by rewrite (is_snapshot_Epoch _ _ Hs).
  - intros s2 Hs2. eapply spec_bind; [apply spec_recents_Add; by eapply is_snapshot_Hash|]. intros _ _.
    apply spec_bind with (Q1 := fun _ => True); [|intros _ _; by apply spec_ret].
    destruct (_ && _); [apply spec_store|by apply spec_ret].
Qed.

(** ** What header verification checks *)

(** The seals are signatures of [data] by different accounts of [vs]. *)
Definition sealed_by (vs : list bytes) (data : bytes) (seals addrs : list bytes) : Prop :=
  Forall2 (fun seal a => GetSignatureAddress SigToPub data seal = Some a) seals addrs ∧ NoDup addrs ∧ addrs ⊆ vs.

Lemma count_seals_spec data vs n seals m :
  valid vs →
  count_seals data vs n seals = Ok m ↔ ∃ addrs, sealed_by (validators vs) data seals addrs ∧ m = n + zlen addrs.
Proof.
  revert vs n. induction seals as [|seal seals IH]; intros vs n Hv.
  { split.
    - intros [= <-]. exists []. split; [split_and!; [constructor|constructor|apply list_subseteq_nil]|simpl; lia].
    - intros (addrs & (Hs & _ & _) & ->). inversion Hs. simpl. f_equal. lia. }
  simpl. destruct (GetSignatureAddress SigToPub data seal) as [a|] eqn:Ea.
  2: { split; [done|]. intros (addrs & (Hs & _ & _) & _). inversion Hs as [|? ? ? ? Hs1 Hs2]. congruence. }
  pose proof (RemoveValidator_spec vs a Hv) as HR. destruct (RemoveValidator vs a) as [ok vs'].
  destruct HR as (Hv' & Hok & Hin & _). destruct ok.
  - rewrite (IH vs' (n + 1) Hv'). split.
    + intros (addrs & (Hs & Hn & Hsub) & ->). exists (a :: addrs). split; [|simpl; lia]. split_and!.
      * by constructor.
      * apply NoDup_cons. split; [|done]. intros Ha%Hsub. apply Hin in Ha. tauto.
      * intros b [->|Hb]%elem_of_cons; [by apply Hok|]. apply Hsub, Hin in Hb. tauto.
    + intros (addrs & (Hs & Hn & Hsub) & ->). inversion Hs as [|? ? ? addrs' Hs1 Hs2]; subst. rewrite Ea in Hs1. simplify_eq.
      exists addrs'. apply NoDup_cons in Hn as [Hna Hn]. split; [|simpl; lia]. split_and!; [done|done|].
      intros b Hb. apply Hin. split; [by intros ->|]. apply Hsub. by right.
  - split; [done|]. intros (addrs & (Hs & Hn & Hsub) & ->). inversion Hs as [|? ? ? addrs' Hs1 Hs2]; subst.
    rewrite Ea in Hs1. simplify_eq. destruct Hok as [_ Hok]. discriminate Hok. apply Hsub. by left.
Qed.

(** The committed seals are those of more than 2F validators. *)
Definition seals_ok (snap : Snapshot) (h : Header) : Prop :=
  ∃ extra addrs, extract h = Ok extra ∧ CommittedSeal extra ≠ [] ∧
    sealed_by (validators (ValSet snap)) (PrepareCommittedSeal (header_Hash h)) (CommittedSeal extra) addrs ∧
    2 * F (ValSet snap) < zlen addrs.

Lemma check_seals_spec snap h : valid (ValSet snap) → check_seals snap h = Ok tt ↔ seals_ok snap h.
Proof.
  intros Hv. unfold check_seals, seals_ok. pose proof (plain_Copy _ Hv) as Hp. apply (f_equal validators) in Hp. cbn [plain_set validators] in Hp.
  assert (valid (Copy (ValSet snap))) as Hv' by by apply newDefaultSet_valid, Hv.
  destruct (extract h) as [extra|e| |]; [|naive_solver..]. simpl. case_bool_decide as Hne; [naive_solver|]. split.
  - intros (m & E & Hm)%rbind_Ok. apply (count_seals_spec _ _ _ _ _ Hv') in E as (addrs & Hs & ->). rewrite Hp in Hs.
    exists extra, addrs. destruct (Z.leb_spec (0 + zlen addrs) (2 * F (ValSet snap))); [done|]. split_and!; (done || lia).
  - intros (e & addrs & [= <-] & _ & Hs & Hm). rewrite <- Hp in Hs.
    rewrite (proj2 (count_seals_spec _ _ 0 _ (0 + zlen addrs) Hv')) by eauto. cbn [rbind].
    destruct (Z.leb_spec (0 + zlen addrs) (2 * F (ValSet snap))); [lia|done].
Qed.

Lemma check_seals_no_crash snap h : ¬ is_crash (check_seals snap h).
Proof.
  assert (∀ data seals vs n, ¬ is_crash (count_seals data vs n seals)) as Hc.
  { intros data seals. induction seals as [|seal seals IH]; intros vs n; simpl; [by intros [|]|].
    repeat case_match; first [apply IH|by intros [|]]. }
  unfold check_seals. apply rbind_no_crash; [apply extract_no_crash|]. intros e _.
  case_bool_decide; [apply Err_no_crash|]. apply rbind_no_crash; [apply Hc|]. intros n _.
  case_match; [apply Err_no_crash|apply Ok_no_crash].
Qed.

(** The header is signed by a validator. *)
Definition signer_ok (snap : Snapshot) (h : Header) : Prop :=
  ∃ signer, ecrecover SigToPub h = Ok signer ∧ signer ∈ validators (ValSet snap).

Lemma check_signer_spec snap h : check_signer snap h = Ok tt ↔ signer_ok snap h.
Proof.
  unfold check_signer, signer_ok. pose proof (GetByAddress_Some (ValSet snap)) as HG.
  destruct (ecrecover SigToPub h) as [a|e| |]; [|naive_solver..]. simpl. specialize (HG a).
  destruct (snd (GetByAddress (ValSet snap) a)); naive_solver.
Qed.

Lemma check_signer_no_crash snap h : ¬ is_crash (check_signer snap h).
Proof.
  apply rbind_no_crash; [apply ecrecover_no_crash|]. intros a _. case_match; [apply Ok_no_crash|apply Err_no_crash].
Qed.

(** What an accepted header that is not the genesis satisfies. *)
Definition header_ok (h : Header) (parents : list Header) : Prop :=
  (∃ parent, parent_of h parents = Some parent ∧ header_Hash parent = ParentHash h ∧
     u64 (Number parent) = u64 (Number h) - 1 ∧ u64 (u64 (Time parent) + BlockPeriod config) ≤ u64 (Time h)) ∧
  (∃ snap, is_snapshot (ParentHash h) snap ∧ signer_ok snap h) ∧
  (∃ snap, is_snapshot (ParentHash h) snap ∧ seals_ok snap h).

Lemma verifyCascadingFields_spec verify h parents :
  (∀ g, GetHeaderByNumber chain 0 = Some g → spec (verify g) (fun _ => True)) →
  spec (verifyCascadingFields verify h parents) (fun _ => u64 (Number h) = 0 ∨ header_ok h parents).
Proof.
  intros Hv. unfold verifyCascadingFields, verifySigner, verifyCommittedSeals. pose proof (u64_range (Number h)).
  destruct (Z.eqb_spec (u64 (Number h)) 0); [apply spec_ret; by left|].
  destruct (parent_of h parents) as [p|] eqn:Hp; [|apply spec_fail].
  destruct (Z.eqb_spec (u64 (Number p)) (u64 (Number h) - 1)); [|apply spec_fail]. simpl.
  case_bool_decide; [|apply spec_fail]. simpl.
  destruct (Z.ltb_spec (u64 (Time h)) (u64 (u64 (Time p) + BlockPeriod config))); [apply spec_fail|].
  eapply spec_bind; [apply snapshot_spec; [exact Hv|lia]|]. intros s0 _.
  apply spec_bind with (Q1 := fun _ => ∃ snap, is_snapshot (ParentHash h) snap ∧ signer_ok snap h).
  - eapply spec_bind; [apply snapshot_spec; [exact Hv|lia]|]. intros s1 Hs1.
    apply spec_lift; [|intros _; apply check_signer_no_crash]. intros [] E%check_signer_spec. by exists s1.
  - intros _ Hsig. eapply spec_bind; [apply snapshot_spec; [exact Hv|lia]|]. intros s2 Hs2.
    apply spec_lift; [|intros _; apply check_seals_no_crash].
    intros [] E%check_seals_spec; [|by eapply is_snapshot_consistent]. right. split_and!; [by exists p|done|by exists s2].
Qed.

Lemma verify_fields_no_crash h : ¬ is_crash (verify_fields h).
Proof.
  unfold verify_fields. pose proof (extract_no_crash h) as Hn. unfold extract in Hn.
  destruct (now <? Time h); [apply Err_no_crash|].
  destruct (ExtractIstanbulExtra h); [|apply Err_no_crash|by destruct Hn; left|by destruct Hn; right].
  repeat match goal with |- context [if ?b then _ else _] => destruct b end; apply Err_no_crash || apply Ok_no_crash.
Qed.

Lemma verifyHeader_S fuel h parents :
  verifyHeader (S fuel) h parents =
    (lift (verify_fields h) ;;; verifyCascadingFields (fun g => verifyHeader fuel g []) h parents).
Proof. done. Qed.

Lemma verifyHeader_genesis g :
  GetHeaderByNumber chain 0 = Some g → spec (verifyHeader 1 g []) (fun _ => True).
Proof.
  intros Hg. rewrite verifyHeader_S. eapply spec_bind.
  { apply spec_lift; [by intros a E; exact E|]. intros _. apply verify_fields_no_crash. }
  intros _ _. destruct (decide (u64 (Number g) = 0)) as [E|E].
  - unfold verifyCascadingFields. rewrite E. by apply spec_ret.
  - eapply spec_weaken; [|done]. apply verifyCascadingFields_spec. intros g' Hg' st Hst. simpl. split; [done|].
    intros (_ & g2 & Hg2 & E2). congruence.
Qed.

Lemma verifyHeader_spec h parents :
  spec (verifyHeader 2 h parents) (fun _ => verify_fields h = Ok tt ∧ (u64 (Number h) = 0 ∨ header_ok h parents)).
Proof.
  rewrite verifyHeader_S. eapply spec_bind.
  { apply spec_lift; [by intros a E; exact E|]. intros _. apply verify_fields_no_crash. }
  intros [] Hf. eapply spec_weaken; [apply verifyCascadingFields_spec; apply verifyHeader_genesis|]. by intros [] Hok.
Qed.


(** the caches are transparent.  From a sound cache, the snapshot found for a block,
    whether in the cache, from the headers at hand or from the chain, is one that
    applying linked headers up to that block to the genesis snapshot gives, and
    the cache stays sound. *)
Theorem snapshot_is_of_chain number hash st snap st' :
  sound st → 0 ≤ number → snapshot_at number hash st = (Ok snap, st') →
  sound st' ∧ is_snapshot hash snap ∧ consistent snap.
Proof.
  intros Hst Hn E. pose proof (snapshot_spec VerifyHeader number hash []) as Hs.
  assert (∀ g, GetHeaderByNumber chain 0 = Some g → spec (VerifyHeader g) (fun _ => True)) as Hv
    by (intros g _; by eapply spec_weaken; [apply verifyHeader_spec|]).
  specialize (Hs Hv Hn st Hst). unfold snapshot_at in E. rewrite E in Hs. destruct Hs as [Hst' Hs].
  split_and!; [done|done|by eapply is_snapshot_consistent].
Qed.

Lemma verify_batch_no_crash before hs st :
  setting_ok → sound st → Forall (fun x => ¬ is_crash x) (fst (verify_batch before hs st)) ∧
    length (fst (verify_batch before hs st)) = length hs.
Proof.
  intros Hset. revert before st. induction hs as [|h hs IH]; intros before st Hst; [by split|].
  pose proof (verifyHeader_spec h before st Hst) as Hs. cbn [verify_batch].
  destruct (verifyHeader 2 h before st) as [x st1]. destruct Hs as [Hst1 Hx].
  specialize (IH (before ++ [h]) st1 Hst1). destruct (verify_batch (before ++ [h]) hs st1) as [xs st2]. simpl in *.
  destruct IH as [IH1 IH2]. split; [|by rewrite IH2]. constructor; [|done].
  destruct x; [apply Ok_no_crash|apply Err_no_crash|tauto|tauto].
Qed.

(** verification of a batch ends.  With a positive epoch and a genesis block of
    number zero, [VerifyHeaders] returns one result per header, none of which is a
    panic or the bound on the recursion. *)
Theorem VerifyHeaders_ends hs st :
  setting_ok → sound st →
  Forall (fun x => ¬ is_crash x) (fst (VerifyHeaders hs st)) ∧ length (fst (VerifyHeaders hs st)) = length hs.
Proof. apply verify_batch_no_crash. Qed.

(** ** Writing seals *)

Lemma write_extra_spec h e e' h' :
  ExtractIstanbulExtra h = Ok e → Validators e' = Validators e → extra_small e' → write_extra h e' = Ok h' →
  ExtractIstanbulExtra h' = Ok e' ∧ MixDigest h' = MixDigest h ∧
  ∀ keep, (keep = true → Seal e' = Seal e) → IstanbulFilteredHeader h' keep = IstanbulFilteredHeader h keep.
Proof.
  intros He HV Hs E. unfold write_extra in E. destruct (encode e') as [payload| | |] eqn:Ep; try done. injection E as <-.
  pose proof (Extract_set_Extra h e e' payload He HV Hs Ep) as He'. split_and!; [done|done|].
  intros keep Hk. unfold IstanbulFilteredHeader. rewrite He, He', HV.
  assert ((if keep then Seal e' else []) = (if keep then Seal e else [])) as -> by (destruct keep; auto).
  assert (take IstanbulExtraVanity (take IstanbulExtraVanity (Extra h) ++ payload) = take IstanbulExtraVanity (Extra h)) as Et.
  { unfold ExtractIstanbulExtra in He. destruct (Nat.ltb_spec (length (Extra h)) IstanbulExtraVanity); [done|].
    apply take_app_length'. rewrite length_take. lia. }
  destruct (encode _); try done. unfold set_Extra. simpl. by rewrite Et.
Qed.

Lemma extract_Ok h e : extract h = Ok e ↔ ExtractIstanbulExtra h = Ok e.
Proof. unfold extract. destruct (ExtractIstanbulExtra h); naive_solver. Qed.

(** What the two writers leave as it was. *)
Lemma header_Hash_write h e e' h' :
  ExtractIstanbulExtra h = Ok e → Validators e' = Validators e → Seal e' = Seal e → extra_small e' →
  write_extra h e' = Ok h' → MixDigest h = IstanbulDigest → header_Hash h' = header_Hash h.
Proof.
  intros He HV HS Hs E HM. destruct (write_extra_spec h e e' h' He HV Hs E) as (_ & HM' & Hf).
  destruct (IstanbulFilteredHeader_Some h e true He) as [x Hx].
  unfold header_Hash. by rewrite HM', HM, (Hf true (fun _ => HS)), Hx.
Qed.

Lemma sigHash_write h e e' h' :
  ExtractIstanbulExtra h = Ok e → Validators e' = Validators e → extra_small e' → write_extra h e' = Ok h' →
  sigHash h' = sigHash h.
Proof.
  intros He HV Hs E. destruct (write_extra_spec h e e' h' He HV Hs E) as (_ & _ & Hf).
  unfold sigHash. by rewrite (Hf false).
Qed.

Definition with_Seal (seal : bytes) (e : IstanbulExtra) : IstanbulExtra := mkExtra (Validators e) seal (CommittedSeal e).
Definition with_CommittedSeal (seals : list bytes) (e : IstanbulExtra) : IstanbulExtra :=
  mkExtra (Validators e) (Seal e) seals.

Lemma writeSeal_Ok h seal h' :
  writeSeal h seal = Ok h' → ∃ e, ExtractIstanbulExtra h = Ok e ∧ write_extra h (with_Seal seal e) = Ok h'.
Proof.
  unfold writeSeal. destruct (negb _); [done|]. intros (e & He & E)%rbind_Ok. exists e. by apply extract_Ok in He.
Qed.

Lemma writeCommittedSeals_Ok h seals h' :
  writeCommittedSeals h seals = Ok h' →
  ∃ e, ExtractIstanbulExtra h = Ok e ∧ write_extra h (with_CommittedSeal seals e) = Ok h'.
Proof.
  unfold writeCommittedSeals. case_bool_decide; [done|]. destruct (negb _); [done|].
  intros (e & He & E)%rbind_Ok. exists e. by apply extract_Ok in He.
Qed.

(** sealing keeps what was signed.  [writeSeal] stores
    the proposer's seal and leaves the hash the seal signs; [writeCommittedSeals]
    stores the committed seals and leaves that hash, the recovered signer and, for
    an Istanbul header, the block hash that the seals sign.  Both keep the other
    fields of the extra data. *)
Theorem seals_are_not_signed h seal seals h1 h2 :
  (∀ e, ExtractIstanbulExtra h = Ok e → extra_small (with_Seal seal e) ∧ extra_small (with_CommittedSeal seals e)) →
  MixDigest h = IstanbulDigest → writeSeal h seal = Ok h1 → writeCommittedSeals h seals = Ok h2 →
  sigHash h1 = sigHash h ∧ sigHash h2 = sigHash h ∧ header_Hash h2 = header_Hash h ∧
  ecrecover SigToPub h2 = ecrecover SigToPub h ∧
  ∃ e, ExtractIstanbulExtra h = Ok e ∧ ExtractIstanbulExtra h1 = Ok (with_Seal seal e) ∧
    ExtractIstanbulExtra h2 = Ok (with_CommittedSeal seals e).
Proof.
  intros Hs HM (e & He & E1)%writeSeal_Ok (e' & He' & E2)%writeCommittedSeals_Ok. rewrite He in He'. injection He' as <-.
  destruct (Hs e He) as [Hs1 Hs2].
  destruct (write_extra_spec h e (with_Seal seal e) h1 He eq_refl Hs1 E1) as (X1 & _ & _).
  destruct (write_extra_spec h e (with_CommittedSeal seals e) h2 He eq_refl Hs2 E2) as (X2 & _ & _).
  pose proof (sigHash_write h e (with_CommittedSeal seals e) h2 He eq_refl Hs2 E2) as Hsig. split_and!.
  - exact (sigHash_write h e (with_Seal seal e) h1 He eq_refl Hs1 E1).
  - done.
  - exact (header_Hash_write h e (with_CommittedSeal seals e) h2 He eq_refl eq_refl Hs2 E2 HM).
  - unfold ecrecover. by rewrite He, X2, Hsig.
  - by exists e.
Qed.

(** The seals of more than 2F validators, once written, are accepted. *)
Lemma written_seals_accepted snap h e seals addrs :
  valid (ValSet snap) → ExtractIstanbulExtra h = Ok e → MixDigest h = IstanbulDigest →
  extra_small (with_CommittedSeal seals e) → seals ≠ [] → Forall (fun seal => length seal = IstanbulExtraSeal) seals →
  sealed_by (validators (ValSet snap)) (PrepareCommittedSeal (header_Hash h)) seals addrs → 2 * F (ValSet snap) < zlen addrs →
  ∃ h', writeCommittedSeals h seals = Ok h' ∧ write_extra h (with_CommittedSeal seals e) = Ok h' ∧
    header_Hash h' = header_Hash h ∧ check_seals snap h' = Ok tt.
Proof.
  intros Hv He HM Hs Hne Hl Hby HF.
  destruct (encode_extra_Ok (with_CommittedSeal seals e)) as [payload Ep]; [exact (ExtractIstanbulExtra_lengths h e He)|].
  assert (write_extra h (with_CommittedSeal seals e) = Ok (set_Extra (take IstanbulExtraVanity (Extra h) ++ payload) h)) as Ew
    by (unfold write_extra; by rewrite Ep).
  eexists. split; [|split; [exact Ew|]].
  - unfold writeCommittedSeals. rewrite bool_decide_false by done.
    assert (forallb (fun seal => (length seal =? IstanbulExtraSeal)%nat) seals = true) as ->.
    { apply forallb_forall. intros x Hx%list_elem_of_In. rewrite Forall_forall in Hl. by apply Nat.eqb_eq, Hl. }
    simpl. apply extract_Ok in He. by rewrite He.
  - pose proof (header_Hash_write h e (with_CommittedSeal seals e) _ He eq_refl eq_refl Hs Ew HM) as Hh. split; [done|].
    apply check_seals_spec; [done|]. exists (with_CommittedSeal seals e), addrs. rewrite Hh. split_and!; try done.
    apply extract_Ok. exact (proj1 (write_extra_spec h e (with_CommittedSeal seals e) _ He eq_refl Hs Ew)).
Qed.

End engine.

(** ** A sample

    Maps as cache and database, and a chain of one validator, whose signatures start
    with the number of its key. *)

#[global] Instance map_cache V : Cache (gmap bytes V) V.
Proof.
  refine {| cache_get := fun k c => (c !! k, c); cache_add := fun k v c => <[k := v]> c |}.
  - intros k v c k' v'. simpl. intros [[<- <-]|[_ E]]%lookup_insert_Some; [by left|by right].
  - done.
Defined.
#[global] Instance map_database : Database (gmap bytes blob) :=
  {| db_get := fun k d => d !! k; db_put := fun k b d => Some (<[k := b]> d) |}.

Definition first_key (_ sig : bytes) : option bytes :=
  match sig with key :: _ => Some (replicate 65 key) | [] => None end.
Definition sample_header (parent : bytes) (n : Z) (e : IstanbulExtra) : Header :=
  mkHeader parent nilUncleHash emptyAddr emptyHash emptyHash emptyHash (replicate 256 x00) 1 n 0 0 (10 * n)
    (replicate 32 x00 ++ match encode e with Ok b => b | _ => [] end) IstanbulDigest emptyNonce.
Definition genesis : Header := Eval vm_compute in sample_header emptyHash 0 (mkExtra [signer1] [] []).
Definition genesis_hash : bytes := Eval vm_compute in header_Hash genesis.
Definition block1_header : Header := Eval vm_compute in sample_header genesis_hash 1 (mkExtra [signer1] [x01] [[x01]]).
Definition sample_chain : ChainReader :=
  mkChain (fun hash _ => if bool_decide (hash = genesis_hash) then Some genesis else None)
    (fun n => if n =? 0 then Some genesis else None) genesis.
Definition sample_config : EngineConfig := mkEngineConfig 30000 RoundRobin 1 2.
Definition sample_state : EngineState (C := gmap bytes Snapshot) (D := gmap bytes blob) := mkEngine ∅ ∅.

Lemma genesis_hash_eq : header_Hash genesis = genesis_hash.
Proof. vm_cast_no_check (eq_refl genesis_hash). Qed.
Lemma genesis_extra : extract genesis = Ok (mkExtra [signer1] [] []).
Proof. vm_compute. reflexivity. Qed.
Lemma sample_chain_ok : chain_ok sample_chain.
Proof.
  split.
  - intros hash n h. simpl. case_bool_decide; [|done]. intros [= <-]. by rewrite genesis_hash_eq.
  - intros g e [= <-]. rewrite genesis_extra. intros [= <-]. apply NoDup_singleton.
Qed.
Lemma sample_setting_ok : setting_ok sample_config sample_chain.
Proof. split; [done|]. by exists genesis. Qed.
Lemma sample_sound : sound first_key sample_config sample_chain sample_state.
Proof. intros hash s. simpl. by rewrite lookup_empty. Qed.


Lemma snapshot_is_of_chain_witness :
  ∃ snap st', snapshot_at first_key sample_config sample_chain 100 0 genesis_hash sample_state = (Ok snap, st') ∧
    is_snapshot first_key sample_config sample_chain genesis_hash snap.
Proof.
  destruct (snapshot_at first_key sample_config sample_chain 100 0 genesis_hash sample_state) as [x st'] eqn:E.
  assert (is_ok (fst (snapshot_at first_key sample_config sample_chain 100 0 genesis_hash sample_state)) = true) as Hx
    by vm_cast_no_check (eq_refl true).
  rewrite E in Hx. destruct x as [snap| | |]; try discriminate Hx. exists snap, st'. split; [reflexivity|].
  refine (proj1 (proj2 (snapshot_is_of_chain first_key sample_config sample_chain 100 sample_chain_ok 0 genesis_hash
    sample_state snap st' sample_sound _ E))). lia.
Defined.

Lemma VerifyHeaders_ends_witness :
  Forall (fun x => ¬ is_crash x)
    (fst (VerifyHeaders first_key sample_config sample_chain 100 [block1_header; block1_header] sample_state)) ∧
  length (fst (VerifyHeaders first_key sample_config sample_chain 100 [block1_header; block1_header] sample_state)) = 2%nat.
Proof.
  exact (VerifyHeaders_ends first_key sample_config sample_chain 100 sample_chain_ok [block1_header; block1_header]
    sample_state sample_setting_ok sample_sound).
Defined.

Lemma seals_are_not_signed_witness :
  ∃ h1 h2, writeSeal genesis (replicate 65 x01) = Ok h1 ∧ writeCommittedSeals genesis [replicate 65 x01] = Ok h2 ∧
    sigHash h1 = sigHash genesis ∧ header_Hash h2 = header_Hash genesis.
Proof.
  destruct (is_ok_Ok (writeSeal genesis (replicate 65 x01))) as [h1 E1]; [vm_compute; reflexivity|].
  destruct (is_ok_Ok (writeCommittedSeals genesis [replicate 65 x01])) as [h2 E2]; [vm_compute; reflexivity|].
  exists h1, h2. split; [exact E1|]. split; [exact E2|].
  destruct (seals_are_not_signed first_key genesis (replicate 65 x01) [replicate 65 x01] h1 h2) as (A & _ & B & _).
  - intros e He. rewrite ((proj1 (extract_Ok genesis _)) genesis_extra) in He. injection He as <-.
    split; (eexists; split; [vm_compute; reflexivity|vm_compute; reflexivity]).
  - vm_compute. reflexivity.
  - exact E1.
  - exact E2.
  - split; [exact A|exact B].
Defined.

End Engine.
