(* ===== verification/IstComplete.v ===== *)
(** Header verification on a known chain (src/consensus/istanbul/backend/engine.go).

    For a chain whose headers lead back to the genesis block, the result of
    [verifyHeader] is computed by a definition without caches: the voting of the
    chain decides.  Whatever a sound and agreeing cache holds, valid headers are
    accepted. *)

From S2P Require Import Prelude RlpEncode RlpRaw RlpDecode RlpRoundtrip RlpTotal KeccakF Sha3 CoreTypes.
From S2P Require Import IstValidator IstTypes IstSnapshot IstEngine.

Module Complete.
Import Rlp Raw Dec Roundtrip Total Codec Types Validator Ist Snapshot Engine.

Section complete.
Context {C D : Type} `{Cache C Snapshot} `{Database D}.
Context (SigToPub : bytes → bytes → option bytes).
Context (config : EngineConfig) (chain : ChainReader).
Context (now : Z).
(** The genesis block with its extra data, and the headers of the blocks 1, 2, ... *)
Context (g : Header) (e0 : IstanbulExtra) (hs : list Header).

(** The hash of block [i]. *)
Definition hash_at (i : nat) : bytes :=
  match i with
  | O => header_Hash g
  | S j => match hs !! j with Some h => header_Hash h | None => [] end
  end.

(** The voting up to block [i]. *)
Definition voting_at (i : nat) : result engineErr Snapshot :=
  apply SigToPub (genesis_of config g e0) (take i hs).

(** The chain finds these blocks under their hashes, each one follows the one
    before, no two have the same hash, and the votes in them can be applied.  The
    database accepts writes. *)
Record canonical : Prop := {
  can_genesis : GetHeaderByNumber chain 0 = Some g;
  can_zero : u64 (Number g) = 0;
  can_fields : verify_fields now g = Ok tt;
  can_extra : extract g = Ok e0;
  can_distinct : NoDup (Validators e0);
  can_lookup_genesis : GetHeader chain (header_Hash g) 0 = Some g;
  can_lookup i h : hs !! i = Some h → GetHeader chain (header_Hash h) (Z.of_nat i + 1) = Some h;
  can_number i h : hs !! i = Some h → u64 (Number h) = Z.of_nat i + 1;
  can_parent i h : hs !! i = Some h → ParentHash h = hash_at i;
  can_hashes i j : (i ≤ length hs)%nat → (j ≤ length hs)%nat → hash_at i = hash_at j → i = j;
  can_apply : is_ok (voting_at (length hs)) = true;
  can_write : ∀ k b d, is_Some (db_put k b d) }.

Context (Hcan : canonical).

(** The cached snapshots of these blocks are those of the voting. *)
Definition agree (st : EngineState (C:=C) (D:=D)) : Prop :=
  ∀ i s, (i ≤ length hs)%nat → fst (cache_get (hash_at i) (recents st)) = Some s →
    ∃ s', voting_at i = Ok s' ∧ s ≡ s'.

Lemma start_consistent : consistent (genesis_of config g e0).
Proof. split; [apply NewSet_valid, Hcan|apply votes_ok_nil]. Qed.

(** From block [j] to block [i]. *)
Lemma voting_from i j s :
  (j ≤ i)%nat → (i ≤ length hs)%nat → (∃ s', voting_at j = Ok s' ∧ s ≡ s') →
  ∃ s1 s2, apply SigToPub s (drop j (take i hs)) = Ok s1 ∧ voting_at i = Ok s2 ∧ s1 ≡ s2.
Proof.
  intros Hji Hi (s' & Es & Hs). destruct (is_ok_Ok _ (can_apply Hcan)) as [c Ec]. unfold voting_at in Ec.
  rewrite take_ge in Ec by lia. rewrite <- (take_drop i hs) in Ec.
  destruct (apply_split _ _ _ _ _ start_consistent Ec) as (si & _ & Ei & _).
  assert (take i hs = take j hs ++ drop j (take i hs)) as Et.
  { rewrite <- (take_drop j (take i hs)) at 1. by rewrite take_take, Nat.min_l by lia. }
  pose proof Ei as Ei'. rewrite Et in Ei'. destruct (apply_split _ _ _ _ _ start_consistent Ei') as (sj & s2 & Ej & E2 & H2).
  unfold voting_at in Es. assert (sj = s') as -> by congruence.
  destruct (apply_equiv _ _ s _ _ (symmetry Hs) E2) as (b & Eb & Hb). exists b, si. split_and!; [done|done|].
  by rewrite <- Hb.
Qed.

Lemma voting_Hash i s : (i ≤ length hs)%nat → voting_at i = Ok s → snap_Hash s = hash_at i.
Proof.
  intros Hi E. unfold voting_at, apply in E. destruct i as [|i].
  { simpl in E. by injection E as <-. }
  destruct (lookup_lt_is_Some_2 hs i) as [h Eh]; [lia|]. rewrite (take_S_r _ _ _ Eh), last_snoc in E.
  destruct (negb _); [done|]. apply rbind_Ok in E as (t & _ & [= <-]). simpl. by rewrite Eh.
Qed.

(** ** The search finds a snapshot of the voting *)

Lemma agree_get hash st : agree st → agree (snd (recents_Get hash st)).
Proof.
  intros Ha i s Hi E. unfold recents_Get in E. destruct (cache_get hash (recents st)) as [o c] eqn:Ec. simpl in E.
  apply (Ha i s Hi). apply (cache_get_sound hash). by rewrite Ec.
Qed.

Lemma recents_Get_Ok hash (st : EngineState (C:=C) (D:=D)) : fst (recents_Get hash st) = Ok (fst (cache_get hash (recents st))).
Proof. unfold recents_Get. by destruct (cache_get hash (recents st)). Qed.

Lemma store_Ok s (st : EngineState (C:=C) (D:=D)) : ∃ d, store s st = (Ok tt, mkEngine (recents st) d).
Proof.
  unfold store. destruct (can_write Hcan (snapshot_key (snap_Hash s)) (marshal s) (db st)) as [d Ed].
  rewrite Ed. by exists d.
Qed.

Definition accepts (verify : Header → M (C:=C) (D:=D) unit) : Prop := ∀ st, verify g st = (Ok tt, st).

Lemma genesis_snapshot_Ok verify st :
  accepts verify → ∃ d, genesis_snapshot config chain verify st = (Ok (genesis_of config g e0), mkEngine (recents st) d).
Proof.
  intros Hv. destruct (store_Ok (genesis_of config g e0) st) as [d Ed]. exists d.
  unfold genesis_snapshot. rewrite (can_genesis Hcan). unfold bind. rewrite Hv. unfold lift. rewrite (can_extra Hcan).
  change (newSnapshot _ _ _ _) with (genesis_of config g e0). by rewrite Ed.
Qed.

Lemma find_snapshot_finds verify i fuel headers st :
  accepts verify → (i ≤ length hs)%nat → (i < fuel)%nat → agree st →
  ∃ j s st', find_snapshot config chain fuel verify (Z.of_nat i) (hash_at i) [] headers st
      = (Ok (s, headers ++ rev (drop j (take i hs))), st') ∧
    agree st' ∧ (j ≤ i)%nat ∧ ∃ s', voting_at j = Ok s' ∧ s ≡ s'.
Proof.
  intros Hv. revert i headers st. induction fuel as [|fuel IH]; intros i headers st Hi Hf Ha; [lia|].
  cbn [find_snapshot]. unfold bind at 1. pose proof (agree_get (hash_at i) st Ha) as Ha1.
  pose proof (recents_Get_Ok (hash_at i) st) as Er. pose proof (Ha i) as Hhit.
  destruct (recents_Get (hash_at i) st) as [x st1]. simpl in Er, Ha1. subst x.
  destruct (fst (cache_get (hash_at i) (recents st))) as [s|].
  { exists i, s, st1. split_and!; [|done|lia|by apply Hhit]. rewrite drop_ge by (rewrite length_take; lia). by rewrite app_nil_r. }
  unfold bind at 1. assert ((if Z.of_nat i mod checkpointInterval =? 0 then load config (hash_at i) else ret None) st1 = (Ok None, st1)) as ->.
  { destruct (_ =? 0); [|done]. unfold load, loadSnapshot. by destruct (db_get _ _) as [[? ? ? ? []]|]. }
  destruct i as [|i].
  - change (Z.of_nat 0 =? 0) with true. destruct (genesis_snapshot_Ok verify st1 Hv) as [d Ed]. unfold bind. rewrite Ed.
    exists 0%nat, (genesis_of config g e0), (mkEngine (recents st1) d). simpl. rewrite app_nil_r. split_and!; [done|done|lia|].
    exists (genesis_of config g e0). by split.
  - destruct (Z.eqb_spec (Z.of_nat (S i)) 0); [lia|]. destruct (lookup_lt_is_Some_2 hs i) as [h Eh]; [lia|].
    unfold bind, lift, gather. simpl last. cbn [hash_at]. rewrite Eh.
    replace (Z.of_nat (S i)) with (Z.of_nat i + 1) by lia. rewrite (can_lookup Hcan i h Eh). cbn [fst snd].
    rewrite (can_parent Hcan i h Eh). replace (Z.of_nat i + 1 - 1) with (Z.of_nat i) by lia.
    destruct (IH i (headers ++ [h]) st1) as (j & s & st' & E & Ha' & Hj & Hs); [lia|lia|done|].
    exists j, s, st'. split_and!; [|done|lia|done]. rewrite E. do 2 f_equal. rewrite (take_S_r _ _ _ Eh), drop_app_le by (rewrite length_take; lia).
    by rewrite rev_app_distr, <- app_assoc.
Qed.

Lemma snapshot_finds verify i st :
  accepts verify → (i ≤ length hs)%nat → agree st →
  ∃ s s' st', snapshot SigToPub config chain verify (Z.of_nat i) (hash_at i) [] st = (Ok s, st') ∧
    agree st' ∧ voting_at i = Ok s' ∧ s ≡ s'.
Proof.
  intros Hv Hi Ha. unfold snapshot, bind at 1. rewrite Nat2Z.id.
  destruct (find_snapshot_finds verify i (S i) [] st Hv Hi) as (j & s & st1 & -> & Ha1 & Hj & Hs); [lia|done|].
  cbn [fst snd]. rewrite app_nil_l, rev_involutive. unfold bind at 1, lift at 1.
  destruct (voting_from i j s Hj Hi Hs) as (s1 & s2 & -> & E2 & H12).
  assert (snap_Hash s1 = hash_at i) as Hh.
  { destruct H12 as (_ & _ & ->). by apply voting_Hash. }
  set (st2 := mkEngine (cache_add (snap_Hash s1) s1 (recents st1)) (db st1)).
  assert (agree st2) as Ha2.
  { intros k v Hk [[Ek ->]|E]%cache_add_sound; [|by apply (Ha1 k v Hk)]. rewrite Hh in Ek.
    rewrite (can_hashes Hcan k i Hk Hi Ek). by exists s2. }
  exists s1, s2. unfold bind at 1. change (recents_Add (snap_Hash s1) s1 st1) with (Ok (E:=engineErr) tt, st2). cbn [fst snd].
  unfold bind. destruct (_ && _).
  - destruct (store_Ok s1 st2) as [d ->]. by exists (mkEngine (recents st2) d).
  - by exists st2.
Qed.

(** ** Verification without caches *)

Definition header_at (i : nat) : option Header := match i with O => Some g | S j => hs !! j end.

(** What verification says of a header after [parent], given the voting up to [parent]. *)
Definition verdict (parent : Header) (s : Snapshot) (h : Header) : result engineErr unit :=
  let? _ := verify_fields now h in
  if u64 (Time h) <? u64 (u64 (Time parent) + BlockPeriod config) then Err errInvalidTimestamp
  else
    let? _ := check_signer SigToPub s h in
    check_seals SigToPub s h.

Lemma ValSet_equiv s s' : s ≡ s' → validators (ValSet s) = validators (ValSet s') ∧ Copy (ValSet s) = Copy (ValSet s').
Proof.
  intros (Hv & _ & _). destruct s as [? ? ? ? ? []], s' as [? ? ? ? ? []]. unfold voting, plain_set in Hv. simpl in *.
  by simplify_eq.
Qed.

Lemma check_signer_equiv s s' h : s ≡ s' → check_signer SigToPub s h = check_signer SigToPub s' h.
Proof.
  intros [Hv _]%ValSet_equiv. unfold check_signer, GetByAddress. by rewrite Hv.
Qed.

Lemma check_seals_equiv s s' h : s ≡ s' → check_seals SigToPub s h = check_seals SigToPub s' h.
Proof.
  intros [Hv Hc]%ValSet_equiv. unfold check_seals, F, Size. by rewrite Hv, Hc.
Qed.

Lemma genesis_accepted : accepts (fun genesis => verifyHeader SigToPub config chain now 1 genesis []).
Proof.
  intros st. rewrite verifyHeader_S. unfold bind, lift. rewrite (can_fields Hcan).
  unfold verifyCascadingFields. by rewrite (can_zero Hcan).
Qed.

Lemma parent_found i h p :
  (i ≤ length hs)%nat → header_at i = Some p → ParentHash h = hash_at i → u64 (Number h) = Z.of_nat i + 1 →
  parent_of chain h [] = Some p ∧ u64 (Number p) = u64 (Number h) - 1 ∧ header_Hash p = ParentHash h.
Proof.
  intros Hi Hp HP HN. unfold parent_of. simpl. rewrite HN, HP. replace (Z.of_nat i + 1 - 1) with (Z.of_nat i) by lia.
  destruct i as [|i]; simpl in Hp.
  - injection Hp as <-. split_and!; [apply Hcan|apply Hcan|done].
  - simpl. rewrite Hp. split_and!; [|rewrite (can_number Hcan i p Hp); lia|done].
    rewrite <- (can_lookup Hcan i p Hp). f_equal. lia.
Qed.

Lemma verifyHeader_verdict h i p s st :
  agree st → (i ≤ length hs)%nat → header_at i = Some p → ParentHash h = hash_at i →
  u64 (Number h) = Z.of_nat i + 1 → voting_at i = Ok s →
  ∃ st', verifyHeader SigToPub config chain now 2 h [] st = (verdict p s h, st') ∧ agree st'.
Proof.
  intros Ha Hi Hp HP HN Hs. rewrite verifyHeader_S. unfold bind at 1, lift at 1, verdict.
  destruct (verify_fields now h) as [[]|e| |]; try by eexists. cbn [rbind].
  destruct (parent_found i h p Hi Hp HP HN) as (Ep & En & Eh).
  unfold verifyCascadingFields. rewrite Ep, Eh, En, HP, HN, Z.eqb_refl, bool_decide_true by done. change (negb true || negb true) with false. cbv iota.
  destruct (Z.eqb_spec (Z.of_nat i + 1) 0); [lia|]. destruct (_ <? _); [by eexists|].
  replace (Z.of_nat i + 1 - 1) with (Z.of_nat i) by lia. unfold bind at 1.
  destruct (snapshot_finds _ i st genesis_accepted Hi Ha) as (s1 & s1' & st1 & -> & Ha1 & E1 & H1).
  unfold bind at 1, verifySigner. rewrite HN, HP. destruct (Z.eqb_spec (Z.of_nat i + 1) 0); [lia|].
  replace (Z.of_nat i + 1 - 1) with (Z.of_nat i) by lia. unfold bind at 1.
  destruct (snapshot_finds _ i st1 genesis_accepted Hi Ha1) as (s2 & s2' & st2 & -> & Ha2 & E2 & H2).
  assert (s2' = s) as -> by congruence. unfold lift at 1. rewrite (check_signer_equiv s2 s h H2).
  destruct (check_signer SigToPub s h) as [[]|e| |]; try by eexists. cbn [rbind].
  unfold verifyCommittedSeals. rewrite HN, HP. destruct (Z.eqb_spec (Z.of_nat i + 1) 0); [lia|].
  replace (Z.of_nat i + 1 - 1) with (Z.of_nat i) by lia. unfold bind at 1.
  destruct (snapshot_finds _ i st2 genesis_accepted Hi Ha2) as (s3 & s3' & st3 & -> & Ha3 & E3 & H3).
  assert (s3' = s) as -> by congruence. unfold lift. rewrite (check_seals_equiv s3 s h H3). by eexists.
Qed.

(** C10: on a chain of blocks that lead back to the genesis block, the verdict on a
    header after one of these blocks is decided by the header, its parent and the
    voting up to the parent: well-formed fields, then the time, then the signer,
    then the committed seals.  No agreeing content of the cache changes it, nothing
    panics, and the cache still agrees afterwards. *)
Theorem VerifyHeader_decides h i p s st :
  agree st → (i ≤ length hs)%nat → header_at i = Some p → ParentHash h = hash_at i →
  u64 (Number h) = Z.of_nat i + 1 → voting_at i = Ok s →
  ∃ st', VerifyHeader SigToPub config chain now h st = (verdict p s h, st') ∧ agree st'.
Proof. apply verifyHeader_verdict. Qed.

End complete.

(** The sample chain of the engine, with its genesis block only. *)
Lemma sample_canonical : canonical (D := gmap bytes blob) first_key sample_config sample_chain 100 genesis (mkExtra [signer1] [] []) [].
Proof.
  split.
  - reflexivity.
  - reflexivity.
  - vm_cast_no_check (eq_refl (Ok (E:=engineErr) tt)).
  - apply genesis_extra.
  - apply NoDup_singleton.
  - change (GetHeader sample_chain (header_Hash genesis) 0)
      with (if bool_decide (header_Hash genesis = genesis_hash) then Some genesis else None).
    rewrite genesis_hash_eq. reflexivity.
  - done.
  - done.
  - done.
  - intros i j Hi Hj _. simpl in *. lia.
  - reflexivity.
  - intros k b d. by eexists.
Qed.

Lemma VerifyHeader_decides_witness :
  ∃ st', VerifyHeader first_key sample_config sample_chain 100 block1_header sample_state =
    (verdict first_key sample_config 100 genesis (genesis_of sample_config genesis (mkExtra [signer1] [] [])) block1_header, st').
Proof.
  destruct (VerifyHeader_decides first_key sample_config sample_chain 100 genesis (mkExtra [signer1] [] []) []
    sample_canonical block1_header 0 genesis (genesis_of sample_config genesis (mkExtra [signer1] [] [])) sample_state) as (st' & E & _).
  - intros i s _ E. simpl in E. rewrite lookup_empty in E. discriminate E.
  - simpl. lia.
  - reflexivity.
  - simpl hash_at. rewrite genesis_hash_eq. reflexivity.
  - reflexivity.
  - reflexivity.
  - exists st'. exact E.
Defined.

End Complete.
