(* ===== verification/IstBackend.v ===== *)
(** The Istanbul backend (src/consensus/istanbul/backend/backend.go, the block
    production of engine.go, handler.go and api.go): what the consensus core asks
    of it, the preparation and sealing of blocks, gossip, and the candidates of
    the operator. *)

From S2P Require Import Prelude RlpEncode RlpRaw RlpDecode RlpRoundtrip RlpTotal KeccakF Sha3 CoreTypes.
From S2P Require Import IstValidator IstTypes IstCore IstSnapshot IstEngine IstComplete.

Module Backend.
Import Rlp Raw Dec Roundtrip Total Codec Types Validator Ist Snapshot Engine Complete.

(** ** Operations for the core *)

Section backend.
Context {C D : Type} `{Cache C Snapshot} `{Database D}.
Context (SigToPub : bytes → bytes → option bytes).
(** [crypto.Sign] of the data's hash with the node's key, and the node's address. *)
Context (Sign : bytes → option bytes) (address : bytes).
Context (config : EngineConfig) (chain : ChainReader).
Context (now : Z).

Notation M := (M (C:=C) (D:=D)).

Definition Author (h : Header) : result engineErr bytes := ecrecover SigToPub h.

(** An error of the snapshot gives an empty set. *)
Definition getValidators (number : Z) (hash : bytes) : M defaultSet := fun st =>
  match snapshot_at SigToPub config chain now number hash st with
  | (Ok snap, st) => (Ok (ValSet snap), st)
  | (Err _, st) => (Ok (NewSet [] (ProposerPolicy config)), st)
  | (Panic, st) => (Panic, st)
  | (NoFuel, st) => (NoFuel, st)
  end.
Definition Validators (proposal : Block) : M defaultSet :=
  getValidators (u64 (block_Number proposal)) (block_Hash proposal).

(** [until t] is [time.Unix(t, 0).Sub(now())]. *)
Definition Verify (until : Z → Z) (proposal : Block) : M Core.verifyResult := fun st =>
  match VerifyHeader SigToPub config chain now (header proposal) st with
  | (Ok _, st) => (Ok Core.VerifyOk, st)
  | (Err e, st) =>
      if bool_decide (e = errEmptyCommittedSeals) then (Ok Core.VerifyOk, st)
      else if bool_decide (e = ErrFutureBlock) then (Ok (Core.VerifyFuture (until (i64 (Time (header proposal))))), st)
      else (Ok Core.VerifyFailed, st)
  | (Panic, st) => (Panic, st)
  | (NoFuel, st) => (NoFuel, st)
  end.

Definition CheckSignature (data addr sig : bytes) : result engineErr unit :=
  match GetSignatureAddress SigToPub data sig with
  | None => Err ErrRecover
  | Some signer => if bool_decide (signer = addr) then Ok tt else Err errInvalidSignature
  end.

(** The address without the error. *)
Definition author_or_empty (h : Header) : result engineErr bytes :=
  match Author h with Err _ => Ok emptyAddr | r => r end.
Definition GetProposer (number : Z) : result engineErr bytes :=
  match GetHeaderByNumber chain number with
  | Some h => author_or_empty h
  | None => Ok emptyAddr
  end.

Definition NewBlockWithHeader (h : Header) : Block := mkBlock h [] [].
Definition LastProposal : result engineErr (option Block * bytes) :=
  let h := CurrentHeader chain in
  if 0 <? Number h then
    match Author h with
    | Ok proposer => Ok (Some (NewBlockWithHeader h), proposer)
    | Err _ => Ok (None, emptyAddr)
    | Panic => Panic
    | NoFuel => NoFuel
    end
  else Ok (Some (NewBlockWithHeader h), emptyAddr).

(** A committed block goes to the waiting [Seal] if it is the proposed one, and to
    the chain otherwise; [inserter] says if the chain takes or knows it. *)
Inductive commitResult := ToSeal (b : Block) | ToChain (b : Block).
Inductive insertResult := Inserted | ErrKnownBlock | InsertFailed.
Definition Commit (inserter : Block → insertResult) (proposedBlockHash : bytes) (proposal : Block) (seals : list bytes) :
    result engineErr (option commitResult) :=
  let? h := writeCommittedSeals (header proposal) seals in
  let block := WithSeal proposal h in
  if bool_decide (proposedBlockHash = block_Hash block) then Ok (Some (ToSeal block))
  else
    match inserter block with
    | InsertFailed => Ok None
    | _ => Ok (Some (ToChain block))
    end.

(** ** Producing blocks *)

Definition set_vote (coinbase nonce : bytes) (h : Header) : Header :=
  mkHeader (ParentHash h) (UncleHash h) coinbase (Root h) (TxHash h) (ReceiptHash h) (Bloom h) (Difficulty h)
    (Number h) (GasLimit h) (GasUsed h) (Time h) (Extra h) (MixDigest h) nonce.
Definition set_consensus (difficulty : Z) (mixDigest : bytes) (h : Header) : Header :=
  mkHeader (ParentHash h) (UncleHash h) (Coinbase h) (Root h) (TxHash h) (ReceiptHash h) (Bloom h) difficulty
    (Number h) (GasLimit h) (GasUsed h) (Time h) (Extra h) mixDigest (Nonce h).
Definition set_Time (t : Z) (h : Header) : Header :=
  mkHeader (ParentHash h) (UncleHash h) (Coinbase h) (Root h) (TxHash h) (ReceiptHash h) (Bloom h) (Difficulty h)
    (Number h) (GasLimit h) (GasUsed h) t (Extra h) (MixDigest h) (Nonce h).

(** The vote that a header carries: one of the candidates still worth a vote, in the
    order in which the map is visited, at the index [pick] draws. *)
Definition pick_vote (pick : nat → nat) (candidates : list (bytes * bool)) (snap : Snapshot) (h : Header) : Header :=
  let worth := List.filter (fun c : bytes * bool => checkVote snap (fst c) (snd c)) candidates in
  match (worth !! pick (length worth) : option (bytes * bool)) with
  | Some (a, authorize) => set_vote a (if authorize then nonceAuthVote else nonceDropVote) h
  | None => h
  end.

Definition Prepare (pick : nat → nat) (candidates : list (bytes * bool)) (h : Header) : M Header :=
  let h := set_vote emptyAddr emptyNonce h in
  let h := set_consensus (Difficulty h) IstanbulDigest h in
  let number := u64 (Number h) in
  match GetHeader chain (ParentHash h) (u64 (number - 1)) with
  | None => fail ErrUnknownAncestor
  | Some parent =>
      let h := set_consensus defaultDifficulty (MixDigest h) h in
      bind (snapshot_at SigToPub config chain now (u64 (number - 1)) (ParentHash h)) (fun snap =>
      let h := pick_vote pick candidates snap h in
      bind (lift (prepareExtra h (snap_validators snap))) (fun extra =>
      ret (set_Extra extra h)))
  end.

Definition updateBlock (parent : Header) (block : Block) : result engineErr Block :=
  let period := match transactions block with [] => BlockPauseTime config | _ => BlockPeriod config end in
  let h := set_Time (Time parent + period) (header block) in
  let h := if i64 (Time h) <? now then set_Time now h else h in
  match Sign (sigHash h) with
  | None => Err ErrSign
  | Some seal =>
      let? h := writeSeal h seal in
      Ok (WithSeal block h)
  end.

(** [Seal] up to the request that it posts: the block it then waits for. *)
Definition Seal_propose (block : Block) : M Block :=
  let h := header block in
  let number := u64 (Number h) in
  bind (snapshot_at SigToPub config chain now (u64 (number - 1)) (ParentHash h)) (fun snap =>
  match snd (GetByAddress (ValSet snap) address) with
  | None => fail errUnauthorized
  | Some _ =>
      match GetHeader chain (ParentHash h) (u64 (number - 1)) with
      | None => fail ErrUnknownAncestor
      | Some parent => lift (updateBlock parent block)
      end
  end).
(** The first block from the commit channel that has the proposed hash. *)
Fixpoint Seal_wait (block : Block) (commitCh : list Block) : option Block :=
  match commitCh with
  | [] => None
  | result :: commitCh =>
      if bool_decide (block_Hash block = block_Hash result) then Some result else Seal_wait block commitCh
  end.

(** ** api.go: the snapshot and the validators at a block, the latest by default *)

Definition header_of (number : option Z) : option Header :=
  match number with None => Some (CurrentHeader chain) | Some k => GetHeaderByNumber chain k end.
Definition GetSnapshot (number : option Z) : M Snapshot :=
  match header_of number with
  | None => fail errUnknownBlock
  | Some h => snapshot_at SigToPub config chain now (u64 (Number h)) (header_Hash h)
  end.
Definition GetValidators (number : option Z) : M (list bytes) :=
  bind (GetSnapshot number) (fun snap => ret (snap_validators snap)).

End backend.

(** ** Messages and operation *)

(** A cache that holds what was added last, and what was just read. *)
Class Retains (C V : Type) `{Cache C V} := {
  cache_add_get k v (c : C) : fst (cache_get k (cache_add k v c)) = Some v;
  cache_get_keeps k (c : C) : fst (cache_get k (snd (cache_get k c))) = fst (cache_get k c) }.

(** [K] remembers hashes; [P] maps a peer to what it remembers of it.  The entry of a
    peer is a shared object, which an update changes in place. *)
Section messages.
Context {K P : Type} `{Cache K unit} `{Cache P K}.
(** [lru.NewARC(inmemoryMessages)]. *)
Context (newARC : K).

Record backend := mkBackendState {
  address : bytes;
  coreStarted : bool;
  candidates : gmap bytes bool;
  recentMessages : P;
  knownMessages : K }.

Definition set_caches (p : P) (k : K) (b : backend) : backend :=
  mkBackendState (address b) (coreStarted b) (candidates b) p k.
Definition set_started (x : bool) (b : backend) : backend :=
  mkBackendState (address b) x (candidates b) (recentMessages b) (knownMessages b).
Definition set_candidates (x : gmap bytes bool) (b : backend) : backend :=
  mkBackendState (address b) (coreStarted b) x (recentMessages b) (knownMessages b).

Definition payload_hash (data : bytes) : bytes :=
  hash256 [match EncodeToBytes TBytes (VBytes data) with Ok b => b | _ => [] end].

(** The entry of a peer, a new one if there is none. *)
Definition peer_entry (addr : bytes) (p : P) : K * P :=
  match cache_get addr p with
  | (Some m, p) => (m, p)
  | (None, p) => (newARC, p)
  end.

(** One peer of the loop: whether the payload is sent to it. *)
Definition gossip_peer (hash addr : bytes) (p : P) : bool * P :=
  let '(m, p) := peer_entry addr p in
  match cache_get hash m with
  | (Some _, m) => (false, cache_add addr m p)
  | (None, m) => (true, cache_add addr (cache_add hash tt m) p)
  end.
Fixpoint gossip_peers (hash : bytes) (peers : list bytes) (p : P) : list bytes * P :=
  match peers with
  | [] => ([], p)
  | addr :: peers =>
      let '(sent, p) := gossip_peer hash addr p in
      let '(l, p) := gossip_peers hash peers p in (if sent then addr :: l else l, p)
  end.

(** [find] is the broadcaster's [FindPeers], in the order in which its map is visited. *)
Definition Gossip (find : list bytes → list bytes) (valSet : defaultSet) (payload : bytes) (b : backend) : list bytes * backend :=
  let hash := payload_hash payload in
  let known := cache_add hash tt (knownMessages b) in
  let targets := List.filter (fun a => negb (bool_decide (a = address b))) (validators valSet) in
  match targets with
  | [] => ([], set_caches (recentMessages b) known b)
  | _ => let '(l, p) := gossip_peers hash (find targets) (recentMessages b) in (l, set_caches p known b)
  end.

Inductive handleErr := ErrStoppedEngine | errDecodeFailed.
Definition istanbulMsg : Z := 17.
(** [msg.Decode] into a byte slice, without a check for trailing input. *)
Definition decode_payload (b : bytes) : result rlpErr val := fst (decoder (S (length b)) TBytes (NewStream b)).

(** Whether the message was taken, the payload posted to the core, or an error. *)
Definition HandleMsg (addr : bytes) (code : Z) (raw : bytes) (b : backend) : (bool * result handleErr (option bytes)) * backend :=
  if negb (code =? istanbulMsg) then ((false, Ok None), b)
  else if negb (coreStarted b) then ((true, Err ErrStoppedEngine), b)
  else
    match decode_payload raw with
    | Ok (VBytes data) =>
        let hash := payload_hash data in
        let '(m, p) := peer_entry addr (recentMessages b) in
        let p := cache_add addr (cache_add hash tt m) p in
        match cache_get hash (knownMessages b) with
        | (Some _, k) => ((true, Ok None), set_caches p k b)
        | (None, k) => ((true, Ok (Some data)), set_caches p (cache_add hash tt k) b)
        end
    | Ok _ | Err _ => ((true, Err errDecodeFailed), b)
    | Panic => ((true, Panic), b)
    | NoFuel => ((true, NoFuel), b)
    end.

(** The proposer that goes with the new block to the core. *)
Definition NewChainHead (SigToPub : bytes → bytes → option bytes) (block : Block) (b : backend) : option (result engineErr bytes) :=
  if coreStarted b then Some (ecrecover SigToPub (header block)) else None.

(** What [Start] hands to the core, which takes it without an error: the last number,
    its proposer and a block of the header only. *)
Inductive startErr := ErrStartedEngine | ErrAuthor (e : engineErr).
Definition Start (SigToPub : bytes → bytes → option bytes) (chain : ChainReader) (b : backend) :
    result startErr (Z * bytes * Block) * backend :=
  if coreStarted b then (Err ErrStartedEngine, b)
  else
    let cur := CurrentHeader chain in
    match (if 0 <? Number cur then ecrecover SigToPub cur else Ok emptyAddr) with
    | Ok lastProposer => (Ok (Number cur, lastProposer, NewBlockWithHeader cur), set_started true b)
    | Err e => (Err (ErrAuthor e), b)
    | Panic => (Panic, b)
    | NoFuel => (NoFuel, b)
    end.
Definition Stop (b : backend) : result handleErr unit * backend :=
  if negb (coreStarted b) then (Err ErrStoppedEngine, b) else (Ok tt, set_started false b).

(** ** api.go *)

Definition Propose (a : bytes) (auth : bool) (b : backend) : backend := set_candidates (<[a := auth]> (candidates b)) b.
Definition Discard (a : bytes) (b : backend) : backend := set_candidates (delete a (candidates b)) b.

(** ** A message is posted once *)

Lemma decode_payload_ends raw : (∃ data, decode_payload raw = Ok (VBytes data)) ∨ ∃ e, decode_payload raw = Err e.
Proof.
  unfold decode_payload. pose proof (decoder_ends TBytes (S (length raw)) eq_refl (NewStream raw)) as He.
  destruct (decoder (S (length raw)) TBytes (NewStream raw)) as [x s].
  specialize (He ltac:(done) I ltac:(unfold weight; simpl; lia)). destruct He as [_ He].
  destruct x as [v|e| |]; simpl; [|by eauto|done|done]. destruct He as [He _]. destruct v; simpl in He; try done. by eauto.
Qed.

Lemma HandleMsg_known addr raw data b :
  coreStarted b = true → decode_payload raw = Ok (VBytes data) →
  is_Some (fst (cache_get (payload_hash data) (knownMessages b))) →
  fst (HandleMsg addr istanbulMsg raw b) = (true, Ok None).
Proof.
  intros Hs Hd [[] Hk]. unfold HandleMsg. rewrite Hs, Hd. simpl.
  destruct (peer_entry addr (recentMessages b)) as [m p].
  destruct (cache_get (payload_hash data) (knownMessages b)) as [o k]. simpl in Hk. by subst o.
Qed.

(** gossip in a started node ends and does not multiply.  A message of the Istanbul
    code is always taken, without a panic; its payload is posted to the core only
    if it decodes and was not known, and the next message with the same payload,
    from whatever peer, is not posted. *)
Theorem HandleMsg_posts_once `{!Retains K unit} addr raw b :
  coreStarted b = true →
  let '((taken, r), b') := HandleMsg addr istanbulMsg raw b in
  taken = true ∧ ¬ is_crash r ∧
  (∀ data, r = Ok (Some data) ↔
     decode_payload raw = Ok (VBytes data) ∧ fst (cache_get (payload_hash data) (knownMessages b)) = None) ∧
  (∀ data addr' raw', decode_payload raw = Ok (VBytes data) → decode_payload raw' = Ok (VBytes data) →
     fst (HandleMsg addr' istanbulMsg raw' b') = (true, Ok None)).
Proof.
  intros Hs. unfold HandleMsg at 1. rewrite Hs. simpl.
  destruct (decode_payload_ends raw) as [[data Hd]|[e He]].
  2: { rewrite He. split_and!; [done|apply Err_no_crash|naive_solver|naive_solver]. }
  rewrite Hd. destruct (peer_entry addr (recentMessages b)) as [m p].
  pose proof (cache_get_keeps (payload_hash data) (knownMessages b)) as Hkeep.
  destruct (cache_get (payload_hash data) (knownMessages b)) as [[[]|] k] eqn:Ek; simpl in Hkeep.
  - split_and!; [done|apply Ok_no_crash| |].
    + intros d. split; [done|]. intros [[= <-] Hn]. by rewrite Ek in Hn.
    + intros d addr' raw' [= <-] Hd'. eapply HandleMsg_known; [done|exact Hd'|]. simpl. rewrite Hkeep. by eexists.
  - split_and!; [done|apply Ok_no_crash| |].
    + intros d. split; [intros [= <-]; by rewrite Ek|by intros [[= <-] _]].
    + intros d addr' raw' [= <-] Hd'. eapply HandleMsg_known; [done|exact Hd'|]. simpl. rewrite cache_add_get. by eexists.
Qed.

End messages.

#[global] Instance map_retains V : Retains (gmap bytes V) V.
Proof. split; [intros k v c; apply lookup_insert_eq|done]. Qed.

Definition sample_backend : backend (K := gmap bytes unit) (P := gmap bytes (gmap bytes unit)) :=
  mkBackendState signer1 true ∅ ∅ ∅.

Lemma HandleMsg_posts_once_witness :
  let b' := snd (HandleMsg ∅ other istanbulMsg [x82; x01; x02] sample_backend) in
  fst (HandleMsg ∅ signer1 istanbulMsg [x82; x01; x02] b') = (true, Ok None).
Proof.
  pose proof (HandleMsg_posts_once (K := gmap bytes unit) (P := gmap bytes (gmap bytes unit)) ∅ other [x82; x01; x02] sample_backend eq_refl) as Hp.
  destruct (HandleMsg ∅ other istanbulMsg [x82; x01; x02] sample_backend) as [[taken r] b'].
  destruct Hp as (_ & _ & _ & Hp). cbv zeta. simpl snd. exact (Hp [x01; x02] signer1 [x82; x01; x02] eq_refl eq_refl).
Defined.

End Backend.
