(* ===== verification/IstSealing.v ===== *)
(** From a prepared header to an accepted block (src/consensus/istanbul/backend).

    On a canonical chain, what a validator prepares and seals is accepted by
    [Verify] as a proposal, and with committed seals of more than 2F validators
    [VerifyHeader] accepts the block. *)

From S2P Require Import Prelude RlpEncode RlpRaw RlpDecode RlpRoundtrip RlpTotal KeccakF Sha3 CoreTypes.
From S2P Require Import IstValidator IstTypes IstCore IstSnapshot IstEngine IstComplete IstBackend.

Module Sealing.
Import Rlp Raw Dec Roundtrip Total Codec Types Validator Ist Snapshot Engine Complete Backend.

#[local] Opaque nilUncleHash hash256.

(** ** The validators of a snapshot, listed *)

Lemma exchange_perm x l : let '(m, l') := exchange x l in x :: l ≡ₚ m :: l'.
Proof.
  revert x. induction l as [|y l IH]; intros x; simpl; [done|]. destruct (bytes_lt y x).
  - specialize (IH y). destruct (exchange y l) as [m l']. rewrite IH. apply perm_swap.
  - specialize (IH x). destruct (exchange x l) as [m l']. rewrite perm_swap, IH. apply perm_swap.
Qed.

Lemma exchange_sort_perm fuel l : exchange_sort fuel l ≡ₚ l.
Proof.
  revert l. induction fuel as [|fuel IH]; intros [|x l]; simpl; try done.
  pose proof (exchange_perm x l) as Hp. destruct (exchange x l) as [m l']. by rewrite IH, Hp.
Qed.

Lemma snap_validators_perm s : snap_validators s ≡ₚ validators (ValSet s).
Proof. apply exchange_sort_perm. Qed.

Section sealing.
Context {C D : Type} `{Cache C Snapshot} `{Database D}.
Context (SigToPub : bytes → bytes → option bytes) (Sign : bytes → option bytes) (address : bytes).
Context (config : EngineConfig) (chain : ChainReader).
Context (g : Header) (e0 : IstanbulExtra) (hs : list Header).

Notation EState := (EngineState (C:=C) (D:=D)).
Notation n := (length hs).
Notation canonical now := (canonical (D:=D) SigToPub config chain now g e0 hs).
Notation agree := (agree (C:=C) (D:=D) SigToPub config g e0 hs).

(** The last block, and the voting up to it. *)
Context (parent : Header) (S : Snapshot).
Context (Hparent : header_at g hs n = Some parent) (HS : voting_at SigToPub config g e0 hs n = Ok S).

(** A sealed header that follows the last block. *)
Record sealed (h : Header) (e : IstanbulExtra) : Prop := {
  sl_parent : ParentHash h = hash_at g hs n;
  sl_number : u64 (Number h) = Z.of_nat n + 1;
  sl_digest : MixDigest h = IstanbulDigest;
  sl_uncles : UncleHash h = nilUncleHash;
  sl_difficulty : Difficulty h = defaultDifficulty;
  sl_nonce : Nonce h ∈ [emptyNonce; nonceAuthVote; nonceDropVote];
  sl_time : u64 (u64 (Time parent) + BlockPeriod config) ≤ u64 (Time h);
  sl_extra : ExtractIstanbulExtra h = Ok e;
  sl_signer : signer_ok SigToPub S h }.

Lemma sealed_fields now h e : sealed h e → Time h ≤ now → verify_fields now h = Ok tt.
Proof.
  intros Hs Ht. unfold verify_fields. destruct (Z.ltb_spec now (Time h)); [lia|].
  rewrite (sl_extra _ _ Hs), (sl_digest _ _ Hs), (sl_uncles _ _ Hs), (sl_difficulty _ _ Hs).
  rewrite (bool_decide_true (IstanbulDigest = IstanbulDigest)), (bool_decide_true (nilUncleHash = nilUncleHash)) by done.
  pose proof (sl_nonce _ _ Hs) as Hn. rewrite !elem_of_cons in Hn.
  destruct Hn as [->|[->|[->|[]%not_elem_of_nil]]]; reflexivity.
Qed.

Lemma sealed_verdict now h e : sealed h e → Time h ≤ now → verdict SigToPub config now parent S h = check_seals SigToPub S h.
Proof.
  intros Hs Ht. unfold verdict. rewrite (sealed_fields now h e Hs Ht). cbn [rbind].
  pose proof (sl_time _ _ Hs). destruct (Z.ltb_spec (u64 (Time h)) (u64 (u64 (Time parent) + BlockPeriod config))); [lia|].
  by rewrite (proj2 (check_signer_spec SigToPub S h) (sl_signer _ _ Hs)).
Qed.

Lemma sealed_VerifyHeader now h e st :
  canonical now → sealed h e → Time h ≤ now → agree st →
  ∃ st', VerifyHeader SigToPub config chain now h st = (check_seals SigToPub S h, st') ∧ agree st'.
Proof.
  intros Hcan Hs Ht Ha. rewrite <- (sealed_verdict now h e Hs Ht).
  apply (verifyHeader_verdict SigToPub config chain now g e0 hs Hcan h n parent S st Ha); [lia|done|apply Hs|apply Hs|done].
Qed.

(** Without committed seals it is accepted as a proposal. *)
Lemma sealed_Verify now until b e st :
  canonical now → sealed (header b) e → CommittedSeal e = [] → Time (header b) ≤ now → agree st →
  ∃ st', Verify SigToPub config chain now until b st = (Ok Core.VerifyOk, st').
Proof.
  intros Hcan Hs Hc Ht Ha. destruct (sealed_VerifyHeader now _ e st Hcan Hs Ht Ha) as (st' & E & _).
  exists st'. unfold Verify. rewrite E. unfold check_seals. rewrite (proj2 (extract_Ok _ e) (sl_extra _ _ Hs)). cbn [rbind].
  by rewrite bool_decide_true.
Qed.

Lemma write_extra_set h e h' : write_extra h e = Ok h' → ∃ x, h' = set_Extra x h.
Proof.
  unfold write_extra. destruct (encode e) as [payload| | |]; intros E; [|discriminate E..].
  injection E as <-. by exists (take IstanbulExtraVanity (Extra h) ++ payload).
Qed.

Lemma sealed_write h e seals h' :
  sealed h e → extra_small (with_CommittedSeal seals e) → write_extra h (with_CommittedSeal seals e) = Ok h' →
  sealed h' (with_CommittedSeal seals e) ∧ Time h' = Time h.
Proof.
  intros [] Hsm E. destruct (write_extra_spec h e (with_CommittedSeal seals e) h' sl_extra0 eq_refl Hsm E) as (He & _ & _).
  pose proof (sigHash_write h e (with_CommittedSeal seals e) h' sl_extra0 eq_refl Hsm E) as Hsig.
  destruct (write_extra_set _ _ _ E) as [x ->].
  split; [|reflexivity]. split; try assumption. destruct sl_signer0 as (a & Ea & Hin). exists a. split; [|exact Hin].
  revert Ea. unfold ecrecover. rewrite sl_extra0, He, Hsig. exact id.
Qed.

(** With the seals of a quorum it is accepted as a block of the same hash. *)
Lemma sealed_Commit now inserter b e seals addrs st :
  canonical now → consistent S → sealed (header b) e → Time (header b) ≤ now → agree st →
  extra_small (with_CommittedSeal seals e) → seals ≠ [] → Forall (fun seal => length seal = IstanbulExtraSeal) seals →
  sealed_by SigToPub (validators (ValSet S)) (PrepareCommittedSeal (block_Hash b)) seals addrs →
  2 * F (ValSet S) < zlen addrs →
  ∃ b', Commit inserter (block_Hash b) b seals = Ok (Some (ToSeal b')) ∧ block_Hash b' = block_Hash b ∧
    ∃ st', VerifyHeader SigToPub config chain now (header b') st = (Ok tt, st').
Proof.
  intros Hcan [Hv _] Hs Ht Ha Hsm Hne Hl Hby HF.
  destruct (written_seals_accepted SigToPub S (header b) e seals addrs Hv (sl_extra _ _ Hs) (sl_digest _ _ Hs) Hsm Hne Hl Hby HF)
    as (h' & Ew & Ex & Eh & Ec).
  destruct (sealed_write (header b) e seals h' Hs Hsm Ex) as [Hs' Ht'].
  exists (WithSeal b h'). split.
  - unfold Commit. rewrite Ew. cbn [rbind]. by rewrite bool_decide_true by (unfold block_Hash; simpl; by rewrite Eh).
  - split; [done|]. destruct (sealed_VerifyHeader now h' _ st Hcan Hs') as (st' & E & _); [by rewrite Ht'|done|].
    exists st'. simpl. by rewrite E, Ec.
Qed.

(** ** Preparing and sealing *)

(** The clock and the periods are far from the end of their range, and the pause of
    an empty block is no shorter than the period, as config.go asks. *)
Record timing (now : Z) : Prop := {
  tm_now : 0 ≤ now < 2 ^ 62;
  tm_parent : 0 ≤ Time parent < 2 ^ 61;
  tm_period : 0 ≤ BlockPeriod config;
  tm_pause : BlockPeriod config ≤ BlockPauseTime config < 2 ^ 61 }.

(** The key's signatures have 65 bytes and recover to the node's address. *)
Definition signs : Prop :=
  ∀ data, ∃ sig, Sign data = Some sig ∧ length sig = IstanbulExtraSeal ∧ GetSignatureAddress SigToPub data sig = Some address.

(** The addresses of the voting are 20 bytes, and fewer than 2^32. *)
Definition plain_validators : Prop :=
  Forall (fun a => length a = AddressLength) (validators (ValSet S)) ∧ zlen (validators (ValSet S)) < 2 ^ 32.

Record prepared (h : Header) : Prop := {
  pr_parent : ParentHash h = hash_at g hs n;
  pr_number : u64 (Number h) = Z.of_nat n + 1;
  pr_digest : MixDigest h = IstanbulDigest;
  pr_difficulty : Difficulty h = defaultDifficulty;
  pr_nonce : Nonce h ∈ [emptyNonce; nonceAuthVote; nonceDropVote];
  pr_extra : ∃ vals, vals ≡ₚ validators (ValSet S) ∧ ExtractIstanbulExtra h = Ok (mkExtra vals [] []) }.

Lemma snapshot_at_finds now st :
  canonical now → agree st →
  ∃ s st', snapshot_at SigToPub config chain now (Z.of_nat n) (hash_at g hs n) st = (Ok s, st') ∧ agree st' ∧ s ≡ S.
Proof.
  intros Hcan Ha. assert (accepts g (VerifyHeader (C:=C) SigToPub config chain now)) as Hacc.
  { intros st0. unfold VerifyHeader. rewrite verifyHeader_S. unfold bind, lift. rewrite (can_fields _ _ _ _ _ _ _ Hcan).
    unfold verifyCascadingFields. by rewrite (can_zero _ _ _ _ _ _ _ Hcan). }
  destruct (snapshot_finds SigToPub config chain now g e0 hs Hcan _ n st Hacc) as (s & s' & st' & E & Ha' & E' & Hs); [lia|done|].
  exists s, st'. split_and!; [exact E|exact Ha'|]. by rewrite HS in E'; injection E' as <-.
Qed.

Lemma prepareExtra_Ok h vals :
  Forall (fun a => length a = AddressLength) vals → extra_small (mkExtra vals [] []) →
  ∃ x, prepareExtra h vals = Ok x ∧ ∀ h', ExtractIstanbulExtra (set_Extra x h') = Ok (mkExtra vals [] []).
Proof.
  intros Hl Hs. destruct (encode_decode (mkExtra vals [] []) (extra_encodable (mkExtra vals [] []) Hl Hs)) as (bs & Eb & Ed).
  unfold prepareExtra. rewrite Eb. eexists. split; [reflexivity|]. intros h'. unfold ExtractIstanbulExtra. simpl Extra.
  set (v := take _ _). assert (length v = IstanbulExtraVanity) as Hv.
  { unfold v. rewrite length_take, length_app, length_replicate. lia. }
  rewrite length_app, Hv, drop_app_length' by done. rewrite Ed.
  by destruct (Nat.ltb_spec (IstanbulExtraVanity + length bs) IstanbulExtraVanity); [lia|].
Qed.

Lemma pick_vote_fields pick cands snap h :
  Nonce h ∈ [emptyNonce; nonceAuthVote; nonceDropVote] →
  ∃ a k, pick_vote pick cands snap h = set_vote a k h ∧ k ∈ [emptyNonce; nonceAuthVote; nonceDropVote].
Proof.
  intros Hn. unfold pick_vote. destruct (_ !! _) as [[a auth]|].
  - exists a, (if auth then nonceAuthVote else nonceDropVote). split; [done|]. destruct auth; set_solver.
  - exists (Coinbase h), (Nonce h). split; [by destruct h|done].
Qed.

Lemma Prepare_Ok now pick cands h st :
  canonical now → agree st → plain_validators → ParentHash h = hash_at g hs n → u64 (Number h) = Z.of_nat n + 1 →
  ∃ h1 st1, Prepare SigToPub config chain now pick cands h st = (Ok h1, st1) ∧ agree st1 ∧ prepared h1.
Proof.
  intros Hcan Ha [Hl Hsz] HP HN. unfold Prepare. cbn [set_vote set_consensus ParentHash Number MixDigest]. rewrite HN, HP.
  replace (u64 (Z.of_nat n + 1 - 1)) with (Z.of_nat n).
  2: { pose proof (u64_range (Number h)). rewrite u64_small; lia. }
  destruct (parent_found SigToPub config chain now g e0 hs Hcan n h parent) as (Ep & _); [lia|done|done|done|].
  unfold parent_of in Ep. simpl in Ep. rewrite HN, HP in Ep. replace (Z.of_nat n + 1 - 1) with (Z.of_nat n) in Ep by lia.
  rewrite Ep. unfold bind at 1. destruct (snapshot_at_finds now st Hcan Ha) as (s & st1 & -> & Ha1 & Hs).
  match goal with |- context [pick_vote pick cands s ?x] =>
    destruct (pick_vote_fields pick cands s x) as (a & k & Epick & Hk); [apply elem_of_cons; by left|]
  end.
  rewrite Epick.
  assert (snap_validators s ≡ₚ validators (ValSet S)) as Hp.
  { rewrite snap_validators_perm. by destruct (ValSet_equiv s S Hs) as [-> _]. }
  assert (extra_small (mkExtra (snap_validators s) [] [])) as Hsm.
  { apply extra_small_bound; simpl; [by rewrite Hp|lia|constructor|by rewrite Hp|lia]. }
  unfold bind. match goal with |- context [prepareExtra ?x _] => set (h0 := x) end.
  destruct (prepareExtra_Ok h0 (snap_validators s)) as (x & -> & Hx); [by rewrite Hp|exact Hsm|].
  eexists _, st1. split; [reflexivity|]. split; [exact Ha1|].
  split; [exact HP|exact HN|reflexivity|reflexivity|exact Hk|]. exists (snap_validators s). by split.
Qed.

(** The time of a sealed block. *)
Lemma sealed_time now period :
  timing now → period = BlockPeriod config ∨ period = BlockPauseTime config →
  ∀ h, let t := Time (if i64 (Time (set_Time (Time parent + period) h)) <? now
                      then set_Time now (set_Time (Time parent + period) h) else set_Time (Time parent + period) h) in
  u64 (u64 (Time parent) + BlockPeriod config) ≤ u64 t.
Proof.
  intros [] Hp h. simpl. rewrite i64_small by (destruct Hp; lia). rewrite (u64_small (Time parent)) by lia.
  rewrite (u64_small (Time parent + BlockPeriod config)) by lia.
  destruct (Z.ltb_spec (Time parent + period) now); simpl; rewrite u64_small by (destruct Hp; lia); destruct Hp; lia.
Qed.

Lemma writeSeal_total h e sig :
  ExtractIstanbulExtra h = Ok e → length sig = IstanbulExtraSeal → extra_small (with_Seal sig e) →
  ∃ h', writeSeal h sig = Ok h' ∧ write_extra h (with_Seal sig e) = Ok h'.
Proof.
  intros He Hl Hs. destruct (encode_extra_Ok (with_Seal sig e)) as [payload Ep]; [exact (ExtractIstanbulExtra_lengths h e He)|].
  exists (set_Extra (take IstanbulExtraVanity (Extra h) ++ payload) h).
  assert (write_extra h (with_Seal sig e) = Ok (set_Extra (take IstanbulExtraVanity (Extra h) ++ payload) h)) as Ew
    by (unfold write_extra; by rewrite Ep).
  split; [|exact Ew]. unfold writeSeal. rewrite Hl. change (negb (IstanbulExtraSeal mod IstanbulExtraSeal =? 0)%nat) with false.
  cbv iota. rewrite (proj2 (extract_Ok h _) He). exact Ew.
Qed.

Lemma updateBlock_Ok now b :
  timing now → signs → plain_validators → address ∈ validators (ValSet S) →
  prepared (header b) → UncleHash (header b) = nilUncleHash →
  ∃ b' e, updateBlock Sign config now parent b = Ok b' ∧ sealed (header b') e ∧ CommittedSeal e = [] ∧
    Types.Validators e ≡ₚ validators (ValSet S) ∧ Seal e ≠ [] ∧ zlen (Seal e) ≤ 65.
Proof.
  intros Ht Hsg [Hl Hsz] Hin [HP HN HM HD Hk (vals & Hp & He)] HU. unfold updateBlock.
  set (period := match transactions b with [] => _ | _ => _ end).
  assert (period = BlockPeriod config ∨ period = BlockPauseTime config) as Hper by (subst period; destruct (transactions b); auto).
  pose proof (sealed_time now period Ht Hper (header b)) as Hst. cbv zeta in Hst.
  set (h := if i64 _ <? now then _ else _) in *.
  assert (∃ t, h = set_Time t (header b)) as [t Eh] by (subst h; destruct (_ <? now); by eexists).
  clearbody h. subst h. destruct (Hsg (sigHash (set_Time t (header b)))) as (sig & -> & Hlen & Hrec).
  set (h := set_Time t (header b)) in *.
  assert (ExtractIstanbulExtra h = Ok (mkExtra vals [] [])) as He' by exact He.
  assert (extra_small (with_Seal sig (mkExtra vals [] []))) as Hsm.
  { apply extra_small_bound; simpl; [by rewrite Hp|rewrite Hlen; unfold IstanbulExtraSeal; lia|constructor|by rewrite Hp|lia]. }
  destruct (writeSeal_total h _ sig He' Hlen Hsm) as (h' & -> & Ew). cbn [rbind].
  destruct (write_extra_spec h _ (with_Seal sig (mkExtra vals [] [])) _ He' eq_refl Hsm Ew) as (Hx & _ & _).
  pose proof (sigHash_write h _ (with_Seal sig (mkExtra vals [] [])) _ He' eq_refl Hsm Ew) as Hsig.
  destruct (write_extra_set _ _ _ Ew) as [x ->].
  eexists _, (with_Seal sig (mkExtra vals [] [])). split; [reflexivity|]. split.
  2: { split; [reflexivity|]. split; [exact Hp|]. simpl. unfold IstanbulExtraSeal in Hlen. split; [by intros ->|lia]. }
  split; [exact HP|exact HN|exact HM|exact HU|exact HD|exact Hk|exact Hst|exact Hx|].
  exists address. split; [|exact Hin]. unfold ecrecover. simpl header. rewrite Hx, Hsig. simpl. by rewrite Hrec.
Qed.

Lemma Seal_propose_Ok now b st :
  canonical now → agree st → timing now → signs → plain_validators → address ∈ validators (ValSet S) →
  prepared (header b) → UncleHash (header b) = nilUncleHash →
  ∃ b' e st', Seal_propose SigToPub Sign address config chain now b st = (Ok b', st') ∧ sealed (header b') e ∧
    CommittedSeal e = [] ∧ Types.Validators e ≡ₚ validators (ValSet S) ∧ zlen (Seal e) ≤ 65.
Proof.
  intros Hcan Ha Ht Hsg Hpl Hin Hpr HU. pose proof (pr_parent _ Hpr) as HP. pose proof (pr_number _ Hpr) as HN.
  destruct (updateBlock_Ok now b Ht Hsg Hpl Hin Hpr HU) as (b' & e & Eu & Hs & Hc & HV & _ & Hsl).
  unfold Seal_propose. rewrite HN, HP. replace (u64 (Z.of_nat n + 1 - 1)) with (Z.of_nat n).
  2: { pose proof (u64_range (Number (header b))). rewrite u64_small; lia. }
  unfold bind. destruct (snapshot_at_finds now st Hcan Ha) as (s & st1 & -> & _ & Hss).
  destruct (ValSet_equiv s S Hss) as [HVs _].
  rewrite (proj2 (GetByAddress_Some (ValSet s) address address)) by (split; [done|by rewrite HVs]).
  destruct (parent_found SigToPub config chain now g e0 hs Hcan n (header b) parent) as (Ep & _); [lia|done|done|done|].
  unfold parent_of in Ep. simpl in Ep. rewrite HN, HP in Ep. replace (Z.of_nat n + 1 - 1) with (Z.of_nat n) in Ep by lia.
  rewrite Ep. unfold lift. rewrite Eu. exists b', e, st1. by split_and!.
Qed.

Lemma canonical_later now now' : now ≤ now' → canonical now → canonical now'.
Proof.
  intros Hle [? ? Hf ? ? ? ? ? ? ? ? ?]. split; try assumption. revert Hf. unfold verify_fields.
  destruct (Z.ltb_spec now (Time g)); [discriminate|]. destruct (Z.ltb_spec now' (Time g)); [lia|]. exact id.
Qed.

(** A block built on a prepared header: state root, transactions and receipts are
    filled in, what consensus looks at stays. *)
Record assembled (h : Header) (b : Block) : Prop := {
  as_parent : ParentHash (header b) = ParentHash h;
  as_number : Number (header b) = Number h;
  as_digest : MixDigest (header b) = MixDigest h;
  as_difficulty : Difficulty (header b) = Difficulty h;
  as_nonce : Nonce (header b) = Nonce h;
  as_extra : Extra (header b) = Extra h;
  as_uncles : UncleHash (header b) = nilUncleHash }.

Lemma assembled_prepared h b : prepared h → assembled h b → prepared (header b).
Proof.
  intros [HP HN HM HD Hk (vals & Hp & He)] [EP EN EM ED Ek Ee EU]. split; [congruence..|exists vals; split; [exact Hp|]].
  revert He. unfold ExtractIstanbulExtra. by rewrite Ee.
Qed.

(** C9: a validator's block gets accepted.  On a canonical chain, with a key that signs
    for its address, a validator can prepare a header on the last block and seal
    any block assembled on it; from the block's time on every node on that chain
    accepts it as a proposal, and once it carries seals of more than 2F validators
    on its hash, the waiting [Seal] gets it and every such node accepts it as a
    block. *)
Theorem sealed_block_is_accepted now pick cands h st :
  canonical now → agree st → timing now → signs → plain_validators → address ∈ validators (ValSet S) →
  ParentHash h = hash_at g hs n → u64 (Number h) = Z.of_nat n + 1 →
  ∃ h1 st1, Prepare SigToPub config chain now pick cands h st = (Ok h1, st1) ∧
  ∀ b, assembled h1 b →
  ∃ b1 st2, Seal_propose SigToPub Sign address config chain now b st1 = (Ok b1, st2) ∧
  ∀ now' st', now ≤ now' → Time (header b1) ≤ now' → agree st' →
  (∀ until, ∃ st'', Verify SigToPub config chain now' until b1 st' = (Ok Core.VerifyOk, st'')) ∧
  ∀ inserter seals addrs,
    Forall (fun seal => length seal = IstanbulExtraSeal) seals → zlen seals < 2 ^ 32 →
    sealed_by SigToPub (validators (ValSet S)) (PrepareCommittedSeal (block_Hash b1)) seals addrs →
    2 * F (ValSet S) < zlen addrs →
    ∃ b2, Commit inserter (block_Hash b1) b1 seals = Ok (Some (ToSeal b2)) ∧ Seal_wait b1 [b2] = Some b2 ∧
      ∃ st'', VerifyHeader SigToPub config chain now' (header b2) st' = (Ok tt, st'').
Proof.
  intros Hcan Ha Ht Hsg Hpl Hin HP HN.
  destruct (Prepare_Ok now pick cands h st Hcan Ha Hpl HP HN) as (h1 & st1 & E1 & Ha1 & Hpr).
  exists h1, st1. split; [exact E1|]. intros b Hb. pose proof (assembled_prepared h1 b Hpr Hb) as Hprb.
  destruct (Seal_propose_Ok now b st1 Hcan Ha1 Ht Hsg Hpl Hin Hprb (as_uncles _ _ Hb)) as (b1 & e & st2 & E2 & Hs & Hc & HV & Hsl).
  exists b1, st2. split; [exact E2|]. intros now' st' Hle Hnow Ha'. pose proof (canonical_later now now' Hle Hcan) as Hcan'. split.
  - intros u. exact (sealed_Verify now' u b1 e st' Hcan' Hs Hc Hnow Ha').
  - intros inserter seals addrs H65 Hnum Hby HF.
    assert (seals ≠ []) as Hne.
    { destruct Hby as (H2 & _ & _). apply Forall2_length in H2. intros ->. simpl in H2. rewrite <- H2 in HF.
      apply list_elem_of_lookup in Hin as [i Hi]. apply lookup_lt_Some in Hi. unfold F, Size in HF.
      pose proof (Z.div_le_mono 3 (zlen (validators (ValSet S)) + 2) 3). simpl in *. lia. }
    assert (consistent S) as Hcs.
    { eapply apply_consistent; [|exact HS]. exact (start_consistent SigToPub config chain now g e0 hs Hcan). }
    assert (extra_small (with_CommittedSeal seals e)) as Hsm.
    { destruct Hpl as [Hl Hsz]. apply extra_small_bound; simpl; [by rewrite HV|exact Hsl|exact H65|by rewrite HV|exact Hnum]. }
    destruct (sealed_Commit now' inserter b1 e seals addrs st' Hcan' Hcs Hs Hnow Ha' Hsm Hne H65 Hby HF) as (b2 & E & Eh & Ev).
    exists b2. split; [exact E|]. split; [|exact Ev]. simpl. by rewrite bool_decide_true.
Qed.

End sealing.

(** The one validator of the sample chain, on its genesis block. *)
Definition sample_Sign (_ : bytes) : option bytes := Some (replicate 65 x01).
Definition sample_S : Snapshot := genesis_of sample_config genesis (mkExtra [signer1] [] []).

Lemma sample_signs : signs first_key sample_Sign signer1.
Proof.
  intros data. exists (replicate 65 x01). split; [reflexivity|]. split; [reflexivity|].
  unfold GetSignatureAddress. simpl first_key. cbv iota beta. vm_cast_no_check (eq_refl (Some signer1)).
Qed.

Lemma sealed_block_is_accepted_witness :
  ∃ h1 st1, Prepare first_key sample_config sample_chain 100 (fun _ => 0%nat) [] block1_header sample_state = (Ok h1, st1) ∧
  ∀ b, assembled h1 b →
  ∃ b1 st2, Seal_propose first_key sample_Sign signer1 sample_config sample_chain 100 b st1 = (Ok b1, st2).
Proof.
  destruct (sealed_block_is_accepted first_key sample_Sign signer1 sample_config sample_chain genesis (mkExtra [signer1] [] []) []
    genesis sample_S eq_refl eq_refl 100 (fun _ => 0%nat) [] block1_header sample_state sample_canonical) as (h1 & st1 & E & Hb).
  - intros i s _ E. simpl in E. rewrite lookup_empty in E. discriminate E.
  - split; simpl; lia.
  - exact sample_signs.
  - split; [|simpl; lia]. repeat constructor.
  - apply elem_of_cons. left. reflexivity.
  - simpl hash_at. rewrite genesis_hash_eq. reflexivity.
  - reflexivity.
  - exists h1, st1. split; [exact E|]. intros b Hab. destruct (Hb b Hab) as (b1 & st2 & E2 & _). exists b1, st2. exact E2.
Defined.

End Sealing.
