(* ===== verification/TrieEncoding.v ===== *)
(** The three encodings of trie keys (src/trie/encoding.go): the bytes of the key,
    one byte per nibble with a terminator (hex), and the hex-prefix encoding of
    the nodes in the database (compact).

    A function that would index out of range returns [None]. *)

From S2P Require Import Prelude.

Module TrieEncoding.

(** ** encoding.go *)

Definition terminator : byte := x10.

Definition hasTerm (s : bytes) : bool :=
  match last s with Some b => bool_decide (b = terminator) | None => false end.

(** [nibbles[ni]<<4 | nibbles[ni+1]], for the bytes of the result in turn. *)
Fixpoint decodeNibbles (nibbles : bytes) : option bytes :=
  match nibbles with
  | [] => Some []
  | [_] => None
  | a :: b :: nibbles =>
      bs ← decodeNibbles nibbles;
      Some (zb (Z.lor (bz (zb (Z.shiftl (bz a) 4))) (bz b)) :: bs)
  end.

Definition chop_term (hex : bytes) : bytes := take (length hex - 1) hex.

Definition hexToCompact (hex : bytes) : option bytes :=
  let t := if hasTerm hex then 1 else 0 in
  let hex := if hasTerm hex then chop_term hex else hex in
  let flag := Z.shiftl t 5 in
  match Nat.odd (length hex), hex with
  | true, x :: hex =>
      bs ← decodeNibbles hex;
      Some (zb (Z.lor (Z.lor flag (Z.shiftl 1 4)) (bz x)) :: bs)
  | _, _ =>
      bs ← decodeNibbles hex;
      Some (zb flag :: bs)
  end.

Definition keybytesToHex (str : bytes) : bytes :=
  flat_map (fun b => [zb (bz b / 16); zb (bz b mod 16)]) str ++ [terminator].

Definition compactToHex (compact : bytes) : option bytes :=
  match chop_term (keybytesToHex compact) with
  | [] => None
  | b :: _ =>
      let base := chop_term (keybytesToHex compact) in
      let base := if 2 <=? bz b then base ++ [terminator] else base in
      Some (drop (Z.to_nat (2 - Z.land (bz b) 1)) base)
  end.

Definition hexToKeybytes (hex : bytes) : option bytes :=
  let hex := if hasTerm hex then chop_term hex else hex in
  if Nat.odd (length hex) then None else decodeNibbles hex.

Fixpoint prefixLen (a b : bytes) : nat :=
  match a, b with
  | x :: a, y :: b => if bool_decide (x = y) then S (prefixLen a b) else O
  | _, _ => O
  end.

(** ** Nibbles and keys *)

Definition nibble (b : byte) : Prop := bz b < 16.
Definition nibbles (k : bytes) : Prop := Forall nibble k.

(** The hex keys of values: nibbles and the terminator. *)
Definition hexkey (k : bytes) : Prop := ∃ l, nibbles l ∧ k = l ++ [terminator].

Lemma terminator_not_nibble : ¬ nibble terminator.
Proof. unfold nibble, terminator. by compute. Qed.

Lemma nibbles_app k1 k2 : nibbles (k1 ++ k2) ↔ nibbles k1 ∧ nibbles k2.
Proof. apply Forall_app. Qed.

Lemma nibbles_no_term k : nibbles k → terminator ∉ k.
Proof. intros Hk Hin. apply terminator_not_nibble. by eapply Forall_forall in Hin. Qed.

Lemma chop_term_snoc k b : chop_term (k ++ [b]) = k.
Proof. unfold chop_term. rewrite length_app. simpl. by rewrite Nat.add_sub, take_app_length. Qed.

Lemma hasTerm_snoc k b : hasTerm (k ++ [b]) = bool_decide (b = terminator).
Proof. unfold hasTerm. by rewrite last_snoc. Qed.

Lemma hasTerm_nibbles k : nibbles k → hasTerm k = false.
Proof.
  intros Hk. destruct k as [|b k _] using rev_ind; [done|]. rewrite hasTerm_snoc. apply bool_decide_false. intros ->.
  apply nibbles_app in Hk as [_ Hk]. apply Forall_cons in Hk as [Hk _]. by apply terminator_not_nibble.
Qed.

Lemma nibble_join a b : nibble a → nibble b → zb (Z.lor (bz (zb (Z.shiftl (bz a) 4))) (bz b)) = zb (16 * bz a + bz b).
Proof.
  unfold nibble. intros Ha Hb. pose proof (bz_range a). pose proof (bz_range b). f_equal.
  rewrite Z.shiftl_mul_pow2 by lia. rewrite bz_zb_small by lia. change (2 ^ 4) with 16.
  rewrite <- Z.add_lor_land, (Z.mul_comm (bz a)).
  replace (Z.land (16 * bz a) (bz b)) with 0; [lia|]. symmetry. apply Z.bits_inj_0. intros i. rewrite Z.land_spec.
  destruct (Z.ltb_spec i 4) as [Hi|Hi].
  - replace (16 * bz a) with (bz a * 2 ^ 4) by lia. destruct (Z.ltb_spec i 0) as [Hn|Hn]; [by rewrite Z.testbit_neg_r|].
    by rewrite Z.mul_pow2_bits_low by lia.
  - destruct (Z.eqb_spec (bz b) 0) as [->|]; [by rewrite Z.bits_0, andb_false_r|].
    rewrite (Z.bits_above_log2 (bz b)); [by rewrite andb_false_r|lia|].
    apply Z.lt_le_trans with 4; [apply Z.log2_lt_pow2; lia|lia].
Qed.

Lemma split_join a b : nibble a → nibble b →
  zb (bz (zb (16 * bz a + bz b)) / 16) = a ∧ zb (bz (zb (16 * bz a + bz b)) mod 16) = b.
Proof.
  unfold nibble. intros Ha Hb. pose proof (bz_range a). pose proof (bz_range b). rewrite bz_zb_small by lia.
  replace ((16 * bz a + bz b) / 16) with (bz a) by (apply Z.div_unique with (bz b); lia).
  replace ((16 * bz a + bz b) mod 16) with (bz b) by (apply Z.mod_unique with (bz a); lia).
  by rewrite !zb_bz.
Qed.

Definition bytes_nibbles (str : bytes) : bytes := flat_map (fun b => [zb (bz b / 16); zb (bz b mod 16)]) str.

Lemma bytes_nibbles_ok str : nibbles (bytes_nibbles str).
Proof.
  induction str as [|b str IH]; [constructor|]. simpl. pose proof (bz_range b).
  repeat constructor; [| |exact IH]; unfold nibble.
  - rewrite bz_zb_small; [apply Z.div_lt_upper_bound; lia|]. split; [apply Z.div_pos; lia|apply Z.div_lt_upper_bound; lia].
  - pose proof (Z.mod_pos_bound (bz b) 16). rewrite bz_zb_small; lia.
Qed.

Lemma keybytesToHex_eq str : keybytesToHex str = bytes_nibbles str ++ [terminator].
Proof. done. Qed.

Lemma keybytesToHex_hexkey str : hexkey (keybytesToHex str).
Proof. exists (bytes_nibbles str). split; [apply bytes_nibbles_ok|done]. Qed.

Lemma pairs_ind (P : bytes → Prop) :
  P [] → (∀ x, P [x]) → (∀ a b l, P l → P (a :: b :: l)) → ∀ l, P l.
Proof.
  intros H0 H1 H2 l. enough (P l ∧ ∀ x, P (x :: l)) by tauto. induction l as [|y l [IH1 IH2]]; [by split|].
  split; [apply IH2|]. intros x. by apply H2.
Qed.

Lemma decodeNibbles_spec k :
  nibbles k → Nat.odd (length k) = false → ∃ bs, decodeNibbles k = Some bs ∧ bytes_nibbles bs = k.
Proof.
  induction k as [|x|a b k IH] using pairs_ind; intros Hk Ho; [by exists []|done|].
  apply Forall_cons in Hk as [Ha Hk]. apply Forall_cons in Hk as [Hb Hk].
  destruct IH as (bs & E & Hbs); [done|by rewrite <- Ho|]. simpl. rewrite E. simpl. rewrite nibble_join by done.
  eexists. split; [reflexivity|]. simpl. destruct (split_join a b Ha Hb) as [-> ->]. by rewrite Hbs.
Qed.

(** ** Round trips *)

(** A compact key with flag nibble [f] and second nibble [x]. *)
Lemma compactToHex_cons f x bs :
  nibble f → nibble x →
  compactToHex (zb (16 * bz f + bz x) :: bs) =
  Some (drop (Z.to_nat (2 - Z.land (bz f) 1)) (f :: x :: bytes_nibbles bs ++ if 2 <=? bz f then [terminator] else [])).
Proof.
  intros Hf Hx. unfold compactToHex. rewrite keybytesToHex_eq, chop_term_snoc. simpl.
  destruct (split_join f x Hf Hx) as [-> ->]. destruct (2 <=? bz f); [done|]. by rewrite app_nil_r.
Qed.

Lemma hexToCompact_split l t :
  nibbles l →
  hexToCompact (l ++ if (t : bool) then [terminator] else []) =
  let flag := Z.shiftl (if t then 1 else 0) 5 in
  match Nat.odd (length l), l with
  | true, x :: l => bs ← decodeNibbles l; Some (zb (Z.lor (Z.lor flag (Z.shiftl 1 4)) (bz x)) :: bs)
  | _, _ => bs ← decodeNibbles l; Some (zb flag :: bs)
  end.
Proof.
  intros Hl. unfold hexToCompact. destruct t.
  - by rewrite hasTerm_snoc, bool_decide_true, chop_term_snoc.
  - by rewrite app_nil_r, hasTerm_nibbles.
Qed.

Lemma compact_key l t :
  nibbles l →
  ∃ c, hexToCompact (l ++ if (t : bool) then [terminator] else []) = Some c ∧
    compactToHex c = Some (l ++ if t then [terminator] else []).
Proof.
  intros Hl. rewrite hexToCompact_split by done. cbv zeta.
  destruct (Nat.odd (length l)) eqn:Ho.
  - destruct l as [|x l]; [done|]. pose proof Hl as Hl'. apply Forall_cons in Hl as [Hx Hl].
    destruct (decodeNibbles_spec l Hl) as (bs & -> & Hbs).
    { simpl length in Ho. rewrite Nat.odd_succ, <- Nat.negb_odd in Ho. by apply negb_true_iff. }
    eexists. split; [reflexivity|].
    replace (zb (Z.lor _ (bz x))) with (zb (16 * bz (if t then x03 else x01) + bz x)).
    2: { rewrite <- nibble_join by (done || by destruct t). by destruct t. }
    rewrite compactToHex_cons by (done || by destruct t). rewrite Hbs. by destruct t.
  - destruct (decodeNibbles_spec l Hl Ho) as (bs & E & Hbs).
    assert (∃ c, match l with [] | _ => bs ← decodeNibbles l; Some (zb (Z.shiftl (if t then 1 else 0) 5) :: bs) end = Some c ∧
      compactToHex c = Some (l ++ (if t then [terminator] else []))) as (c & Ec & Hc).
    { rewrite E. eexists. split; [by destruct l|].
      replace (zb _) with (zb (16 * bz (if t then x02 else x00) + bz x00)) by by destruct t.
      rewrite compactToHex_cons by (done || by destruct t). rewrite Hbs. by destruct t. }
    exists c. split; [|done]. by destruct l.
Qed.

(** The hex keys of nodes: with a terminator for values, without for extensions. *)
Definition nodekey (k : bytes) : Prop := nibbles k ∨ hexkey k.

Lemma compact_roundtrip k : nodekey k → ∃ c, hexToCompact k = Some c ∧ compactToHex c = Some k.
Proof.
  intros [Hk|(l & Hl & ->)].
  - destruct (compact_key k false Hk) as (c & Hc). rewrite app_nil_r in Hc. by exists c.
  - exact (compact_key l true Hl).
Qed.

Lemma hexToCompact_inj k1 k2 c : nodekey k1 → nodekey k2 → hexToCompact k1 = Some c → hexToCompact k2 = Some c → k1 = k2.
Proof.
  intros H1 H2 E1 E2. destruct (compact_roundtrip k1 H1) as (c1 & F1 & G1). destruct (compact_roundtrip k2 H2) as (c2 & F2 & G2).
  congruence.
Qed.

Lemma bytes_nibbles_even str : Nat.odd (length (bytes_nibbles str)) = false.
Proof. induction str as [|b str IH]; [done|]. by rewrite <- IH. Qed.

Lemma decode_bytes_nibbles str : decodeNibbles (bytes_nibbles str) = Some str.
Proof.
  induction str as [|b str IH]; [done|]. simpl. rewrite IH. simpl. pose proof (bytes_nibbles_ok [b]) as Hn. simpl in Hn.
  apply Forall_cons in Hn as [Ha Hn]. apply Forall_cons in Hn as [Hb _]. rewrite nibble_join by done. do 2 f_equal.
  pose proof (bz_range b). pose proof (Z.div_mod (bz b) 16 ltac:(lia)) as Hd. pose proof (Z.mod_pos_bound (bz b) 16 ltac:(lia)).
  rewrite !bz_zb_small, <- Hd; [apply zb_bz|lia|]. split; [apply Z.div_pos; lia|apply Z.div_lt_upper_bound; lia].
Qed.

Lemma hexToKeybytes_keybytesToHex str : hexToKeybytes (keybytesToHex str) = Some str.
Proof.
  unfold hexToKeybytes. rewrite keybytesToHex_eq, hasTerm_snoc, bool_decide_true, chop_term_snoc by done.
  by rewrite bytes_nibbles_even, decode_bytes_nibbles.
Qed.

#[global] Instance keybytesToHex_Inj : Inj (=) (=) keybytesToHex.
Proof. intros a b E. pose proof (hexToKeybytes_keybytesToHex a) as H. rewrite E, hexToKeybytes_keybytesToHex in H. congruence. Qed.

(** the encodings of keys are invertible.  The compact form of every key that a
    node can have, of nibbles with or without the terminator, exists and reads
    back as that key, different keys have different compact forms, and the bytes
    of a key read back from its hex form; but the empty string, which decodes as
    the key of no node, makes [compactToHex] index out of range. *)
Theorem key_encodings_invert :
  (∀ k, nodekey k → ∃ c, hexToCompact k = Some c ∧ compactToHex c = Some k) ∧
  (∀ k1 k2 c, nodekey k1 → nodekey k2 → hexToCompact k1 = Some c → hexToCompact k2 = Some c → k1 = k2) ∧
  (∀ str, hexToKeybytes (keybytesToHex str) = Some str ∧ nodekey (keybytesToHex str)) ∧
  (∀ c, compactToHex c = None ↔ c = []).
Proof.
  split; [exact compact_roundtrip|]. split; [exact hexToCompact_inj|]. split.
  - intros str. split; [apply hexToKeybytes_keybytesToHex|right; apply keybytesToHex_hexkey].
  - intros [|b c]; [done|]. split; [|done]. unfold compactToHex. rewrite keybytesToHex_eq, chop_term_snoc. done.
Qed.

(** ** Common prefixes *)

Lemma prefixLen_spec a b :
  let p := prefixLen a b in
  take p a = take p b ∧ (p ≤ length a)%nat ∧ (p ≤ length b)%nat ∧
  match a !! p, b !! p with Some x, Some y => x ≠ y | _, _ => True end.
Proof.
  revert b. induction a as [|x a IH]; intros [|y b]; simpl; try (split_and!; by (lia || done)).
  case_bool_decide as E; simpl; [|split_and!; by (lia || done)]. subst y. destruct (IH b) as (H1 & H2 & H3 & H4).
  split_and!; [by rewrite H1|lia|lia|done].
Qed.

Lemma prefixLen_app k a : prefixLen (k ++ a) k = length k.
Proof. induction k as [|x k IH]; simpl; [by destruct a|]. by rewrite bool_decide_true, IH. Qed.

(** Two keys that part at [p]. *)
Lemma prefixLen_split a b :
  ∃ k a' b', a = k ++ a' ∧ b = k ++ b' ∧ prefixLen a b = length k ∧
    match a', b' with x :: _, y :: _ => x ≠ y | _, _ => True end.
Proof.
  revert b. induction a as [|x a IH]; intros b; [by exists [], [], b|].
  destruct b as [|y b]; [by exists [], (x :: a), []|]. simpl. case_bool_decide as E.
  - subst y. destruct (IH b) as (k & a' & b' & -> & -> & Hp & Hd). exists (x :: k), a', b'. simpl. by rewrite Hp.
  - by exists [], (x :: a), (y :: b).
Qed.

End TrieEncoding.
