(* ===== verification/TrieNode.v ===== *)
(** Nodes of the Merkle Patricia trie (src/trie/node.go): the nodes in memory with
    their cache flags, their RLP form, and the decoder of stored nodes.

    A [trie] is the meaning of a node: the tree without hashes and flags.  [looks]
    relates the two; the file shows that decoding the encoding of a trie's node
    gives a node of that trie. *)

From S2P Require Import Prelude RlpEncode RlpRaw RlpDecode RlpRoundtrip RlpTotal KeccakF Sha3 CoreTypes TrieEncoding.

Module TrieNode.
Import Rlp Raw Dec Roundtrip Total Codec TrieEncoding.

(** ** node.go *)

Record nodeFlag := mkFlag {
  fl_hash : option bytes;
  gen : Z;
  dirty : bool }.

Inductive node :=
| nilNode
| valueNode (v : bytes)
| hashNode (h : bytes)
| shortNode (Key : bytes) (Val : node) (flags : nodeFlag)
| fullNode (Children : list node) (flags : nodeFlag).

(** On [uint16], whose subtraction wraps. *)
Definition canUnload_flag (f : nodeFlag) (cachegen cachelimit : Z) : bool :=
  negb (dirty f) && (cachelimit <=? (cachegen - gen f) mod 2 ^ 16).
Definition canUnload (n : node) (cachegen cachelimit : Z) : bool :=
  match n with
  | shortNode _ _ f | fullNode _ f => canUnload_flag f cachegen cachelimit
  | _ => false
  end.

Definition cache (n : node) : option bytes * bool :=
  match n with
  | shortNode _ _ f | fullNode _ f => (fl_hash f, dirty f)
  | _ => (None, true)
  end.

(** The value the encoder writes for a node: a struct of key and child, the array of
    children, a string; the flags are not exported. *)
Fixpoint node_item (n : node) : item :=
  match n with
  | nilNode => Lst []
  | valueNode v => Str v
  | hashNode h => Str h
  | shortNode k v _ => Lst [Str k; node_item v]
  | fullNode cs _ => Lst (map node_item cs)
  end.
Definition encode_node (n : node) : result encErr bytes := EncodeToBytes TIface (VIface (Some (node_item n))).

Inductive decodeErr :=
| ErrUnexpectedEOF | ErrSplit (e : rlpErr) | ErrElems (c : Z) | ErrOversized | ErrRefSize (n : Z).

Definition split_err {A} (r : result rlpErr A) : result decodeErr A :=
  match r with Ok a => Ok a | Err e => Err (ErrSplit e) | Panic => Panic | NoFuel => NoFuel end.

Definition hashLen : Z := 32.

(** [dn] decodes an embedded node. *)
Definition decodeRef (dn : bytes → result decodeErr node) (buf : bytes) : result decodeErr (node * bytes) :=
  let? (kind, val, rest) := split_err (Split buf) in
  match kind with
  | KList =>
      if hashLen <? zlen buf - zlen rest then Err ErrOversized
      else let? n := dn buf in Ok (n, rest)
  | KString =>
      if zlen val =? 0 then Ok (nilNode, rest)
      else if zlen val =? 32 then Ok (hashNode val, rest)
      else Err (ErrRefSize (zlen val))
  | KByte => Err (ErrRefSize (zlen val))
  end.

Definition decodeShort (dn : bytes → result decodeErr node) (hash : option bytes) (elems : bytes) (cachegen : Z) :
    result decodeErr node :=
  let? (kbuf, rest) := split_err (SplitString elems) in
  let flag := mkFlag hash cachegen false in
  match compactToHex kbuf with
  | None => Panic
  | Some key =>
      if hasTerm key then
        let? (val, _) := split_err (SplitString rest) in
        Ok (shortNode key (valueNode val) flag)
      else
        let? (r, _) := decodeRef dn rest in
        Ok (shortNode key r flag)
  end.

Fixpoint decodeRefs (dn : bytes → result decodeErr node) (n : nat) (elems : bytes) : result decodeErr (list node * bytes) :=
  match n with
  | O => Ok ([], elems)
  | S n =>
      let? (cld, rest) := decodeRef dn elems in
      let? (cs, rest) := decodeRefs dn n rest in
      Ok (cld :: cs, rest)
  end.

Definition decodeFull (dn : bytes → result decodeErr node) (hash : option bytes) (elems : bytes) (cachegen : Z) :
    result decodeErr node :=
  let? (cs, rest) := decodeRefs dn 16 elems in
  let? (val, _) := split_err (SplitString rest) in
  Ok (fullNode (cs ++ [if 0 <? zlen val then valueNode val else nilNode]) (mkFlag hash cachegen false)).

(** The fuel bounds the nesting of embedded nodes, each shorter than the one around it. *)
Fixpoint decodeNode (fuel : nat) (hash : option bytes) (buf : bytes) (cachegen : Z) : result decodeErr node :=
  match fuel with
  | O => NoFuel
  | S fuel =>
      let dn b := decodeNode fuel None b cachegen in
      if zlen buf =? 0 then Err ErrUnexpectedEOF
      else
        let? (elems, _) := split_err (SplitList buf) in
        match CountValues elems with
        | Panic => Panic
        | NoFuel => NoFuel
        | Ok 2 => decodeShort dn hash elems cachegen
        | Ok 17 => decodeFull dn hash elems cachegen
        | Ok c => Err (ErrElems c)
        | Err _ => Err (ErrElems 0)
        end
  end.

(** The panics of [mustDecodeNode]. *)
Definition mustDecodeNode (hash : bytes) (buf : bytes) (cachegen : Z) : option node :=
  match decodeNode (S (length buf)) (Some hash) buf cachegen with Ok n => Some n | _ => None end.

(** ** Tries *)

Inductive trie :=
| TNil
| TVal (v : bytes)
| TShort (k : bytes) (t : trie)
| TFull (ts : list trie).

#[global] Instance trie_nil_dec (t : trie) : Decision (t = TNil).
Proof. destruct t; [by left|by right..]. Defined.

Definition is_node (t : trie) : bool := match t with TShort _ _ | TFull _ => true | _ => false end.

Definition keccak (b : bytes) : bytes := hash256 [b].

Definition compact (k : bytes) : bytes := default [] (hexToCompact k).

(** A child in the encoding of its parent: itself if short, its hash otherwise. *)
Definition ref (t : trie) (i : item) : item :=
  if is_node t && (32 <=? zlen (rlp_item i)) then Str (keccak (rlp_item i)) else i.

Fixpoint item_of (t : trie) : item :=
  match t with
  | TNil => Str []
  | TVal v => Str v
  | TShort k t => Lst [Str (compact k); ref t (item_of t)]
  | TFull ts => Lst (map (fun t => ref t (item_of t)) ts)
  end.

Definition enc (t : trie) : bytes := rlp_item (item_of t).
Definition hash_of (t : trie) : bytes := keccak (enc t).
Definition big (t : trie) : Prop := 32 ≤ zlen (enc t).

(** The tries of maps: no empty or nested short nodes, no branch with fewer than two
    entries, values where keys end. *)
Inductive wf : trie → Prop :=
| wf_leaf k v : nibbles k → v ≠ [] → zlen v < 2 ^ 32 → wf (TShort (k ++ [terminator]) (TVal v))
| wf_ext k ts : nibbles k → k ≠ [] → wf (TFull ts) → wf (TShort k (TFull ts))
| wf_full ts :
    length ts = 17%nat →
    (∀ i t, (i < 16)%nat → ts !! i = Some t → t ≠ TNil → wf t) →
    (∀ t, ts !! 16%nat = Some t → t ≠ TNil → ∃ v, t = TVal v ∧ v ≠ [] ∧ zlen v < 2 ^ 32) →
    (∃ i j ti tj, i ≠ j ∧ ts !! i = Some ti ∧ ts !! j = Some tj ∧ ti ≠ TNil ∧ tj ≠ TNil) →
    wf (TFull ts).

(** The position of a nibble, or of the terminator, among the children of a branch. *)
Definition index (b : byte) : nat := Z.to_nat (bz b).

(** ** Contents *)

Inductive has : trie → bytes → bytes → Prop :=
| has_val v : has (TVal v) [] v
| has_short k t key v : has t key v → has (TShort k t) (k ++ key) v
| has_full ts b t key v : ts !! index b = Some t → has t key v → has (TFull ts) (b :: key) v.

Lemma has_val_inv v key w : has (TVal v) key w ↔ key = [] ∧ w = v.
Proof. split; [by inversion 1|intros [-> ->]; constructor]. Qed.
Lemma has_nil key w : ¬ has TNil key w.
Proof. by inversion 1. Qed.
Lemma has_short_inv k t key w : has (TShort k t) key w ↔ ∃ key', key = k ++ key' ∧ has t key' w.
Proof. split; [inversion 1; subst; eauto|]. intros (key' & -> & Hh). by constructor. Qed.
Lemma has_full_inv ts key w :
  has (TFull ts) key w ↔ ∃ b key' t, key = b :: key' ∧ ts !! index b = Some t ∧ has t key' w.
Proof. split; [inversion 1; subst; eauto 10|]. intros (b & key' & t & -> & Ht & Hh). by econstructor. Qed.

Lemma has_det t key v w : has t key v → has t key w → v = w.
Proof.
  intros Hv. revert w. induction Hv as [v|k t key v Hv IH|ts b t key v Ht Hv IH]; intros w Hw.
  - by apply has_val_inv in Hw as [_ ->].
  - apply has_short_inv in Hw as (key' & ->%app_inv_head & Hw). by apply IH.
  - apply has_full_inv in Hw as (b' & key' & t' & [= <- <-] & Ht' & Hw). apply IH. by simplify_eq.
Qed.

Lemma index_inj a b : index a = index b → a = b.
Proof. unfold index. intros E. apply bz_inj. pose proof (bz_range a). pose proof (bz_range b). lia. Qed.
Lemma index_nibble b : nibble b → (index b < 16)%nat.
Proof. unfold nibble, index. pose proof (bz_range b). lia. Qed.
Lemma index_terminator : index terminator = 16%nat.
Proof. done. Qed.
Lemma index_16 b : index b = 16%nat → b = terminator.
Proof. intros E. by apply index_inj. Qed.
Lemma index_lt_nibble b : (index b < 16)%nat → nibble b.
Proof. unfold nibble, index. pose proof (bz_range b). lia. Qed.

(** Every trie of a map has an entry; the keys in [t] are shorter than 2^32. *)
Definition bounded (t : trie) : Prop := ∀ k v, has t k v → zlen k < 2 ^ 32.

Lemma wf_entry t : wf t → ∃ k v, has t k v.
Proof.
  induction 1 as [k v Hk Hv Hvl|k ts Hk Hne Hw (key & v & IH)|ts Hl Hc IH Hv (i & j & ti & tj & Hij & Hti & Htj & Hni & Hnj)].
  - exists ((k ++ [terminator]) ++ []), v. constructor. constructor.
  - exists (k ++ key), v. by constructor.
  - pose proof (lookup_lt_Some _ _ _ Hti) as Hi. assert (index (zb (Z.of_nat i)) = i) as Ei.
    { unfold index. rewrite bz_zb_small; lia. }
    destruct (decide (i = 16%nat)) as [->|Hne].
    + destruct (Hv ti Hti Hni) as (v & -> & _). exists [terminator], v. eapply has_full; [exact Hti|constructor].
    + destruct (IH i ti ltac:(lia) Hti Hni) as (k & v & Hh). exists (zb (Z.of_nat i) :: k), v.
      eapply has_full; [by rewrite Ei|done].
Qed.

Lemma bounded_short k t : wf (TShort k t) → bounded (TShort k t) → zlen k < 2 ^ 32 ∧ bounded t.
Proof.
  intros Hw Hb. split.
  - destruct (wf_entry _ Hw) as (key & v & Hh). pose proof (Hb key v Hh) as Hlt. apply has_short_inv in Hh as (key' & -> & _).
    rewrite length_app in Hlt. lia.
  - intros key v Hh. specialize (Hb (k ++ key) v ltac:(by constructor)). rewrite length_app in Hb. lia.
Qed.

Lemma bounded_full ts i t : bounded (TFull ts) → (i < 17)%nat → ts !! i = Some t → bounded t.
Proof.
  intros Hb Hi Ht key v Hh. assert (index (zb (Z.of_nat i)) = i) as Ei by (unfold index; rewrite bz_zb_small; lia).
  specialize (Hb (zb (Z.of_nat i) :: key) v ltac:(eapply has_full; [by rewrite Ei|done])). simpl in Hb. lia.
Qed.

(** [P] holds of every trie that is referred to by its hash, at any depth. *)
Inductive refs (P : trie → Prop) : trie → Prop :=
| refs_nil : refs P TNil
| refs_val v : refs P (TVal v)
| refs_short k t : (is_node t = true → big t → P t) → refs P t → refs P (TShort k t)
| refs_full ts :
    (∀ i t, ts !! i = Some t → is_node t = true → big t → P t) →
    (∀ i t, ts !! i = Some t → refs P t) → refs P (TFull ts).
Definition avail (P : trie → Prop) (t : trie) : Prop := P t ∧ refs P t.

(** A cached hash is right, of a node that its parent refers to by hash (or of the
    root), and of an available node once it is clean; a clean node without one is
    part of its parent. *)
Definition flags_ok (P : trie → Prop) (root : bool) (f : nodeFlag) (t : trie) : Prop :=
  match fl_hash f with
  | Some h => h = hash_of t ∧ (root = true ∨ big t) ∧ (dirty f = false → avail P t)
  | None => dirty f = true ∨ (root = false ∧ ¬ big t)
  end.

(** Node [n] stands for trie [t]. *)
Inductive looks (P : trie → Prop) : bool → node → trie → Prop :=
| lk_nil r : looks P r nilNode TNil
| lk_val r v : looks P r (valueNode v) (TVal v)
| lk_short r k n f t :
    looks P false n t → flags_ok P r f (TShort k t) → looks P r (shortNode k n f) (TShort k t)
| lk_full r ns f ts :
    length ns = length ts →
    (∀ i n t, ns !! i = Some n → ts !! i = Some t → looks P false n t) →
    flags_ok P r f (TFull ts) → looks P r (fullNode ns f) (TFull ts)
| lk_hash r t :
    wf t → bounded t → (r = true ∨ big t) → avail P t → looks P r (hashNode (hash_of t)) t.

(** ** Sizes *)

Lemma length_keccak b : length (keccak b) = 32%nat.
Proof. apply length_hash256. Qed.

#[local] Opaque keccak.

Lemma decodeNibbles_length k bs : decodeNibbles k = Some bs → (length bs ≤ length k)%nat.
Proof.
  revert bs. induction k as [|x|a b k IH] using pairs_ind; intros bs E; [by injection E as <-|done|].
  simpl in E. destruct (decodeNibbles k) as [l|]; [|done]. injection E as <-. specialize (IH l eq_refl). simpl. lia.
Qed.

Lemma compact_length k : (length (compact k) ≤ length k + 1)%nat.
Proof.
  unfold compact, hexToCompact. set (l := if hasTerm k then chop_term k else k).
  assert (length l ≤ length k)%nat as Hl by (subst l; unfold chop_term; destruct (hasTerm k); rewrite ?length_take; lia).
  assert (∀ m f, length (default [] (bs ← decodeNibbles m; Some (f :: bs))) ≤ length m + 1)%nat as Hd.
  { intros m f. destruct (decodeNibbles m) as [bs|] eqn:E; cbn; [|lia]. apply decodeNibbles_length in E. lia. }
  clearbody l. destruct (Nat.odd (length l)), l as [|x l'].
  - etrans; [apply Hd|simpl; lia].
  - etrans; [apply Hd|simpl in *; lia].
  - etrans; [apply Hd|simpl; lia].
  - etrans; [apply Hd|lia].
Qed.

Lemma enc_str_bound b : zlen b < 2 ^ 62 → 1 ≤ zlen (enc_str b) ≤ zlen b + 9.
Proof.
  intros Hb. split; [by apply enc_str_length; lia|]. destruct (enc_str_encodeAs b) as (k & Hk & _ & ->).
  destruct k; simpl; [lia| |done]. rewrite length_app. pose proof (enc_head_length 0x80 0xB7 (zlen b)). lia.
Qed.

(** A child of a node takes at most 33 bytes in it. *)
Lemma ref_node_length t : is_node t = true → zlen (rlp_item (ref t (item_of t))) ≤ 33.
Proof.
  intros Ht. unfold ref. rewrite Ht. simpl. destruct (Z.leb_spec 32 (zlen (rlp_item (item_of t)))); [|lia].
  simpl. destruct (enc_str_encodeAs (keccak (rlp_item (item_of t)))) as (k & Hk & _ & ->).
  destruct k; simpl; rewrite ?length_app, ?length_keccak; [lia| |done].
  change (enc_head 128 183 32) with [zb (128 + 32)]. simpl. lia.
Qed.

Lemma ref_value v : ref (TVal v) (item_of (TVal v)) = Str v.
Proof. done. Qed.
Lemma ref_nil : ref TNil (item_of TNil) = Str [].
Proof. done. Qed.

Lemma wf_is_node t : wf t → is_node t = true.
Proof. by destruct 1. Qed.

(** A child at a nibble, or the value of a branch. *)
Lemma ref_length t :
  t = TNil ∨ wf t ∨ (∃ v, t = TVal v ∧ zlen v < 2 ^ 32) → zlen (rlp_item (ref t (item_of t))) ≤ 2 ^ 33.
Proof.
  intros [->|[Ht|(v & -> & Hv)]].
  - rewrite ref_nil. simpl. lia.
  - pose proof (ref_node_length t (wf_is_node t Ht)). lia.
  - rewrite ref_value. simpl. pose proof (enc_str_bound v ltac:(lia)). lia.
Qed.

Lemma concat_items_length (l : list item) n :
  (∀ i, i ∈ l → zlen (rlp_item i) ≤ n) → zlen (concat (map rlp_item l)) ≤ zlen l * n.
Proof.
  intros Hl. induction l as [|i l IH]; [simpl; lia|]. cbn [map concat]. rewrite length_app.
  pose proof (Hl i ltac:(by left)). simpl length.
  enough (zlen (concat (map rlp_item l)) ≤ zlen l * n) by lia. apply IH. intros j Hj. apply Hl. by right.
Qed.

Lemma full_child ts i t :
  wf (TFull ts) → ts !! i = Some t → t = TNil ∨ wf t ∨ (∃ v, t = TVal v ∧ zlen v < 2 ^ 32).
Proof.
  intros Hw Hi. inversion Hw as [| |? Hl Hc Hv _]; subst. destruct (decide (t = TNil)) as [->|Hne]; [by left|right].
  pose proof (lookup_lt_Some _ _ _ Hi). destruct (decide (i = 16%nat)) as [->|].
  - right. destruct (Hv t Hi Hne) as (v & ? & _ & ?). by exists v.
  - left. apply (Hc i t); [lia|done|done].
Qed.

Lemma full_length ts : wf (TFull ts) → length ts = 17%nat.
Proof. by inversion 1. Qed.

Lemma payload_length t l : wf t → bounded t → item_of t = Lst l → zlen (concat (map rlp_item l)) ≤ 2 ^ 38.
Proof.
  intros Hw0 Hb E. pose proof Hw0 as Hw1. destruct Hw0 as [k v Hk Hv Hlv|k ts Hk Hne Hw|ts Hl Hc Hv H2].
  - destruct (bounded_short _ _ Hw1 Hb) as [Hlk _]. rewrite length_app in Hlk. simpl length in Hlk. injection E as <-. cbn [map concat]. rewrite ref_value, app_nil_r, length_app. cbn [rlp_item].
    pose proof (compact_length (k ++ [terminator])) as Hcl. rewrite length_app in Hcl. simpl length in Hcl.
    pose proof (enc_str_bound (compact (k ++ [terminator])) ltac:(lia)). pose proof (enc_str_bound v ltac:(lia)). lia.
  - destruct (bounded_short _ _ Hw1 Hb) as [Hlk _]. injection E as <-. cbn [map concat]. rewrite app_nil_r, length_app. cbn [rlp_item].
    pose proof (compact_length k). pose proof (enc_str_bound (compact k) ltac:(lia)).
    pose proof (ref_node_length (TFull ts) eq_refl) as Hr. simpl in Hr. lia.
  - injection E as <-. etrans; [apply (concat_items_length _ (2 ^ 33))|rewrite length_map; lia].
    intros i (t & -> & [j Hj]%list_elem_of_lookup)%list_elem_of_fmap. apply ref_length. eapply full_child; [|exact Hj]. by constructor.
Qed.

Lemma enc_bound t : wf t → bounded t → zlen (enc t) ≤ 2 ^ 39.
Proof.
  intros Hw Hb. unfold enc. destruct (item_of t) as [b|l] eqn:E; [by destruct Hw|]. cbn [rlp_item].
  pose proof (payload_length t l Hw Hb E). pose proof (enc_list_length (concat (map rlp_item l)) ltac:(lia)). lia.
Qed.

(** ** Decoding the encoding *)

Lemma SplitString_item b r : zlen (enc_str b ++ r) < 2 ^ 64 → SplitString (enc_str b ++ r) = Ok (b, r).
Proof.
  intros Hl. destruct (enc_str_encodeAs b) as (k & Hk & Hok & E). rewrite E in *. unfold SplitString.
  rewrite Split_encodeAs by done. simpl. by destruct k.
Qed.

Lemma SplitList_item c r : zlen (enc_list c ++ r) < 2 ^ 64 → SplitList (enc_list c ++ r) = Ok (c, r).
Proof.
  intros Hl. unfold SplitList. change (enc_list c) with (encodeAs KList c) in *. by rewrite Split_encodeAs.
Qed.

(** The reference to a child gives a node of the child, given that embedded nodes do. *)
Lemma decodeRef_ref P dn t rest :
  t = TNil ∨ wf t → bounded t → (is_node t = true → big t → P t) → refs P t →
  zlen (rlp_item (ref t (item_of t)) ++ rest) < 2 ^ 64 →
  (wf t → ¬ big t → ∃ n, dn (enc t ++ rest) = Ok n ∧ looks P false n t) →
  ∃ n, decodeRef dn (rlp_item (ref t (item_of t)) ++ rest) = Ok (n, rest) ∧ looks P false n t.
Proof.
  intros [->|Hw] Hbt HP Hr Hl Hdn.
  { exists nilNode. rewrite ref_nil in *. change (rlp_item (Str [])) with (encodeAs KString []) in *. unfold decodeRef.
    rewrite Split_encodeAs by (done || by intros (? & [=] & _)). split; [done|constructor]. }
  pose proof (wf_is_node t Hw) as Hn. unfold ref in *. rewrite Hn in *. cbn [andb] in *. fold (enc t) in *.
  destruct (Z.leb_spec 32 (zlen (enc t))) as [Hb|Hb]; cbn [rlp_item] in *.
  - exists (hashNode (hash_of t)). split; [|constructor; [done|done|by right|split; auto]].
    destruct (enc_str_encodeAs (keccak (enc t))) as (k & Hk & Hok & E). rewrite E in *. unfold decodeRef.
    rewrite Split_encodeAs by done. cbn [split_err rbind]. rewrite length_keccak. destruct k; [|done|done].
    destruct Hok as (x & E' & _). pose proof (length_keccak (enc t)) as Hk32. by rewrite E' in Hk32.
  - destruct (Hdn Hw) as (n & En & Hlk); [unfold big; lia|]. exists n. split; [|done]. unfold decodeRef.
    destruct (item_of t) as [b|l] eqn:Et; [by destruct Hw|].
    assert (enc t = encodeAs KList (concat (map rlp_item l))) as E by (unfold enc; by rewrite Et). rewrite E in *.
    change (rlp_item (Lst l)) with (encodeAs KList (concat (map rlp_item l))) in *. rewrite Split_encodeAs by done. cbn [split_err rbind]. rewrite En.
    destruct (Z.ltb_spec hashLen (zlen (encodeAs KList (concat (map rlp_item l)) ++ rest) - zlen rest)) as [Hc|Hc]; [|done].
    rewrite length_app in Hc. unfold hashLen in Hc. lia.
Qed.

(** An embedded node is shorter than the node around it. *)
Lemma embedded_shorter (i : item) l : i ∈ l → zlen (concat (map rlp_item l)) < 2 ^ 62 → (length (rlp_item i) < length (rlp_item (Lst l)))%nat.
Proof.
  intros Hi Hl. assert (length (rlp_item i) ≤ length (concat (map rlp_item l)))%nat as H.
  { clear Hl. induction l as [|j l IH]; [by apply elem_of_nil in Hi|]. cbn [map concat]. rewrite length_app.
    apply elem_of_cons in Hi as [->|Hi]; [lia|]. specialize (IH Hi). lia. }
  cbn [rlp_item]. pose proof (enc_list_length (concat (map rlp_item l)) ltac:(lia)). lia.
Qed.

Lemma small_shorter t l c :
  wf t → bounded t → item_of t = Lst l → ref c (item_of c) ∈ l → ¬ big c → (length (enc c) < length (enc t))%nat.
Proof.
  intros Hw Hb El Hc Hs. pose proof (payload_length t l Hw Hb El). unfold enc at 2. rewrite El.
  replace (enc c) with (rlp_item (ref c (item_of c))); [by apply embedded_shorter; [|lia]|].
  unfold ref. unfold big, enc in Hs. destruct (Z.leb_spec 32 (zlen (rlp_item (item_of c)))); [lia|]. by rewrite andb_false_r.
Qed.

Lemma decodeRefs_refs P dn ts rest :
  (∀ i t, ts !! i = Some t → t = TNil ∨ wf t) → (∀ i t, ts !! i = Some t → bounded t) →
  (∀ i t, ts !! i = Some t → is_node t = true → big t → P t) → (∀ i t, ts !! i = Some t → refs P t) →
  zlen (concat (map (fun t => rlp_item (ref t (item_of t))) ts) ++ rest) < 2 ^ 64 →
  (∀ i t rest', ts !! i = Some t → wf t → ¬ big t → zlen (enc t ++ rest') < 2 ^ 64 →
     ∃ n, dn (enc t ++ rest') = Ok n ∧ looks P false n t) →
  ∃ ns, decodeRefs dn (length ts) (concat (map (fun t => rlp_item (ref t (item_of t))) ts) ++ rest) = Ok (ns, rest) ∧
    Forall2 (looks P false) ns ts.
Proof.
  induction ts as [|t ts IH]; intros Hw Hb HP Hr Hl Hdn; [by exists []|].
  cbn [length decodeRefs map concat]. cbn [map concat] in Hl. rewrite <- app_assoc in *.
  destruct (decodeRef_ref P dn t (concat (map (fun t => rlp_item (ref t (item_of t))) ts) ++ rest)) as (n & -> & Hn);
    [exact (Hw 0%nat t eq_refl)|exact (Hb 0%nat t eq_refl)|exact (HP 0%nat t eq_refl)|exact (Hr 0%nat t eq_refl)|exact Hl| |].
  { intros Hwt Hs. apply (Hdn 0%nat t); [done|done|done|]. revert Hl. unfold ref, big, enc in *.
    rewrite (wf_is_node t Hwt). destruct (Z.leb_spec 32 (zlen (rlp_item (item_of t)))); [lia|done]. }
  simpl. destruct IH as (ns & -> & Hns).
  - intros i t'. exact (Hw (S i) t').
  - intros i t'. exact (Hb (S i) t').
  - intros i t'. exact (HP (S i) t').
  - intros i t'. exact (Hr (S i) t').
  - rewrite length_app in Hl. lia.
  - intros i t' rest'. exact (Hdn (S i) t' rest').
  - exists (n :: ns). simpl. split; [done|by constructor].
Qed.

(** Not a reference by hash. *)
Definition exposed (n : node) : Prop := match n with hashNode _ => False | _ => True end.

Lemma decodeNode_items fuel h t l rest g :
  wf t → bounded t → item_of t = Lst l → zlen (enc t ++ rest) < 2 ^ 64 →
  let dn b := decodeNode fuel None b g in
  let payload := concat (map rlp_item l) in
  (zlen l = 2 → decodeNode (S fuel) h (enc t ++ rest) g = decodeShort dn h payload g) ∧
  (zlen l = 17 → decodeNode (S fuel) h (enc t ++ rest) g = decodeFull dn h payload g).
Proof.
  intros Hw Hbt El Hl. cbv zeta. pose proof (payload_length t l Hw Hbt El) as Hp.
  assert (CountValues (concat (map rlp_item l)) = Ok (zlen l)) as Hcnt.
  { unfold CountValues. rewrite count_loop_items; [done|lia|lia]. }
  assert (enc t = enc_list (concat (map rlp_item l))) as Ee by (unfold enc; by rewrite El).
  assert (zlen (enc t ++ rest) =? 0 = false) as H0.
  { apply Z.eqb_neq. rewrite Ee, length_app. pose proof (enc_list_length (concat (map rlp_item l)) ltac:(lia)). lia. }
  split; intros En; cbn [decodeNode]; (rewrite H0, Ee, SplitList_item by by rewrite <- Ee);
    cbn [split_err rbind]; rewrite Hcnt, En; reflexivity.
Qed.

Definition flag_of (P : trie → Prop) (r : bool) (h : option bytes) (t : trie) : Prop :=
  match h with
  | Some x => x = hash_of t ∧ (r = true ∨ big t) ∧ P t
  | None => r = false ∧ ¬ big t
  end.

Lemma flag_of_ok P r h g t : flag_of P r h t → refs P t → flags_ok P r (mkFlag h g false) t.
Proof. unfold flags_ok, flag_of. simpl. destruct h; [|by right]. by intros (? & ? & ?) ?. Qed.

Lemma compactToHex_compact k : nodekey k → compactToHex (compact k) = Some k.
Proof. intros Hk. destruct (compact_roundtrip k Hk) as (c & Ec & E). unfold compact. by rewrite Ec. Qed.

Lemma decode_full_children P ts dn rest :
  wf (TFull ts) → bounded (TFull ts) → refs P (TFull ts) → zlen rest < 2 ^ 62 →
  (∀ i t rest', ts !! i = Some t → wf t → ¬ big t → zlen (enc t ++ rest') < 2 ^ 64 →
     ∃ n, dn (enc t ++ rest') = Ok n ∧ looks P false n t) →
  ∃ ns v, decodeRefs dn 16 (concat (map rlp_item (map (fun t => ref t (item_of t)) ts)) ++ rest) = Ok (ns, enc_str v ++ rest) ∧
    zlen v < 2 ^ 32 ∧ Forall2 (looks P false) (ns ++ [if 0 <? zlen v then valueNode v else nilNode]) ts.
Proof.
  intros Hw Hbt Hr Hl Hdn. pose proof (full_length ts Hw) as H17.
  inversion Hw as [| |? _ Hc Hv _]; subst. inversion Hr as [| | |? HP Hrs]; subst.
  destruct ts as [|tv ts' _] using rev_ind; [done|]. rewrite length_app in H17. simpl in H17.
  assert (length ts' = 16%nat) as H16 by lia.
  assert ((ts' ++ [tv]) !! 16%nat = Some tv) as Etv by (rewrite lookup_app_r by lia; by rewrite H16).
  assert (∀ i t, ts' !! i = Some t → (ts' ++ [tv]) !! i = Some t) as Hin by (intros; by apply lookup_app_l_Some).
  assert (∃ v, item_of tv = Str v ∧ ref tv (item_of tv) = Str v ∧ zlen v < 2 ^ 32 ∧
    looks P false (if 0 <? zlen v then valueNode v else nilNode) tv) as (v & Ev & Erv & Hlv & Hlk).
  { destruct (decide (tv = TNil)) as [->|Hne]; [exists []; split_and!; try done; constructor|].
    destruct (Hv tv Etv Hne) as (v & -> & Hne' & Hlv). exists v. split_and!; try done.
    destruct v; [done|]. simpl. constructor. }
  assert (∀ i t, ts' !! i = Some t → t = TNil ∨ wf t) as Hw'.
  { intros i t Hi. destruct (decide (t = TNil)); [by left|right]. apply (Hc i t); [|by apply Hin|done].
    apply lookup_lt_Some in Hi. lia. }
  destruct (decodeRefs_refs P dn ts' (enc_str v ++ rest)) as (ns & E & Hns).
  - exact Hw'.
  - intros i t Hi. apply (bounded_full _ i t Hbt); [apply lookup_lt_Some in Hi; lia|by apply Hin].
  - intros i t Hi. apply (HP i t). by apply Hin.
  - intros i t Hi. apply (Hrs i t). by apply Hin.
  - pose proof (enc_str_bound v ltac:(lia)). rewrite !length_app.
    enough (zlen (concat (map (fun t => rlp_item (ref t (item_of t))) ts')) ≤ 2 ^ 38) by lia.
    rewrite <- map_map. etrans; [apply (concat_items_length _ (2 ^ 33))|rewrite length_map; lia].
    intros it (t & -> & [j Hj]%list_elem_of_lookup)%list_elem_of_fmap. apply ref_length.
    destruct (Hw' j t Hj) as [|]; auto.
  - intros i t rest' Hi. apply (Hdn i t rest'). by apply Hin.
  - exists ns, v. split_and!; [|done|by apply Forall2_app; [|constructor]].
    rewrite !map_app, concat_app. cbn [map concat]. rewrite Erv. cbn [rlp_item].
    rewrite app_nil_r, <- app_assoc, map_map. rewrite <- H16. exact E.
Qed.

Lemma decode_looks P t : wf t → bounded t → ∀ fuel h r rest g,
  refs P t → flag_of P r h t → (length (enc t) < fuel)%nat → zlen (enc t ++ rest) < 2 ^ 64 →
  ∃ n, decodeNode fuel h (enc t ++ rest) g = Ok n ∧ looks P r n t ∧ exposed n.
Proof.
  intros Hw0. induction Hw0 as [k v Hk Hv Hlv|k ts Hk Hne Hw IH|ts Hl Hc IH Hv H2]; intros Hbt fuel h r rest g Hr Hf Hfuel Hlen;
    (destruct fuel as [|fuel]; [lia|]).
  - set (t := TShort (k ++ [terminator]) (TVal v)) in *. assert (wf t) as Hw by by constructor.
    destruct (decodeNode_items fuel h t _ rest g Hw Hbt eq_refl Hlen) as [-> _]; [|done].
    cbn [map concat]. rewrite ref_value, app_nil_r. cbn [rlp_item]. unfold decodeShort.
    pose proof (payload_length t _ Hw Hbt eq_refl) as Hp. cbn [map concat] in Hp. rewrite ref_value, app_nil_r in Hp. cbn [rlp_item] in Hp.
    rewrite SplitString_item by lia. cbn [split_err rbind]. rewrite compactToHex_compact by (right; by exists k).
    rewrite hasTerm_snoc, bool_decide_true by done. rewrite <- (app_nil_r (enc_str v)), SplitString_item.
    2: { rewrite length_app in *. simpl in *. lia. }
    cbn [split_err rbind]. eexists. split; [reflexivity|]. split; [|done]. constructor; [constructor|]. by apply flag_of_ok.
  - set (t := TShort k (TFull ts)) in *. assert (wf t) as Hw' by by constructor.
    destruct (decodeNode_items fuel h t _ rest g Hw' Hbt eq_refl Hlen) as [-> _]; [|done].
    pose proof (payload_length t _ Hw' Hbt eq_refl) as Hp. cbn [map concat] in *. rewrite app_nil_r in *.
    change (rlp_item (Str (compact k))) with (enc_str (compact k)) in *.
    unfold decodeShort. rewrite SplitString_item by lia. cbn [split_err rbind].
    rewrite compactToHex_compact by by left. rewrite hasTerm_nibbles by done.
    inversion Hr as [| |? ? HP Hrs|]; subst. destruct (bounded_short _ _ Hw' Hbt) as [_ Hbc].
    destruct (decodeRef_ref P (fun b => decodeNode fuel None b g) (TFull ts) []) as (n & E & Hn); [by right|exact Hbc|exact HP|exact Hrs| | |].
    { rewrite app_nil_r. pose proof (ref_node_length (TFull ts) eq_refl). lia. }
    { intros _ Hs. assert (length (enc (TFull ts)) < length (enc t))%nat as Hsh by (eapply small_shorter; [exact Hw'|exact Hbt|reflexivity|set_solver|done]).
      destruct (IH Hbc fuel None false [] g) as (n & En & Hn & _); [done|done|lia| |].
      - rewrite app_nil_r. unfold big in Hs. lia.
      - by exists n. }
    rewrite app_nil_r in E. change (Lst (map _ ts)) with (item_of (TFull ts)). rewrite E. cbn [rbind].
    eexists. split; [reflexivity|]. split; [|done]. constructor; [done|]. by apply flag_of_ok.
  - set (t := TFull ts) in *. assert (wf t) as Hw by by constructor.
    destruct (decodeNode_items fuel h t (map (fun t => ref t (item_of t)) ts) rest g Hw Hbt eq_refl Hlen) as [_ ->]; [|by rewrite length_map, Hl].
    destruct (decode_full_children P ts (fun b => decodeNode fuel None b g) []) as (ns & v & E & Hlv & Hns); [done|done|done|done| |].
    { intros i c rest' Hi Hwc Hs Hl'. inversion Hr as [| | |? HP Hrs]; subst.
      assert (length (enc c) < length (enc t))%nat as Hsh.
      { eapply small_shorter; [exact Hw|exact Hbt|reflexivity| |done]. apply list_elem_of_fmap. exists c. split; [done|]. by eapply list_elem_of_lookup_2. }
      assert (c ≠ TNil) as Hcn by (by intros ->; inversion Hwc).
      pose proof (lookup_lt_Some _ _ _ Hi) as Hi'. destruct (decide (i = 16%nat)) as [->|Hne].
      { destruct (Hv c Hi Hcn) as (w & -> & _). inversion Hwc. }
      destruct (IH i c ltac:(lia) Hi Hcn (bounded_full _ i c Hbt ltac:(lia) Hi) fuel None false rest' g) as (n & En & Hn & _); [by eapply Hrs|done|lia|done|by exists n]. }
    rewrite app_nil_r in E. unfold decodeFull. rewrite E. cbn [rbind]. rewrite app_nil_r in *.
    rewrite <- (app_nil_r (enc_str v)), SplitString_item.
    2: { rewrite app_nil_r. pose proof (enc_str_bound v ltac:(lia)). lia. }
    cbn [split_err rbind]. eexists. split; [reflexivity|]. split; [|done]. constructor.
    + by eapply Forall2_length.
    + intros i n c Hi Hci. eapply Forall2_lookup_lr in Hns; [exact Hns|exact Hi|exact Hci].
    + by apply flag_of_ok.
Qed.

End TrieNode.
