(* ===== verification/Trie.v ===== *)
(** The operations of the Merkle Patricia trie (src/trie/trie.go): lookup, insertion
    and deletion over nodes in memory and nodes that are loaded from the database
    by their hash.

    The functions follow the source on every branch, missing nodes and panics
    included.  Their fuel is twice the length of the key and two more: at every
    level a node is loaded at most once and at least one nibble is consumed. *)

From S2P Require Import Prelude RlpEncode RlpRaw RlpDecode RlpRoundtrip RlpTotal KeccakF Sha3 CoreTypes.
From S2P Require Import TrieEncoding TrieNode.

Module Trie.
Import Rlp Raw Dec Roundtrip Total Codec Types TrieEncoding TrieNode.

(** ** The database *)

(** [trie.Database]; [None] of [td_put] is a failed write. *)
Class Store (D : Type) := {
  td_get : bytes → D → option bytes;
  td_put : bytes → bytes → D → option D;
  td_get_put k v d d' k' :
    td_put k v d = Some d' → td_get k' d' = if decide (k' = k) then Some v else td_get k' d }.

Inductive trieErr := MissingNode (NodeHash Path : bytes).

Section trie.
Context {D : Type} `{Store D}.

(** ** trie.go *)

Record Trie := mkTrie {
  root : node;
  db : option D;
  cachegen : Z;
  cachelimit : Z }.

Definition newFlag (t : Trie) : nodeFlag := mkFlag None (cachegen t) true.

Definition resolveHash (t : Trie) (n : bytes) (prefix : bytes) : result trieErr node :=
  match db t with
  | None => Panic
  | Some d =>
      match td_get n d with
      | None => Err (MissingNode (BytesToHash n) prefix)
      | Some enc => match mustDecodeNode n enc (cachegen t) with Some n => Ok n | None => Panic end
      end
  end.
Definition resolve (t : Trie) (n : node) (prefix : bytes) : result trieErr node :=
  match n with hashNode h => resolveHash t h prefix | n => Ok n end.

(** [n.copy()] with the flags changed. *)
Definition set_gen (g : Z) (f : nodeFlag) : nodeFlag := mkFlag (fl_hash f) g (dirty f).

Fixpoint tryGet (fuel : nat) (t : Trie) (origNode : node) (key : bytes) (pos : nat) :
    result trieErr (option bytes * node * bool) :=
  match fuel with
  | O => NoFuel
  | S fuel =>
      match origNode with
      | nilNode => Ok (None, nilNode, false)
      | valueNode v => Ok (Some v, origNode, false)
      | shortNode k val f =>
          if ((length key - pos <? length k)%nat || negb (bool_decide (k = take (length k) (drop pos key))))%bool
          then Ok (None, origNode, false)
          else
            let? (value, newnode, didResolve) := tryGet fuel t val key (pos + length k) in
            Ok (value, if didResolve then shortNode k newnode (set_gen (cachegen t) f) else origNode, didResolve)
      | fullNode cs f =>
          match key !! pos with
          | None => Panic
          | Some b =>
              match cs !! index b with
              | None => Panic
              | Some c =>
                  let? (value, newnode, didResolve) := tryGet fuel t c key (pos + 1) in
                  Ok (value, if didResolve then fullNode (<[index b := newnode]> cs) (set_gen (cachegen t) f) else origNode, didResolve)
              end
          end
      | hashNode h =>
          let? child := resolveHash t h (take pos key) in
          let? (value, newnode, _) := tryGet fuel t child key pos in
          Ok (value, newnode, true)
      end
  end.

Fixpoint insert (fuel : nat) (t : Trie) (n : node) (prefix key : bytes) (value : node) : result trieErr (bool * node) :=
  match fuel with
  | O => NoFuel
  | S fuel =>
      match key with
      | [] =>
          match n with
          | valueNode v =>
              match value with
              | valueNode w => Ok (negb (bool_decide (v = w)), value)
              | _ => Panic
              end
          | _ => Ok (true, value)
          end
      | key0 :: key' =>
          match n with
          | shortNode nk val f =>
              let matchlen := prefixLen key nk in
              if (matchlen =? length nk)%nat then
                let? (d, nn) := insert fuel t val (prefix ++ take matchlen key) (drop matchlen key) value in
                if negb d then Ok (false, n) else Ok (true, shortNode nk nn (newFlag t))
              else
                match nk !! matchlen, key !! matchlen with
                | Some a, Some b =>
                    let? (_, c1) := insert fuel t nilNode (prefix ++ take (matchlen + 1) nk) (drop (matchlen + 1) nk) val in
                    let? (_, c2) := insert fuel t nilNode (prefix ++ take (matchlen + 1) key) (drop (matchlen + 1) key) value in
                    let branch := fullNode (<[index b := c2]> (<[index a := c1]> (replicate 17 nilNode))) (newFlag t) in
                    if (matchlen =? 0)%nat then Ok (true, branch)
                    else Ok (true, shortNode (take matchlen key) branch (newFlag t))
                | _, _ => Panic
                end
          | fullNode cs f =>
              match cs !! index key0 with
              | None => Panic
              | Some c =>
                  let? (d, nn) := insert fuel t c (prefix ++ [key0]) key' value in
                  if negb d then Ok (false, n) else Ok (true, fullNode (<[index key0 := nn]> cs) (newFlag t))
              end
          | nilNode => Ok (true, shortNode key value (newFlag t))
          | hashNode h =>
              let? rn := resolveHash t h prefix in
              let? (d, nn) := insert fuel t rn prefix key value in
              if negb d then Ok (false, rn) else Ok (true, nn)
          | valueNode _ => Panic
          end
      end
  end.

(** The index of the only child left, -1 for none and -2 for more. *)
Fixpoint scan (i : Z) (cs : list node) (pos : Z) : Z :=
  match cs with
  | [] => pos
  | nilNode :: cs => scan (i + 1) cs pos
  | _ :: cs => if pos =? -1 then scan (i + 1) cs i else -2
  end.

Fixpoint delete (fuel : nat) (t : Trie) (n : node) (prefix key : bytes) : result trieErr (bool * node) :=
  match fuel with
  | O => NoFuel
  | S fuel =>
      match n with
      | shortNode nk val f =>
          let matchlen := prefixLen key nk in
          if (matchlen <? length nk)%nat then Ok (false, n)
          else if (matchlen =? length key)%nat then Ok (true, nilNode)
          else
            let? (d, child) := delete fuel t val (prefix ++ take (length nk) key) (drop (length nk) key) in
            if negb d then Ok (false, n)
            else match child with
                 | shortNode ck cv _ => Ok (true, shortNode (nk ++ ck) cv (newFlag t))
                 | _ => Ok (true, shortNode nk child (newFlag t))
                 end
      | fullNode cs f =>
          match key with
          | [] => Panic
          | key0 :: key' =>
              match cs !! index key0 with
              | None => Panic
              | Some c =>
                  let? (d, nn) := delete fuel t c (prefix ++ [key0]) key' in
                  if negb d then Ok (false, n)
                  else
                    let cs := <[index key0 := nn]> cs in
                    let pos := scan 0 cs (-1) in
                    if 0 <=? pos then
                      match cs !! Z.to_nat pos with
                      | None => Panic
                      | Some only =>
                          let? cnode := (if pos =? 16 then Ok nilNode else resolve t only prefix) in
                          match cnode with
                          | shortNode ck cv _ => Ok (true, shortNode (zb pos :: ck) cv (newFlag t))
                          | _ => Ok (true, shortNode [zb pos] only (newFlag t))
                          end
                      end
                    else Ok (true, fullNode cs (newFlag t))
              end
          end
      | valueNode _ => Ok (true, nilNode)
      | nilNode => Ok (false, nilNode)
      | hashNode h =>
          let? rn := resolveHash t h prefix in
          let? (d, nn) := delete fuel t rn prefix key in
          if negb d then Ok (false, rn) else Ok (true, nn)
      end
  end.

Definition fuel_for (key : bytes) : nat := 2 * length key + 2.
Definition set_root (n : node) (t : Trie) : Trie := mkTrie n (db t) (cachegen t) (cachelimit t).

Definition TryGet (key : bytes) (t : Trie) : result trieErr (option bytes) * Trie :=
  let k := keybytesToHex key in
  match tryGet (fuel_for k) t (root t) k 0 with
  | Ok (value, newroot, didResolve) => (Ok value, if didResolve then set_root newroot t else t)
  | Err e => (Err e, t)
  | Panic => (Panic, t)
  | NoFuel => (NoFuel, t)
  end.

Definition with_root (r : result trieErr (bool * node)) (t : Trie) : result trieErr unit * Trie :=
  match r with
  | Ok (_, n) => (Ok tt, set_root n t)
  | Err e => (Err e, t)
  | Panic => (Panic, t)
  | NoFuel => (NoFuel, t)
  end.
Definition TryDelete (key : bytes) (t : Trie) : result trieErr unit * Trie :=
  let k := keybytesToHex key in
  with_root (delete (fuel_for k) t (root t) [] k) t.
Definition TryUpdate (key value : bytes) (t : Trie) : result trieErr unit * Trie :=
  let k := keybytesToHex key in
  match value with
  | [] => with_root (delete (fuel_for k) t (root t) [] k) t
  | _ => with_root (insert (fuel_for k) t (root t) [] k (valueNode value)) t
  end.

(** The root of the empty trie, as the source has it. *)
Definition emptyRoot : bytes :=
  [x56; xe8; x1f; x17; x1b; xcc; x55; xa6; xff; x83; x45; xe6; x92; xc0; xf8; x6e;
   x5b; x48; xe0; x1b; x99; x6c; xad; xc0; x01; x62; x2f; xb5; xe3; x63; xb4; x21].

Definition New (rootHash : bytes) (d : option D) : result trieErr Trie :=
  let trie := mkTrie nilNode d 0 0 in
  if bool_decide (rootHash = emptyHash) || bool_decide (rootHash = emptyRoot) then Ok trie
  else let? n := resolveHash trie rootHash [] in Ok (set_root n trie).

End trie.
End Trie.
