(* ===== verification/TrieThms.v ===== *)
(** The trie is a map (src/trie/trie.go).

    [has] says which values a trie holds under which keys.  Lookup, insertion and
    deletion over nodes, loaded or not, implement the operations of a map on it,
    keep the trie in minimal form, and do not run out of fuel; in minimal form the
    trie, and with it the root hash, is determined by the contents. *)

From S2P Require Import Prelude RlpEncode RlpRaw RlpDecode RlpRoundtrip RlpTotal KeccakF Sha3 CoreTypes.
From S2P Require Import TrieEncoding TrieNode Trie.

Module TrieThms.
Import Rlp Raw Dec Roundtrip Total Codec Types TrieEncoding TrieNode Trie.

#[local] Opaque keccak.

(** ** Keys *)

Lemma hexkey_nonempty k : hexkey k → k ≠ [].
Proof. intros (l & _ & ->) E. by destruct l. Qed.

Lemma hexkey_cons b k : hexkey (b :: k) ↔ (b = terminator ∧ k = []) ∨ (nibble b ∧ hexkey k).
Proof.
  split.
  - intros ([|x l] & Hl & E); simplify_eq/=; [by left|]. right. apply Forall_cons in Hl as [Hx Hl]. split; [done|by exists l].
  - intros [[-> ->]|[Hb (l & Hl & ->)]]; [exists []; split; [constructor|done]|]. exists (b :: l). split; [by constructor|done].
Qed.

Lemma hexkey_app_nibbles k r : nibbles k → hexkey (k ++ r) ↔ hexkey r.
Proof.
  induction 1 as [|b k Hb _ IH]; [done|]. simpl. rewrite hexkey_cons, IH. split; [|by right].
  intros [[-> _]|[_ ?]]; [|done]. by destruct terminator_not_nibble.
Qed.

Lemma hexkey_term l r : nibbles l → hexkey ((l ++ [terminator]) ++ r) → r = [].
Proof.
  intros Hl. rewrite <- app_assoc, hexkey_app_nibbles by done. simpl. rewrite hexkey_cons.
  intros [[_ ->]|[Hn _]]; [done|]. by destruct terminator_not_nibble.
Qed.

(** ** Tries at a position *)

(** The trie under a key that is [key] away from the end. *)
Definition at_pos (t : trie) (key : bytes) : Prop :=
  match key with
  | [] => t = TNil ∨ ∃ v, t = TVal v
  | _ => hexkey key ∧ (t = TNil ∨ wf t)
  end.

Lemma at_pos_hexkey t key : hexkey key → t = TNil ∨ wf t → at_pos t key.
Proof. intros Hk Ht. destruct key; [by apply hexkey_nonempty in Hk|done]. Qed.

Lemma at_pos_short k t key : wf (TShort k t) → hexkey (k ++ key) → at_pos t key.
Proof.
  intros Hw Hk. inversion Hw as [l v Hl ? ?|? ts Hn ? Hwt|]; subst.
  - apply hexkey_term in Hk as ->; [|done]. right. by exists v.
  - apply hexkey_app_nibbles in Hk; [|done]. apply at_pos_hexkey; auto.
Qed.

Lemma at_pos_full ts b key t : wf (TFull ts) → hexkey (b :: key) → ts !! index b = Some t → at_pos t key.
Proof.
  intros Hw Hk Ht. inversion Hw as [| |? Hl Hc Hv _]; subst. apply hexkey_cons in Hk as [[-> ->]|[Hb Hk]].
  - destruct (decide (t = TNil)) as [->|Hne]; [by left|]. destruct (Hv t Ht Hne) as (v & -> & _). right. by exists v.
  - apply at_pos_hexkey; [done|]. destruct (decide (t = TNil)); [by left|]. right.
    apply (Hc (index b) t); [by apply index_nibble|done|done].
Qed.

Lemma full_lookup ts b key : wf (TFull ts) → hexkey (b :: key) → ∃ t, ts !! index b = Some t.
Proof.
  intros Hw Hk. apply lookup_lt_is_Some_2. rewrite (full_length ts Hw).
  apply hexkey_cons in Hk as [[-> _]|[Hb _]]; [rewrite index_terminator; lia|apply index_nibble in Hb; lia].
Qed.

Lemma wf_short_key k t : wf (TShort k t) → k ≠ [].
Proof. inversion 1; subst; [by destruct k0|done]. Qed.

(** ** Branches *)

(** A child under [b]: a value under the terminator, a node under a nibble. *)
Definition slot (b : byte) (t : trie) : Prop :=
  (b = terminator ∧ ∃ v, t = TVal v ∧ v ≠ [] ∧ zlen v < 2 ^ 32) ∨ (nibble b ∧ wf t).

Lemma slot_not_nil b t : slot b t → t ≠ TNil.
Proof. intros [(_ & v & -> & _)|[_ Hw]]; [done|]. by intros ->; inversion Hw. Qed.

Lemma slot_index b t : slot b t → (index b < 17)%nat.
Proof. intros [(-> & _)|[Hb _]]; [rewrite index_terminator; lia|apply index_nibble in Hb; lia]. Qed.

(** What is left of a short node whose key is cut after [p ++ [b]]. *)
Definition tail (k : bytes) (t : trie) : trie := match k with [] => t | _ => TShort k t end.

Lemma has_tail k t key w : has (tail k t) key w ↔ has (TShort k t) key w.
Proof. destruct k; [|done]. simpl. rewrite has_short_inv. naive_solver. Qed.

Lemma short_tail p b k t : wf (TShort (p ++ b :: k) t) → nibbles p ∧ slot b (tail k t).
Proof.
  intros Hw. inversion Hw as [l v Hl Hv Hvl E|? ts Hn Hne Hwt|]; subst.
  - destruct k as [|c k _] using rev_ind.
    + apply app_inj_tail in E as [-> <-]. split; [done|]. left. split; [done|]. by exists v.
    + rewrite app_comm_cons, app_assoc in E. apply app_inj_tail in E as [-> <-].
      apply nibbles_app in Hl as [Hp Hb]. apply Forall_cons in Hb as [Hb Hk]. split; [done|right]. split; [done|].
      replace (tail (k ++ [terminator]) (TVal v)) with (TShort (k ++ [terminator]) (TVal v)) by (by destruct k).
      by constructor.
  - apply nibbles_app in Hn as [Hp Hb]. apply Forall_cons in Hb as [Hb Hk]. split; [done|right]. split; [done|].
    destruct k as [|c k]; [done|]. by constructor.
Qed.

Lemma leaf_tail p b k v :
  hexkey (p ++ b :: k) → v ≠ [] → zlen v < 2 ^ 32 → nibbles p ∧ slot b (tail k (TVal v)).
Proof. intros (l & Hl & E) Hv Hvl. apply short_tail. rewrite E. by constructor. Qed.

Lemma leaf_wf key v : hexkey key → v ≠ [] → zlen v < 2 ^ 32 → wf (TShort key (TVal v)).
Proof. intros (l & Hl & ->) Hv Hvl. by constructor. Qed.

Definition branch_of (a b : byte) (ta tb : trie) : list trie := <[index b := tb]> (<[index a := ta]> (replicate 17 TNil)).

Lemma branch_lookup a b ta tb i t :
  a ≠ b → branch_of a b ta tb !! i = Some t →
  (i = index b ∧ t = tb) ∨ (i = index a ∧ t = ta) ∨ (i ≠ index a ∧ i ≠ index b ∧ t = TNil).
Proof.
  intros Hne Hi. unfold branch_of in Hi. apply list_lookup_insert_Some in Hi as [(-> & -> & _)|[Hb Hi]]; [by left|].
  apply list_lookup_insert_Some in Hi as [(-> & -> & _)|[Ha Hi]]; [by right; left|].
  apply lookup_replicate in Hi as [-> _]. by right; right.
Qed.

Lemma branch_wf a b ta tb : a ≠ b → slot a ta → slot b tb → wf (TFull (branch_of a b ta tb)).
Proof.
  intros Hne Ha Hb. pose proof (slot_index a ta Ha). pose proof (slot_index b tb Hb).
  assert (index a ≠ index b) as Hi by (intros E; by apply index_inj in E).
  constructor.
  - unfold branch_of. by rewrite !length_insert, length_replicate.
  - intros i t Hi16 Ht Hnn. apply branch_lookup in Ht as [[-> ->]|[[-> ->]|(_ & _ & ->)]]; [..|done|done].
    + destruct Hb as [(-> & _)|[_ Hb]]; [rewrite index_terminator in Hi16; lia|done].
    + destruct Ha as [(-> & _)|[_ Ha]]; [rewrite index_terminator in Hi16; lia|done].
  - intros t Ht Hnn. apply branch_lookup in Ht as [[E ->]|[[E ->]|(_ & _ & ->)]]; [..|done|done].
    + symmetry in E. apply index_16 in E as ->. destruct Hb as [(_ & Hb)|[Hb _]]; [done|by destruct terminator_not_nibble].
    + symmetry in E. apply index_16 in E as ->. destruct Ha as [(_ & Ha)|[Ha _]]; [done|by destruct terminator_not_nibble].
  - exists (index a), (index b), ta, tb. split_and!; [done| | |by eapply slot_not_nil|by eapply slot_not_nil].
    + unfold branch_of. rewrite list_lookup_insert_ne by done. apply list_lookup_insert_eq. by rewrite length_replicate.
    + apply list_lookup_insert_eq. by rewrite length_insert, length_replicate.
Qed.

Lemma branch_has a b ta tb key w :
  a ≠ b → slot a ta → slot b tb →
  has (TFull (branch_of a b ta tb)) key w ↔
  (∃ k, key = a :: k ∧ has ta k w) ∨ (∃ k, key = b :: k ∧ has tb k w).
Proof.
  intros Hne Ha Hb. pose proof (slot_index a ta Ha). pose proof (slot_index b tb Hb).
  assert (index a ≠ index b) as Hi by (intros E; by apply index_inj in E). rewrite has_full_inv. split.
  - intros (c & k & t & -> & Ht & Hh). apply branch_lookup in Ht as [[E%index_inj ->]|[[E%index_inj ->]|(_ & _ & ->)]]; [..|done].
    + subst c. right. by exists k.
    + subst c. left. by exists k.
    + by apply has_nil in Hh.
  - intros [(k & -> & Hh)|(k & -> & Hh)]; eexists _, _, _; (split; [reflexivity|]); (split; [|exact Hh]).
    + unfold branch_of. rewrite list_lookup_insert_ne by done. apply list_lookup_insert_eq. by rewrite length_replicate.
    + apply list_lookup_insert_eq. by rewrite length_insert, length_replicate.
Qed.

(** A short node in front of a branch, or none. *)
Lemma tail_branch_wf p ts : nibbles p → wf (TFull ts) → wf (tail p (TFull ts)).
Proof. intros Hp Hw. destruct p; [done|]. by constructor. Qed.

(** ** The contents determine the trie *)

(** Two keys in [t] part after [p]; all of them start with [p]. *)
Definition parts (t : trie) (p : bytes) : Prop :=
  ∃ a b k1 k2 v1 v2, a ≠ b ∧ has t (p ++ a :: k1) v1 ∧ has t (p ++ b :: k2) v2.
Definition covers (t : trie) (p : bytes) : Prop := ∀ k v, has t k v → ∃ k', k = p ++ k'.

Lemma parts_covers t p q : parts t p → covers t q → ∃ r, p = q ++ r.
Proof.
  intros (a & b & k1 & k2 & v1 & v2 & Hab & H1 & H2) Hc.
  destruct (Hc _ _ H1) as (r1 & E1), (Hc _ _ H2) as (r2 & E2). clear - Hab E1 E2. revert p E1 E2.
  induction q as [|x q IH]; intros p E1 E2; [by exists p|]. destruct p as [|y p]; simpl in *; [congruence|].
  injection E1 as -> E1. injection E2 as E2. destruct (IH p E1 E2) as (r & ->). by exists r.
Qed.

Lemma child_entry ts i t :
  wf (TFull ts) → ts !! i = Some t → t ≠ TNil → ∃ k v, has t k v ∧ index (zb (Z.of_nat i)) = i.
Proof.
  intros Hw Ht Hn. inversion Hw as [| |? Hl Hc Hv _]; subst. pose proof (lookup_lt_Some _ _ _ Ht).
  assert (index (zb (Z.of_nat i)) = i) by (unfold index; rewrite bz_zb_small; lia).
  destruct (decide (i = 16%nat)) as [->|Hne].
  - destruct (Hv t Ht Hn) as (v & -> & _). exists [], v. by repeat constructor.
  - destruct (wf_entry t) as (k & v & Hh); [apply (Hc i t); [lia|done|done]|]. by exists k, v.
Qed.

Lemma full_parts ts : wf (TFull ts) → parts (TFull ts) [].
Proof.
  intros Hw. inversion Hw as [| |? _ _ _ (i & j & ti & tj & Hij & Hti & Htj & Hni & Hnj)]; subst.
  destruct (child_entry ts i ti Hw Hti Hni) as (k1 & v1 & H1 & E1), (child_entry ts j tj Hw Htj Hnj) as (k2 & v2 & H2 & E2).
  exists (zb (Z.of_nat i)), (zb (Z.of_nat j)), k1, k2, v1, v2. split_and!; [congruence|..].
  - eapply has_full; [by rewrite E1|done].
  - eapply has_full; [by rewrite E2|done].
Qed.

Lemma short_parts k t p : parts t p → parts (TShort k t) (k ++ p).
Proof.
  intros (a & b & k1 & k2 & v1 & v2 & Hab & H1 & H2). exists a, b, k1, k2, v1, v2.
  rewrite <- !app_assoc. split_and!; [done|by constructor..].
Qed.

Lemma short_covers k t : covers (TShort k t) k.
Proof. intros key v (k' & -> & _)%has_short_inv. by exists k'. Qed.

Lemma leaf_not_parts k v p : ¬ parts (TShort k (TVal v)) p.
Proof.
  intros (a & b & k1 & k2 & v1 & v2 & Hab & (x & E1 & [-> _]%has_val_inv)%has_short_inv & (y & E2 & [-> _]%has_val_inv)%has_short_inv).
  rewrite <- E2 in E1. apply app_inv_head in E1. congruence.
Qed.

Definition same (t1 t2 : trie) : Prop := ∀ k v, has t1 k v ↔ has t2 k v.

Lemma same_parts t1 t2 p : same t1 t2 → parts t1 p → parts t2 p.
Proof. intros Hs (a & b & k1 & k2 & v1 & v2 & Hab & H1 & H2). exists a, b, k1, k2, v1, v2. split_and!; [done|by apply Hs..]. Qed.

Lemma same_covers t1 t2 p : same t1 t2 → covers t1 p → covers t2 p.
Proof. intros Hs Hc k v Hh. by apply (Hc k v), Hs. Qed.

Lemma same_sym t1 t2 : same t1 t2 → same t2 t1.
Proof. intros Hs k v. by rewrite (Hs k v). Qed.

Lemma same_short k t1 t2 : same (TShort k t1) (TShort k t2) → same t1 t2.
Proof.
  intros Hs key v. specialize (Hs (k ++ key) v). rewrite !has_short_inv in Hs. split; intros Hh.
  - destruct (proj1 Hs) as (? & ->%app_inv_head & ?); [by exists key|done].
  - destruct (proj2 Hs) as (? & ->%app_inv_head & ?); [by exists key|done].
Qed.

Lemma same_child ts1 ts2 i t1 t2 :
  same (TFull ts1) (TFull ts2) → (i < 17)%nat → ts1 !! i = Some t1 → ts2 !! i = Some t2 → same t1 t2.
Proof.
  intros Hs Hi H1 H2 key v. assert (index (zb (Z.of_nat i)) = i) as Ei by (unfold index; rewrite bz_zb_small; lia).
  specialize (Hs (zb (Z.of_nat i) :: key) v). rewrite !has_full_inv in Hs. split; intros Hh.
  - destruct (proj1 Hs) as (? & ? & t & [= <- <-] & Ht & ?); [eexists _, _, _; by rewrite Ei|]. rewrite Ei in Ht. by simplify_eq.
  - destruct (proj2 Hs) as (? & ? & t & [= <- <-] & Ht & ?); [eexists _, _, _; by rewrite Ei|]. rewrite Ei in Ht. by simplify_eq.
Qed.

Lemma prefixes_eq (p q r s : bytes) : p = q ++ r → q = p ++ s → p = q.
Proof.
  intros E1 E2. assert (length r = 0%nat) as Hr.
  { apply (f_equal length) in E1, E2. rewrite length_app in *. lia. }
  destruct r; [|done]. by rewrite app_nil_r in E1.
Qed.

Lemma wf_unique t1 t2 : wf t1 → wf t2 → same t1 t2 → t1 = t2.
Proof.
  intros Hw1. revert t2. induction Hw1 as [k v Hk Hv Hlv|k ts Hk Hne Hw IH|ts Hl Hc IH Hv H2]; intros t2 Hw2 Hs.
  - inversion Hw2 as [k' v' Hk' Hv' Hlv'|k' ts' Hk' Hne' Hw'|]; subst.
    + pose proof (proj1 (Hs ((k ++ [terminator]) ++ []) v) ltac:(repeat constructor)) as (x & E & [-> ->]%has_val_inv)%has_short_inv.
      by rewrite !app_nil_r in E; rewrite E.
    + exfalso. eapply leaf_not_parts, same_parts; [apply same_sym, Hs|]. by apply short_parts, full_parts.
    + exfalso. eapply leaf_not_parts, same_parts; [apply same_sym, Hs|]. by apply full_parts.
  - assert (parts (TShort k (TFull ts)) k) as Hp by (rewrite <- (app_nil_r k) at 2; by apply short_parts, full_parts).
    inversion Hw2 as [k' v' Hk' Hv' Hlv'|k' ts' Hk' Hne' Hw'|]; subst.
    + exfalso. by eapply leaf_not_parts, same_parts.
    + assert (parts (TShort k' (TFull ts')) k') as Hp' by (rewrite <- (app_nil_r k') at 2; by apply short_parts, full_parts).
      destruct (parts_covers _ k k' (same_parts _ _ _ Hs Hp) (short_covers _ _)) as (r & Er).
      destruct (parts_covers _ k' k (same_parts _ _ _ (same_sym _ _ Hs) Hp') (short_covers _ _)) as (r' & Er').
      pose proof (prefixes_eq _ _ _ _ Er Er') as <-. f_equal. apply IH; [done|by eapply same_short].
    + exfalso. destruct (parts_covers (TFull ts0) [] k) as (r & Er); [by apply full_parts|eapply same_covers; [exact Hs|apply short_covers]|].
      by destruct k.
  - assert (wf (TFull ts)) as Hw by by constructor. inversion Hw2 as [k' v' Hk' Hv' Hlv'|k' ts' Hk' Hne' Hw'|ts' Hl' Hc' Hv' H2']; subst.
    + exfalso. eapply leaf_not_parts, same_parts; [exact Hs|by apply full_parts].
    + exfalso. destruct (parts_covers (TFull ts) [] k') as (r & Er);
        [by apply full_parts|eapply same_covers; [apply same_sym, Hs|apply short_covers]|]. by destruct k'.
    + f_equal. apply (list_eq_same_length _ _ 17%nat); [done|done|]. intros i x y Hi Hx Hy.
      pose proof (same_child _ _ _ _ _ Hs Hi Hx Hy) as Hxy.
      destruct (decide (x = TNil)) as [->|Hnx], (decide (y = TNil)) as [->|Hny]; [done|exfalso..|].
      { destruct (child_entry ts' i y Hw2 Hy Hny) as (k & v & Hh & _). apply Hxy in Hh. by apply has_nil in Hh. }
      { destruct (child_entry ts i x Hw Hx Hnx) as (k & v & Hh & _). apply Hxy in Hh. by apply has_nil in Hh. }
      destruct (decide (i = 16%nat)) as [->|Hi16]; [|apply (IH i x); [lia|done|done|by apply (Hc' i); [lia|..]|done]].
      destruct (Hv x Hx Hnx) as (v & -> & _), (Hv' y Hy Hny) as (v' & -> & _).
      pose proof (proj1 (Hxy [] v) ltac:(constructor)) as [_ ->]%has_val_inv. done.
Qed.

(** ** Lookup *)

Section ops.
Context {D : Type} `{Store D}.

(** The nodes in the trie's database. *)
Definition in_db (o : option D) (t : trie) : Prop :=
  match o with Some d => td_get (hash_of t) d = Some (enc t) | None => False end.

Notation looks_in T := (looks (in_db (db T))).

Lemma resolve_hash (T : Trie (D:=D)) r h t prefix :
  looks_in T r (hashNode h) t → ∃ n, resolveHash T h prefix = Ok n ∧ looks_in T r n t ∧ exposed n.
Proof.
  intros Hl. inversion Hl as [| | | |? ? Hw Hbt Hb [HP Hr]]; subst. unfold resolveHash.
  destruct (db T) as [d|] eqn:Ed; [|done]. pose proof HP as HP'. simpl in HP'. rewrite HP'. unfold mustDecodeNode.
  pose proof (enc_bound t Hw Hbt) as Hlen.
  destruct (decode_looks (in_db (Some d)) t Hw Hbt (S (length (enc t))) (Some (hash_of t)) r [] (cachegen T)) as (n & E & Hn' & He).
  - done.
  - by split_and!.
  - lia.
  - rewrite app_nil_r. lia.
  - rewrite app_nil_r in E. exists n. by rewrite E.
Qed.

(** The fuel that a node and the rest of a key need. *)
Definition need (n : node) (key : bytes) : nat := 2 * length key + match n with hashNode _ => 2 | _ => 1 end.

Lemma need_le n key : (need n key ≤ 2 * length key + 2)%nat.
Proof. unfold need. destruct n; lia. Qed.

Lemma flags_set_gen P r f g t : flags_ok P r f t → flags_ok P r (set_gen g f) t.
Proof. done. Qed.

Lemma tryGet_spec (T : Trie (D:=D)) fuel n t r key pos :
  looks_in T r n t → at_pos t (drop pos key) → (need n (drop pos key) ≤ fuel)%nat →
  ∃ o n' b, tryGet fuel T n key pos = Ok (o, n', b) ∧ looks_in T r n' t ∧ (b = false → n' = n) ∧
    ∀ v, o = Some v ↔ has t (drop pos key) v.
Proof.
  revert n t r pos. induction fuel as [|fuel IH]; intros n t r pos Hl Hp Hf; [unfold need in Hf; destruct n; lia|].
  inversion Hl as [?|? v|? k c f tc Hc Hfl|? cs f ts Hlen Hcs Hfl|? ? Hwt Hbt Hb Hav]; subst; cbn [tryGet].
  - exists None, nilNode, false. split_and!; [done|done|done|]. intros v. split; [done|by intros ?%has_nil].
  - exists (Some v), (valueNode v), false. split_and!; [done|done|done|]. intros w. rewrite has_val_inv.
    destruct (drop pos key) as [|x l] eqn:E; [naive_solver|]. destruct Hp as (_ & [[=]|Hw]). inversion Hw.
  - assert (wf (TShort k tc) ∧ hexkey (drop pos key)) as [Hw Hk].
    { destruct (drop pos key); [by destruct Hp as [|[]]|]. by destruct Hp as (? & [|]). }
    destruct ((length key - pos <? length k)%nat || negb (bool_decide (k = take (length k) (drop pos key)))) eqn:Ec.
    + exists None, (shortNode k c f), false. split_and!; [done|done|done|]. intros v. split; [done|].
      intros (key' & E & _)%has_short_inv. exfalso. apply orb_true_iff in Ec as [Ec|Ec].
      * apply Nat.ltb_lt in Ec. rewrite <- length_drop, E, length_app in Ec. lia.
      * apply negb_true_iff, bool_decide_eq_false in Ec. apply Ec. by rewrite E, take_app_length.
    + apply orb_false_iff in Ec as [_ Ek%negb_false_iff%bool_decide_eq_true].
      assert (drop pos key = k ++ drop (pos + length k) key) as Ed.
      { rewrite <- (take_drop (length k) (drop pos key)) at 1. by rewrite drop_drop, <- Ek. }
      pose proof (wf_short_key k tc Hw) as Hne. destruct (IH c tc false (pos + length k)%nat Hc) as (o & n' & b & -> & Hl' & Hbn & Ho).
      { eapply at_pos_short; [exact Hw|]. by rewrite <- Ed. }
      { pose proof (need_le c (drop (pos + length k) key)). unfold need in Hf. rewrite Ed, length_app in Hf.
        destruct k; [done|]. simpl in *. lia. }
      cbn [rbind]. eexists o, _, b. split; [reflexivity|]. split_and!.
      * destruct b; [constructor; [done|by apply flags_set_gen]|done].
      * by intros ->.
      * intros v. rewrite Ho, has_short_inv, Ed. split; [by eexists|]. by intros (key' & ->%app_inv_head & ?).
  - assert (wf (TFull ts) ∧ hexkey (drop pos key)) as [Hw Hk].
    { destruct (drop pos key); [by destruct Hp as [|[]]|]. by destruct Hp as (? & [|]). }
    destruct (drop pos key) as [|b rest] eqn:Ed; [by apply hexkey_nonempty in Hk|].
    assert (key !! pos = Some b) as -> by (rewrite <- (Nat.add_0_r pos), <- lookup_drop; by rewrite Ed).
    assert (drop (pos + 1) key = rest) as Ed' by (rewrite <- drop_drop; by rewrite Ed).
    destruct (full_lookup ts b rest Hw Hk) as [tc Htc].
    destruct (lookup_lt_is_Some_2 cs (index b)) as [c Hc]; [rewrite Hlen; by eapply lookup_lt_Some|]. rewrite Hc.
    destruct (IH c tc false (pos + 1)%nat) as (o & n' & bb & -> & Hl' & Hbn & Ho).
    { by eapply Hcs. }
    { rewrite Ed'. by eapply at_pos_full. }
    { pose proof (need_le c (drop (pos + 1) key)). rewrite Ed' in *. unfold need in Hf. simpl in *. lia. }
    cbn [rbind]. eexists o, _, bb. split; [reflexivity|]. split_and!.
    + destruct bb; [|done]. constructor; [by rewrite length_insert| |by apply flags_set_gen].
      intros i m tm Hm Htm. apply list_lookup_insert_Some in Hm as [(<- & <- & _)|[_ Hm]]; [by simplify_eq|by eapply Hcs].
    + by intros ->.
    + intros v. rewrite Ho, has_full_inv, Ed'. split; [by intros; eexists _, _, _|].
      intros (b' & key' & t' & [= <- <-] & Ht' & Hh). by simplify_eq.
  - destruct (resolve_hash T r _ t (take pos key) Hl) as (rn & -> & Hl' & He). cbn [rbind].
    destruct (IH rn t r pos Hl' Hp) as (o & n' & b & -> & Hl2 & _ & Ho).
    { unfold need in *. destruct rn; try done; simpl in *; lia. }
    cbn [rbind]. exists o, n', true. by split_and!.
Qed.

(** ** Insertion *)

(** The trie after insertion: of the position's kind, never empty. *)
Definition filled (t : trie) (key : bytes) : Prop :=
  match key with [] => ∃ v, t = TVal v ∧ v ≠ [] ∧ zlen v < 2 ^ 32 | _ => wf t end.

Definition inserts (t t' : trie) (key v : bytes) : Prop :=
  ∀ k w, has t' k w ↔ (k = key ∧ w = v) ∨ (k ≠ key ∧ has t k w).

Lemma filled_slot b key t : hexkey (b :: key) → filled t key → slot b t.
Proof.
  intros [[-> ->]|[Hb Hk]]%hexkey_cons Hf; [by left|right]. split; [done|]. apply hexkey_nonempty in Hk. by destruct key.
Qed.

Lemma flags_new P r T t : flags_ok P r (newFlag (D:=D) T) t.
Proof. by left. Qed.

Lemma insert_nil (T : Trie (D:=D)) fuel prefix key n t :
  looks_in T false n t →
  ∃ n', insert (S fuel) T nilNode prefix key n = Ok (true, n') ∧ looks_in T false n' (tail key t).
Proof.
  intros Hl. destruct key as [|b key]; cbn [insert]; eexists; (split; [reflexivity|]); [done|].
  constructor; [done|apply flags_new].
Qed.

Lemma inserts_leaf key v : hexkey key → inserts TNil (TShort key (TVal v)) key v.
Proof.
  intros _ k w. rewrite has_short_inv. split.
  - intros (k' & -> & [-> ->]%has_val_inv). rewrite app_nil_r. by left.
  - intros [[-> ->]|[_ Hh]]; [|by apply has_nil in Hh]. exists []. rewrite app_nil_r. split; [done|constructor].
Qed.

Lemma inserts_short nk tc tc' key v : inserts tc tc' key v → inserts (TShort nk tc) (TShort nk tc') (nk ++ key) v.
Proof.
  intros Hi k w. rewrite !has_short_inv. split.
  - intros (k' & -> & [[-> ->]|[Hne Hh]]%Hi); [by left|]. right. split; [by intros ?%app_inv_head|by exists k'].
  - intros [[-> ->]|[Hne (k' & -> & Hh)]]; eexists; (split; [reflexivity|]); apply Hi; [by left|]. right. split; [|done]. by intros ->.
Qed.

Lemma inserts_full ts b tc tc' key v :
  ts !! index b = Some tc → inserts tc tc' key v → inserts (TFull ts) (TFull (<[index b := tc']> ts)) (b :: key) v.
Proof.
  intros Hb Hi k w. pose proof (lookup_lt_Some _ _ _ Hb). rewrite !has_full_inv. split.
  - intros (c & k' & t & -> & Ht & Hh). apply list_lookup_insert_Some in Ht as [(E%index_inj & <- & _)|[Hne Ht]].
    + subst c. apply Hi in Hh as [[-> ->]|[Hne Hh]]; [by left|right]. split; [congruence|]. by exists b, k', tc.
    + right. split; [congruence|]. by exists c, k', t.
  - intros [[-> ->]|[Hne (c & k' & t & -> & Ht & Hh)]].
    + exists b, key, tc'. split_and!; [done|by apply list_lookup_insert_eq|]. apply Hi. by left.
    + destruct (decide (c = b)) as [->|Hcb].
      * exists b, k', tc'. split_and!; [done|by apply list_lookup_insert_eq|]. simplify_eq. apply Hi. right. split; [congruence|done].
      * exists c, k', t. split_and!; [done| |done]. rewrite list_lookup_insert_ne; [done|]. intros E. by apply index_inj in E.
Qed.

(** Keys that part: the old one goes on with [a], the new one with [b]. *)
Lemma inserts_branch p a b nk tc key v :
  a ≠ b → slot a (tail nk tc) → slot b (tail key (TVal v)) →
  inserts (TShort (p ++ a :: nk) tc) (tail p (TFull (branch_of a b (tail nk tc) (tail key (TVal v))))) (p ++ b :: key) v.
Proof.
  intros Hne Ha Hb k w. rewrite has_tail, !has_short_inv. split.
  - intros (k' & -> & Hh). apply branch_has in Hh; [|done..].
    destruct Hh as [(k2 & -> & Hh)|(k2 & -> & Hh)]; rewrite has_tail, has_short_inv in Hh; destruct Hh as (k3 & -> & Hh).
    + right. split; [intros E%app_inv_head; congruence|]. exists k3. split; [by rewrite <- app_assoc|done].
    + apply has_val_inv in Hh as [-> ->]. left. by rewrite app_nil_r.
  - intros [[-> ->]|[Hnk (k3 & -> & Hh)]].
    + exists (b :: key). split; [done|]. apply branch_has; [done..|]. right. exists key. split; [done|].
      rewrite has_tail, has_short_inv. exists []. rewrite app_nil_r. split; [done|constructor].
    + exists (a :: nk ++ k3). split; [by rewrite <- app_assoc|]. apply branch_has; [done..|]. left. exists (nk ++ k3). split; [done|].
      rewrite has_tail, has_short_inv. by exists k3.
Qed.

Lemma full_insert_wf ts b t key : wf (TFull ts) → hexkey (b :: key) → filled t key → wf (TFull (<[index b := t]> ts)).
Proof.
  intros Hw Hk Hf. pose proof (filled_slot b key t Hk Hf) as Hs. pose proof (slot_index b t Hs) as Hi.
  inversion Hw as [| |? Hl Hc Hv (i & j & ti & tj & Hij & Hti & Htj & Hni & Hnj)]; subst. constructor.
  - by rewrite length_insert.
  - intros k tk Hk16 Htk Hnk. apply list_lookup_insert_Some in Htk as [(<- & <- & _)|[_ Htk]]; [|by eapply Hc].
    destruct Hs as [(-> & _)|[_ Hs]]; [rewrite index_terminator in Hk16; lia|done].
  - intros tk Htk Hnk. apply list_lookup_insert_Some in Htk as [(E & <- & _)|[_ Htk]]; [|by eapply Hv].
    apply index_16 in E as ->. destruct Hs as [(_ & Hs)|[Hs _]]; [done|by destruct terminator_not_nibble].
  - assert (∀ k tk, ts !! k = Some tk → tk ≠ TNil → ∃ tk', <[index b := t]> ts !! k = Some tk' ∧ tk' ≠ TNil) as Hkeep.
    { intros k tk Htk Hnk. destruct (decide (k = index b)) as [->|Hne].
      - exists t. split; [apply list_lookup_insert_eq; lia|by eapply slot_not_nil].
      - exists tk. by rewrite list_lookup_insert_ne. }
    destruct (Hkeep i ti Hti Hni) as (ti' & ? & ?). destruct (Hkeep j tj Htj Hnj) as (tj' & ? & ?).
    by exists i, j, ti', tj'.
Qed.

Lemma looks_branch (T : Trie (D:=D)) r a b n1 n2 t1 t2 f :
  looks_in T false n1 t1 → looks_in T false n2 t2 → flags_ok (in_db (db T)) r f (TFull (branch_of a b t1 t2)) →
  looks_in T r (fullNode (<[index b := n2]> (<[index a := n1]> (replicate 17 nilNode))) f) (TFull (branch_of a b t1 t2)).
Proof.
  intros H1 H2 Hf. constructor; [unfold branch_of; by rewrite !length_insert, !length_replicate| |done].
  intros i n t Hn Ht. unfold branch_of in Ht.
  apply list_lookup_insert_Some in Hn as [(<- & <- & Hlt)|[Hnb Hn]].
  { rewrite list_lookup_insert_eq in Ht; [by simplify_eq|]. rewrite !length_insert, !length_replicate. rewrite ?length_insert, ?length_replicate in Hlt. exact Hlt. }
  rewrite list_lookup_insert_ne in Ht by done. apply list_lookup_insert_Some in Hn as [(<- & <- & Hlt)|[Hna Hn]].
  { rewrite list_lookup_insert_eq in Ht; [by simplify_eq|]. rewrite length_replicate. rewrite ?length_replicate in Hlt. exact Hlt. }
  rewrite list_lookup_insert_ne in Ht by done. apply lookup_replicate in Hn as [-> _]. apply lookup_replicate in Ht as [-> _]. constructor.
Qed.

Definition is_full (t : trie) : Prop := match t with TFull _ => True | _ => False end.

Definition insert_ok (T : Trie (D:=D)) (r : bool) (x : result trieErr (bool * node)) (t : trie) (key v : bytes) : Prop :=
  ∃ d n' t', x = Ok (d, n') ∧ looks_in T r n' t' ∧ filled t' key ∧ inserts t t' key v ∧ (is_full t → is_full t') ∧
    (d = false → t' = t).

(** The key ends before the short node's does: impossible. *)
Lemma short_key_longer k t key : wf (TShort (key ++ k) t) → hexkey key → k = [].
Proof.
  intros Hw Hk. inversion Hw as [l v Hl ? ? E|? ts Hn|]; subst.
  - assert (hexkey (key ++ k)) as Hkk by (rewrite <- E; by exists l). destruct Hk as (l' & Hl' & ->). exact (hexkey_term l' k Hl' Hkk).
  - apply nibbles_app in Hn as [Hn _]. destruct Hk as (l' & _ & ->). apply nibbles_app in Hn as [_ Hn].
    apply Forall_cons in Hn as [Hn _]. by destruct terminator_not_nibble.
Qed.

Lemma insert_short (T : Trie (D:=D)) fuel r prefix key nk c f tc v :
  (∀ key' prefix', key = nk ++ key' → insert_ok T false (insert (S fuel) T c prefix' key' (valueNode v)) tc key' v) →
  wf (TShort nk tc) → looks_in T r (shortNode nk c f) (TShort nk tc) → hexkey key →
  v ≠ [] → zlen v < 2 ^ 32 →
  insert_ok T r (insert (S (S fuel)) T (shortNode nk c f) prefix key (valueNode v)) (TShort nk tc) key v.
Proof.
  intros IH Hw Hl Hk Hv Hvl. inversion Hl as [| |? ? ? ? ? Hc Hfl| |]; subst.
  destruct key as [|key0 key1] eqn:Ekey; [by apply hexkey_nonempty in Hk|]. rewrite <- Ekey in *.
  assert (insert (S (S fuel)) T (shortNode nk c f) prefix key (valueNode v) =
    (let matchlen := prefixLen key nk in
     if (matchlen =? length nk)%nat then
       let? (d, nn) := insert (S fuel) T c (prefix ++ take matchlen key) (drop matchlen key) (valueNode v) in
       if negb d then Ok (false, shortNode nk c f) else Ok (true, shortNode nk nn (newFlag T))
     else
       match nk !! matchlen, key !! matchlen with
       | Some a, Some b =>
           let? (_, c1) := insert (S fuel) T nilNode (prefix ++ take (matchlen + 1) nk) (drop (matchlen + 1) nk) c in
           let? (_, c2) := insert (S fuel) T nilNode (prefix ++ take (matchlen + 1) key) (drop (matchlen + 1) key) (valueNode v) in
           let branch := fullNode (<[index b := c2]> (<[index a := c1]> (replicate 17 nilNode))) (newFlag T) in
           if (matchlen =? 0)%nat then Ok (true, branch) else Ok (true, shortNode (take matchlen key) branch (newFlag T))
       | _, _ => Panic
       end)) as -> by (by subst key).
  clear key0 key1 Ekey. cbv zeta. destruct (prefixLen_split key nk) as (p & key' & nk' & -> & -> & Hp & Hd). rewrite Hp.
  rewrite length_app. destruct nk' as [|a nk'].
  - rewrite Nat.add_0_r, Nat.eqb_refl, app_nil_r, take_app_length, drop_app_length.
    destruct (IH key' (prefix ++ p)) as (d & n' & t' & -> & Hl' & Hf & Hi & Hfull & Hsame); [by rewrite app_nil_r|]. cbn [rbind].
    rewrite app_nil_r in *. assert (wf (TShort p t')) as Hw'.
    { inversion Hw as [l w Hll ? ?|? ts Hn ? Hwt|]; subst.
      - assert (key' = []) as -> by by eapply hexkey_term. destruct Hf as (v' & -> & ? & ?). by constructor.
      - apply hexkey_app_nibbles in Hk; [|done]. apply hexkey_nonempty in Hk. destruct key'; [done|].
        destruct t'; simpl in *; try tauto. by constructor. }
    assert (filled (TShort p t') (p ++ key')) as Hfl' by (unfold filled; by destruct (p ++ key') eqn:E; [apply hexkey_nonempty in Hk|]).
    destruct d; simpl.
    + eexists true, _, (TShort p t'). split; [reflexivity|].
      split_and!; [constructor; [done|apply flags_new]|done|by apply inserts_short|done|done].
    + rewrite (Hsame eq_refl) in *. eexists false, _, (TShort p tc). split; [reflexivity|].
      split_and!; [done|done|by apply inserts_short|done|done].
  - destruct (Nat.eqb_spec (length p) (length p + length (a :: nk'))) as [E|_]; [simpl in E; lia|].
    destruct key' as [|b key'].
    { rewrite app_nil_r in Hk. by apply short_key_longer in Hw. }
    assert (a ≠ b) as Hab by by apply not_eq_sym.
    rewrite (list_lookup_middle p nk' a (length p) eq_refl), (list_lookup_middle p key' b (length p) eq_refl). rewrite !drop_app_add. simpl drop. rewrite !drop_0.
    destruct (short_tail p a nk' tc Hw) as [Hnp Hsa]. destruct (leaf_tail p b key' v Hk Hv Hvl) as [_ Hsb].
    destruct (insert_nil T fuel (prefix ++ take (length p + 1) (p ++ a :: nk')) nk' c tc Hc) as (c1 & -> & Hl1). cbn [rbind].
    destruct (insert_nil T fuel (prefix ++ take (length p + 1) (p ++ b :: key')) key' (valueNode v) (TVal v)) as (c2 & -> & Hl2); [constructor|].
    cbn [rbind]. rewrite take_app_length.
    pose proof (branch_wf a b _ _ Hab Hsa Hsb) as Hbw.
    assert (∃ n', (if (length p =? 0)%nat
        then Ok (true, fullNode (<[index b := c2]> (<[index a := c1]> (replicate 17 nilNode))) (newFlag T))
        else Ok (true, shortNode p (fullNode (<[index b := c2]> (<[index a := c1]> (replicate 17 nilNode))) (newFlag T)) (newFlag T)))
        = Ok (E:=trieErr) (true, n') ∧ looks_in T r n' (tail p (TFull (branch_of a b (tail nk' tc) (tail key' (TVal v)))))) as (n' & -> & Hn').
    { destruct p; simpl; eexists; (split; [reflexivity|]).
      - apply looks_branch; [done|done|apply flags_new].
      - constructor; [apply looks_branch; [done|done|apply flags_new]|apply flags_new]. }
    exists true. eexists n', _. split; [reflexivity|]. split_and!; [exact Hn'| |by apply inserts_branch|done|done].
    unfold filled. destruct (p ++ b :: key') eqn:E; [by destruct p|]. by apply tail_branch_wf.
Qed.

Lemma insert_full (T : Trie (D:=D)) fuel r prefix b key cs f ts tc c v :
  insert_ok T false (insert fuel T c (prefix ++ [b]) key (valueNode v)) tc key v →
  cs !! index b = Some c → ts !! index b = Some tc →
  wf (TFull ts) → looks_in T r (fullNode cs f) (TFull ts) → hexkey (b :: key) →
  insert_ok T r (insert (S fuel) T (fullNode cs f) prefix (b :: key) (valueNode v)) (TFull ts) (b :: key) v.
Proof.
  intros (d & n' & t' & E & Hl' & Hf & Hi & _ & Hsame) Hc Htc Hw Hl Hk. inversion Hl as [| | |? ? ? ? Hlen Hcs Hfl|]; subst.
  cbn [insert]. rewrite Hc, E. cbn [rbind]. pose proof (full_insert_wf ts b t' key Hw Hk Hf) as Hw'.
  pose proof (inserts_full ts b tc t' key v Htc Hi) as Hi'. destruct d; simpl.
  - exists true. eexists _, (TFull (<[index b := t']> ts)). split; [reflexivity|]. split_and!; [|done|done|done|done].
    constructor; [by rewrite !length_insert| |apply flags_new].
    intros i m tm Hm Htm. apply list_lookup_insert_Some in Hm as [(<- & <- & Hlt)|[Hne Hm]].
    + rewrite list_lookup_insert_eq in Htm by lia. by simplify_eq.
    + rewrite list_lookup_insert_ne in Htm by done. by eapply Hcs.
  - rewrite (Hsame eq_refl), list_insert_id in Hi' by done. exists false. eexists _, (TFull ts). by split_and!.
Qed.

Lemma insert_spec (T : Trie (D:=D)) v fuel n t r prefix key :
  v ≠ [] → zlen v < 2 ^ 32 → looks_in T r n t → at_pos t key → (need n key ≤ fuel)%nat →
  insert_ok T r (insert fuel T n prefix key (valueNode v)) t key v.
Proof.
  intros Hv Hvl. revert n t r prefix key. induction fuel as [|fuel IH]; intros n t r prefix key Hl Hp Hf;
    [unfold need in Hf; destruct n; lia|].
  destruct key as [|b key].
  { assert (∃ d, insert (S fuel) T n prefix [] (valueNode v) = Ok (d, valueNode v) ∧ (d = false → TVal v = t)) as (d & -> & Hd).
    { destruct Hp as [->|[v0 ->]]; inversion Hl; subst; try done; cbn [insert]; eexists; (split; [reflexivity|]); try done.
      rewrite negb_false_iff, bool_decide_eq_true. by intros ->. }
    exists d, (valueNode v), (TVal v). split_and!; [done|constructor|by exists v| |by destruct Hp as [->|[? ->]]|done].
    intros k w. rewrite has_val_inv. destruct Hp as [->|[v0 ->]].
    - split; [intros [-> ->]; by left|]. intros [[-> ->]|[_ Hh]]; [done|by apply has_nil in Hh].
    - rewrite has_val_inv. naive_solver. }
  pose proof Hp as [Hk [->|Hw]].
  { inversion Hl as [| | | |? ? HwN]; subst; [|by inversion HwN]. cbn [insert]. exists true. eexists _, (TShort (b :: key) (TVal v)). split; [reflexivity|].
    split_and!; [constructor; [constructor|apply flags_new]|by apply leaf_wf|by apply inserts_leaf|done|done]. }
  inversion Hl as [?|? w|? nk c f tc Hc Hfl|? cs f ts Hlen Hcs Hfl|? ? Hwt Hbt Hb Hav]; subst.
  - inversion Hw.
  - inversion Hw.
  - unfold need in Hf. simpl in Hf. destruct fuel as [|fuel]; [lia|]. apply insert_short; try done.
    intros key' prefix' Ek. apply IH; [done| |].
    + eapply at_pos_short; [exact Hw|]. by rewrite <- Ek.
    + pose proof (need_le c key'). apply wf_short_key in Hw. apply (f_equal length) in Ek. rewrite length_app in Ek.
      destruct nk; [done|]. simpl in *. lia.
  - destruct (full_lookup ts b key Hw Hk) as [tc Htc].
    destruct (lookup_lt_is_Some_2 cs (index b)) as [c Hc]; [rewrite Hlen; by eapply lookup_lt_Some|].
    eapply insert_full; try done. apply IH; [by eapply Hcs|by eapply at_pos_full|].
    pose proof (need_le c key). unfold need in Hf. simpl in Hf. lia.
  - destruct (resolve_hash T r _ t prefix Hl) as (rn & E & Hl' & He). cbn [insert]. rewrite E. cbn [rbind].
    destruct (IH rn t r prefix (b :: key) Hl' Hp) as (d & n' & t' & E' & Hl2 & Hf2 & Hi & Hfu & Hs).
    { unfold need in *. destruct rn; try done; simpl in *; lia. }
    rewrite E'. cbn [rbind]. destruct d; simpl.
    + exists true. eexists _, t'. by split_and!.
    + rewrite (Hs eq_refl) in *. exists false. eexists _, t. by split_and!.
Qed.

(** ** Deletion *)

Definition deletes (t t' : trie) (key : bytes) : Prop := ∀ k w, has t' k w ↔ k ≠ key ∧ has t k w.

(** What is left at a position. *)
Definition left_at (t : trie) (key : bytes) : Prop := match key with [] => t = TNil | _ => t = TNil ∨ wf t end.

Lemma wf_short_app p k t : nibbles p → wf (TShort k t) → wf (TShort (p ++ k) t).
Proof.
  intros Hp Hw. inversion Hw as [l v Hl Hv Hvl|? ts Hn Hne Hwt|]; subst.
  - rewrite app_assoc. constructor; [by apply nibbles_app|done|done].
  - constructor; [by apply nibbles_app|by destruct p|done].
Qed.

Lemma deletes_miss t key : (∀ w, ¬ has t key w) → deletes t t key.
Proof. intros Hm k w. split; [|by intros [_ ?]]. intros Hh. split; [|done]. intros ->. by eapply Hm. Qed.

Lemma deletes_short nk tc tc' key : deletes tc tc' key → deletes (TShort nk tc) (TShort nk tc') (nk ++ key).
Proof.
  intros Hd k w. rewrite !has_short_inv. split.
  - intros (k' & -> & [Hne Hh]%Hd). split; [by intros ?%app_inv_head|by exists k'].
  - intros [Hne (k' & -> & Hh)]. exists k'. split; [done|]. apply Hd. split; [|done]. by intros ->.
Qed.

Lemma deletes_full ts b tc tc' key :
  ts !! index b = Some tc → deletes tc tc' key → deletes (TFull ts) (TFull (<[index b := tc']> ts)) (b :: key).
Proof.
  intros Hb Hd k w. pose proof (lookup_lt_Some _ _ _ Hb). rewrite !has_full_inv. split.
  - intros (c & k' & t & -> & Ht & Hh). apply list_lookup_insert_Some in Ht as [(E%index_inj & <- & _)|[Hne Ht]].
    + subst c. apply Hd in Hh as [Hne Hh]. split; [congruence|]. by exists b, k', tc.
    + split; [congruence|]. by exists c, k', t.
  - intros [Hne (c & k' & t & -> & Ht & Hh)]. destruct (decide (c = b)) as [->|Hcb].
    + exists b, k', tc'. split_and!; [done|by apply list_lookup_insert_eq|]. simplify_eq. apply Hd. split; [congruence|done].
    + exists c, k', t. split_and!; [done| |done]. rewrite list_lookup_insert_ne; [done|]. intros E. by apply index_inj in E.
Qed.

Lemma scan_later i cs pos :
  pos ≠ -1 → scan i cs pos = pos ∧ Forall (fun n => n = nilNode) cs ∨ scan i cs pos = -2 ∧ ∃ j n, cs !! j = Some n ∧ n ≠ nilNode.
Proof.
  intros Hp. revert i. induction cs as [|n cs IH]; intros i; [by left; split|].
  destruct n; simpl; (destruct (Z.eqb_spec pos (-1)) as [|_]; [done|]);
    try (right; split; [done|]; eexists 0%nat, _; by split).
  destruct (IH (i + 1)) as [[-> Hc]|[-> (j & n & Hj & Hn)]]; [left; by split; [|constructor]|right; split; [done|]].
  by exists (S j), n.
Qed.

(** What [scan] finds: no child, one at the index it returns, or two. *)
Lemma scan_spec i cs :
  0 ≤ i →
  let p := scan i cs (-1) in
  (p = -1 ∧ Forall (fun n => n = nilNode) cs) ∨
  (∃ j n, p = i + Z.of_nat j ∧ cs !! j = Some n ∧ n ≠ nilNode ∧ ∀ j' n', cs !! j' = Some n' → j' ≠ j → n' = nilNode) ∨
  (p = -2 ∧ ∃ j n j' n', j ≠ j' ∧ cs !! j = Some n ∧ n ≠ nilNode ∧ cs !! j' = Some n' ∧ n' ≠ nilNode).
Proof.
  intros Hi. revert i Hi. induction cs as [|n cs IH]; intros i Hi; [by left|]. cbv zeta.
  assert (n = nilNode ∨ n ≠ nilNode) as [->|Hne] by (destruct n; auto).
  - simpl. destruct (IH (i + 1) ltac:(lia)) as [[-> Hc]|[(j & n & -> & Hj & Hn & Ho)|[-> (j & n & j' & n' & Hjj & Hj & Hn & Hj' & Hn')]]].
    + left. by split; [|constructor].
    + right; left. exists (S j), n. split_and!; [lia|done|done|]. intros [|j'] n' Hj' Hne; [by injection Hj' as <-|].
      apply (Ho j' n'); [done|lia].
    + right; right. split; [done|]. exists (S j), n, (S j'), n'. by split_and!; [lia|..].
  - replace (scan i (n :: cs) (-1)) with (scan (i + 1) cs i) by (by destruct n).
    destruct (scan_later (i + 1) cs i ltac:(lia)) as [[-> Hc]|[-> (j & n' & Hj & Hn')]].
    + right; left. exists 0%nat, n. split_and!; [lia|done|done|]. intros [|j'] n' Hj' Hne'; [done|].
      rewrite Forall_forall in Hc. apply Hc. by eapply list_elem_of_lookup_2.
    + right; right. split; [done|]. exists 0%nat, n, (S j), n'. by split_and!.
Qed.

Lemma looks_nil P r n t : looks P r n t → (n = nilNode ↔ t = TNil).
Proof. destruct 1 as [| | | |? ? Hw]; try (by split). split; [done|]. by intros ->; inversion Hw. Qed.

(** The children of a branch, but for there being two. *)
Definition children_ok (ts : list trie) : Prop :=
  length ts = 17%nat ∧
  (∀ i t, (i < 16)%nat → ts !! i = Some t → t ≠ TNil → wf t) ∧
  (∀ t, ts !! 16%nat = Some t → t ≠ TNil → ∃ v, t = TVal v ∧ v ≠ [] ∧ zlen v < 2 ^ 32).

Lemma children_delete ts b t key : wf (TFull ts) → hexkey (b :: key) → left_at t key → children_ok (<[index b := t]> ts).
Proof.
  intros Hw Hk Hf. inversion Hw as [| |? Hl Hc Hv _]; subst. apply hexkey_cons in Hk as Hb.
  split_and!; [by rewrite length_insert| |].
  - intros k tk Hk16 Htk Hnk. apply list_lookup_insert_Some in Htk as [(<- & <- & _)|[_ Htk]]; [|by eapply Hc].
    destruct Hb as [[-> ->]|[_ Hb]]; [done|]. destruct key; [by apply hexkey_nonempty in Hb|]. by destruct Hf.
  - intros tk Htk Hnk. apply list_lookup_insert_Some in Htk as [(E & <- & _)|[_ Htk]]; [|by eapply Hv].
    apply index_16 in E as ->. destruct Hb as [[_ ->]|[Hs _]]; [done|by destruct terminator_not_nibble].
Qed.

(** Taking a child away leaves at least one. *)
Lemma some_child ts b t : wf (TFull ts) → ∃ i ti, <[index b := t]> ts !! i = Some ti ∧ ti ≠ TNil.
Proof.
  intros Hw. inversion Hw as [| |? Hl _ _ (i & j & ti & tj & Hij & Hti & Htj & Hni & Hnj)]; subst.
  destruct (decide (index b = i)) as [E|Hne]; [exists j, tj|exists i, ti]; (rewrite list_lookup_insert_ne by congruence); done.
Qed.

Lemma lone_has ts b t k w :
  ts !! index b = Some t → (∀ j t', ts !! j = Some t' → j ≠ index b → t' = TNil) →
  has (TFull ts) k w ↔ ∃ k', k = b :: k' ∧ has t k' w.
Proof.
  intros Hb Ho. rewrite has_full_inv. split.
  - intros (c & k' & t' & -> & Ht & Hh). destruct (decide (c = b)) as [->|Hne]; [simplify_eq; by exists k'|].
    rewrite (Ho _ _ Ht) in Hh; [by apply has_nil in Hh|]. intros E. by apply index_inj in E.
  - intros (k' & -> & Hh). by exists b, k', t.
Qed.

Lemma deletes_same t t1 t2 key : deletes t t1 key → (∀ k w, has t2 k w ↔ has t1 k w) → deletes t t2 key.
Proof. intros Hd He k w. by rewrite He. Qed.

Definition delete_ok (T : Trie (D:=D)) (r : bool) (x : result trieErr (bool * node)) (t : trie) (key : bytes) : Prop :=
  ∃ d n' t', x = Ok (d, n') ∧ looks_in T r n' t' ∧ left_at t' key ∧ deletes t t' key ∧ (is_full t → t' ≠ TNil) ∧
    (d = false → t' = t ∧ ∀ w, ¬ has t key w) ∧ (d = true → exposed n').

(** A branch with one child left becomes a short node. *)
Lemma lone_child (T : Trie (D:=D)) r cs ts p only prefix :
  length cs = length ts → (∀ i n t, cs !! i = Some n → ts !! i = Some t → looks_in T false n t) → children_ok ts →
  cs !! p = Some only → only ≠ nilNode → (∀ j n', cs !! j = Some n' → j ≠ p → n' = nilNode) →
  ∃ n' t',
    (let? cnode := (if Z.of_nat p =? 16 then Ok nilNode else resolve T only prefix) in
     match cnode with
     | shortNode ck cv _ => Ok (true, shortNode (zb (Z.of_nat p) :: ck) cv (newFlag T))
     | _ => Ok (true, shortNode [zb (Z.of_nat p)] only (newFlag T))
     end) = Ok (true, n') ∧
    looks_in T r n' t' ∧ wf t' ∧ exposed n' ∧ ∀ k w, has t' k w ↔ has (TFull ts) k w.
Proof.
  intros Hlen Hcs (Hl & Hc & Hv) Hp Hne Ho. pose proof (lookup_lt_Some _ _ _ Hp) as Hplt. rewrite Hlen, Hl in Hplt.
  destruct (lookup_lt_is_Some_2 ts p) as [tp Htp]; [lia|]. pose proof (Hcs _ _ _ Hp Htp) as Hlp.
  assert (tp ≠ TNil) as Htn by (by rewrite <- (looks_nil _ _ _ _ Hlp)).
  assert (index (zb (Z.of_nat p)) = p) as Hidx by (unfold index; rewrite bz_zb_small; lia).
  set (b := zb (Z.of_nat p)) in *. clearbody b.
  assert (∀ k w, has (TFull ts) k w ↔ ∃ k', k = b :: k' ∧ has tp k' w) as Hh.
  { intros k w. apply lone_has; [by rewrite Hidx|]. intros j t' Hj Hjp. rewrite Hidx in Hjp.
    destruct (lookup_lt_is_Some_2 cs j) as [n' Hn']; [rewrite Hlen; by eapply lookup_lt_Some|].
    apply (looks_nil _ _ _ _ (Hcs _ _ _ Hn' Hj)). by eapply Ho. }
  assert (∀ k w, has (TShort [b] tp) k w ↔ has (TFull ts) k w) as Hh' by (intros; by rewrite has_short_inv, Hh).
  destruct (Z.eqb_spec (Z.of_nat p) 16) as [E|Hn16].
  - assert (p = 16%nat) as -> by lia. apply index_16 in Hidx. destruct (Hv tp Htp Htn) as (v & -> & Hvn & Hvl).
    cbn [rbind]. eexists _, (TShort [b] (TVal v)). split; [reflexivity|].
    split_and!; [constructor; [done|apply flags_new]| |done|done]. rewrite Hidx. apply (wf_leaf []); [constructor|done|done].
  - assert (nibble b) as Hb by (apply index_lt_nibble; lia). assert (wf tp) as Hwp by (apply (Hc p); [lia|done|done]).
    assert (∃ cn, resolve T only prefix = Ok cn ∧ looks_in T false cn tp ∧ exposed cn) as (cn & -> & Hlc & Hex).
    { destruct only eqn:Eo; first [by apply resolve_hash|exists only; by subst]. }
    cbn [rbind]. inversion Hlc as [?|? v|? ck cv f tc Hcv Hfl|? cs' f ts' Hlen' Hcs' Hfl|]; subst; try done; [by inversion Hwp|..].
    + eexists _, (TShort (b :: ck) tc). split; [reflexivity|]. split_and!; [constructor; [done|apply flags_new]| |done|].
      * by apply (wf_short_app [b]); [apply Forall_singleton|].
      * intros k w. rewrite Hh. setoid_rewrite has_short_inv. split; [intros (k' & -> & ?)|intros (? & -> & k' & -> & ?)]; eauto.
    + eexists _, (TShort [b] (TFull ts')). split; [reflexivity|]. split_and!; [constructor; [done|apply flags_new]| |done|done].
      constructor; [by apply Forall_singleton|done|done].
Qed.

Lemma delete_short (T : Trie (D:=D)) fuel r prefix key nk c f tc :
  (∀ key' prefix', key = nk ++ key' → delete_ok T false (delete fuel T c prefix' key') tc key') →
  wf (TShort nk tc) → looks_in T r (shortNode nk c f) (TShort nk tc) → hexkey key →
  delete_ok T r (delete (S fuel) T (shortNode nk c f) prefix key) (TShort nk tc) key.
Proof.
  intros IH Hw Hl Hk. inversion Hl as [| |? ? ? ? ? Hc Hfl| |]; subst. cbn [delete].
  assert (∀ x, wf x → left_at x key) as Hleft by (intros; destruct key; [by apply hexkey_nonempty in Hk|by right]).
  destruct (prefixLen_split key nk) as (p & key' & nk' & -> & -> & Hp & Hd). rewrite Hp, !length_app. destruct nk' as [|a nk'].
  2:{ destruct (Nat.ltb_spec (length p) (length p + length (a :: nk'))) as [_|E]; [|simpl in E; lia].
    assert (∀ w, ¬ has (TShort (p ++ a :: nk') tc) (p ++ key') w) as Hmiss.
    { intros w (k & E & _)%has_short_inv. rewrite <- app_assoc in E. apply app_inv_head in E. by subst key'. }
    exists false. eexists _, _. split; [reflexivity|]. split_and!; [done|by apply Hleft|by apply deletes_miss|done|done|done]. }
  rewrite Nat.add_0_r, Nat.ltb_irrefl, app_nil_r in *. destruct key' as [|b key'].
  - rewrite Nat.add_0_r, Nat.eqb_refl. exists true, nilNode, TNil. split; [reflexivity|].
    split_and!; [constructor|destruct p; [done|by left]| |done|done|done]. rewrite app_nil_r.
    intros k w. split; [by intros ?%has_nil|]. intros [Hne (k' & -> & Hh)%has_short_inv]. exfalso.
    inversion Hw as [l v Hll ? ? E|? ts Hn|]; subst; [apply has_val_inv in Hh as [-> _]; by rewrite app_nil_r in Hne|].
    rewrite app_nil_r in Hk. destruct Hk as (l & _ & ->). apply nibbles_app in Hn as [_ Hn]. apply Forall_cons in Hn as [Hn _].
    by destruct terminator_not_nibble.
  - destruct (Nat.eqb_spec (length p) (length p + length (b :: key'))) as [E|_]; [simpl in E; lia|].
    rewrite take_app_length, drop_app_length.
    inversion Hw as [l v Hll ? ?|? ts Hn Hpne Hwt|]; subst; [by apply (hexkey_term l (b :: key')) in Hk|].
    destruct (IH (b :: key') (prefix ++ p)) as (d & n' & t' & -> & Hl' & Hf & Hdel & Hfull & Hsame & Hexp); [done|]. cbn [rbind].
    apply (deletes_short p) in Hdel. destruct d; simpl.
    2:{ destruct (Hsame eq_refl) as [-> Hmiss]. exists false. eexists _, _. split; [reflexivity|].
      split_and!; [done|by apply Hleft|done|done| |done]. intros _. split; [done|].
      intros w (k & <-%app_inv_head & Hh)%has_short_inv. by eapply Hmiss. }
    destruct Hf as [->|Hwt']; [by destruct Hfull|].
    inversion Hl' as [?|? v|? ck cv f' tc Hcv Hfl'|? cs' f' ts' Hlen' Hcs' Hfl'|]; subst;
      [by inversion Hwt'|by inversion Hwt'| | |by destruct Hexp].
    + exists true. eexists _, (TShort (p ++ ck) tc). split; [reflexivity|].
      split_and!; [constructor; [done|apply flags_new]|by apply Hleft, wf_short_app| |done|done|done].
      eapply deletes_same; [exact Hdel|]. intros k w. setoid_rewrite has_short_inv. setoid_rewrite has_short_inv. split.
      * intros (k' & -> & Hh). exists (ck ++ k'). rewrite app_assoc. split; [done|by eexists].
      * intros (? & -> & k' & -> & Hh). exists k'. by rewrite app_assoc.
    + exists true. eexists _, (TShort p (TFull ts')). split; [reflexivity|].
      split_and!; [constructor; [done|apply flags_new]|apply Hleft; by constructor|done|done|done|done].
Qed.

Lemma delete_full (T : Trie (D:=D)) fuel r prefix b key cs f ts tc c :
  delete_ok T false (delete fuel T c (prefix ++ [b]) key) tc key →
  cs !! index b = Some c → ts !! index b = Some tc →
  wf (TFull ts) → looks_in T r (fullNode cs f) (TFull ts) → hexkey (b :: key) →
  delete_ok T r (delete (S fuel) T (fullNode cs f) prefix (b :: key)) (TFull ts) (b :: key).
Proof.
  intros (d & n' & t' & E & Hl' & Hf & Hdel & _ & Hsame & _) Hc Htc Hw Hl Hk. inversion Hl as [| | |? ? ? ? Hlen Hcs Hfl|]; subst.
  cbn [delete]. rewrite Hc, E. cbn [rbind]. apply (deletes_full ts b tc t' key Htc) in Hdel. destruct d; simpl negb; cbv iota.
  2:{ destruct (Hsame eq_refl) as [-> Hmiss]. rewrite list_insert_id in Hdel by done. exists false. eexists _, _. split; [reflexivity|].
    split_and!; [done|by right|done|done| |done]. intros _. split; [done|].
    intros w (b' & k' & t' & [= <- <-] & Ht & Hh)%has_full_inv. simplify_eq. by eapply Hmiss. }
  pose proof (children_delete ts b t' key Hw Hk Hf) as Hok.
  assert (∀ i n t, <[index b := n']> cs !! i = Some n → <[index b := t']> ts !! i = Some t → looks_in T false n t) as Hcs'.
  { intros i m tm Hm Htm. apply list_lookup_insert_Some in Hm as [(<- & <- & Hlt)|[Hne Hm]].
    - rewrite list_lookup_insert_eq in Htm by lia. by simplify_eq.
    - rewrite list_lookup_insert_ne in Htm by done. by eapply Hcs. }
  assert (length (<[index b := n']> cs) = length (<[index b := t']> ts)) as Hlen' by by rewrite !length_insert.
  destruct (some_child ts b t' Hw) as (i & ti & Hti & Hni). set (cs' := <[index b := n']> cs) in *.
  set (ts' := <[index b := t']> ts) in *. cbv zeta.
  destruct (scan_spec 0 cs' ltac:(lia)) as [[_ Hall]|[(j & n & -> & Hj & Hn & Ho)|[-> (j & n & j' & n2 & Hjj & Hj & Hn & Hj' & Hn2)]]].
  - exfalso. destruct (lookup_lt_is_Some_2 cs' i) as [ni Hci]; [rewrite Hlen'; by eapply lookup_lt_Some|].
    apply Hni, (looks_nil _ _ _ _ (Hcs' _ _ _ Hci Hti)). rewrite Forall_forall in Hall. apply Hall. by eapply list_elem_of_lookup_2.
  - rewrite Z.add_0_l, Nat2Z.id, Hj. destruct (Z.leb_spec 0 (Z.of_nat j)) as [_|]; [|lia].
    destruct (lone_child T r cs' ts' j n prefix Hlen' Hcs' Hok Hj Hn Ho) as (m & tm & -> & Hlm & Hwm & Hex & Hh).
    exists true, m, tm. split_and!; [done|done|by right|by eapply deletes_same|by intros _ ->; inversion Hwm|done|done].
  - simpl. exists true. eexists _, (TFull ts'). split; [reflexivity|]. split_and!; [|right|done|done|done|done].
    + constructor; [done|done|apply flags_new].
    + destruct Hok as (Hl17 & Hwc & Hvc).
      destruct (lookup_lt_is_Some_2 ts' j) as [tj Htj]; [rewrite <- Hlen'; by eapply lookup_lt_Some|].
      destruct (lookup_lt_is_Some_2 ts' j') as [tj' Htj']; [rewrite <- Hlen'; by eapply lookup_lt_Some|].
      constructor; [done|done|done|]. exists j, j', tj, tj'. split_and!; [done|done|done|..].
      * by rewrite <- (looks_nil _ _ _ _ (Hcs' _ _ _ Hj Htj)).
      * by rewrite <- (looks_nil _ _ _ _ (Hcs' _ _ _ Hj' Htj')).
Qed.

Lemma delete_spec (T : Trie (D:=D)) fuel n t r prefix key :
  looks_in T r n t → at_pos t key → (need n key ≤ fuel)%nat → delete_ok T r (delete fuel T n prefix key) t key.
Proof.
  revert n t r prefix key. induction fuel as [|fuel IH]; intros n t r prefix key Hl Hp Hf; [unfold need in Hf; destruct n; lia|].
  destruct key as [|b key].
  { destruct Hp as [->|[v0 ->]]; inversion Hl as [| | | |? ? HwN]; subst; try (by inversion HwN); cbn [delete].
    - exists false, nilNode, TNil. split_and!; [done|constructor|done|apply deletes_miss|done| |done]; [|split; [done|]]; intros w ?%has_nil; done.
    - exists true, nilNode, TNil. split_and!; [done|constructor|done| |done|done|done].
      intros k w. split; [by intros ?%has_nil|]. rewrite has_val_inv. naive_solver. }
  pose proof Hp as [Hk [->|Hw]].
  { inversion Hl as [| | | |? ? HwN]; subst; [|by inversion HwN]. cbn [delete].
    exists false, nilNode, TNil. split_and!; [done|constructor|by left|apply deletes_miss|done| |done]; [|split; [done|]]; intros w ?%has_nil; done. }
  inversion Hl as [?|? w|? nk c f tc Hc Hfl|? cs f ts Hlen Hcs Hfl|? ? Hwt Hbt Hb Hav]; subst.
  - inversion Hw.
  - inversion Hw.
  - unfold need in Hf. simpl in Hf. apply delete_short; try done. intros key' prefix' Ek. apply IH; [done| |].
    + eapply at_pos_short; [exact Hw|]. by rewrite <- Ek.
    + pose proof (need_le c key'). apply wf_short_key in Hw. apply (f_equal length) in Ek. rewrite length_app in Ek.
      destruct nk; [done|]. simpl in *. lia.
  - destruct (full_lookup ts b key Hw Hk) as [tc Htc].
    destruct (lookup_lt_is_Some_2 cs (index b)) as [c Hc]; [rewrite Hlen; by eapply lookup_lt_Some|].
    eapply delete_full; try done. apply IH; [by eapply Hcs|by eapply at_pos_full|].
    pose proof (need_le c key). unfold need in Hf. simpl in Hf. lia.
  - destruct (resolve_hash T r _ t prefix Hl) as (rn & E & Hl' & He). cbn [delete]. rewrite E. cbn [rbind].
    destruct (IH rn t r prefix (b :: key) Hl' Hp) as (d & n' & t' & E' & Hl2 & Hf2 & Hi & Hfu & Hs & Hx).
    { unfold need in *. destruct rn; try done; simpl in *; lia. }
    rewrite E'. cbn [rbind]. destruct d; simpl.
    + exists true. eexists _, t'. by split_and!.
    + destruct (Hs eq_refl) as [-> Hm]. exists false. eexists _, t. by split_and!.
Qed.

(** ** Maps *)

(** The trie holds [m]. *)
Definition entries (t : trie) (m : gmap bytes bytes) : Prop :=
  ∀ k v, has t k v ↔ ∃ key, k = keybytesToHex key ∧ m !! key = Some v.
Definition holds (T : Trie (D:=D)) (m : gmap bytes bytes) : Prop :=
  ∃ t, looks_in T true (root T) t ∧ (t = TNil ∨ wf t) ∧ entries t m.

Lemma keybytesToHex_inj k1 k2 : keybytesToHex k1 = keybytesToHex k2 → k1 = k2.
Proof. intros E. pose proof (hexToKeybytes_keybytesToHex k1) as H1. rewrite E, hexToKeybytes_keybytesToHex in H1. by injection H1. Qed.

Lemma entries_get t m key v : entries t m → has t (keybytesToHex key) v ↔ m !! key = Some v.
Proof. intros He. rewrite (He (keybytesToHex key) v). split; [by intros (? & ->%keybytesToHex_inj & ?)|eauto]. Qed.

Lemma entries_insert t t' m key v : entries t m → inserts t t' (keybytesToHex key) v → entries t' (<[key := v]> m).
Proof.
  intros He Hi k w. rewrite (Hi k w). rewrite (He k w). split.
  - intros [[-> ->]|[Hne (key' & -> & Hm)]]; [exists key; by rewrite lookup_insert_eq|].
    exists key'. split; [done|]. rewrite lookup_insert_ne; [done|]. by intros ->.
  - intros (key' & -> & Hm). apply lookup_insert_Some in Hm as [[<- <-]|[Hne Hm]]; [by left|]. right.
    split; [by intros ?%keybytesToHex_inj|eauto].
Qed.

Lemma entries_delete t t' m key : entries t m → deletes t t' (keybytesToHex key) → entries t' (base.delete key m).
Proof.
  intros He Hi k w. rewrite (Hi k w), (He k w). split.
  - intros [Hne (key' & -> & Hm)]. exists key'. split; [done|]. rewrite lookup_delete_ne; [done|]. by intros ->.
  - intros (key' & -> & Hm). apply lookup_delete_Some in Hm as [Hne Hm]. split; [by intros ?%keybytesToHex_inj|eauto].
Qed.

Lemma at_pos_key t key : t = TNil ∨ wf t → at_pos t (keybytesToHex key).
Proof. apply at_pos_hexkey, keybytesToHex_hexkey. Qed.

Lemma left_root t key : left_at t (keybytesToHex key) → t = TNil ∨ wf t.
Proof. pose proof (hexkey_nonempty _ (keybytesToHex_hexkey key)). by destruct (keybytesToHex key). Qed.

Lemma filled_root t key : filled t (keybytesToHex key) → t = TNil ∨ wf t.
Proof. pose proof (hexkey_nonempty _ (keybytesToHex_hexkey key)). destruct (keybytesToHex key); [done|]. by right. Qed.

Lemma need_fuel n key : (need n key ≤ fuel_for key)%nat.
Proof. pose proof (need_le n key). unfold fuel_for. lia. Qed.

(** The map of an operation that writes [v]: the empty value removes the key. *)
Definition updated (key v : bytes) (m : gmap bytes bytes) : gmap bytes bytes :=
  match v with [] => base.delete key m | _ => <[key := v]> m end.

Lemma TryGet_holds (T : Trie (D:=D)) m key : holds T m → ∃ T', TryGet key T = (Ok (m !! key), T') ∧ holds T' m ∧ db T' = db T.
Proof.
  intros (t & Hl & Hw & He). unfold TryGet. set (k := keybytesToHex key).
  destruct (tryGet_spec T (fuel_for k) (root T) t true k 0 Hl) as (o & n' & b & E & Hl' & _ & Ho);
    [rewrite drop_0; by apply at_pos_key|rewrite drop_0; apply need_fuel|]. rewrite drop_0 in Ho. rewrite E.
  assert (o = m !! key) as ->.
  { apply option_eq. intros v. rewrite Ho. by apply entries_get. }
  eexists. split; [reflexivity|]. destruct b; [|split; [by exists t|done]]. split; [by exists t|done].
Qed.

Lemma delete_holds (T : Trie (D:=D)) m key :
  holds T m → ∃ T', with_root (delete (fuel_for (keybytesToHex key)) T (root T) [] (keybytesToHex key)) T = (Ok tt, T') ∧
    holds T' (base.delete key m) ∧ db T' = db T.
Proof.
  intros (t & Hl & Hw & He). set (k := keybytesToHex key).
  destruct (delete_spec T (fuel_for k) (root T) t true [] k Hl) as (d & n' & t' & E & Hl' & Hleft & Hd & _);
    [by apply at_pos_key|apply need_fuel|].
  rewrite E. simpl. eexists. split; [reflexivity|]. split; [|done]. exists t'. split_and!; [done|by eapply left_root|by eapply entries_delete].
Qed.

Lemma TryDelete_holds (T : Trie (D:=D)) m key :
  holds T m → ∃ T', TryDelete key T = (Ok tt, T') ∧ holds T' (base.delete key m) ∧ db T' = db T.
Proof. apply delete_holds. Qed.

Lemma TryUpdate_holds (T : Trie (D:=D)) m key v :
  zlen v < 2 ^ 32 → holds T m → ∃ T', TryUpdate key v T = (Ok tt, T') ∧ holds T' (updated key v m) ∧ db T' = db T.
Proof.
  intros Hv HT. unfold TryUpdate, updated. destruct v as [|b v]; [by apply delete_holds|]. destruct HT as (t & Hl & Hw & He).
  set (k := keybytesToHex key). set (w := b :: v) in *.
  destruct (insert_spec T w (fuel_for k) (root T) t true [] k) as (d & n' & t' & E & Hl' & Hf & Hi & _);
    [done|done|done|by apply at_pos_key|apply need_fuel|].
  rewrite E. simpl. eexists. split; [reflexivity|]. split; [|done]. exists t'. split_and!; [done|by eapply filled_root|by eapply entries_insert].
Qed.

End ops.
End TrieThms.
