(* ===== verification/TrieHash.v ===== *)
(** Hashing and committing a trie (src/trie/hasher.go and the end of
    src/trie/trie.go).

    [hash] collapses a node into the reference its parent holds, writes the nodes
    that are referred to by hash to a database if it is given one, and leaves the
    hashes in the flags of the nodes.  The root hash is that of the pure trie, hence
    a function of the contents; a committed trie can be loaded from its root. *)

From S2P Require Import Prelude RlpEncode RlpRaw RlpDecode RlpRoundtrip RlpTotal KeccakF Sha3 CoreTypes.
From S2P Require Import TrieEncoding TrieNode Trie TrieThms.

Module TrieHash.
Import Rlp Raw Dec Roundtrip Total Codec Types TrieEncoding TrieNode Trie TrieThms.

(** ** hasher.go *)

Inductive putErr := PutFailed.

Section hasher.
Context {D : Type} `{Store D}.

(** The writer, [None] for the nil writer, is passed along; what was written before
    a failure stays. *)
Definition wbind {A B} (r : result putErr A * option D) (k : A → option D → result putErr B * option D) :
    result putErr B * option D :=
  match r with
  | (Ok a, w) => k a w
  | (Err e, w) => (Err e, w)
  | (Panic, w) => (Panic, w)
  | (NoFuel, w) => (NoFuel, w)
  end.

Definition store (n : node) (w : option D) (force : bool) : result putErr node * option D :=
  match n with
  | nilNode | hashNode _ => (Ok n, w)
  | _ =>
      match encode_node n with
      | Ok tmp =>
          if (zlen tmp <? 32) && negb force then (Ok n, w)
          else
            let hash := default (keccak tmp) (fst (cache n)) in
            match w with
            | Some d =>
                match td_put hash tmp d with
                | Some d => (Ok (hashNode hash), Some d)
                | None => (Err PutFailed, w)
                end
            | None => (Ok (hashNode hash), w)
            end
      | _ => (Panic, w)
      end
  end.

(** Nil children are encoded as empty strings. *)
Definition nil_value (n : node) : node := match n with nilNode => valueNode [] | n => n end.

(** The loop over the children of a full node, [i] of them still to be hashed: the
    collapsed children and the cached ones.  [rec] is [hash] without force. *)
Fixpoint hash_list (rec : node → option D → result putErr (node * node) * option D) (i : nat) (cs : list node)
    (w : option D) : result putErr (list node * list node) * option D :=
  match cs with
  | [] => (Ok ([], []), w)
  | c :: cs =>
      match i with
      | O => (Ok ([nil_value c], [c]), w)
      | S i =>
          wbind (match c with nilNode => (Ok (valueNode [], nilNode), w) | c => rec c w end) (fun '(a, b) w =>
          wbind (hash_list rec i cs w) (fun '(l1, l2) w => (Ok (a :: l1, b :: l2), w)))
      end
  end.

Definition hashChildren (rec : node → option D → result putErr (node * node) * option D) (original : node)
    (w : option D) : result putErr (node * node) * option D :=
  match original with
  | shortNode k v f =>
      match hexToCompact k with
      | None => (Panic, w)
      | Some ck =>
          wbind (match v with valueNode _ => (Ok (v, v), w) | _ => rec v w end) (fun '(cv, v') w =>
          (Ok (shortNode ck (nil_value cv) f, shortNode k v' f), w))
      end
  | fullNode cs f =>
      wbind (hash_list rec 16 cs w) (fun '(l1, l2) w => (Ok (fullNode l1 f, fullNode l2 f), w))
  | n => (Ok (n, n), w)
  end.

(** The answers of [hash] from the cache. *)
Definition cached_hash (cachegen cachelimit : Z) (n : node) (writing : bool) : option (node * node) :=
  match cache n with
  | (Some h, dirty) =>
      if negb writing then Some (hashNode h, n)
      else if canUnload n cachegen cachelimit then Some (hashNode h, hashNode h)
      else if negb dirty then Some (hashNode h, n)
      else None
  | (None, _) => None
  end.

Definition set_hash (writing : bool) (hashed cached : node) : node :=
  let h := match hashed with hashNode h => Some h | _ => None end in
  let set f := mkFlag h (gen f) (if writing then false else dirty f) in
  match cached with
  | shortNode k v f => shortNode k v (set f)
  | fullNode cs f => fullNode cs (set f)
  | n => n
  end.

Definition writes_to (w : option D) : bool := match w with Some _ => true | None => false end.

Fixpoint hash (cachegen cachelimit : Z) (n : node) (w : option D) (force : bool) {struct n} :
    result putErr (node * node) * option D :=
  match n with
  | nilNode => (Panic, w)
  | _ =>
      match cached_hash cachegen cachelimit n (writes_to w) with
      | Some r => (Ok r, w)
      | None =>
          wbind (hashChildren (fun c w => hash cachegen cachelimit c w false) n w) (fun '(collapsed, cached) w =>
          wbind (store collapsed w force) (fun hashed w =>
          (Ok (hashed, set_hash (writes_to w) hashed cached), w)))
      end
  end.

(** ** trie.go *)

Definition SetCacheLimit (l : Z) (t : Trie (D:=D)) : Trie := mkTrie (root t) (db t) (cachegen t) l.

Definition hashRoot (t : Trie (D:=D)) (w : option D) : result putErr (node * node) * option D :=
  match root t with
  | nilNode => (Ok (hashNode emptyRoot, nilNode), w)
  | n => hash (cachegen t) (cachelimit t) n w true
  end.

(** The assertion [hash.(hashNode)]. *)
Definition as_hash (n : node) : result putErr bytes := match n with hashNode h => Ok (BytesToHash h) | _ => Panic end.

(** [Hash] drops the error, and reads the hash returned with it. *)
Definition Hash (t : Trie (D:=D)) : result putErr bytes * Trie :=
  match hashRoot t None with
  | (Ok (hash, cached), _) => (as_hash hash, set_root cached t)
  | (Err _, _) => (as_hash (hashNode []), t)
  | (Panic, _) => (Panic, t)
  | (NoFuel, _) => (NoFuel, t)
  end.

Definition next_gen (t : Trie (D:=D)) : Trie := mkTrie (root t) (db t) ((cachegen t + 1) mod 2 ^ 16) (cachelimit t).

Definition CommitTo (w : D) (t : Trie (D:=D)) : result putErr bytes * Trie * option D :=
  match hashRoot t (Some w) with
  | (Ok (hash, cached), w) => (as_hash hash, next_gen (set_root cached t), w)
  | (Err e, w) => (Err e, t, w)
  | (Panic, w) => (Panic, t, w)
  | (NoFuel, w) => (NoFuel, t, w)
  end.

Definition set_db (d : option D) (t : Trie (D:=D)) : Trie := mkTrie (root t) d (cachegen t) (cachelimit t).

(** The writes go to the trie's own database. *)
Definition Commit (t : Trie (D:=D)) : result putErr bytes * Trie :=
  match db t with
  | None => (Panic, t)
  | Some d => let '(r, t, w) := CommitTo d t in (r, set_db w t)
  end.

(** ** What hashing does *)

#[local] Opaque keccak.

(** The nodes of a trie. *)
Fixpoint nodes (t : trie) : list trie :=
  match t with
  | TShort _ c => t :: nodes c
  | TFull ts => t :: concat (map nodes ts)
  | _ => []
  end.

Lemma nodes_self t : is_node t = true → t ∈ nodes t.
Proof. destruct t; simpl; [done|done|left..]. Qed.

Lemma nodes_child ts i t s : ts !! i = Some t → s ∈ nodes t → s ∈ nodes (TFull ts).
Proof.
  intros Ht Hs. simpl. right. apply list_elem_of_In, in_concat. exists (nodes t).
  split; [|by apply list_elem_of_In]. apply in_map. apply list_elem_of_In. by eapply list_elem_of_lookup_2.
Qed.

Lemma refs_mono (P P' : trie → Prop) t : (∀ s, s ∈ nodes t → P s → P' s) → refs P t → refs P' t.
Proof.
  intros Hs Hr. induction Hr as [|v|k t HP Hr IH|ts HP Hr IH]; [constructor..| |].
  - constructor; [intros Hn Hb; apply Hs; [right; by apply nodes_self|by apply HP]|]. apply IH. intros s Hin. apply Hs. by right.
  - constructor.
    + intros i t Ht Hn Hb. apply Hs; [by eapply nodes_child, nodes_self|by eapply HP].
    + intros i t Ht. eapply IH; [done|]. intros s Hin. apply Hs. by eapply nodes_child.
Qed.

Lemma avail_mono (P P' : trie → Prop) t :
  is_node t = true → (∀ s, s ∈ nodes t → P s → P' s) → avail P t → avail P' t.
Proof. intros Hn Hs [HP Hr]. split; [by apply Hs; [apply nodes_self|]|by eapply refs_mono]. Qed.

Lemma flags_mono (P P' : trie → Prop) r f t :
  is_node t = true → (∀ s, s ∈ nodes t → P s → P' s) → flags_ok P r f t → flags_ok P' r f t.
Proof.
  intros Hn Hs. unfold flags_ok. destruct (fl_hash f); [|done]. intros (? & ? & Ha). split_and!; [done|done|].
  intros Hd. eapply avail_mono; [done|done|by apply Ha].
Qed.

Lemma looks_mono (P P' : trie → Prop) r n t : (∀ s, s ∈ nodes t → P s → P' s) → looks P r n t → looks P' r n t.
Proof.
  intros Hs Hl. induction Hl as [| |r k n f t Hl IH Hf|r ns f ts Hlen Hl IH Hf|r t Hw Hb Hr Ha]; [constructor..| | |].
  - constructor; [apply IH; intros s Hin; apply Hs; by right|by eapply flags_mono].
  - constructor; [done| |by eapply flags_mono]. intros i n t Hn Ht. eapply IH; [done|done|]. intros s Hin. apply Hs. by eapply nodes_child.
  - constructor; [done|done|done|]. eapply avail_mono; [by apply wf_is_node|done|done].
Qed.

Lemma encode_node_ok n : zlen (rlp_item (node_item n)) < 2 ^ 64 → encode_node n = Ok (rlp_item (node_item n)).
Proof.
  intros Hl. unfold encode_node, EncodeToBytes. pose proof (writer_writes TIface (VIface (Some (node_item n))) I) as Hw.
  destruct (Hw reset) as (w & -> & He). simpl. by rewrite (emits_toBytes w _ (He Hl)).
Qed.

Section spec.
(** [P]: the nodes that the trie's database has; [U]: the nodes of the trie.  The
    hashes of nodes that are written are told apart. *)
Variables P U : trie → Prop.
Variable writing : bool.
Hypothesis no_clash : writing = true → ∀ s s', U s → U s' → hash_of s = hash_of s' → enc s = enc s'.

Definition consistent (w : option D) : Prop :=
  match w with
  | Some d => writing = true ∧ ∀ s e, U s → td_get (hash_of s) d = Some e → e = enc s
  | None => True
  end.
Definition grows (w w' : option D) : Prop :=
  writes_to w' = writes_to w ∧ ∀ s, U s → in_db w s → in_db w' s.
Definition found (w : option D) (s : trie) : Prop := P s ∨ in_db w s.

(** A run from [w]: its result with [post], or a write that failed. *)
Definition outcome {A} (w : option D) (x : result putErr A * option D) (post : option D → A → Prop) : Prop :=
  match x with
  | (Ok a, w') => grows w w' ∧ consistent w' ∧ post w' a
  | (Err _, w') => grows w w' ∧ consistent w' ∧ writes_to w = true ∧ ∃ k v d, td_put k v d = None
  | _ => False
  end.

Lemma grows_refl w : grows w w.
Proof. by split. Qed.

Lemma grows_trans w1 w2 w3 : grows w1 w2 → grows w2 w3 → grows w1 w3.
Proof. intros [E1 H1] [E2 H2]. split; [congruence|]. intros s HU Hs. by apply H2, H1. Qed.

Lemma outcome_bind {A B} w (x : result putErr A * option D) (k : A → option D → result putErr B * option D) post post' :
  outcome w x post → (∀ w' a, grows w w' → consistent w' → post w' a → outcome w' (k a w') post') →
  outcome w (wbind x k) post'.
Proof.
  intros Hx Hk. destruct x as [[a|e| |] w']; simpl in *; [|done|done|done]. destruct Hx as (Hg & Hc & Hp).
  specialize (Hk w' a Hg Hc Hp). destruct (k a w') as [[b|e| |] w'']; simpl in *; [|..|done|done].
  - destruct Hk as (Hg' & ? & ?). split_and!; [by eapply grows_trans|done|done].
  - destruct Hk as (Hg' & ? & Hw & ?). split_and!; [by eapply grows_trans|done| |done]. destruct Hg as [<- _]. done.
Qed.

Lemma outcome_ret {A} w (a : A) (post : option D → A → Prop) : consistent w → post w a → outcome w (Ok a, w) post.
Proof. intros Hc Hp. split_and!; [apply grows_refl|done|done]. Qed.

Definition in_U (t : trie) : Prop := ∀ s, s ∈ nodes t → U s.

Lemma found_mono w w' t : in_U t → grows w w' → ∀ s, s ∈ nodes t → found w s → found w' s.
Proof. intros HU [_ Hg] s Hs [HP|Hd]; [by left|right]. by apply Hg; [apply HU|]. Qed.

(** What stands for a child: the reference in its parent, and the node that replaces it. *)
Definition child_ok (w : option D) (hn cn : node) (t : trie) : Prop :=
  node_item hn = ref t (item_of t) ∧ hn ≠ nilNode ∧ looks (found w) false cn t ∧
  (writes_to w = true → refs (found w) t ∧ (is_node t = true → big t → found w t)).

Lemma child_ok_mono w w' hn cn t : in_U t → grows w w' → child_ok w hn cn t → child_ok w' hn cn t.
Proof.
  intros HU Hg (Hi & Hn & Hl & Hw). split_and!; [done|done|eapply looks_mono; [by eapply found_mono|done]|].
  destruct (Hg) as [-> _]. intros Hwr. destruct (Hw Hwr) as [Hr Hf]. split; [eapply refs_mono; [by eapply found_mono|done]|].
  intros Hnode Hb. eapply found_mono; [done|done|by apply nodes_self|by apply Hf].
Qed.

Lemma child_ok_nil w : child_ok w (valueNode []) nilNode TNil.
Proof. split_and!; [done|done|constructor|]. intros _. split; [constructor|done]. Qed.
Lemma child_ok_value w v : child_ok w (valueNode v) (valueNode v) (TVal v).
Proof. split_and!; [done|done|constructor|]. intros _. split; [constructor|done]. Qed.

(** [rec] hashes a child. *)
Definition hashes (rec : node → option D → result putErr (node * node) * option D) (n : node) (t : trie) : Prop :=
  ∀ w, consistent w → outcome w (rec n w) (fun w '(hn, cn) => child_ok w hn cn t).

Lemma hash_list_spec rec i cs ts w :
  consistent w → length cs = S i → length ts = S i → (∀ j t, ts !! j = Some t → in_U t) →
  (∀ j n t, (j < i)%nat → cs !! j = Some n → ts !! j = Some t → (n = nilNode ∧ t = TNil) ∨ (n ≠ nilNode ∧ hashes rec n t)) →
  (∀ n t, cs !! i = Some n → ts !! i = Some t → (n = nilNode ∧ t = TNil) ∨ ∃ v, n = valueNode v ∧ t = TVal v) →
  outcome w (hash_list rec i cs w) (fun w '(l1, l2) =>
    Forall2 (fun h t => node_item h = ref t (item_of t)) l1 ts ∧ Forall2 (fun c t => looks (found w) false c t) l2 ts ∧
    (writes_to w = true → Forall (fun t => refs (found w) t ∧ (is_node t = true → big t → found w t)) ts)).
Proof.
  revert i ts w. induction cs as [|c cs IH]; intros i ts w Hc Hl Hlt HU Hrec Hlast; [done|].
  destruct ts as [|t ts]; [done|]. destruct i as [|i].
  - destruct cs; [|done]. destruct ts; [|done]. cbn [hash_list]. apply outcome_ret; [done|].
    assert (child_ok w (nil_value c) c t) as (Hi & _ & Hk & Hw).
    { destruct (Hlast c t eq_refl eq_refl) as [[-> ->]|(v & -> & ->)]; [apply child_ok_nil|apply child_ok_value]. }
    split_and!; [by repeat constructor|by repeat constructor|]. intros Hwr. constructor; [by apply Hw|constructor].
  - cbn [hash_list]. eapply (outcome_bind _ _ _ (fun w '(hn, cn) => child_ok w hn cn t)).
    { destruct (Hrec 0%nat c t ltac:(lia) eq_refl eq_refl) as [[-> ->]|[Hne Hh]].
      - apply outcome_ret; [done|apply child_ok_nil].
      - destruct c; [done|by apply Hh..]. }
    intros w' [a b] Hg Hc' Hab. eapply outcome_bind.
    { apply (IH i ts w'); [done|by injection Hl|by injection Hlt| | |].
      - intros j t' Hj. by apply (HU (S j)).
      - intros j n t' Hj. apply (Hrec (S j)). lia.
      - exact Hlast. }
    intros w'' [l1 l2] Hg' Hc'' (H1 & H2 & H3). apply outcome_ret; [done|].
    eapply child_ok_mono in Hab as (Hi & _ & Hk & Hw); [|by apply (HU 0%nat)|exact Hg'].
    split_and!; [by constructor|by constructor|]. intros Hwr. constructor; [by apply Hw|by apply H3].
Qed.

(** A node with other flags. *)
Definition set_flags (f : nodeFlag) (n : node) : node :=
  match n with shortNode k v _ => shortNode k v f | fullNode cs _ => fullNode cs f | n => n end.
Definition flags_of (n : node) : option nodeFlag :=
  match n with shortNode _ _ f | fullNode _ f => Some f | _ => None end.

(** The collapsed node has the encoding of the trie, and the cached one stands for it. *)
Definition collapsed_ok (r : bool) (f : nodeFlag) (t : trie) (w : option D) (x : node * node) : Prop :=
  let '(collapsed, cached) := x in
  node_item collapsed = item_of t ∧ flags_of collapsed = Some f ∧ flags_of cached = Some f ∧
  (∀ f', flags_ok (found w) r f' t → looks (found w) r (set_flags f' cached) t) ∧
  (writes_to w = true → refs (found w) t).

Lemma hashChildren_short rec r k v f tc w :
  wf (TShort k tc) → consistent w → in_U (TShort k tc) → looks P false v tc → (wf tc → hashes rec v tc) →
  outcome w (hashChildren rec (shortNode k v f) w) (collapsed_ok r f (TShort k tc)).
Proof.
  intros Hw Hc HU Hl Hrec. cbn [hashChildren].
  assert (∃ ck, hexToCompact k = Some ck ∧ compact k = ck) as (ck & -> & Eck).
  { destruct (compact_roundtrip k) as (ck & E & _); [|exists ck; by unfold compact; rewrite E].
    inversion Hw as [l ? Hll|? ? Hn|]; subst; [right; by exists l|by left]. }
  eapply (outcome_bind _ _ _ (fun w '(hn, cn) => child_ok w hn cn tc)).
  { inversion Hw as [l ? Hll|? ts Hn Hne Hwt|]; subst.
    - inversion Hl as [| | | |? ? Hwx]; subst; [|by inversion Hwx]. apply outcome_ret; [done|apply child_ok_value].
    - specialize (Hrec Hwt). inversion Hl; subst; by apply Hrec. }
  intros w' [hn cn] Hg Hc' (Hi & Hnn & Hk & Hwr). apply outcome_ret; [done|]. unfold collapsed_ok. split_and!; [|done|done| |].
  - cbn [item_of node_item]. rewrite Eck, <- Hi. by destruct hn.
  - intros f' Hf'. by constructor.
  - intros Hww. destruct (Hwr Hww) as [Hr Hf]. by constructor.
Qed.

Lemma hashChildren_full rec r cs f ts w :
  wf (TFull ts) → consistent w → in_U (TFull ts) → length cs = length ts →
  (∀ i n t, cs !! i = Some n → ts !! i = Some t → looks P false n t) →
  (∀ i n t, (i < 16)%nat → cs !! i = Some n → ts !! i = Some t → wf t → hashes rec n t) →
  outcome w (hashChildren rec (fullNode cs f) w) (collapsed_ok r f (TFull ts)).
Proof.
  intros Hw Hc HU Hlen Hl Hrec. inversion Hw as [| |? H17 Hwc Hv _]; subst. cbn [hashChildren]. eapply outcome_bind.
  { apply (hash_list_spec _ _ _ ts); [done|by rewrite Hlen|done| | |].
    - intros j t Hj s Hs. apply HU. by eapply nodes_child.
    - intros j n t Hj Hn Ht. pose proof (Hl j n t Hn Ht) as Hlj. destruct (decide (t = TNil)) as [->|Hne].
      + left. by rewrite (looks_nil _ _ _ _ Hlj).
      + right. split; [by rewrite (looks_nil _ _ _ _ Hlj)|]. by eapply Hrec, Hwc.
    - intros n t Hn Ht. pose proof (Hl _ _ _ Hn Ht) as Hlj. destruct (decide (t = TNil)) as [->|Hne].
      + left. by rewrite (looks_nil _ _ _ _ Hlj).
      + right. destruct (Hv t Ht Hne) as (v & -> & _). exists v. inversion Hlj as [| | | |? ? Hwx]; subst; [done|inversion Hwx]. }
  intros w' [l1 l2] Hg Hc' (H1 & H2 & H3). apply outcome_ret; [done|]. unfold collapsed_ok. split_and!; [|done|done| |].
  - cbn [item_of node_item]. f_equal. clear - H1. induction H1 as [|h t l1 ts Hh _ IH]; [done|]. simpl. by rewrite Hh, IH.
  - intros f' Hf'. constructor; [by eapply Forall2_length| |done]. intros i n t Hn Ht.
    eapply Forall2_lookup_lr in H2; [exact H2|exact Hn|exact Ht].
  - intros Hwr. specialize (H3 Hwr). rewrite Forall_lookup in H3. constructor; intros i t Ht; by apply (H3 i t).
Qed.

(** The reference to a node: its hash, or the node itself if it is short. *)
Definition ref_ok (r : bool) (hn : node) (t : trie) : Prop :=
  (hn = hashNode (hash_of t) ∧ (r = true ∨ big t)) ∨
  (r = false ∧ ¬ big t ∧ node_item hn = item_of t ∧ is_Some (flags_of hn)).

Lemma ref_ok_item hn t : is_node t = true → ref_ok false hn t → node_item hn = ref t (item_of t) ∧ hn ≠ nilNode.
Proof.
  intros Hn [[-> [|Hb]]|(_ & Hb & Hi & Hs)]; [done|..]; unfold ref; rewrite Hn; unfold big, enc in Hb; simpl.
  - destruct (Z.leb_spec 32 (zlen (rlp_item (item_of t)))); [done|lia].
  - destruct (Z.leb_spec 32 (zlen (rlp_item (item_of t)))); [lia|]. split; [done|]. intros ->. by destruct Hs.
Qed.

Lemma put_node d d' t :
  consistent (Some d) → U t → td_put (hash_of t) (enc t) d = Some d' →
  grows (Some d) (Some d') ∧ consistent (Some d') ∧ in_db (Some d') t.
Proof.
  intros [Hwr Hc] Ht Hp.
  split_and!; [split; [done|]; intros s Hs; simpl|split; [done|]; intros s e Hs; simpl|simpl]; rewrite (td_get_put _ _ _ _ _ Hp).
  - intros Hd. case_decide as E; [|done]. f_equal. symmetry. by apply no_clash.
  - case_decide as E; [|by apply Hc]. intros [= <-]. symmetry. by apply no_clash.
  - by rewrite decide_True.
Qed.

Lemma store_spec col r f t w :
  wf t → bounded t → in_U t → consistent w → node_item col = item_of t → flags_of col = Some f →
  (∀ h, fl_hash f = Some h → h = hash_of t) →
  outcome w (store col w r) (fun w hn => ref_ok r hn t ∧ (writes_to w = true → r = true ∨ big t → found w t)).
Proof.
  intros Hw Hb HU Hc Hi Hf Hh. assert (encode_node col = Ok (enc t)) as Ee.
  { unfold enc. rewrite <- Hi. apply encode_node_ok. rewrite Hi. pose proof (enc_bound t Hw Hb). unfold enc in *. lia. }
  assert (default (keccak (enc t)) (fst (cache col)) = hash_of t) as Ed.
  { assert (fst (cache col) = fl_hash f) as -> by (destruct col; simpl in *; by simplify_eq).
    destruct (fl_hash f) as [h|] eqn:E; [|done]. by apply Hh. }
  assert (store col w r = if (zlen (enc t) <? 32) && negb r then (Ok col, w) else
    match w with
    | Some d => match td_put (hash_of t) (enc t) d with Some d => (Ok (hashNode (hash_of t)), Some d) | None => (Err PutFailed, w) end
    | None => (Ok (hashNode (hash_of t)), w)
    end) as ->.
  { unfold store. destruct col; [done| | |..]; [done|done|rewrite Ee, Ed; by destruct w..]. }
  assert (U t) as HUt by (apply HU, nodes_self; by apply wf_is_node).
  destruct (Z.ltb_spec (zlen (enc t)) 32) as [Hs|Hs]; simpl.
  - destruct r; simpl; [destruct w as [d|]; [destruct (td_put _ _ d) as [d'|] eqn:Ep|]|].
    + destruct (put_node d d' t Hc HUt Ep) as (Hg & Hc' & Hin). split_and!; [done|done|left; auto|]. intros _ _. by right.
    + split_and!; [apply grows_refl|done|done|by eexists _, _, _].
    + split_and!; [apply grows_refl|done|left; auto|done].
    + split_and!; [apply grows_refl|done|right; split_and!; [done|unfold big; lia|done|by rewrite Hf]|].
      intros _ [|Hbig]; [done|]. unfold big in Hbig. lia.
  - destruct w as [d|]; [destruct (td_put _ _ d) as [d'|] eqn:Ep|].
    + destruct (put_node d d' t Hc HUt Ep) as (Hg & Hc' & Hin). split_and!; [done|done|left; auto|]. intros _ _. by right.
    + split_and!; [apply grows_refl|done|done|by eexists _, _, _].
    + split_and!; [apply grows_refl|done|left; auto|done].
Qed.

Definition hash_post (r : bool) (t : trie) (w : option D) (x : node * node) : Prop :=
  let '(hn, cn) := x in
  ref_ok r hn t ∧ looks (found w) r cn t ∧
  (writes_to w = true → refs (found w) t ∧ (r = true ∨ big t → found w t)).

Lemma hash_post_child t w x : is_node t = true → hash_post false t w x → let '(hn, cn) := x in child_ok w hn cn t.
Proof.
  destruct x as [hn cn]. intros Hn (Hr & Hl & Hw). destruct (ref_ok_item hn t Hn Hr) as [Hi Hne]. split_and!; [done|done|done|].
  intros Hwr. destruct (Hw Hwr). auto.
Qed.

Lemma looks_set_flags Q r f f' n t :
  is_Some (flags_of n) → looks Q r (set_flags f n) t → flags_ok Q r f' t → looks Q r (set_flags f' n) t.
Proof. intros [f0 Hf] Hl Hf'. destruct n; try done; simpl in *; inversion Hl; subst; by constructor. Qed.

Lemma found_P w s : P s → found w s.
Proof. by left. Qed.

(** A node with a cached hash. *)
Lemma cached_spec cg cl n r t w x :
  wf t → bounded t → looks P r n t → cached_hash cg cl n (writes_to w) = Some x → hash_post r t w x.
Proof.
  intros Hw Hb Hl Hx. assert (∃ f, flags_of n = Some f ∧ flags_ok P r f t) as (f & Ef & Hf).
  { inversion Hl; subst; simpl in *; eauto; done. }
  assert (looks (found w) r n t) as Hl' by (eapply looks_mono; [|exact Hl]; intros; by apply found_P).
  assert (cached_hash cg cl n (writes_to w) = match fl_hash f with
    | Some h => if negb (writes_to w) then Some (hashNode h, n) else if canUnload_flag f cg cl then Some (hashNode h, hashNode h)
                else if negb (dirty f) then Some (hashNode h, n) else None
    | None => None end) as E by (destruct n; simpl in *; by simplify_eq).
  rewrite E in Hx. unfold flags_ok in Hf. destruct (fl_hash f) as [h|]; [|done]. destruct Hf as (-> & Hr & Ha).
  assert (dirty f = false → refs (found w) t ∧ found w t) as Hav.
  { intros Hd. destruct (Ha Hd) as [HP Hrefs]. split; [|by left]. eapply refs_mono; [|exact Hrefs]. intros; by apply found_P. }
  destruct (writes_to w) eqn:Ew; simpl in Hx.
  - unfold canUnload_flag in Hx. destruct (dirty f); simpl in Hx; [done|]. destruct (Hav eq_refl) as [Hrefs Hfound].
    destruct (_ <=? _); injection Hx as <-; (split_and!; [by left| |by split]); [|done]. constructor; [done|done|done|by split].
  - injection Hx as <-. split_and!; [by left|done|]. by rewrite Ew.
Qed.

(** Hashing the children of a node, storing it, and caching its hash. *)
Lemma walk_spec cg cl n f r t w :
  wf t → bounded t → in_U t → flags_of n = Some f → (∀ h, fl_hash f = Some h → h = hash_of t) →
  cached_hash cg cl n (writes_to w) = None →
  outcome w (hashChildren (fun c w => hash cg cl c w false) n w) (collapsed_ok r f t) →
  (dirty f = true ∨ writes_to w = true ∨ fl_hash f = None ∧ r = false ∧ ¬ big t) →
  outcome w (hash cg cl n w r) (hash_post r t).
Proof.
  intros Hw Hb HU Hf Hh Hno Hch Hd.
  assert (hash cg cl n w r = wbind (hashChildren (fun c w => hash cg cl c w false) n w) (fun '(collapsed, cached) w =>
      wbind (store collapsed w r) (fun hashed w => (Ok (hashed, set_hash (writes_to w) hashed cached), w)))) as ->.
  { destruct n; [done|..]; cbn [hash]; by rewrite Hno. }
  eapply outcome_bind; [exact Hch|]. intros w1 [col cached] Hg1 Hc1 (Hi & Hfc & Hfd & Hl & Hr).
  eapply outcome_bind; [by eapply store_spec|]. intros w2 hn Hg2 Hc2 [Hrn Hst]. apply outcome_ret; [done|].
  assert (writes_to w2 = writes_to w1) as E2 by apply Hg2. assert (writes_to w1 = writes_to w) as E1 by apply Hg1.
  assert (writes_to w2 = true → refs (found w2) t) as Hr2.
  { intros Hwr. eapply refs_mono; [by eapply found_mono|]. apply Hr. congruence. }
  split_and!; [done| |by auto].
  set (f' := mkFlag (match hn with hashNode h => Some h | _ => None end) (gen f) (if writes_to w2 then false else dirty f)).
  assert (set_hash (writes_to w2) hn cached = set_flags f' cached) as ->.
  { destruct cached; simpl in *; try done; by simplify_eq. }
  apply (looks_set_flags _ r (mkFlag None 0 true)); [by rewrite Hfd| |].
  { eapply looks_mono; [by eapply found_mono|]. apply Hl. by left. }
  unfold flags_ok. simpl. destruct Hrn as [[-> Hbig]|(-> & Hbig & _ & Hs)].
  - split_and!; [done|done|]. intros Hdf. destruct (writes_to w2) eqn:E; [split; [by apply Hst|by apply Hr2]|].
    destruct Hd as [?|[?|(_ & -> & ?)]]; [congruence|congruence|]. by destruct Hbig.
  - destruct hn; try (by destruct Hs); right; done.
Qed.

(** The flags of a node whose hash is not taken from the cache. *)
Lemma not_cached cg cl n f r t w :
  flags_of n = Some f → flags_ok P r f t → cached_hash cg cl n (writes_to w) = None →
  (∀ h, fl_hash f = Some h → h = hash_of t) ∧
  (dirty f = true ∨ writes_to w = true ∨ fl_hash f = None ∧ r = false ∧ ¬ big t).
Proof.
  intros Hf Ho Hx. unfold flags_ok in Ho. split.
  - intros h Hh. rewrite Hh in Ho. by destruct Ho.
  - destruct (fl_hash f) as [h|] eqn:E; [|destruct Ho as [?|[? ?]]; auto]. right; left.
    destruct (writes_to w) eqn:Ew; [done|]. destruct n; try done; simpl in Hf; simplify_eq; unfold cached_hash in Hx; simpl in Hx; by rewrite E in Hx.
Qed.

Lemma hash_step cg cl t n r w :
  wf t → bounded t → in_U t → consistent w → looks P r n t →
  (∀ f, flags_of n = Some f → outcome w (hashChildren (fun c w => hash cg cl c w false) n w) (collapsed_ok r f t)) →
  outcome w (hash cg cl n w r) (hash_post r t).
Proof.
  intros Hw Hb HU Hc Hl Hch. destruct (cached_hash cg cl n (writes_to w)) as [x|] eqn:Ex.
  { assert (hash cg cl n w r = (Ok x, w)) as -> by (destruct n; [done|..]; cbn [hash]; by rewrite Ex).
    apply outcome_ret; [done|]. by eapply cached_spec. }
  assert (looks (found w) r n t) as Hl' by (eapply looks_mono; [|exact Hl]; intros; by apply found_P).
  inversion Hl as [?|? v|? k c f tc Hcl Hfl|? cs f ts Hlen Hcs Hfl|? ? Hwt Hbt Hr [HP Hrefs]]; subst; [by inversion Hw..| | |].
  - destruct (not_cached cg cl (shortNode k c f) f r _ w eq_refl Hfl Ex). eapply (walk_spec _ _ _ f); try done. by apply Hch.
  - destruct (not_cached cg cl (fullNode cs f) f r _ w eq_refl Hfl Ex). eapply (walk_spec _ _ _ f); try done. by apply Hch.
  - apply outcome_ret; [done|]. split_and!; [by left|done|]. intros _. split; [|by left].
    eapply refs_mono; [|exact Hrefs]. intros; by apply found_P.
Qed.

Lemma hash_spec cg cl t :
  wf t → bounded t → in_U t → ∀ n r w, consistent w → looks P r n t → outcome w (hash cg cl n w r) (hash_post r t).
Proof.
  assert (∀ t', is_node t' = true →
    (∀ n r w, consistent w → looks P r n t' → outcome w (hash cg cl n w r) (hash_post r t')) →
    ∀ n, looks P false n t' → hashes (fun c w => hash cg cl c w false) n t') as Hchild.
  { intros t' Hn Hh n Hl w Hc. specialize (Hh n false w Hc Hl). unfold outcome in *.
    destruct (hash cg cl n w false) as [[x|e| |] w']; try done. destruct Hh as (? & ? & Hp). split_and!; [done|done|].
    by apply (hash_post_child t' w' x Hn). }
  intros Hw. induction Hw as [k v Hk Hv Hlv|k ts Hk Hne Hw IH|ts Hl17 Hwc IH Hv H2]; intros Hb HU n r w Hc Hl;
    (apply hash_step; [by constructor|done|done|done|done|]); intros f Hf.
  - inversion Hl as [| |? ? c ? ? Hcl| |]; subst; [|done]. injection Hf as ->. apply hashChildren_short; [by constructor|done|done|done|].
    intros Hwv. inversion Hwv.
  - inversion Hl as [| |? ? c ? ? Hcl| |]; subst; [|done]. injection Hf as ->.
    assert (wf (TShort k (TFull ts))) as Hwk by by constructor. destruct (bounded_short _ _ Hwk Hb) as [_ Hbc].
    apply hashChildren_short; [done|done|done|done|]. intros _. apply Hchild; [done| |done].
    apply IH; [done|]. intros s Hs. apply HU. by right.
  - inversion Hl as [| | |? cs ? ? Hlen Hcs|]; subst; [|done]. injection Hf as ->. apply hashChildren_full; [by constructor|done|done|done|done|].
    intros i m t Hi Hm Ht Hwt. assert (t ≠ TNil) as Hn by (by intros ->; inversion Hwt).
    apply Hchild; [by apply wf_is_node| |by eapply Hcs]. apply (IH i t Hi Ht Hn); [by eapply (bounded_full ts i); [done|lia|]|].
    intros s Hs. apply HU. by eapply nodes_child.
Qed.

End spec.

(** ** The root hash *)

Lemma BytesToHash_32 b : length b = 32%nat → BytesToHash b = b.
Proof. intros Hl. unfold BytesToHash, set_bytes, HashLength. rewrite Hl. cbv zeta. simpl. by rewrite Hl. Qed.

Lemma BytesToHash_hash t : BytesToHash (hash_of t) = hash_of t.
Proof. apply BytesToHash_32, length_keccak. Qed.

(** The constant in the source is the hash of the encoding of nothing. *)
Lemma emptyRoot_hash : emptyRoot = hash_of TNil.
Proof. vm_cast_no_check (eq_refl emptyRoot). Qed.

(** The trie of a map with keys shorter than 2^31 - 1 bytes. *)
Definition small_keys (m : gmap bytes bytes) : Prop := ∀ key v, m !! key = Some v → zlen key < 2 ^ 31 - 1.
Definition trie_of (m : gmap bytes bytes) (t : trie) : Prop := (t = TNil ∨ wf t) ∧ entries t m.

Lemma keybytesToHex_length key : length (keybytesToHex key) = (2 * length key + 1)%nat.
Proof.
  rewrite keybytesToHex_eq, length_app. unfold bytes_nibbles. simpl. f_equal. induction key as [|b key IH]; [done|].
  simpl flat_map. simpl length. lia.
Qed.

Lemma trie_of_bounded m t : small_keys m → trie_of m t → bounded t.
Proof. intros Hk [_ He] k v Hh. apply He in Hh as (key & -> & Hm). apply Hk in Hm. rewrite keybytesToHex_length. lia. Qed.

Lemma trie_of_unique m t1 t2 : trie_of m t1 → trie_of m t2 → t1 = t2.
Proof.
  intros [H1 E1] [H2 E2]. assert (same t1 t2) as Hs by (intros k v; by rewrite (E1 k v), (E2 k v)).
  destruct H1 as [->|H1], H2 as [->|H2]; [done| | |by apply wf_unique].
  - destruct (wf_entry t2 H2) as (k & v & Hh). apply Hs in Hh. by apply has_nil in Hh.
  - destruct (wf_entry t1 H1) as (k & v & Hh). apply Hs in Hh. by apply has_nil in Hh.
Qed.

Lemma trie_of_map t m1 m2 : trie_of m1 t → trie_of m2 t → m1 = m2.
Proof.
  intros [_ E1] [_ E2]. apply map_eq. intros key. apply option_eq. intros v.
  by rewrite <- (entries_get t m1), <- (entries_get t m2).
Qed.

(** The trie [T] stands for [t], the trie of [m]. *)
Definition stands (T : Trie (D:=D)) (t : trie) (m : gmap bytes bytes) : Prop :=
  looks (in_db (db T)) true (root T) t ∧ trie_of m t.

Lemma holds_stands T m : holds T m ↔ ∃ t, stands T t m.
Proof. unfold holds, stands, trie_of. naive_solver. Qed.

Lemma looks_nil_root P r n : looks P r n TNil → n = nilNode.
Proof. intros Hl. by apply (looks_nil P r n TNil Hl). Qed.

Lemma found_in_db (T : Trie (D:=D)) r n t : looks (found (in_db (db T)) None) r n t → looks (in_db (db T)) r n t.
Proof. apply looks_mono. by intros s _ [?|[]]. Qed.

Lemma hashRoot_node (T : Trie (D:=D)) w : root T ≠ nilNode → hashRoot T w = hash (cachegen T) (cachelimit T) (root T) w true.
Proof. unfold hashRoot. by destruct (root T). Qed.

Lemma looks_root_node P n t : wf t → looks P true n t → n ≠ nilNode.
Proof. intros Hw Hl ->. inversion Hl; subst. inversion Hw. Qed.

Lemma ref_ok_root hn t : ref_ok true hn t → as_hash hn = Ok (hash_of t).
Proof. intros [[-> _]|[? _]]; [|done]. cbn [as_hash]. by rewrite BytesToHash_hash. Qed.

Lemma Hash_stands (T : Trie (D:=D)) t m :
  stands T t m → small_keys m → ∃ T', Hash T = (Ok (hash_of t), T') ∧ stands T' t m ∧ db T' = db T.
Proof.
  intros [Hl Ht] Hk. pose proof (trie_of_bounded m t Hk Ht) as Hb. unfold Hash. destruct (Ht) as [[->|Hw] He].
  - unfold hashRoot. pose proof (looks_nil_root _ _ _ Hl) as E. rewrite E, emptyRoot_hash. cbn [as_hash]. rewrite BytesToHash_hash.
    eexists. split; [reflexivity|]. split; [|done]. split; [constructor|done].
  - rewrite (hashRoot_node T None (looks_root_node _ _ _ Hw Hl)).
    pose proof (hash_spec (in_db (db T)) (fun s => s ∈ nodes t) false ltac:(done) (cachegen T) (cachelimit T) t Hw Hb ltac:(by intros s)
      (root T) true None I Hl) as Ho. destruct (hash _ _ _ _ _) as [[[hn cn]|e| |] w']; [|by destruct Ho as (_ & _ & ? & _)|done|done].
    destruct Ho as ([Ew _] & _ & Hr & Hl' & _). rewrite (ref_ok_root hn t Hr). eexists. split; [reflexivity|]. split; [|done].
    split; [|done]. destruct w'; [done|]. by apply found_in_db.
Qed.

(** ** Committing *)

(** No two nodes of [t] have the same hash, the database has nothing else under their
    hashes, and the root is not taken for the empty one. *)
Record clash_free (d : D) (t : trie) : Prop := {
  cf_nodes s s' : s ∈ nodes t → s' ∈ nodes t → hash_of s = hash_of s' → enc s = enc s';
  cf_db s e : s ∈ nodes t → td_get (hash_of s) d = Some e → e = enc s;
  cf_root : t ≠ TNil → hash_of t ≠ emptyHash ∧ hash_of t ≠ emptyRoot }.

Definition committed (T : Trie (D:=D)) (t : trie) : Prop := t ≠ TNil → avail (in_db (db T)) t.

Lemma Commit_stands (T : Trie (D:=D)) t m d :
  db T = Some d → stands T t m → small_keys m → clash_free d t →
  match Commit T with
  | (Ok h, T') => h = hash_of t ∧ stands T' t m ∧ committed T' t
  | (Err _, T') => stands T' t m ∧ ∃ k v d', td_put (D:=D) k v d' = None
  | _ => False
  end.
Proof.
  intros Hd [Hl Ht] Hk [Hnc Hdb _]. pose proof (trie_of_bounded m t Hk Ht) as Hb. unfold Commit, CommitTo. rewrite Hd.
  destruct (Ht) as [[->|Hw] He].
  - unfold hashRoot. pose proof (looks_nil_root _ _ _ Hl) as E. rewrite E. cbn [as_hash]. rewrite emptyRoot_hash, BytesToHash_hash.
    split_and!; [done|split; [constructor|done]|by intros []].
  - rewrite (hashRoot_node T _ (looks_root_node _ _ _ Hw Hl)).
    pose proof (hash_spec (in_db (db T)) (fun s => s ∈ nodes t) true (fun _ => Hnc) (cachegen T) (cachelimit T) t Hw Hb ltac:(by intros s)
      (root T) true (Some d) (conj eq_refl Hdb) Hl) as Ho. rewrite Hd in *.
    destruct (hash _ _ _ _ _) as [[[hn cn]|e| |] w']; [..|done|done].
    + destruct Ho as ([Ew Hg] & _ & Hr & Hl' & Hrf). rewrite (ref_ok_root hn t Hr). cbn [set_db db next_gen set_root].
      assert (∀ s, s ∈ nodes t → found (in_db (Some d)) w' s → in_db w' s) as Hf by (intros s Hs [?|?]; [by apply Hg|done]).
      destruct (Hrf Ew) as [Hrefs Hroot]. split_and!; [done| |].
      * split; [|done]. eapply looks_mono; [exact Hf|exact Hl'].
      * intros _. split; [apply Hf; [by apply nodes_self, wf_is_node|by apply Hroot; left]|by eapply refs_mono].
    + destruct Ho as ([Ew Hg] & _ & _ & Hput). split; [|done]. split; [|done]. cbn [set_db db root]. eapply looks_mono; [exact Hg|exact Hl].
Qed.

Lemma New_stands t m (o : option D) :
  trie_of m t → small_keys m → (t ≠ TNil → hash_of t ≠ emptyHash ∧ hash_of t ≠ emptyRoot) → (t ≠ TNil → avail (in_db o) t) →
  ∃ T, New (hash_of t) o = Ok T ∧ stands T t m.
Proof.
  intros Ht Hk Hne Ha. unfold New. destruct (decide (t = TNil)) as [->|Hn].
  - rewrite <- emptyRoot_hash, (bool_decide_true (emptyRoot = emptyRoot)) by reflexivity. rewrite orb_true_r.
    eexists. split; [reflexivity|]. split; [constructor|done].
  - destruct (Hne Hn) as [H0 H1]. rewrite (bool_decide_false _ H0), (bool_decide_false _ H1). simpl orb.
    destruct (Ht) as [[->|Hw] He]; [done|].
    destruct (resolve_hash (mkTrie nilNode o 0 0) true (hash_of t) t []) as (n & -> & Hln & _).
    { constructor; [done|by eapply trie_of_bounded|by left|by apply Ha]. }
    cbn [rbind]. eexists. split; [reflexivity|]. by split.
Qed.

End hasher.
End TrieHash.
