(* ===== verification/TrieMap.v ===== *)
(** The trie as its users see it: a map with a root hash (src/trie/trie.go).

    [trie_is_a_map]: any sequence of operations answers as a map does, whatever has
    been unloaded or cached in between.  [root_hash_is_of_contents]: the root hash
    identifies the contents.  [commit_then_load]: a committed trie is found again
    from its root hash. *)

From S2P Require Import Prelude RlpEncode RlpRaw RlpDecode RlpRoundtrip RlpTotal KeccakF Sha3 CoreTypes.
From S2P Require Import TrieEncoding TrieNode Trie TrieThms TrieHash.

Module TrieMap.
Import Rlp Raw Dec Roundtrip Total Codec Types TrieEncoding TrieNode Trie TrieThms TrieHash.

#[local] Opaque keccak.

(** ** Sequences of operations *)

Inductive op :=
| OGet (key : bytes) | OUpdate (key value : bytes) | ODelete (key : bytes)
| OHash | OCommit | OSetCacheLimit (l : Z).

Inductive answer :=
| AGet (r : result trieErr (option bytes))
| ADone (r : result trieErr unit)
| AHash (r : result putErr bytes)
| ANone.

Section map.
Context {D : Type} `{Store D}.

Definition exec (o : op) (T : Trie (D:=D)) : answer * Trie :=
  match o with
  | OGet k => let '(r, T) := TryGet k T in (AGet r, T)
  | OUpdate k v => let '(r, T) := TryUpdate k v T in (ADone r, T)
  | ODelete k => let '(r, T) := TryDelete k T in (ADone r, T)
  | OHash => let '(r, T) := Hash T in (AHash r, T)
  | OCommit => let '(r, T) := Commit T in (AHash r, T)
  | OSetCacheLimit l => (ANone, SetCacheLimit l T)
  end.

Fixpoint run (os : list op) (T : Trie (D:=D)) : list answer * Trie :=
  match os with
  | [] => ([], T)
  | o :: os => let '(a, T) := exec o T in let '(l, T) := run os T in (a :: l, T)
  end.

(** The same on a map. *)
Definition next (o : op) (m : gmap bytes bytes) : gmap bytes bytes :=
  match o with
  | OUpdate k v => updated k v m
  | ODelete k => base.delete k m
  | _ => m
  end.

(** A commit may fail with the database. *)
Definition right_answer (m : gmap bytes bytes) (o : op) (a : answer) : Prop :=
  match o, a with
  | OGet k, AGet r => r = Ok (m !! k)
  | OUpdate _ _, ADone r | ODelete _, ADone r => r = Ok tt
  | OHash, AHash r => ∃ t, trie_of m t ∧ r = Ok (hash_of t)
  | OCommit, AHash r =>
      (∃ t, trie_of m t ∧ r = Ok (hash_of t)) ∨ (r = Err PutFailed ∧ ∃ k v d, td_put (D:=D) k v d = None)
  | OSetCacheLimit _, ANone => True
  | _, _ => False
  end.

Fixpoint right_answers (m : gmap bytes bytes) (os : list op) (l : list answer) : Prop :=
  match os, l with
  | [], [] => True
  | o :: os, a :: l => right_answer m o a ∧ right_answers (next o m) os l
  | _, _ => False
  end.

Definition op_ok (o : op) : Prop :=
  match o with OUpdate k v => zlen k < 2 ^ 31 - 1 ∧ zlen v < 2 ^ 32 | _ => True end.

(** Every commit has a database, and hashes no two nodes to the same value. *)
Fixpoint no_clashes (os : list op) (T : Trie (D:=D)) (m : gmap bytes bytes) : Prop :=
  match os with
  | [] => True
  | o :: os =>
      match o with
      | OCommit => ∃ d, db T = Some d ∧ ∀ t, trie_of m t → clash_free d t
      | _ => True
      end ∧ no_clashes os (snd (exec o T)) (next o m)
  end.

Lemma small_keys_next o m : op_ok o → small_keys m → small_keys (next o m).
Proof.
  intros Ho Hk key v. destruct o as [|k w|k| | |]; simpl; try apply Hk; intros Hm.
  - unfold updated in Hm. destruct w; [apply lookup_delete_Some in Hm as [_ Hm]; by eapply Hk|].
    apply lookup_insert_Some in Hm as [[<- _]|[_ Hm]]; [by destruct Ho|by eapply Hk].
  - apply lookup_delete_Some in Hm as [_ Hm]. by eapply Hk.
Qed.

Lemma exec_holds o (T : Trie (D:=D)) m :
  holds T m → small_keys m → op_ok o → no_clashes [o] T m →
  let '(a, T') := exec o T in right_answer m o a ∧ holds T' (next o m).
Proof.
  intros HT Hk Ho [Hc _]. destruct o as [k|k v|k| | |l]; cbn [exec next].
  - destruct (TryGet_holds T m k HT) as (T' & -> & HT' & _). by split.
  - destruct (TryUpdate_holds T m k v) as (T' & -> & HT' & _); [by destruct Ho|done|]. by split.
  - destruct (TryDelete_holds T m k HT) as (T' & -> & HT' & _). by split.
  - apply holds_stands in HT as (t & Ht). destruct (Hash_stands T t m Ht Hk) as (T' & -> & Ht' & _).
    split; [exists t; split; [by destruct Ht|done]|]. apply holds_stands. by exists t.
  - apply holds_stands in HT as (t & Ht). destruct Hc as (d & Hd & Hf).
    pose proof (Commit_stands T t m d Hd Ht Hk (Hf t (proj2 Ht))) as Hx. destruct (Commit T) as [[h|e| |] T']; [| |done|done].
    + destruct Hx as (-> & Ht' & _). split; [left; exists t; split; [by destruct Ht|done]|]. apply holds_stands. by exists t.
    + destruct Hx as (Ht' & Hp). split; [right; by destruct e|]. apply holds_stands. by exists t.
  - split; [done|]. exact HT.
Qed.

(** C11: Over nodes in memory and in the database, a trie is a map: whatever the
    sequence of lookups, updates (the empty value deletes), deletions, hashings and
    commits, every lookup finds what the map has, the root hash is that of the trie
    of the map, a commit returns the same hash unless the database fails, and no
    operation panics, reports a missing node, or runs out of fuel. *)
Theorem trie_is_a_map (T : Trie (D:=D)) m os :
  holds T m → small_keys m → Forall op_ok os → no_clashes os T m →
  let '(l, T') := run os T in right_answers m os l ∧ holds T' (fold_left (fun m o => next o m) os m).
Proof.
  revert T m. induction os as [|o os IH]; intros T m HT Hk Ho Hc; [by split|]. apply Forall_cons in Ho as [Ho Hos].
  destruct Hc as [Hc Hcs]. pose proof (exec_holds o T m HT Hk Ho (conj Hc I)) as Hx. cbn [run].
  destruct (exec o T) as [a T1]. destruct Hx as [Ha HT1]. specialize (IH T1 (next o m) HT1 (small_keys_next o m Ho Hk) Hos Hcs).
  destruct (run os T1) as [l T2]. destruct IH as [IH1 IH2]. by split.
Qed.

Lemma New_empty (o : option D) : ∃ T, New emptyRoot o = Ok T ∧ holds T ∅ ∧ db T = o.
Proof.
  unfold New. rewrite (bool_decide_true (emptyRoot = emptyRoot)) by reflexivity. rewrite orb_true_r. eexists. split; [reflexivity|].
  split; [|done]. exists TNil. split_and!; [constructor|by left|]. intros k v. split; [by intros ?%has_nil|].
  intros (key & _ & Hm). by rewrite lookup_empty in Hm.
Qed.

End map.

(** ** The root hash *)

Notation any := (fun _ : trie => True).

Lemma refs_any t : wf t → refs any t.
Proof.
  induction 1 as [k v Hk Hv Hlv|k ts Hk Hne Hw IH|ts Hl Hc IH Hv H2]; [by repeat constructor|by constructor|].
  constructor; [done|]. intros i t Ht. destruct (decide (t = TNil)) as [->|Hn]; [constructor|].
  pose proof (lookup_lt_Some _ _ _ Ht). destruct (decide (i = 16%nat)) as [->|Hi]; [|by apply (IH i t); [lia|..]].
  destruct (Hv t Ht Hn) as (v & -> & _). constructor.
Qed.

(** Nodes of the two tries that have the same hash have the same encoding. *)
Definition told_apart (t1 t2 : trie) : Prop :=
  ∀ s s', s ∈ nodes t1 → s' ∈ nodes t2 → hash_of s = hash_of s' → enc s = enc s'.

(** What decoding the common encoding of two tries gives. *)
Lemma common_node t1 t2 :
  wf t1 → bounded t1 → wf t2 → bounded t2 → enc t1 = enc t2 →
  ∃ n, exposed n ∧ looks any true n t1 ∧ looks any true n t2.
Proof.
  intros H1 B1 H2 B2 E. assert (hash_of t1 = hash_of t2) as Eh by (unfold hash_of; by rewrite E).
  pose proof (enc_bound t1 H1 B1) as L1.
  destruct (decode_looks any t1 H1 B1 (S (length (enc t1))) (Some (hash_of t1)) true [] 0) as (n & En & Hn & He);
    [by apply refs_any|by repeat split; left|lia|rewrite app_nil_r; lia|].
  destruct (decode_looks any t2 H2 B2 (S (length (enc t1))) (Some (hash_of t1)) true [] 0) as (n' & En' & Hn' & _);
    [by apply refs_any|by repeat split; [|left]|rewrite <- E; lia|rewrite app_nil_r, <- E; lia|].
  rewrite <- E, En in En'. injection En' as <-. by exists n.
Qed.

Lemma looks_val P r n v : looks P r n (TVal v) → n = valueNode v.
Proof. inversion 1 as [| | | |? ? Hw]; subst; [done|inversion Hw]. Qed.

Definition unique_at (shown : node → Prop) (t1 : trie) : Prop :=
  ∀ t2 r1 r2 n, shown n → wf t2 → bounded t2 → told_apart t1 t2 → looks any r1 n t1 → looks any r2 n t2 → t1 = t2.

Lemma unique_exposed t1 : wf t1 → bounded t1 → unique_at exposed t1 → unique_at (fun _ => True) t1.
Proof.
  intros Hw1 Hb1 Hu t2 r1 r2 n _ Hw2 Hb2 Ha Hl1 Hl2.
  assert (exposed n ∨ ∃ h, n = hashNode h) as [|[h ->]] by (destruct n; simpl; eauto); [by eapply Hu|].
  assert (h = hash_of t1) as Eh1 by (by inversion Hl1). assert (h = hash_of t2) as Eh2 by (by inversion Hl2).
  destruct (common_node t1 t2) as (n & ? & ? & ?); [done..| |by apply (Hu t2 true true n)].
  apply Ha; [by apply nodes_self, wf_is_node..|congruence].
Qed.

(** A node stands for one trie. *)
Lemma looks_unique t1 : wf t1 → bounded t1 → unique_at (fun _ => True) t1.
Proof.
  induction 1 as [k v Hk Hv Hlv|k ts Hk Hne Hw IH|ts Hl17 Hc IH Hv Htwo]; intros Hb1;
    (apply unique_exposed; [by constructor|done|]); intros t2 r1 r2 n Hx Hw2 Hb2 Ha H1 H2.
  - inversion H1 as [| |? ? c f ? Hcl| |]; subst; [|done]. apply looks_val in Hcl as ->.
    inversion H2 as [| |? ? ? ? tc Hcl| |]; subst. inversion Hcl; subst. done.
  - inversion H1 as [| |? ? c f ? Hcl| |]; subst; [|done]. inversion H2 as [| |? ? ? ? tc Hcl2| |]; subst.
    assert (wf (TShort k (TFull ts))) as Hwk by by constructor. destruct (bounded_short _ _ Hwk Hb1) as [_ Hbc].
    destruct (bounded_short _ _ Hw2 Hb2) as [_ Hbc2]. f_equal.
    inversion Hw2 as [l w Hlw|? ts2 Hk2 Hne2 Hwt2|]; subst; [apply looks_val in Hcl2 as ->; by inversion Hcl|].
    apply (IH Hbc (TFull ts2) false false c); [done|done|done| |done|done]. intros s s' Hs Hs'. apply Ha; by right.
  - inversion H1 as [| | |? cs f ? Hlen Hcs|]; subst; [|done]. inversion H2 as [| | |? ? ? ts2 Hlen2 Hcs2|]; subst.
    inversion Hw2 as [| |? Hl2 Hc2 Hv2 _]; subst. f_equal. apply (list_eq_same_length _ _ 17%nat); [done|done|].
    intros i x y Hi Hx1 Hy. destruct (lookup_lt_is_Some_2 cs i) as [c Hci]; [lia|].
    pose proof (Hcs i c x Hci Hx1) as Lx. pose proof (Hcs2 i c y Hci Hy) as Ly.
    destruct (decide (x = TNil)) as [->|Hnx]; [symmetry; apply (looks_nil _ _ _ _ Ly), (looks_nil _ _ _ _ Lx); done|].
    destruct (decide (y = TNil)) as [->|Hny]; [apply (looks_nil _ _ _ _ Lx), (looks_nil _ _ _ _ Ly); done|].
    destruct (decide (i = 16%nat)) as [->|Hi16].
    + destruct (Hv x Hx1 Hnx) as (v & -> & _), (Hv2 y Hy Hny) as (w & -> & _). apply looks_val in Lx as ->. by inversion Ly.
    + apply (IH i x ltac:(lia) Hx1 Hnx (bounded_full ts i x Hb1 Hi Hx1) y false false c); [done|apply (Hc2 i); [lia|done|done]| | |done|done].
      * by eapply (bounded_full ts2 i).
      * intros s s' Hs Hs'. apply Ha; by eapply nodes_child.
Qed.

Lemma enc_inj t1 t2 : wf t1 → bounded t1 → wf t2 → bounded t2 → told_apart t1 t2 → enc t1 = enc t2 → t1 = t2.
Proof.
  intros H1 B1 H2 B2 Ha E. destruct (common_node t1 t2 H1 B1 H2 B2 E) as (n & _ & L1 & L2).
  by apply (looks_unique t1 H1 B1 t2 true true n).
Qed.

Lemma enc_not_nil t : wf t → bounded t → enc t ≠ enc TNil.
Proof.
  intros Hw Hb E. destruct (decode_looks any t Hw Hb (S (length (enc t))) (Some (hash_of t)) true [] 0) as (n & En & _);
    [by apply refs_any|by repeat split; left|lia|rewrite app_nil_r; pose proof (enc_bound t Hw Hb); lia|].
  rewrite app_nil_r, E in En. done.
Qed.


(** Two different encodings of nodes, of the roots included, with the same hash. *)
Definition collide (t1 t2 : trie) : Prop :=
  ∃ s s', s ∈ t1 :: nodes t1 ∧ s' ∈ t2 :: nodes t2 ∧ hash_of s = hash_of s' ∧ enc s ≠ enc s'.

Lemma told_apart_or t1 t2 : told_apart t1 t2 ∨ collide t1 t2.
Proof.
  destruct (decide (Forall (fun s => Forall (fun s' => hash_of s = hash_of s' → enc s = enc s') (nodes t2)) (nodes t1))) as [Hf|Hf].
  - left. intros s s' Hs Hs'. rewrite Forall_forall in Hf. specialize (Hf s Hs). rewrite Forall_forall in Hf. by apply Hf.
  - right. apply not_Forall_Exists in Hf; [|tc_solve]. apply Exists_exists in Hf as (s & Hs & Hf).
    apply not_Forall_Exists in Hf; [|tc_solve]. apply Exists_exists in Hf as (s' & Hs' & Hf).
    exists s, s'. split_and!; [by right|by right|..].
    + destruct (decide (hash_of s = hash_of s')) as [|Hne]; [done|]. destruct Hf. intros E. by destruct Hne.
    + intros E. by apply Hf.
Qed.

Lemma hash_inj t1 t2 m1 m2 :
  trie_of m1 t1 → trie_of m2 t2 → small_keys m1 → small_keys m2 → hash_of t1 = hash_of t2 → m1 = m2 ∨ collide t1 t2.
Proof.
  intros H1 H2 K1 K2 Eh. pose proof (trie_of_bounded _ _ K1 H1) as B1. pose proof (trie_of_bounded _ _ K2 H2) as B2.
  assert (enc t1 ≠ enc t2 → collide t1 t2) as Hc by (intros Hne; exists t1, t2; by split_and!; [left|left|..]).
  destruct (H1) as [[->|W1] _], (H2) as [[->|W2] _].
  - left. by eapply trie_of_map.
  - right. apply Hc. by apply not_eq_sym, enc_not_nil.
  - right. apply Hc. by apply enc_not_nil.
  - destruct (told_apart_or t1 t2) as [Ha|]; [|by right]. destruct (decide (enc t1 = enc t2)) as [E|]; [|by right; apply Hc].
    left. apply (trie_of_map t1); [done|]. by rewrite (enc_inj t1 t2).
Qed.

(** C12: The root hash identifies the contents: tries that hold the same map, however
    they were built, loaded and cached, have the same root hash, and tries with the
    same root hash hold the same map unless two of their nodes collide under
    Keccak-256. *)
Theorem root_hash_is_of_contents {D} `{Store D} (T1 T2 : Trie (D:=D)) m1 m2 :
  holds T1 m1 → holds T2 m2 → small_keys m1 → small_keys m2 →
  ∃ t1 t2 T1' T2',
    trie_of m1 t1 ∧ trie_of m2 t2 ∧
    Hash T1 = (Ok (hash_of t1), T1') ∧ holds T1' m1 ∧ Hash T2 = (Ok (hash_of t2), T2') ∧ holds T2' m2 ∧
    (m1 = m2 → hash_of t1 = hash_of t2) ∧
    (hash_of t1 = hash_of t2 → m1 = m2 ∨ collide t1 t2).
Proof.
  intros [t1 H1]%holds_stands [t2 H2]%holds_stands K1 K2.
  destruct (Hash_stands T1 t1 m1 H1 K1) as (T1' & E1 & H1' & _), (Hash_stands T2 t2 m2 H2 K2) as (T2' & E2 & H2' & _).
  exists t1, t2, T1', T2'. split_and!; [by destruct H1|by destruct H2|done|apply holds_stands; by exists t1|done|apply holds_stands; by exists t2|..].
  - intros <-. f_equal. eapply trie_of_unique; [by destruct H1|by destruct H2].
  - apply hash_inj; [by destruct H1|by destruct H2|done|done].
Qed.

(** C13: A commit that succeeds returns the root hash of the contents, and a trie
    opened on that hash and the database it left holds the same map; so does the
    committed trie itself, and the trie that a failed commit leaves. *)
Theorem commit_then_load {D} `{Store D} (T : Trie (D:=D)) t m d :
  db T = Some d → stands T t m → small_keys m → clash_free d t →
  match Commit T with
  | (Ok h, T') => h = hash_of t ∧ holds T' m ∧ ∃ T2, New h (db T') = Ok T2 ∧ holds T2 m
  | (Err _, T') => holds T' m ∧ ∃ k v d', td_put (D:=D) k v d' = None
  | _ => False
  end.
Proof.
  intros Hd Ht Hk Hf. pose proof (Commit_stands T t m d Hd Ht Hk Hf) as Hc. destruct (Commit T) as [[h|e| |] T']; [..|done|done].
  - destruct Hc as (-> & Ht' & Hav). split_and!; [done|apply holds_stands; by exists t|].
    destruct (New_stands t m (db T') (proj2 Ht) Hk (cf_root d t Hf) Hav) as (T2 & -> & H2).
    exists T2. split; [done|]. apply holds_stands. by exists t.
  - destruct Hc as [Ht' Hp]. split; [|done]. apply holds_stands. by exists t.
Qed.

(** ** A database *)

#[global, refine] Instance map_store : Store (gmap bytes bytes) := {
  td_get k d := d !! k;
  td_put k v d := Some (<[k := v]> d) }.
Proof. intros k v d d' k' [= <-]. case_decide as E; [subst; by rewrite lookup_insert_eq|by rewrite lookup_insert_ne]. Defined.

Definition do_key : bytes := [x64; x6f].
Definition dog_key : bytes := [x64; x6f; x67].
Definition verb : bytes := [x76; x65; x72; x62].
Definition puppy : bytes := [x70; x75; x70; x70; x79].

Definition sample_trie : Trie (D:=gmap bytes bytes) := mkTrie nilNode (Some ∅) 0 0.
Definition sample_ops : list op :=
  [OUpdate do_key verb; OCommit; OUpdate dog_key puppy; OGet do_key; ODelete do_key; OGet do_key; OGet dog_key; OHash].

Lemma sample_holds : holds sample_trie ∅.
Proof.
  exists TNil. split_and!; [constructor|by left|]. intros k v. split; [by intros ?%has_nil|].
  intros (key & _ & Hm). by rewrite lookup_empty in Hm.
Qed.

Lemma small_keys_empty : small_keys ∅.
Proof. intros key v Hm. by rewrite lookup_empty in Hm. Qed.

(** The trie of one entry. *)
Lemma trie_of_one key v : v ≠ [] → zlen v < 2 ^ 32 → trie_of {[key := v]} (TShort (keybytesToHex key) (TVal v)).
Proof.
  intros Hv Hl. split; [right; by apply leaf_wf; [apply keybytesToHex_hexkey|..]|]. intros k w. rewrite has_short_inv. split.
  - intros (k' & -> & [-> ->]%has_val_inv). exists key. rewrite app_nil_r. split; [done|]. by rewrite lookup_singleton_eq.
  - intros (key' & -> & [<- <-]%lookup_singleton_Some). exists []. rewrite app_nil_r. split; [done|constructor].
Qed.

Definition one_node (key v : bytes) : trie := TShort (keybytesToHex key) (TVal v).

Lemma one_clash_free (D : Type) `{Store D} key v (d : D) t :
  v ≠ [] → zlen v < 2 ^ 32 → trie_of {[key := v]} t → td_get (hash_of (one_node key v)) d = None →
  hash_of (one_node key v) ≠ emptyHash → hash_of (one_node key v) ≠ emptyRoot → clash_free d t.
Proof.
  intros Hv Hl Ht Hd H0 H1. rewrite (trie_of_unique _ _ _ Ht (trie_of_one key v Hv Hl)). fold (one_node key v). split.
  - intros s s' Hs Hs' _. apply list_elem_of_singleton in Hs as ->. by apply list_elem_of_singleton in Hs' as ->.
  - intros s e Hs. apply list_elem_of_singleton in Hs as ->. fold (one_node key v). by rewrite Hd.
  - by intros _.
Qed.

Definition verb_hash : bytes := Eval vm_compute in hash_of (one_node do_key verb).
Lemma verb_hash_eq : hash_of (one_node do_key verb) = verb_hash.
Proof. vm_cast_no_check (eq_refl verb_hash). Qed.

Lemma sample_no_clashes : no_clashes sample_ops sample_trie ∅.
Proof.
  repeat split. exists ∅. split; [reflexivity|]. intros t Ht. change (next _ _) with (<[do_key := verb]> (∅ : gmap bytes bytes)) in Ht.
  apply (one_clash_free _ do_key verb); [done|done|by rewrite insert_empty in Ht|apply lookup_empty|..]; rewrite verb_hash_eq; discriminate.
Qed.

Lemma trie_is_a_map_witness :
  let '(l, T') := run sample_ops sample_trie in
  right_answers ∅ sample_ops l ∧ holds T' (fold_left (fun m o => next o m) sample_ops ∅).
Proof.
  apply (trie_is_a_map sample_trie ∅ sample_ops); [exact sample_holds|exact small_keys_empty| |exact sample_no_clashes].
  repeat constructor; done.
Defined.

(** Two entries, written in either order. *)
Definition two_entries (k1 v1 k2 v2 : bytes) : Trie (D:=gmap bytes bytes) := snd (run [OUpdate k1 v1; OUpdate k2 v2] sample_trie).

Lemma two_entries_holds k1 v1 k2 v2 :
  zlen v1 < 2 ^ 32 → zlen v2 < 2 ^ 32 → holds (two_entries k1 v1 k2 v2) (updated k2 v2 (updated k1 v1 ∅)).
Proof.
  intros H1 H2. unfold two_entries. cbn [run exec].
  destruct (TryUpdate_holds sample_trie ∅ k1 v1 H1 sample_holds) as (T1 & -> & HT1 & _).
  destruct (TryUpdate_holds T1 _ k2 v2 H2 HT1) as (T2 & -> & HT2 & _). done.
Qed.

Definition two_map : gmap bytes bytes := <[do_key := verb]> (<[dog_key := puppy]> ∅).

Lemma two_map_small : small_keys two_map.
Proof.
  intros key v Hm. unfold two_map in Hm. apply lookup_insert_Some in Hm as [[<- _]|[_ Hm]]; [done|].
  by apply lookup_insert_Some in Hm as [[<- _]|[_ Hm]].
Qed.

Lemma root_hash_is_of_contents_witness :
  ∃ t1 t2 T1' T2',
    trie_of two_map t1 ∧ trie_of two_map t2 ∧
    Hash (two_entries do_key verb dog_key puppy) = (Ok (hash_of t1), T1') ∧ holds T1' two_map ∧
    Hash (two_entries dog_key puppy do_key verb) = (Ok (hash_of t2), T2') ∧ holds T2' two_map ∧
    (two_map = two_map → hash_of t1 = hash_of t2) ∧ (hash_of t1 = hash_of t2 → two_map = two_map ∨ collide t1 t2).
Proof.
  apply (root_hash_is_of_contents (two_entries do_key verb dog_key puppy) (two_entries dog_key puppy do_key verb) two_map two_map).
  - unfold two_map. rewrite insert_insert_ne by done. by apply (two_entries_holds do_key verb dog_key puppy).
  - by apply (two_entries_holds dog_key puppy do_key verb).
  - exact two_map_small.
  - exact two_map_small.
Defined.

Definition verb_trie : Trie (D:=gmap bytes bytes) := snd (exec (OUpdate do_key verb) sample_trie).

Lemma verb_trie_stands : stands verb_trie (one_node do_key verb) {[do_key := verb]}.
Proof.
  split; [|by apply trie_of_one]. change (root verb_trie) with (shortNode (keybytesToHex do_key) (valueNode verb) (newFlag sample_trie)).
  constructor; [constructor|apply flags_new].
Qed.

Lemma commit_then_load_witness :
  match Commit verb_trie with
  | (Ok h, T') =>
      h = hash_of (one_node do_key verb) ∧ holds T' {[do_key := verb]} ∧ ∃ T2, New h (db T') = Ok T2 ∧ holds T2 {[do_key := verb]}
  | (Err _, T') => holds T' {[do_key := verb]} ∧ ∃ k v d', td_put (D:=gmap bytes bytes) k v d' = None
  | _ => False
  end.
Proof.
  apply (commit_then_load verb_trie (one_node do_key verb) {[do_key := verb]} ∅).
  - reflexivity.
  - exact verb_trie_stands.
  - intros key v [<- _]%lookup_singleton_Some. done.
  - apply (one_clash_free _ do_key verb); [done|done|by apply trie_of_one|apply lookup_empty|..]; rewrite verb_hash_eq; discriminate.
Defined.

End TrieMap.
