(* ===== verification/TrieProof.v ===== *)
(** Merkle proofs (src/trie/proof.go).

    [Prove] collects the encodings of the nodes on the path to a key, [VerifyProof]
    follows them from a root hash.  A proof made from a trie verifies against its
    root hash with the value the trie has under the key, and no proof verifies with
    another one unless it collides with a node of the trie. *)

From S2P Require Import Prelude RlpEncode RlpRaw RlpDecode RlpRoundtrip RlpTotal KeccakF Sha3 CoreTypes.
From S2P Require Import TrieEncoding TrieNode Trie TrieThms TrieHash TrieMap.

Module TrieProof.
Import Rlp Raw Dec Roundtrip Total Codec Types TrieEncoding TrieNode Trie TrieThms TrieHash TrieMap.

(** ** proof.go *)

Section prove.
Context {D : Type} `{Store D}.

(** The nodes on the path to [key]. *)
Fixpoint prove_path (fuel : nat) (t : Trie (D:=D)) (tn : node) (key : bytes) : result trieErr (list node) :=
  match fuel with
  | O => NoFuel
  | S fuel =>
      match key with
      | [] => Ok []
      | key0 :: key' =>
          match tn with
          | nilNode => Ok []
          | shortNode k v _ =>
              if (length key <? length k)%nat || negb (bool_decide (k = take (length k) key)) then Ok [tn]
              else let? l := prove_path fuel t v (drop (length k) key) in Ok (tn :: l)
          | fullNode cs _ =>
              match cs !! index key0 with
              | None => Panic
              | Some c => let? l := prove_path fuel t c key' in Ok (tn :: l)
              end
          | hashNode h => let? tn := resolveHash t h [] in prove_path fuel t tn key
          | valueNode _ => Panic
          end
      end
  end.

(** The proof element of a node, if it is one; the hasher has no database. *)
Definition prove_node (first : bool) (n : node) : result trieErr (list bytes) :=
  match hashChildren (D:=D) (fun c w => hash 0 0 c w false) n None with
  | (Panic, _) => Panic
  | (NoFuel, _) => NoFuel
  | (r, _) =>
      let n := match r with Ok (collapsed, _) => collapsed | _ => n end in
      match store (D:=D) n None false with
      | (Ok hn, _) =>
          if match hn with hashNode _ => true | _ => first end
          then Ok [match encode_node n with Ok enc => enc | _ => [] end]
          else Ok []
      | (Err _, _) => if first then Ok [match encode_node n with Ok enc => enc | _ => [] end] else Ok []
      | (Panic, _) => Panic
      | (NoFuel, _) => NoFuel
      end
  end.

Fixpoint prove_nodes (first : bool) (ns : list node) : result trieErr (list bytes) :=
  match ns with
  | [] => Ok []
  | n :: ns =>
      let? e := prove_node first n in
      let? l := prove_nodes false ns in
      Ok (e ++ l)
  end.

(** A missing node is logged, and the proof is nil. *)
Definition Prove (key : bytes) (t : Trie (D:=D)) : result trieErr (list bytes) :=
  let key := keybytesToHex key in
  match prove_path (fuel_for key) t (root t) key with
  | Ok ns => prove_nodes true ns
  | Err _ => Ok []
  | Panic => Panic
  | NoFuel => NoFuel
  end.

End prove.

(** The child at index [i]. *)
Fixpoint at_child {A} (rec : node → option A) (cs : list node) (i : nat) : option A :=
  match cs, i with
  | c :: _, O => rec c
  | _ :: cs, S i => at_child rec cs i
  | [], _ => None
  end.

(** [None] is the panic of an index out of range. *)
Fixpoint get (tn : node) (key : bytes) : option (bytes * node) :=
  match tn with
  | shortNode k v _ =>
      if (length key <? length k)%nat || negb (bool_decide (k = take (length k) key)) then Some ([], nilNode)
      else get v (drop (length k) key)
  | fullNode cs _ =>
      match key with
      | [] => None
      | key0 :: key => at_child (fun c => get c key) cs (index key0)
      end
  | hashNode h => Some (key, hashNode h)
  | nilNode => Some (key, nilNode)
  | valueNode v => Some ([], valueNode v)
  end.

Inductive proofErr :=
| ErrHashMismatch (i : Z) | ErrBadNode (i : Z) (e : decodeErr) | ErrKeyMismatch (i : Z) | ErrAdditional | ErrEndOfProof.

(** The loop over the proof, from element [i] on. *)
Fixpoint verify_from (i : Z) (key wantHash : bytes) (proof : list bytes) : result proofErr (option bytes) :=
  match proof with
  | [] => Err ErrEndOfProof
  | buf :: rest =>
      let is_last := match rest with [] => true | _ => false end in
      if negb (bool_decide (keccak buf = wantHash)) then Err (ErrHashMismatch i)
      else
        match decodeNode (S (length buf)) (Some wantHash) buf 0 with
        | Err e => Err (ErrBadNode i e)
        | Panic => Panic
        | NoFuel => NoFuel
        | Ok n =>
            match get n key with
            | None => Panic
            | Some (_, nilNode) => if negb is_last then Err (ErrKeyMismatch i) else Ok None
            | Some (keyrest, hashNode h) => verify_from (i + 1) keyrest h rest
            | Some (_, valueNode v) => if negb is_last then Err ErrAdditional else Ok (Some v)
            | Some _ => verify_from (i + 1) key wantHash rest
            end
        end
  end.

Definition VerifyProof (rootHash key : bytes) (proof : list bytes) : result proofErr (option bytes) :=
  verify_from 0 (keybytesToHex key) rootHash proof.

(** ** Paths *)

#[local] Opaque keccak.

(** The nodes of a trie on the way to a key. *)
Inductive tpath : trie → bytes → list trie → Prop :=
| tp_end t : tpath t [] []
| tp_nil key : tpath TNil key []
| tp_miss k c key : key ≠ [] → (∀ rest, key ≠ k ++ rest) → tpath (TShort k c) key [TShort k c]
| tp_short k c rest l : k ≠ [] → tpath c rest l → tpath (TShort k c) (k ++ rest) (TShort k c :: l)
| tp_full ts b t rest l : ts !! index b = Some t → tpath t rest l → tpath (TFull ts) (b :: rest) (TFull ts :: l).

(** Those that are proof elements: the root and the ones referred to by hash. *)
#[global] Instance big_dec t : Decision (big t).
Proof. unfold big. apply _. Defined.

Fixpoint elems (first : bool) (l : list trie) : list bytes :=
  match l with
  | [] => []
  | s :: l => (if first || bool_decide (big s) then [enc s] else []) ++ elems false l
  end.

(** The test of a short node's key. *)
Lemma key_test (k key : bytes) :
  ((length key <? length k)%nat || negb (bool_decide (k = take (length k) key)) = true ∧ ∀ rest, key ≠ k ++ rest) ∨
  ((length key <? length k)%nat || negb (bool_decide (k = take (length k) key)) = false ∧ ∃ rest, key = k ++ rest ∧ drop (length k) key = rest).
Proof.
  destruct (Nat.ltb_spec (length key) (length k)) as [Hl|Hl]; simpl.
  - left. split; [done|]. intros rest ->. rewrite length_app in Hl. lia.
  - case_bool_decide as E; simpl; [right|left]; (split; [done|]).
    + exists (drop (length k) key). split; [|done]. rewrite E at 1. by rewrite take_drop.
    + intros rest ->. by rewrite take_app_length in E.
Qed.

(** Nodes as the decoder leaves them: clean, and without a hash inside another. *)
Inductive clean : option bytes → node → Prop :=
| cl_other h n : flags_of n = None → clean h n
| cl_short h k c f : fl_hash f = h → dirty f = false → clean None c → clean h (shortNode k c f)
| cl_full h cs f : fl_hash f = h → dirty f = false → Forall (clean None) cs → clean h (fullNode cs f).

Lemma decodeRef_clean dn buf n rest : (∀ b n, dn b = Ok n → clean None n) → decodeRef dn buf = Ok (n, rest) → clean None n.
Proof.
  intros Hdn. unfold decodeRef. destruct (split_err (Split buf)) as [[[[] v] r]|e| |]; cbn [rbind]; try done.
  - destruct (_ =? 0); [intros [= <- _]; by constructor|]. destruct (_ =? 32); [|done]. intros [= <- _]. by constructor.
  - destruct (_ <? _); [done|]. destruct (dn buf) as [m|e| |] eqn:E; cbn [rbind]; try done. intros [= <- _]. by eapply Hdn.
Qed.

Lemma decodeRefs_clean dn k elems0 ns rest :
  (∀ b n, dn b = Ok n → clean None n) → decodeRefs dn k elems0 = Ok (ns, rest) → Forall (clean None) ns.
Proof.
  intros Hdn. revert elems0 ns. induction k as [|k IH]; intros elems0 ns; cbn [decodeRefs]; [by intros [= <- _]|].
  destruct (decodeRef dn elems0) as [[c r]|e| |] eqn:E; cbn [rbind]; try done.
  destruct (decodeRefs dn k r) as [[cs r']|e| |] eqn:E'; cbn [rbind]; try done. intros [= <- ->].
  constructor; [by eapply decodeRef_clean|by eapply IH].
Qed.

Lemma decodeNode_clean fuel h buf g n : decodeNode fuel h buf g = Ok n → clean h n.
Proof.
  revert h buf n. induction fuel as [|fuel IH]; intros h buf n; cbn [decodeNode]; [done|].
  destruct (_ =? 0); [done|]. destruct (split_err (SplitList buf)) as [[el ?]|e| |]; cbn [rbind]; try done.
  set (dn := fun b => decodeNode fuel None b g). assert (∀ b n, dn b = Ok n → clean None n) as Hdn by (intros b m; apply IH).
  assert (decodeShort dn h el g = Ok n → clean h n) as Hs.
  { unfold decodeShort. destruct (split_err (SplitString el)) as [[kb r]|e| |]; cbn [rbind]; try done.
    destruct (compactToHex kb) as [key|]; [|done]. destruct (hasTerm key).
    - destruct (split_err (SplitString r)) as [[v ?]|e| |]; cbn [rbind]; try done. intros [= <-]. by repeat constructor.
    - destruct (decodeRef dn r) as [[c ?]|e| |] eqn:E; cbn [rbind]; try done. intros [= <-]. constructor; [done|done|by eapply decodeRef_clean]. }
  assert (decodeFull dn h el g = Ok n → clean h n) as Hf.
  { unfold decodeFull. destruct (decodeRefs dn 16 el) as [[cs r]|e| |] eqn:E; cbn [rbind]; try done.
    destruct (split_err (SplitString r)) as [[v ?]|e| |]; cbn [rbind]; try done. intros [= <-]. constructor; [done|done|].
    apply Forall_app. split; [by eapply decodeRefs_clean|]. constructor; [|constructor]. destruct (_ <? _); by constructor. }
  destruct (CountValues el) as [c|e| |]; try done. clear - Hs Hf. destruct c as [|p|p]; try done.
  destruct p as [p|p|]; try done; repeat (destruct p as [p|p|]; try done).
Qed.

Lemma clean_exposed_small n t : clean None n → exposed n → is_node t = true → looks any false n t → ¬ big t.
Proof.
  intros Hc Hx Hn Hl. inversion Hl as [| |? ? ? f ? ? Hf|? ? f ? ? ? Hf|]; subst; try done;
    inversion Hc as [? ? E|? ? ? ? Eh Ed|? ? ? Eh Ed]; subst; try done; unfold flags_ok in Hf; rewrite Eh, Ed in Hf; by destruct Hf as [|[_ ?]].
Qed.

(** ** Following a node *)

(** What [get] answers for [key] in a node of [t]: nothing, a value, or the hash of the
    next proof element; [l] are the elements that are still to come. *)
Definition gets (t : trie) (key : bytes) (l : list bytes) (x : option (bytes * node)) : Prop :=
  ∃ rest cld, x = Some (rest, cld) ∧
    ((cld = nilNode ∧ l = [] ∧ ∀ v, ¬ has t key v) ∨
     (∃ v, cld = valueNode v ∧ l = [] ∧ has t key v) ∨
     (∃ s l', cld = hashNode (hash_of s) ∧ s ∈ nodes t ∧ wf s ∧ bounded s ∧ hexkey rest ∧ tpath s rest (s :: l') ∧
        l = enc s :: elems false l' ∧ ∀ v, has s rest v ↔ has t key v)).

Lemma gets_up t key t' key' l x :
  gets t' key' l x → (∀ s, s ∈ nodes t' → s ∈ nodes t) → (∀ v, has t' key' v ↔ has t key v) → gets t key l x.
Proof.
  intros (rest & cld & -> & Hx) Hn Hh. exists rest, cld. split; [done|].
  destruct Hx as [(-> & -> & Hv)|[(v & -> & -> & Hv)|(s & l' & -> & Hs & Hw & Hb & Hr & Hp & -> & Hv)]].
  - left. split_and!; [done|done|]. intros v. by rewrite <- Hh.
  - right; left. exists v. by rewrite <- Hh.
  - right; right. exists s, l'. split_and!; auto. intros v. by rewrite Hv, Hh.
Qed.

Lemma tpath_head t key l : wf t → key ≠ [] → tpath t key l → ∃ l', l = t :: l'.
Proof. intros Hw Hk Hp. inversion Hp; subst; [done|by inversion Hw|eauto..]. Qed.

Lemma tpath_short_inv k t key l :
  tpath (TShort k t) key l → key ≠ [] →
  (l = [TShort k t] ∧ ∀ rest, key ≠ k ++ rest) ∨ ∃ rest l', key = k ++ rest ∧ l = TShort k t :: l' ∧ tpath t rest l'.
Proof. intros Hp Hk. inversion Hp; subst; [done|by left|right; eauto]. Qed.

Lemma at_child_lookup {A} (rec : node → option A) cs i c : cs !! i = Some c → at_child rec cs i = rec c.
Proof. revert i. induction cs as [|x cs IH]; intros [|i] Hi; [done|done|by injection Hi as ->|]. by apply IH. Qed.

Lemma gets_child n t key l :
  (∀ h key l, exposed n → clean h n → wf t → hexkey key → tpath t key l → gets t key (elems false (drop 1 l)) (get n key)) →
  looks any false n t → clean None n → at_pos t key → tpath t key l → gets t key (elems false l) (get n key).
Proof.
  intros Hx Hl Hc Ha Hp. destruct key as [|b key].
  { destruct Ha as [->|[v ->]].
    - apply looks_nil_root in Hl as ->. eexists _, _. split; [reflexivity|]. left. inversion Hp; subst; by (split_and!; [done|done|intros w ?%has_nil]).
    - apply looks_val in Hl as ->. eexists _, _. split; [reflexivity|]. right; left. exists v. inversion Hp; subst; by repeat split; constructor. }
  destruct Ha as [Hk [->|Hw]].
  { apply looks_nil_root in Hl as ->. eexists _, _. split; [reflexivity|]. left. inversion Hp; subst; by (split_and!; [done|done|intros w ?%has_nil]). }
  destruct (tpath_head t (b :: key) l Hw ltac:(done) Hp) as (l' & ->).
  assert (exposed n ∨ ∃ h, n = hashNode h) as [He|[h ->]] by (destruct n; simpl; eauto).
  - cbn [elems]. rewrite bool_decide_false by (by eapply clean_exposed_small; [..|apply wf_is_node|]). by apply (Hx None (b :: key) (t :: l')).
  - inversion Hl as [| | | |? ? _ Hbt [|Hbig]]; subst; [done|]. eexists _, _. split; [reflexivity|]. right; right. exists t, l'.
    cbn [elems]. rewrite bool_decide_true by done. split_and!; try done. by apply nodes_self, wf_is_node.
Qed.

Lemma get_spec r n t :
  looks any r n t → ∀ h key l, exposed n → clean h n → wf t → hexkey key → tpath t key l →
  gets t key (elems false (drop 1 l)) (get n key).
Proof.
  induction 1 as [| |r k n f t Hl IH Hf|r ns f ts Hlen Hl IH Hf|r t Hw Hb Hr Ha]; intros h key l Hx Hc Hwt Hk Hp; [by inversion Hwt..| | |done].
  - cbn [get]. inversion Hc as [|? ? ? ? _ _ Hcc|]; subst; [done|]. destruct (key_test k key) as [[-> Hmiss]|[-> (rest & -> & ->)]].
    + eexists _, _. split; [reflexivity|]. left. split_and!; [done| |].
      * apply tpath_short_inv in Hp as [[-> _]|(rest & l' & -> & _)]; [done|by destruct (Hmiss rest)|by apply hexkey_nonempty in Hk].
      * intros v (k' & -> & _)%has_short_inv. by destruct (Hmiss k').
    + assert (∃ l', l = TShort k t :: l' ∧ tpath t rest l') as (l' & -> & Hp').
      { apply tpath_short_inv in Hp as [[_ Hm]|(rest' & l' & ->%app_inv_head & -> & Hp)]; [by destruct (Hm rest)|eauto|].
        by apply hexkey_nonempty in Hk. }
      eapply gets_up; [apply gets_child; [exact IH|done|done|by eapply at_pos_short|exact Hp']| |].
      * intros s Hs. by right.
      * intros v. rewrite has_short_inv. split; [by eexists|]. by intros (? & ->%app_inv_head & ?).
  - cbn [get]. inversion Hc as [| |? ? ? _ _ Hcc]; subst; [done|]. destruct key as [|b key]; [by apply hexkey_nonempty in Hk|].
    inversion Hp as [| | | |? ? tc ? l' Htc Hp']; subst.
    destruct (lookup_lt_is_Some_2 ns (index b)) as [c Hci]; [rewrite Hlen; by eapply lookup_lt_Some|].
    rewrite (at_child_lookup _ _ _ _ Hci). rewrite Forall_lookup in Hcc.
    eapply gets_up; [apply (gets_child c tc key l'); [by eapply IH|by eapply Hl|by eapply Hcc|by eapply at_pos_full|exact Hp']| |].
    + intros s Hs. by eapply nodes_child.
    + intros v. rewrite has_full_inv. split; [by intros; eexists _, _, _|]. intros (? & ? & t' & [= <- <-] & Ht' & ?). by simplify_eq.
Qed.

(** The path exists. *)
Lemma tpath_exists t : wf t → ∀ key, hexkey key → ∃ l, tpath t key l.
Proof.
  assert (∀ k c, wf (TShort k c) → (∀ key, hexkey (k ++ key) → ∃ l, tpath c key l) → ∀ key, hexkey key → ∃ l, tpath (TShort k c) key l) as Hshort.
  { intros k c Hw Hc key Hk. destruct (key_test k key) as [[_ Hmiss]|[_ (rest & -> & _)]].
    - eexists. constructor; [by apply hexkey_nonempty|done].
    - destruct (Hc rest Hk) as (l & Hl). eexists. constructor; [by eapply wf_short_key|exact Hl]. }
  induction 1 as [k v Hk Hv Hlv|k ts Hk Hne Hw IH|ts Hl Hc IH Hv H2].
  - apply Hshort; [by constructor|]. intros key ->%hexkey_term; [|done]. exists []. constructor.
  - apply Hshort; [by constructor|]. intros key Hkey. apply IH. by apply hexkey_app_nibbles in Hkey.
  - assert (wf (TFull ts)) as Hw by by constructor. intros [|b key] Hk; [by apply hexkey_nonempty in Hk|].
    destruct (full_lookup ts b key Hw Hk) as [t Ht]. enough (∃ l, tpath t key l) as (l & Hlt) by (eexists; by econstructor).
    destruct (decide (t = TNil)) as [->|Hn]; [eexists; constructor|]. apply hexkey_cons in Hk as [[-> ->]|[Hb Hk]]; [eexists; constructor|].
    by apply (IH (index b) t (index_nibble b Hb) Ht Hn).
Qed.

(** Decoding a proof element and following it. *)
Lemma node_read s key l :
  wf s → bounded s → hexkey key → tpath s key l →
  ∃ n, decodeNode (S (length (enc s))) (Some (hash_of s)) (enc s) 0 = Ok n ∧ gets s key (elems false (drop 1 l)) (get n key).
Proof.
  intros Hw Hb Hk Hp. pose proof (enc_bound s Hw Hb) as Hlen.
  destruct (decode_looks any s Hw Hb (S (length (enc s))) (Some (hash_of s)) true [] 0) as (n & E & Hn & He);
    [by apply refs_any|by repeat split; left|lia|rewrite app_nil_r; lia|].
  rewrite app_nil_r in E. exists n. split; [done|]. by eapply (get_spec true n s Hn (Some (hash_of s))); [|eapply decodeNode_clean|..].
Qed.

(** ** Verification *)

Lemma verify_complete s key l i :
  wf s → bounded s → hexkey key → tpath s key (s :: l) →
  ∃ o, verify_from i key (hash_of s) (enc s :: elems false l) = Ok o ∧ ∀ v, o = Some v ↔ has s key v.
Proof.
  remember (length (elems false l)) as k eqn:Ek. revert s key l i Ek. induction k as [k IH] using lt_wf_ind. intros s key l i Ek Hw Hb Hk Hp.
  cbn [verify_from]. fold (hash_of s). rewrite (bool_decide_true (hash_of s = hash_of s)) by reflexivity. cbn [negb].
  destruct (node_read s key _ Hw Hb Hk Hp) as (n & -> & rest & cld & -> & Hg). cbn [drop] in Hg. rewrite drop_0 in Hg.
  destruct Hg as [(-> & -> & Hv)|[(v & -> & -> & Hv)|(s' & l' & -> & Hs & Hw' & Hb' & Hr & Hp' & El & Hv)]].
  - exists None. split; [done|]. intros v. split; [done|]. by intros ?%Hv.
  - exists (Some v). split; [done|]. intros w. split; [by intros [= <-]|]. intros Hh. f_equal. by eapply has_det.
  - rewrite El. destruct (IH (length (elems false l'))) with (s := s') (key := rest) (l := l') (i := i + 1) as (o & -> & Ho); try done.
    { rewrite Ek, El. simpl. lia. }
    exists o. split; [done|]. intros v. by rewrite Ho, Hv.
Qed.

Lemma nodes_full_inv ts s : s ∈ nodes (TFull ts) → s = TFull ts ∨ ∃ i t, ts !! i = Some t ∧ s ∈ nodes t.
Proof.
  simpl. intros [->|Hin]%elem_of_cons; [by left|right]. apply list_elem_of_In, in_concat in Hin as (x & Hx & Hs).
  apply in_map_iff in Hx as (t & <- & Ht). apply list_elem_of_In in Hs, Ht. apply list_elem_of_lookup in Ht as [i Ht]. by exists i, t.
Qed.

Lemma nodes_trans t : wf t → ∀ s s', s ∈ nodes t → s' ∈ nodes s → s' ∈ nodes t.
Proof.
  induction 1 as [k v Hk Hv Hlv|k ts Hk Hne Hw IH|ts Hl Hc IH Hv H2]; intros s s' Hs Hs'.
  - by apply list_elem_of_singleton in Hs as ->.
  - apply elem_of_cons in Hs as [->|Hs]; [done|]. right. by eapply IH.
  - apply nodes_full_inv in Hs as [->|(i & t & Ht & Hs)]; [done|]. eapply nodes_child; [exact Ht|].
    destruct (decide (t = TNil)) as [->|Hn]; [by apply elem_of_nil in Hs|]. pose proof (lookup_lt_Some _ _ _ Ht).
    destruct (decide (i = 16%nat)) as [->|Hi]; [destruct (Hv t Ht Hn) as (v & -> & _); by apply elem_of_nil in Hs|].
    by eapply (IH i t); [lia|..].
Qed.

(** The proof elements are not taken for nodes of [t]. *)
Definition honest (proof : list bytes) (l : list trie) : Prop :=
  ∀ e s, e ∈ proof → s ∈ l → keccak e = hash_of s → e = enc s.

Lemma verify_sound t proof s key i :
  wf t → honest proof (nodes t) → s ∈ nodes t → wf s → bounded s → hexkey key →
  match verify_from i key (hash_of s) proof with
  | Ok o => ∀ v, o = Some v ↔ has s key v
  | Err _ => True
  | _ => False
  end.
Proof.
  intros Hwt. revert s key i. induction proof as [|e proof IH]; intros s key i Hh Hs Hw Hb Hk; [done|].
  cbn [verify_from]. case_bool_decide as E; cbn [negb]; [|done].
  pose proof (Hh e s ltac:(left) Hs E) as ->. destruct (tpath_exists s Hw key Hk) as (l & Hp).
  destruct (node_read s key l Hw Hb Hk Hp) as (n & -> & rest & cld & -> & Hg).
  destruct Hg as [(-> & _ & Hv)|[(v & -> & _ & Hv)|(s' & l' & -> & Hs' & Hw' & Hb' & Hr & _ & _ & Hv)]].
  - destruct proof; [|done]. intros v. split; [done|]. by intros ?%Hv.
  - destruct proof; [|done]. intros w. split; [by intros [= <-]|]. intros Hx. f_equal. by eapply has_det.
  - specialize (IH s' rest (i + 1)). destruct (verify_from (i + 1) rest (hash_of s') proof) as [o|e| |].
    + intros v. rewrite <- Hv. apply IH; [|by eapply nodes_trans|done..]. intros e x He. apply Hh. by right.
    + done.
    + apply IH; [|by eapply nodes_trans|done..]. intros e x He. apply Hh. by right.
    + apply IH; [|by eapply nodes_trans|done..]. intros e x He. apply Hh. by right.
Qed.

(** ** Making proofs *)

Section made.
Context {D : Type} `{Store D}.

(** A node on the path. *)
Definition on_path (T : Trie (D:=D)) (n : node) (t : trie) : Prop :=
  wf t ∧ bounded t ∧ exposed n ∧ ∃ r, looks (in_db (db T)) r n t.

Lemma prove_path_spec (T : Trie (D:=D)) fuel n t r key :
  looks (in_db (db T)) r n t → at_pos t key → bounded t → (need n key ≤ fuel)%nat →
  ∃ ns l, prove_path fuel T n key = Ok ns ∧ tpath t key l ∧ Forall2 (on_path T) ns l.
Proof.
  revert n t r key. induction fuel as [|fuel IH]; intros n t r key Hl Ha Hb Hf; [unfold need in Hf; destruct n; lia|].
  destruct key as [|b key]; [exists [], []; by repeat constructor|]. destruct (Ha) as [Hk [->|Hw]].
  { apply looks_nil_root in Hl as ->. exists [], []. by repeat constructor. }
  inversion Hl as [?|? w|? nk c f tc Hc Hfl|? cs f ts Hlen Hcs Hfl|? ? Hwt Hbt Hbig Hav]; subst; [by inversion Hw..| | |].
  - cbn [prove_path]. destruct (key_test nk (b :: key)) as [[-> Hmiss]|[-> (rest & E & ->)]].
    + eexists _, _. split; [reflexivity|]. split; [by constructor|]. constructor; [|constructor]. by repeat split; [..|exists r].
    + rewrite E in *. destruct (bounded_short _ _ Hw Hb) as [_ Hbc]. destruct (IH c tc false rest Hc) as (ns & l & -> & Hp & Hns).
      { by eapply at_pos_short. } { done. }
      { pose proof (need_le c rest). apply wf_short_key in Hw. unfold need in Hf.
        rewrite length_app in Hf. destruct nk; [done|]. simpl in *. lia. }
      cbn [rbind]. eexists _, _. split; [reflexivity|]. split; [constructor; [by eapply wf_short_key|exact Hp]|].
      constructor; [|done]. by repeat split; [..|exists r].
  - cbn [prove_path]. destruct (full_lookup ts b key Hw Hk) as [tc Htc].
    destruct (lookup_lt_is_Some_2 cs (index b)) as [c Hc]; [rewrite Hlen; by eapply lookup_lt_Some|]. rewrite Hc.
    destruct (IH c tc false key (Hcs _ _ _ Hc Htc)) as (ns & l & -> & Hp & Hns).
    { by eapply at_pos_full. } { eapply bounded_full; [exact Hb| |exact Htc]. apply lookup_lt_Some in Htc. by rewrite (full_length ts Hw) in Htc. }
    { pose proof (need_le c key). unfold need in Hf. simpl in Hf. lia. }
    cbn [rbind]. eexists _, _. split; [reflexivity|]. split; [by econstructor|]. constructor; [|done]. by repeat split; [..|exists r].
  - destruct (resolve_hash T r _ t [] Hl) as (rn & E & Hl' & He). cbn [prove_path]. rewrite E. cbn [rbind].
    apply (IH rn t r (b :: key)); [done|done|done|]. unfold need in *. destruct rn; try done; simpl in *; lia.
Qed.

Notation nodes_of t := (fun s => s ∈ nodes t).

Lemma hashes_child P t t' c :
  wf t' → bounded t' → (∀ s, s ∈ nodes t' → s ∈ nodes t) → looks P false c t' →
  hashes P (nodes_of t) false (fun c w => hash (D:=D) 0 0 c w false) c t'.
Proof.
  intros Hw Hb HU Hc w Hcw. pose proof (hash_spec P (nodes_of t) false ltac:(done) 0 0 t' Hw Hb HU c false w Hcw Hc) as Ho.
  unfold outcome in *. destruct (hash 0 0 c w false) as [[x|e| |] w']; try done. destruct Ho as (? & ? & Hpost).
  split_and!; [done|done|]. by apply (hash_post_child P t' w' x (wf_is_node t' Hw)).
Qed.

(** Hashing the children of a loaded node, without a database. *)
Lemma collapse_spec P t n r :
  wf t → bounded t → exposed n → looks P r n t →
  ∃ f, flags_ok P r f t ∧
    outcome (nodes_of t) false None (hashChildren (D:=D) (fun c w => hash 0 0 c w false) n None) (collapsed_ok P r f t).
Proof.
  intros Hw Hb Hx Hl. inversion Hl as [| |? k c f tc Hc Hfl|? cs f ts Hlen Hcs Hfl|]; subst; [by inversion Hw..| | |done]; exists f; (split; [done|]).
  - destruct (bounded_short _ _ Hw Hb) as [_ Hbc]. apply hashChildren_short; [done|done|by intros s|done|].
    intros Hwc. apply hashes_child; [done|done|by right|done].
  - apply hashChildren_full; [done|done|by intros s|done|done|]. intros i m c Hi Hm Hc Hwc.
    apply hashes_child; [done|by eapply (bounded_full ts i); [|lia|]|by intros s; eapply nodes_child|by eapply Hcs].
Qed.

Lemma prove_node_spec (T : Trie (D:=D)) first n t :
  on_path T n t → prove_node (D:=D) first n = Ok (if first || bool_decide (big t) then [enc t] else []).
Proof.
  intros (Hw & Hb & Hx & r & Hl). destruct (collapse_spec _ t n r Hw Hb Hx Hl) as (f & Hf & Ho). unfold prove_node.
  destruct (hashChildren _ n None) as [[[col cached]|e| |] w]; [|by destruct Ho as (_ & _ & ? & _)|done..].
  destruct Ho as ([Ew _] & Hcw & Hi & Hfc & _). destruct w; [done|].
  assert (∀ h, fl_hash f = Some h → h = hash_of t) as Hh by (intros h E; unfold flags_ok in Hf; rewrite E in Hf; by destruct Hf).
  pose proof (store_spec (in_db (db T)) (fun s => s ∈ nodes t) false ltac:(done) col false f t None Hw Hb ltac:(by intros s) I Hi Hfc Hh) as Hs.
  destruct (store col None false) as [[hn|e| |] w']; [|by destruct Hs as (_ & _ & ? & _)|done..].
  assert (encode_node col = Ok (enc t)) as ->.
  { unfold enc. rewrite <- Hi. apply encode_node_ok. rewrite Hi. pose proof (enc_bound t Hw Hb). unfold enc in *. lia. }
  destruct Hs as (_ & _ & [[-> [|Hbig]]|(_ & Hbig & _ & Hn)] & _); [done|..].
  - rewrite bool_decide_true by done. by destruct first.
  - rewrite bool_decide_false by done. rewrite orb_false_r. destruct hn; try (by destruct Hn); by destruct first.
Qed.

Lemma prove_nodes_spec (T : Trie (D:=D)) first ns l :
  Forall2 (on_path T) ns l → prove_nodes (D:=D) first ns = Ok (elems first l).
Proof.
  intros Hn. revert first. induction Hn as [|n t ns l Hn _ IH]; intros first; [done|]. cbn [prove_nodes elems].
  rewrite (prove_node_spec T first n t Hn). cbn [rbind]. by rewrite IH.
Qed.

Lemma entries_nonempty t m : trie_of m t → m ≠ ∅ → wf t.
Proof.
  intros [[->|Hw] He] Hm; [|done]. destruct Hm. apply map_empty. intros key. apply eq_None_not_Some. intros [v Hv].
  apply (entries_get TNil m key v He) in Hv. by apply has_nil in Hv.
Qed.

(** C15: Proofs are complete: for a trie that is not empty, loaded or not, the proof
    that [Prove] makes for any key is accepted by [VerifyProof] against the root hash
    of the trie, with the value the trie has under the key, or with none if it has
    none. *)
Theorem proofs_verify (T : Trie (D:=D)) m key :
  holds T m → m ≠ ∅ → small_keys m →
  ∃ h T' proof, Hash T = (Ok h, T') ∧ Prove key T = Ok proof ∧ VerifyProof h key proof = Ok (m !! key).
Proof.
  intros [t Ht]%holds_stands Hm Hk. destruct (Hash_stands T t m Ht Hk) as (T' & Eh & _). destruct Ht as [Hl Ht].
  pose proof (entries_nonempty t m Ht Hm) as Hw. pose proof (trie_of_bounded m t Hk Ht) as Hb.
  pose proof (keybytesToHex_hexkey key) as Hkey. set (k := keybytesToHex key) in *.
  destruct (prove_path_spec T (fuel_for k) (root T) t true k Hl) as (ns & l & Ep & Hp & Hns);
    [apply at_pos_hexkey; [done|by right]|done|apply need_fuel|].
  destruct (tpath_head t k l Hw (hexkey_nonempty k Hkey) Hp) as (l' & ->).
  exists (hash_of t), T', (elems true (t :: l')). split_and!; [done|unfold Prove; fold k; rewrite Ep; by apply (prove_nodes_spec T)|].
  destruct (verify_complete t k l' 0 Hw Hb Hkey Hp) as (o & Eo & Ho). unfold VerifyProof. fold k. cbn [elems orb]. simpl app. rewrite Eo.
  f_equal. apply option_eq. intros v. rewrite Ho. apply entries_get, Ht.
Qed.

End made.

(** C14: Proofs are sound: whatever the proof, if it verifies against the root hash of
    a map, the result is what the map has under the key; the exception is a proof with
    an element that differs from a node of the map's trie and has its hash.  Proofs
    without such an element do not make [VerifyProof] panic. *)
Theorem proofs_are_sound m t key proof :
  trie_of m t → small_keys m → honest proof (t :: nodes t) →
  match VerifyProof (hash_of t) key proof with
  | Ok o => o = m !! key
  | Err _ => True
  | _ => False
  end.
Proof.
  intros Ht Hk Hh. pose proof (trie_of_bounded m t Hk Ht) as Hb. destruct (Ht) as [[->|Hw] He]; unfold VerifyProof.
  - destruct proof as [|e proof]; [done|]. cbn [verify_from]. case_bool_decide as E; cbn [negb]; [|done].
    pose proof (Hh e TNil ltac:(left) ltac:(left) E) as ->. done.
  - pose proof (verify_sound t proof t (keybytesToHex key) 0 Hw) as Hv.
    destruct (verify_from 0 (keybytesToHex key) (hash_of t) proof) as [o|e| |].
    + apply option_eq. intros v. rewrite <- (entries_get t m key v He).
      apply Hv; [|by apply nodes_self, wf_is_node|done|done|apply keybytesToHex_hexkey]. intros e s ? ?. apply Hh; [done|by right].
    + done.
    + apply Hv; [|by apply nodes_self, wf_is_node|done|done|apply keybytesToHex_hexkey]. intros e s ? ?. apply Hh; [done|by right].
    + apply Hv; [|by apply nodes_self, wf_is_node|done|done|apply keybytesToHex_hexkey]. intros e s ? ?. apply Hh; [done|by right].
Qed.

Lemma proofs_verify_witness :
  ∃ h T' proof, Hash verb_trie = (Ok h, T') ∧ Prove dog_key verb_trie = Ok proof ∧
    VerifyProof h dog_key proof = Ok (({[do_key := verb]} : gmap bytes bytes) !! dog_key).
Proof.
  apply (proofs_verify verb_trie {[do_key := verb]} dog_key).
  - apply holds_stands. exists (one_node do_key verb). exact verb_trie_stands.
  - apply map_non_empty_singleton.
  - intros key v [<- _]%lookup_singleton_Some. done.
Defined.

Lemma proofs_are_sound_witness :
  match VerifyProof (hash_of (one_node do_key verb)) do_key [enc (one_node do_key verb)] with
  | Ok o => o = ({[do_key := verb]} : gmap bytes bytes) !! do_key
  | Err _ => True
  | _ => False
  end.
Proof.
  apply (proofs_are_sound {[do_key := verb]} (one_node do_key verb) do_key [enc (one_node do_key verb)]).
  - by apply trie_of_one.
  - intros key v [<- _]%lookup_singleton_Some. done.
  - intros e s He Hs _. apply list_elem_of_singleton in He as ->. apply elem_of_cons in Hs as [->|Hs]; [done|].
    by apply list_elem_of_singleton in Hs as ->.
Defined.

(** A short node with an empty key makes the verifier panic, where it should report an
    invalid node. *)
Theorem empty_key_panics key : VerifyProof (keccak [xc2; x80; x80]) key [[xc2; x80; x80]] = Panic.
Proof. unfold VerifyProof. cbn [verify_from]. rewrite bool_decide_true by reflexivity. reflexivity. Qed.

(** The proof of an empty trie is empty, and does not verify. *)
Theorem empty_trie_proof key :
  Prove key sample_trie = Ok [] ∧ VerifyProof emptyRoot key [] = Err ErrEndOfProof.
Proof.
  split; [|done]. unfold Prove. pose proof (hexkey_nonempty _ (keybytesToHex_hexkey key)). unfold fuel_for.
  rewrite keybytesToHex_length. destruct (keybytesToHex key); [done|]. by rewrite (Nat.add_comm _ 2).
Qed.

End TrieProof.
