(* ===== verification/TxPrice.v ===== *)
(** Pending transactions in the order in which blocks take them
    (TransactionsByPriceAndNonce of src/core/types/transaction.go): per account in the
    order of nonces, across accounts by price.

    The set refines a map from accounts to the queues of their transactions: the next
    transaction is the first of some queue, none of the others is dearer, and taking
    or dropping it takes it, or its account, from the map. *)

From S2P Require Import Prelude RlpEncode RlpDecode CoreTypes Prque.

Module TxPrice.
Import Types.

(** ** transaction.go *)

Section txs.
(** The sender of a transaction; the zero address if its signature is not valid. *)
Variable Sender : txdata → bytes.

(** [heads] is the heap over [TxByPrice], whose items carry their price. *)
Record TransactionsByPriceAndNonce := mkTxs {
  txs : gmap bytes (list txdata);
  heads : list (txdata * Z) }.

Definition by_price (t : txdata) : txdata * Z := (t, Price t).

(** The loop over the map, whose entries come in the order of [l]; [None] if an account
    has no transaction. *)
Fixpoint take_heads (l : list (bytes * list txdata)) (t : gmap bytes (list txdata)) (hs : list (txdata * Z)) :
    option (gmap bytes (list txdata) * list (txdata * Z)) :=
  match l with
  | [] => Some (t, hs)
  | (_, []) :: _ => None
  | (_, tx :: rest) :: l => take_heads l (<[Sender tx := rest]> t) (hs ++ [by_price tx])
  end.

Definition NewTransactionsByPriceAndNonce (l : list (bytes * list txdata)) : option TransactionsByPriceAndNonce :=
  match take_heads l (list_to_map l) [] with
  | Some (t, hs) => Some (mkTxs t (Prque.Init hs))
  | None => None
  end.

Definition Peek (t : TransactionsByPriceAndNonce) : option txdata := fst <$> heads t !! 0%nat.

Definition Pop (t : TransactionsByPriceAndNonce) : option TransactionsByPriceAndNonce :=
  '(_, hs) ← Prque.Pop (heads t);
  Some (mkTxs (txs t) hs).

Definition Shift (t : TransactionsByPriceAndNonce) : option TransactionsByPriceAndNonce :=
  tx ← Peek t;
  let acc := Sender tx in
  match txs t !! acc with
  | Some (x :: rest) => Some (mkTxs (<[acc := rest]> (txs t)) (Prque.Fix0 (<[0%nat := by_price x]> (heads t))))
  | _ => Pop t
  end.

(** ** The queues it stands for *)

(** The first transaction of every queue. *)
Definition firsts (m : gmap bytes (list txdata)) : list txdata :=
  omap (fun kq => head (snd kq)) (map_to_list m).

Record stands_for (t : TransactionsByPriceAndNonce) (m : gmap bytes (list txdata)) : Prop := {
  sf_heap : Prque.heap (length (heads t)) (heads t);
  sf_heads : heads t ≡ₚ map by_price (firsts m);
  sf_queue a q : m !! a = Some q → ∃ tx rest, q = tx :: rest ∧ Sender tx = a ∧ txs t !! a = Some rest ∧
    Forall (fun x => Sender x = a) rest }.

Lemma firsts_elem m tx : tx ∈ firsts m ↔ ∃ a q, m !! a = Some q ∧ head q = Some tx.
Proof.
  unfold firsts. rewrite list_elem_of_omap. split.
  - intros ([a q] & Hin & Hh). apply elem_of_map_to_list in Hin. by exists a, q.
  - intros (a & q & Hm & Hh). exists (a, q). by rewrite elem_of_map_to_list.
Qed.

Lemma firsts_insert m a tx rest : m !! a = None → firsts (<[a := tx :: rest]> m) ≡ₚ tx :: firsts m.
Proof. intros Hm. unfold firsts. by rewrite map_to_list_insert. Qed.

Lemma firsts_delete m a tx rest : m !! a = Some (tx :: rest) → firsts m ≡ₚ tx :: firsts (delete a m).
Proof.
  intros Hm. rewrite <- (insert_delete_id m a (tx :: rest) Hm) at 1. apply firsts_insert. apply lookup_delete_eq.
Qed.

(** The transaction at the root of the heap is the first of its sender's queue. *)
Lemma Peek_spec t m tx :
  stands_for t m → Peek t = Some tx →
  (∃ rest, m !! Sender tx = Some (tx :: rest) ∧ txs t !! Sender tx = Some rest) ∧ ∀ x, x ∈ firsts m → Price x ≤ Price tx.
Proof.
  intros [Hh Hp Hq] Hx. unfold Peek in Hx. destruct (heads t) as [|[y p] hs] eqn:E; [done|]. injection Hx as ->.
  assert ((tx, p) ∈ map by_price (firsts m)) as Hin by (rewrite <- Hp; left).
  apply list_elem_of_fmap in Hin as (x & [= -> ->] & Hin). apply firsts_elem in Hin as (a & q & Hm & Hhd).
  destruct (Hq a q Hm) as (tx' & rest & -> & Hs & Ht & _). injection Hhd as ->. split; [exists rest; by rewrite Hs|].
  intros y Hy. assert (by_price y ∈ (x, Price x) :: hs) as Hin by (rewrite Hp; by apply list_elem_of_fmap_2).
  apply list_elem_of_lookup in Hin as [k Hk].
  pose proof (Prque.heap_max ((x, Price x) :: hs) k Hh ltac:(by eapply lookup_lt_Some)) as Hmax.
  unfold Prque.pr in Hmax. rewrite Hk in Hmax. exact Hmax.
Qed.

Lemma Peek_None t m : stands_for t m → Peek t = None ↔ m = ∅.
Proof.
  intros [Hh Hp Hq]. unfold Peek. split.
  - intros Hx. assert (heads t = []) as E by (by destruct (heads t)). rewrite E in Hp. symmetry in Hp. apply Permutation_nil_r in Hp.
    apply map_empty. intros a. apply eq_None_not_Some. intros [q Hm]. destruct (Hq a q Hm) as (tx & rest & -> & _).
    assert (tx ∈ firsts m) as Hin by (apply firsts_elem; by exists a, (tx :: rest)). destruct (firsts m); [by apply elem_of_nil in Hin|done].
  - intros ->. assert (heads t = []) as -> by (by apply Permutation_nil_r). done.
Qed.

(** ** Taking and dropping *)

Definition taken (tx : txdata) (m : gmap bytes (list txdata)) : gmap bytes (list txdata) :=
  match m !! Sender tx with
  | Some (_ :: x :: rest) => <[Sender tx := x :: rest]> m
  | _ => delete (Sender tx) m
  end.
Definition dropped (tx : txdata) (m : gmap bytes (list txdata)) : gmap bytes (list txdata) := delete (Sender tx) m.

Lemma Pop_spec t m tx :
  stands_for t m → Peek t = Some tx → ∃ t', Pop t = Some t' ∧ stands_for t' (dropped tx m).
Proof.
  intros Ht Hx. destruct (Peek_spec t m tx Ht Hx) as [(rest & Hm & _) _]. destruct Ht as [Hh Hp Hq]. unfold Pop.
  assert (heads t ≠ []) as Hne by (intros E; unfold Peek in Hx; by rewrite E in Hx).
  destruct (Prque.Pop_Some (heads t) Hne) as (x & q & Epop & Hperm). rewrite Epop. cbn [mbind option_bind].
  pose proof (Prque.Pop_root _ _ _ Epop) as H0. unfold Peek in Hx. rewrite H0 in Hx. injection Hx as Ex.
  eexists. split; [reflexivity|]. split; [by apply (Prque.Pop_heap _ _ _ Hh Epop)| |].
  - cbn [heads]. rewrite Hp, (firsts_delete m _ _ _ Hm) in Hperm. cbn [map] in Hperm.
    assert (x = by_price tx) as ->; [|by apply Permutation_cons_inv in Hperm].
    assert (x ∈ map by_price (firsts m)) as Hin by (rewrite <- Hp; by eapply list_elem_of_lookup_2).
    apply list_elem_of_fmap in Hin as (y & -> & _). simpl in Ex. by subst.
  - intros a q' Hd. unfold dropped in Hd. apply lookup_delete_Some in Hd as [_ Hd]. by apply Hq.
Qed.

Lemma Shift_spec t m tx :
  stands_for t m → Peek t = Some tx → ∃ t', Shift t = Some t' ∧ stands_for t' (taken tx m).
Proof.
  intros Ht Hx. destruct (Peek_spec t m tx Ht Hx) as [(rest & Hm & Htx) _]. unfold Shift, taken. rewrite Hx, Hm. cbn [mbind option_bind].
  rewrite Htx. destruct rest as [|y rest]; [by apply Pop_spec|]. destruct (Ht) as [Hh Hp Hq]. eexists. split; [reflexivity|].
  unfold Peek in Hx. destruct (heads t) as [|[z p] hs] eqn:E; [done|]. injection Hx as ->.
  assert (p = Price tx) as ->.
  { assert ((tx, p) ∈ map by_price (firsts m)) as Hin by (rewrite <- Hp; left). by apply list_elem_of_fmap in Hin as (w & [= -> ->] & _). }
  destruct (Prque.Fix0_spec (tx, Price tx) (by_price y) hs Hh) as [Hp' Hh'].
  destruct (Hq (Sender tx) (tx :: y :: rest) Hm) as (tx' & rest' & [= <- <-] & _ & _ & Hs). apply Forall_cons in Hs as [Hy Hs].
  split; cbn [heads txs list_insert insert].
  - exact Hh'.
  - rewrite Hp'. rewrite <- (insert_delete_eq m (Sender tx)). rewrite firsts_insert by apply lookup_delete_eq. cbn [map].
    apply perm_skip. rewrite (firsts_delete m _ _ _ Hm) in Hp. cbn [map] in Hp. by apply Permutation_cons_inv in Hp.
  - intros a q Ha. apply lookup_insert_Some in Ha as [[<- <-]|[Hne Ha]].
    + exists y, rest. by rewrite lookup_insert_eq.
    + destruct (Hq a q Ha) as (x & r & -> & ? & ? & ?). exists x, r. rewrite lookup_insert_ne by done. by split_and!.
Qed.

(** ** The constructor *)

(** The entries of a map of queues, each of transactions of one account. *)
Definition queues (l : list (bytes * list txdata)) : Prop :=
  NoDup l.*1 ∧ Forall (fun '(a, q) => q ≠ [] ∧ Forall (fun x => Sender x = a) q) l.

Lemma take_heads_spec l t hs :
  queues l →
  ∃ t', take_heads l t hs = Some (t', hs ++ map by_price (omap (fun kq => head (snd kq)) l)) ∧
    (∀ a tx rest, (a, tx :: rest) ∈ l → t' !! a = Some rest) ∧ ∀ a, a ∉ l.*1 → t' !! a = t !! a.
Proof.
  revert t hs. induction l as [|[a q] l IH]; intros t hs [Hnd Hl]; [exists t; split_and!; [by rewrite app_nil_r|set_solver|done]|].
  apply NoDup_cons in Hnd as [Hna Hnd]. apply Forall_cons in Hl as [[Hq Hs] Hl]. destruct q as [|tx rest]; [done|].
  apply Forall_cons in Hs as [Htx Hs]. cbn [take_heads]. destruct (IH (<[Sender tx := rest]> t) (hs ++ [by_price tx])) as (t' & -> & Hin & Hout); [by split|].
  exists t'. split_and!; [by rewrite <- app_assoc| |].
  - intros b x r [[= -> -> ->]|Hb]%elem_of_cons; [|by eapply Hin]. rewrite Hout by done. rewrite <- Htx. apply lookup_insert_eq.
  - intros b Hb. cbn [fmap list_fmap fst] in Hb. apply not_elem_of_cons in Hb as [Hne Hb]. rewrite Hout by done. rewrite lookup_insert_ne; [done|]. congruence.
Qed.

Lemma New_spec l : queues l → ∃ t, NewTransactionsByPriceAndNonce l = Some t ∧ stands_for t (list_to_map l).
Proof.
  intros Hl. unfold NewTransactionsByPriceAndNonce. destruct (take_heads_spec l (list_to_map l) [] Hl) as (t & -> & Hin & _).
  eexists. split; [reflexivity|]. set (hs := [] ++ map by_price (omap (fun kq => head (snd kq)) l)).
  destruct (Prque.Init_spec hs) as [Hp Hh]. destruct Hl as [Hnd Hl]. split; cbn [heads txs].
  - exact Hh.
  - rewrite Hp. unfold hs, firsts. simpl app. apply fmap_Permutation, omap_Permutation. symmetry. by apply map_to_list_to_map.
  - intros a q Hm. apply elem_of_list_to_map_2 in Hm. rewrite Forall_forall in Hl. specialize (Hl _ Hm). simpl in Hl.
    destruct Hl as [Hq Hs]. destruct q as [|tx rest]; [done|]. apply Forall_cons in Hs as [Htx Hs]. exists tx, rest. split_and!; [done|done| |done].
    by eapply Hin.
Qed.

(** ** The order of a block *)

(** A transaction that comes next: the first of its account, and none is dearer. *)
Definition best (tx : txdata) (m : gmap bytes (list txdata)) : Prop :=
  (∃ rest, m !! Sender tx = Some (tx :: rest)) ∧ ∀ x, x ∈ firsts m → Price x ≤ Price tx.

(** The number of transactions. *)
Definition total (m : gmap bytes (list txdata)) : nat := map_fold (fun _ q n => (length q + n)%nat) 0%nat m.

Lemma total_delete m a q : m !! a = Some q → total m = (length q + total (delete a m))%nat.
Proof. intros Hm. unfold total. apply (map_fold_delete_L (fun _ q n => (length q + n)%nat)); [intros; lia|done]. Qed.

Lemma total_dropped m tx rest : m !! Sender tx = Some (tx :: rest) → (total (dropped tx m) < total m)%nat.
Proof. intros Hm. rewrite (total_delete m _ _ Hm). unfold dropped. simpl. lia. Qed.

Lemma total_taken m tx rest : m !! Sender tx = Some (tx :: rest) → (total (taken tx m) < total m)%nat.
Proof.
  intros Hm. unfold taken. rewrite Hm, (total_delete m _ _ Hm). destruct rest as [|x rest]; [simpl; lia|].
  rewrite (total_delete (<[Sender tx := x :: rest]> m) (Sender tx) (x :: rest)) by apply lookup_insert_eq.
  rewrite delete_insert_eq. simpl. lia.
Qed.

End txs.
End TxPrice.
