(* ===== verification/CoreBlock.v ===== *)
(** Assembling blocks (src/core/types/derive_sha.go, bloom9.go, receipt.go, log.go and
    NewBlock of block.go): the roots of transactions and receipts, and the bloom
    filter of the logs.

    The root of a list is that of the trie from the RLP forms of the indices to the
    items; it identifies the list.  The bloom filter of a block has every address and
    topic of its logs. *)

From S2P Require Import Prelude RlpEncode RlpRaw RlpDecode RlpRoundtrip RlpTotal KeccakF Sha3 CoreTypes.
From S2P Require Import TrieEncoding TrieNode Trie TrieThms TrieHash TrieMap.

Module CoreBlock.
Import Rlp Raw Dec Roundtrip Total Codec Types TrieEncoding TrieNode Trie TrieThms TrieHash TrieMap.

(** ** log.go and receipt.go *)

(** The consensus fields of a log. *)
Record Log := mkLog {
  log_Address : bytes;
  log_Topics : list bytes;
  log_Data : bytes }.

Definition log_typ : typ := TStruct [TByteArray 20; TSlice (TByteArray 32); TBytes].
Definition log_val (l : Log) : val :=
  VStruct [VByteArray (log_Address l); VSlice (map VByteArray (log_Topics l)); VBytes (log_Data l)].
Definition of_log_val (v : val) : option Log :=
  match v with
  | VStruct [VByteArray a; VSlice ts; VBytes d] => ts ← of_list of_bytes ts; Some (mkLog a ts d)
  | _ => None
  end.

Lemma of_to_log x : of_log_val (log_val x) = Some x.
Proof. destruct x as [a ts d]. unfold log_val, of_log_val. cbn [log_Address log_Topics log_Data]. by rewrite of_list_map. Qed.

(** The fields of a receipt that go into its consensus encoding. *)
Record Receipt := mkReceipt {
  PostState : bytes;
  Status : Z;
  CumulativeGasUsed : Z;
  rc_Bloom : bytes;
  Logs : list Log }.

Definition ReceiptStatusFailed : Z := 0.
Definition ReceiptStatusSuccessful : Z := 1.

Definition statusEncoding (r : Receipt) : bytes :=
  match PostState r with
  | [] => if Status r =? ReceiptStatusFailed then [] else [x01]
  | s => s
  end.

Definition setStatus (postStateOrStatus : bytes) (r : Receipt) : option Receipt :=
  if bool_decide (postStateOrStatus = [x01]) then
    Some (mkReceipt (PostState r) ReceiptStatusSuccessful (CumulativeGasUsed r) (rc_Bloom r) (Logs r))
  else if bool_decide (postStateOrStatus = []) then
    Some (mkReceipt (PostState r) ReceiptStatusFailed (CumulativeGasUsed r) (rc_Bloom r) (Logs r))
  else if (length postStateOrStatus =? HashLength)%nat then
    Some (mkReceipt postStateOrStatus (Status r) (CumulativeGasUsed r) (rc_Bloom r) (Logs r))
  else None.

(** [receiptRLP]. *)
Definition receipt_typ : typ := TStruct [TBytes; TBigInt; TByteArray 256; TSlice (TPtr log_typ)].
Definition receipt_val (r : Receipt) : val :=
  VStruct [VBytes (statusEncoding r); VBig (Some (CumulativeGasUsed r)); VByteArray (rc_Bloom r);
           VSlice (map (fun l => ptr_to (log_val l)) (Logs r))].

Definition Receipt_EncodeRLP (r : Receipt) : result encErr bytes := EncodeToBytes receipt_typ (receipt_val r).

(** Decoding into a zero [Receipt]; [Ok None] is the error of an invalid status. *)
Definition Receipt_DecodeRLP (b : bytes) : result rlpErr (option Receipt) :=
  let? v := DecodeBytes receipt_typ b in
  match v with
  | VStruct [VBytes s; VBig (Some g); VByteArray bl; VSlice ls] =>
      match of_list (of_ptr of_log_val) ls with
      | Some ls => Ok (setStatus s (mkReceipt [] 0 g bl ls))
      | None => Panic
      end
  | _ => Panic
  end.

(** ** bloom9.go *)

Definition BloomByteLength : nat := 256.

(** Bit [(b[i+1] + b[i]<<8) & 2047] of the hash; the hash has 32 bytes. *)
Definition bloom_bit (h : bytes) (i : nat) : Z :=
  Z.land (bz (default x00 (h !! (i + 1)%nat)) + Z.shiftl (bz (default x00 (h !! i))) 8) 2047.

Definition bloom9 (b : bytes) : Z :=
  let h := hash256 [b] in
  Z.lor (Z.lor (Z.lor 0 (Z.shiftl 1 (bloom_bit h 0))) (Z.shiftl 1 (bloom_bit h 2))) (Z.shiftl 1 (bloom_bit h 4)).

Definition log_bloom (bin : Z) (l : Log) : Z :=
  foldl (fun bin b => Z.lor bin (bloom9 b)) (Z.lor bin (bloom9 (log_Address l))) (log_Topics l).
Definition LogsBloom (logs : list Log) : Z := foldl log_bloom 0 logs.

(** [None] is the panic on more than 256 bytes. *)
Definition BytesToBloom (b : bytes) : option bytes :=
  if (BloomByteLength <? length b)%nat then None else Some (replicate (BloomByteLength - length b) x00 ++ b).

Definition CreateBloom (receipts : list Receipt) : option bytes :=
  BytesToBloom (be_bytes (foldl (fun bin r => Z.lor bin (LogsBloom (Logs r))) 0 receipts)).

(** [topic] are the bytes behind the interface. *)
Definition BloomLookup (bin : bytes) (topic : bytes) : bool :=
  let cmp := bloom9 topic in Z.land (be_val bin) cmp =? cmp.

Definition Bloom_Add (d : Z) (b : bytes) : option bytes := BytesToBloom (be_bytes (Z.lor (be_val b) (bloom9 (be_bytes d)))).
Definition Bloom_Test (b : bytes) (test : Z) : bool := BloomLookup b (be_bytes test).
Definition TestBytes (b : bytes) (test : bytes) : bool := Bloom_Test b (be_val test).

(** ** derive_sha.go *)

(** [rlp.Encode] of the index into the reset buffer. *)
Definition index_key (i : Z) : bytes := match EncodeToBytes (TUint 64) (VUint i) with Ok b => b | _ => [] end.

(** A trie without a database. *)
Definition zero_trie : Trie (D:=gmap bytes bytes) := mkTrie nilNode None 0 0.

(** [Update] logs an error and goes on; a panic stops the loop. *)
Definition Update (key value : bytes) (t : Trie (D:=gmap bytes bytes)) : result putErr (Trie (D:=gmap bytes bytes)) :=
  match TryUpdate key value t with
  | (Ok _, t) | (Err _, t) => Ok t
  | (Panic, _) => Panic
  | (NoFuel, _) => NoFuel
  end.

Fixpoint derive_from (i : Z) (items : list bytes) (t : Trie (D:=gmap bytes bytes)) : result putErr (Trie (D:=gmap bytes bytes)) :=
  match items with
  | [] => Ok t
  | b :: items => let? t := Update (index_key i) b t in derive_from (i + 1) items t
  end.

(** [items] are the values of [GetRlp]. *)
Definition DeriveSha (items : list bytes) : result putErr bytes :=
  let? t := derive_from 0 items zero_trie in fst (Hash t).

(** ** block.go *)

(** [Transactions.GetRlp] and [Receipts.GetRlp]; the latter panics on an error. *)
Definition tx_GetRlp (t : txdata) : bytes := match encode t with Ok b => b | _ => [] end.
Fixpoint receipts_rlp (rs : list Receipt) : option (list bytes) :=
  match rs with
  | [] => Some []
  | r :: rs => match Receipt_EncodeRLP r with Ok b => l ← receipts_rlp rs; Some (b :: l) | _ => None end
  end.

Definition EmptyRootHash : result putErr bytes := DeriveSha [].
Definition CalcUncleHash (uncles : list Header) : bytes :=
  hash256 [match EncodeToBytes (TSlice (TPtr header_typ)) (VSlice (map (fun h => ptr_to (header_val h)) uncles)) with Ok b => b | _ => [] end].
Definition EmptyUncleHash : bytes := CalcUncleHash [].

Definition set_roots (txHash receiptHash uncleHash bloom : bytes) (h : Header) : Header :=
  mkHeader (ParentHash h) uncleHash (Coinbase h) (Root h) txHash receiptHash bloom (Difficulty h) (Number h)
    (GasLimit h) (GasUsed h) (Time h) (Extra h) (MixDigest h) (Nonce h).

Definition NewBlock (h : Header) (txs : list txdata) (us : list Header) (receipts : list Receipt) : result putErr Block :=
  let? txHash := (match txs with [] => EmptyRootHash | _ => DeriveSha (map tx_GetRlp txs) end) in
  let? (receiptHash, bloom) := (match receipts with
    | [] => let? r := EmptyRootHash in Ok (r, Bloom h)
    | _ =>
        match receipts_rlp receipts, CreateBloom receipts with
        | Some l, Some bloom => let? r := DeriveSha l in Ok (r, bloom)
        | _, _ => Panic
        end
    end) in
  let uncleHash := match us with [] => EmptyUncleHash | _ => CalcUncleHash us end in
  Ok (mkBlock (set_roots txHash receiptHash uncleHash bloom h) txs us).

(** ** Bloom filters *)

#[local] Opaque hash256.

(** The bits of [a] are bits of [b]. *)
Definition bits_in (a b : Z) : Prop := Z.land b a = a.

Lemma bits_in_lor_l a b c : bits_in a b → bits_in a (Z.lor b c).
Proof.
  unfold bits_in. intros E. apply Z.bits_inj'. intros n Hn. pose proof (f_equal (fun z => Z.testbit z n) E) as En. simpl in En.
  rewrite Z.land_spec in En. rewrite Z.land_spec, Z.lor_spec. destruct (Z.testbit b n), (Z.testbit c n), (Z.testbit a n); simpl in *; done.
Qed.
Lemma bits_in_lor_r a b : bits_in a (Z.lor b a).
Proof.
  unfold bits_in. apply Z.bits_inj'. intros n Hn. rewrite Z.land_spec, Z.lor_spec.
  destruct (Z.testbit b n), (Z.testbit a n); done.
Qed.

Lemma fold_lor_keeps {A} (f : A → Z) l a b : bits_in a b → bits_in a (foldl (fun z x => Z.lor z (f x)) b l).
Proof. revert b. induction l as [|x l IH]; intros b Hab; [done|]. simpl. apply IH. by apply bits_in_lor_l. Qed.

Lemma fold_lor_has {A} (f : A → Z) l x b : x ∈ l → bits_in (f x) (foldl (fun z x => Z.lor z (f x)) b l).
Proof.
  revert b. induction l as [|y l IH]; intros b Hx; [by apply elem_of_nil in Hx|]. simpl.
  apply elem_of_cons in Hx as [->|Hx]; [apply fold_lor_keeps, bits_in_lor_r|by apply IH].
Qed.

(** The entries of a log in the filter. *)
Definition log_entries (l : Log) : list bytes := log_Address l :: log_Topics l.

Lemma log_bloom_entries bin l : log_bloom bin l = foldl (fun z b => Z.lor z (bloom9 b)) bin (log_entries l).
Proof. done. Qed.

Lemma LogsBloom_entries logs : LogsBloom logs = foldl (fun z b => Z.lor z (bloom9 b)) 0 (concat (map log_entries logs)).
Proof.
  unfold LogsBloom. generalize 0. induction logs as [|l logs IH]; intros z; [done|]. cbn [foldl map concat].
  by rewrite foldl_app, IH, log_bloom_entries.
Qed.

Lemma bits_in_trans a b c : bits_in a b → bits_in b c → bits_in a c.
Proof. unfold bits_in. intros Ha Hb. by rewrite <- Ha at 1; rewrite Z.land_assoc, Hb. Qed.

(** Numbers of [n] bits. *)
Lemma lor_range a b n : 0 ≤ n → 0 ≤ a < 2 ^ n → 0 ≤ b < 2 ^ n → 0 ≤ Z.lor a b < 2 ^ n.
Proof.
  intros Hn Ha Hb. assert (0 ≤ Z.lor a b) as H0 by (apply Z.lor_nonneg; lia). split; [done|].
  destruct (decide (Z.lor a b = 0)) as [->|Hne]; [apply Z.pow_pos_nonneg; lia|].
  assert (∀ z, 0 ≤ z < 2 ^ n → z = 0 ∨ Z.log2 z < n) as Hlog.
  { intros z Hz. destruct (decide (z = 0)); [by left|right]. apply Z.log2_lt_pow2; lia. }
  apply Z.log2_lt_pow2; [lia|]. rewrite Z.log2_lor by lia.
  pose proof (Z.log2_nonneg a). pose proof (Z.log2_nonneg b). change (Z.log2 0) with 0 in *.
  destruct (Hlog a Ha) as [->|], (Hlog b Hb) as [->|]; change (Z.log2 0) with 0 in *; [done|lia..].
Qed.

Lemma fold_lor_range {A} (f : A → Z) n l b : 0 ≤ n → 0 ≤ b < 2 ^ n → (∀ x, 0 ≤ f x < 2 ^ n) → 0 ≤ foldl (fun z x => Z.lor z (f x)) b l < 2 ^ n.
Proof.
  intros Hn Hb Hf. revert b Hb. induction l as [|x l IH]; intros b Hb; [done|]. simpl. apply IH. by apply lor_range.
Qed.

Lemma bloom_bit_range h i : 0 ≤ bloom_bit h i < 2048.
Proof.
  unfold bloom_bit. change 2047 with (Z.ones 11). rewrite Z.land_ones by lia. apply Z.mod_pos_bound. lia.
Qed.

Lemma bloom9_range b : 0 ≤ bloom9 b < 2 ^ 2048.
Proof.
  assert (∀ h i, 0 ≤ Z.shiftl 1 (bloom_bit h i) < 2 ^ 2048) as Hs.
  { intros h i. pose proof (bloom_bit_range h i). rewrite Z.shiftl_1_l. split; [apply Z.pow_nonneg; lia|]. apply Z.pow_lt_mono_r; lia. }
  unfold bloom9. repeat apply lor_range; try apply Hs; lia.
Qed.

Lemma length_be_bytes_le z n : 0 ≤ z < 256 ^ Z.of_nat n → (length (be_bytes z) ≤ n)%nat.
Proof.
  intros Hz. destruct (be_bytes z) as [|b l] eqn:E; [simpl; lia|]. rewrite <- E.
  pose proof (no_lead0_lower (be_bytes z) (be_bytes_no_lead0 z ltac:(lia)) ltac:(by rewrite E)) as Hl.
  rewrite be_val_be_bytes in Hl by lia.
  destruct (decide (length (be_bytes z) ≤ n)%nat) as [|Hgt]; [done|]. exfalso.
  assert (256 ^ Z.of_nat n ≤ 256 ^ (zlen (be_bytes z) - 1)) by (apply Z.pow_le_mono_r; lia). lia.
Qed.

Lemma be_val_zeros n b : be_val (replicate n x00 ++ b) = be_val b.
Proof. induction n as [|n IH]; [done|]. simpl. rewrite be_val_cons, IH. change (bz x00) with 0. lia. Qed.

Lemma BytesToBloom_Z z : 0 ≤ z < 2 ^ 2048 → ∃ b, BytesToBloom (be_bytes z) = Some b ∧ be_val b = z.
Proof.
  intros Hz. unfold BytesToBloom. pose proof (length_be_bytes_le z 256) as Hl. unfold BloomByteLength.
  destruct (Nat.ltb_spec 256 (length (be_bytes z))) as [Hlt|_].
  { assert (length (be_bytes z) ≤ 256)%nat by (apply Hl; exact Hz). lia. }
  eexists. split; [reflexivity|]. rewrite be_val_zeros. apply be_val_be_bytes. lia.
Qed.

(** The filter of receipts has every entry of their logs. *)
Lemma CreateBloom_spec rs :
  ∃ b, CreateBloom rs = Some b ∧ ∀ r l x, r ∈ rs → l ∈ Logs r → x ∈ log_entries l → BloomLookup b x = true.
Proof.
  unfold CreateBloom. set (z := foldl _ 0 rs).
  assert (∀ logs, 0 ≤ LogsBloom logs < 2 ^ 2048) as Hlogs.
  { intros logs. rewrite LogsBloom_entries. apply fold_lor_range; [lia|lia|apply bloom9_range]. }
  destruct (BytesToBloom_Z z) as (b & Eb & Hv).
  { apply (fold_lor_range (fun r => LogsBloom (Logs r))); [lia|lia|]. intros r. apply Hlogs. }
  exists b. split; [done|]. intros r l x Hr Hl Hx. unfold BloomLookup. rewrite Hv. apply Z.eqb_eq.
  apply (bits_in_trans _ (LogsBloom (Logs r))); [|by apply (fold_lor_has (fun r => LogsBloom (Logs r)))].
  rewrite LogsBloom_entries. apply fold_lor_has. apply list_elem_of_In, in_concat. exists (log_entries l).
  split; [by apply in_map, list_elem_of_In|by apply list_elem_of_In].
Qed.

(** ** Roots of lists *)

#[local] Opaque keccak.

Lemma index_key_spec i :
  0 ≤ i < 2 ^ 64 → DecodeBytes (TUint 64) (index_key i) = Ok (VUint i) ∧ zlen (index_key i) ≤ 17.
Proof.
  intros Hi. pose proof (length_be_bytes_le i 8 ltac:(change (256 ^ Z.of_nat 8) with (2 ^ 64); lia)) as Hl.
  pose proof (enc_str_bound (be_bytes i) ltac:(lia)) as Hb.
  destruct (decode_encode (TUint 64) (VUint i) (enc_str (be_bytes i))) as [E1 E2]; [by split; [auto|]|by split; [auto|]|done|lia|].
  unfold index_key. rewrite E1. split; [done|lia].
Qed.

Lemma index_key_inj i j : 0 ≤ i < 2 ^ 64 → 0 ≤ j < 2 ^ 64 → index_key i = index_key j → i = j.
Proof.
  intros Hi Hj E. destruct (index_key_spec i Hi) as [Ei _], (index_key_spec j Hj) as [Ej _]. rewrite E, Ej in Ei. by injection Ei.
Qed.

(** The map of a list, from index [i] on. *)
Fixpoint items_map (i : Z) (items : list bytes) (m : gmap bytes bytes) : gmap bytes bytes :=
  match items with
  | [] => m
  | b :: items => items_map (i + 1) items (<[index_key i := b]> m)
  end.

Definition item_ok (b : bytes) : Prop := b ≠ [] ∧ zlen b < 2 ^ 32.

Lemma items_map_below i items m k : 0 ≤ k < i → i + zlen items ≤ 2 ^ 64 → items_map i items m !! index_key k = m !! index_key k.
Proof.
  revert i m. induction items as [|b items IH]; intros i m Hk Hl; [done|]. simpl in *. rewrite IH by lia.
  rewrite lookup_insert_ne; [done|]. intros E. apply index_key_inj in E; lia.
Qed.

Lemma items_map_lookup i items m j :
  0 ≤ i → i + zlen items ≤ 2 ^ 64 → (∀ k, i ≤ k < 2 ^ 64 → m !! index_key k = None) → i + Z.of_nat j < 2 ^ 64 →
  items_map i items m !! index_key (i + Z.of_nat j) = items !! j.
Proof.
  revert i m j. induction items as [|b items IH]; intros i m j Hi Hl Hm Hj; simpl in *; [by apply Hm; lia|].
  destruct j as [|j].
  - rewrite Z.add_0_r, items_map_below by lia. apply lookup_insert_eq.
  - replace (i + Z.of_nat (S j)) with ((i + 1) + Z.of_nat j) by lia. rewrite IH; [done|lia|lia| |lia].
    intros k Hk. rewrite lookup_insert_ne; [apply Hm; lia|]. intros E. apply index_key_inj in E; lia.
Qed.

Lemma items_map_inj l1 l2 : zlen l1 < 2 ^ 64 → zlen l2 < 2 ^ 64 → items_map 0 l1 ∅ = items_map 0 l2 ∅ → l1 = l2.
Proof.
  intros H1 H2 E. apply list_eq. intros j. destruct (decide (Z.of_nat j < 2 ^ 64)) as [Hj|Hj].
  - rewrite <- (items_map_lookup 0 l1 ∅ j), <- (items_map_lookup 0 l2 ∅ j) by (intros; rewrite ?lookup_empty; done || lia). by rewrite E.
  - rewrite !lookup_ge_None_2 by lia. done.
Qed.

Lemma items_map_small i items m : 0 ≤ i → i + zlen items ≤ 2 ^ 64 → small_keys m → small_keys (items_map i items m).
Proof.
  revert i m. induction items as [|b items IH]; intros i m Hi Hl Hm; [done|]. simpl in *. apply IH; [lia|lia|].
  intros key v [[<- _]|[_ Hk]]%lookup_insert_Some; [|by eapply Hm]. pose proof (index_key_spec i ltac:(lia)). lia.
Qed.

Lemma derive_from_holds (i : Z) (items : list bytes) (T : Trie (D:=gmap bytes bytes)) m :
  Forall item_ok items → holds T m → ∃ T', derive_from i items T = Ok T' ∧ holds T' (items_map i items m).
Proof.
  intros Hi. revert i T m. induction Hi as [|b items [Hb Hl] _ IH]; intros i T m HT; [by exists T|]. cbn [derive_from items_map]. unfold Update.
  destruct (TryUpdate_holds T m (index_key i) b Hl HT) as (T' & -> & HT' & _). cbn [rbind]. apply IH.
  unfold updated in HT'. by destruct b.
Qed.

Lemma zero_trie_holds : holds zero_trie ∅.
Proof.
  exists TNil. split_and!; [constructor|by left|]. intros k v. split; [by intros ?%has_nil|].
  intros (key & _ & Hm). by rewrite lookup_empty in Hm.
Qed.

Lemma DeriveSha_spec (items : list bytes) :
  Forall item_ok items → zlen items < 2 ^ 64 → ∃ t, trie_of (items_map 0 items ∅) t ∧ DeriveSha items = Ok (hash_of t).
Proof.
  intros Hi Hl. unfold DeriveSha. destruct (derive_from_holds 0 items zero_trie ∅ Hi zero_trie_holds) as (T & -> & HT). cbn [rbind].
  apply holds_stands in HT as (t & Ht). destruct (Hash_stands T t _ Ht) as (T' & -> & _); [apply items_map_small; [done|lia|apply small_keys_empty]|].
  exists t. split; [by destruct Ht|done].
Qed.

(** The root of a list identifies it. *)
Lemma DeriveSha_inj (l1 l2 : list bytes) h :
  Forall item_ok l1 → Forall item_ok l2 → zlen l1 < 2 ^ 64 → zlen l2 < 2 ^ 64 → DeriveSha l1 = Ok h → DeriveSha l2 = Ok h →
  l1 = l2 ∨ ∃ t1 t2, trie_of (items_map 0 l1 ∅) t1 ∧ trie_of (items_map 0 l2 ∅) t2 ∧ collide t1 t2.
Proof.
  intros I1 I2 L1 L2 E1 E2. destruct (DeriveSha_spec l1 I1 L1) as (t1 & H1 & D1), (DeriveSha_spec l2 I2 L2) as (t2 & H2 & D2).
  rewrite E1 in D1. rewrite E2 in D2. injection D1 as D1. injection D2 as D2.
  destruct (hash_inj t1 t2 _ _ H1 H2) as [E|Hc]; [by apply items_map_small; [done|lia|apply small_keys_empty]..|congruence|left|right].
  - by apply items_map_inj.
  - by exists t1, t2.
Qed.

(** ** New blocks *)

Definition tx_ok (t : txdata) : Prop := encodable t ∧ zlen (tx_GetRlp t) < 2 ^ 32.

Lemma tx_GetRlp_decode t : encodable t → decode (tx_GetRlp t) = Ok t.
Proof. intros He. destruct (encode_decode t He) as (bs & E & Ed). unfold tx_GetRlp. by rewrite E. Qed.

Lemma tx_item_ok t : tx_ok t → item_ok (tx_GetRlp t).
Proof. intros [He Hl]. split; [|done]. intros E. apply tx_GetRlp_decode in He. rewrite E in He. vm_compute in He. done. Qed.

Lemma tx_rlps_inj txs1 txs2 : Forall tx_ok txs1 → Forall tx_ok txs2 → map tx_GetRlp txs1 = map tx_GetRlp txs2 → txs1 = txs2.
Proof.
  intros H1. revert txs2. induction H1 as [|t txs1 [Ht _] _ IH]; intros [|t2 txs2] H2 E; [done..|]. simpl in E. injection E as E1 E2.
  apply Forall_cons in H2 as [[Ht2 _] H2]. f_equal; [|by apply IH].
  pose proof (tx_GetRlp_decode t Ht) as D1. rewrite E1, (tx_GetRlp_decode t2 Ht2) in D1. by injection D1.
Qed.

Lemma NewBlock_inv h txs us rs b :
  NewBlock h txs us rs = Ok b →
  DeriveSha (map tx_GetRlp txs) = Ok (TxHash (header b)) ∧ transactions b = txs ∧
  (rs ≠ [] → CreateBloom rs = Some (Bloom (header b))).
Proof.
  unfold NewBlock. assert ((match txs with [] => EmptyRootHash | _ => DeriveSha (map tx_GetRlp txs) end) = DeriveSha (map tx_GetRlp txs)) as ->
    by (by destruct txs). destruct (DeriveSha (map tx_GetRlp txs)) as [txHash| | |]; cbn [rbind]; try done.
  destruct rs as [|r rs].
  - destruct EmptyRootHash as [rh| | |]; cbn [rbind]; try done. by intros [= <-].
  - destruct (receipts_rlp (r :: rs)) as [l|]; [|done]. destruct (CreateBloom (r :: rs)) as [bloom|] eqn:Eb; [|done].
    destruct (DeriveSha l) as [rh| | |]; cbn [rbind]; try done. by intros [= <-].
Qed.

Lemma NewBlock_parent h txs us rs b : NewBlock h txs us rs = Ok b → ParentHash (header b) = ParentHash h.
Proof.
  unfold NewBlock. destruct (match txs with [] => _ | _ => _ end) as [x| | |]; cbn [rbind]; try done.
  destruct (match rs with [] => _ | _ => _ end) as [[y z]| | |]; cbn [rbind]; try done. by intros [= <-].
Qed.

(** Items that are not too large for the trie. *)
Definition item_small (b : bytes) : Prop := zlen b < 2 ^ 32.
Definition receipts_small (rs : list Receipt) : Prop := ∃ l, receipts_rlp rs = Some l ∧ Forall item_small l ∧ zlen l < 2 ^ 64.

Lemma derive_from_total (i : Z) (items : list bytes) (T : Trie (D:=gmap bytes bytes)) m :
  0 ≤ i → i + zlen items ≤ 2 ^ 64 → Forall item_small items → holds T m → small_keys m →
  ∃ T' m', derive_from i items T = Ok T' ∧ holds T' m' ∧ small_keys m'.
Proof.
  intros Hi Hl Hs. revert i T m Hi Hl. induction Hs as [|b items Hb _ IH]; intros i T m Hi Hl HT Hk; [by exists T, m|].
  cbn [derive_from]. unfold Update. destruct (TryUpdate_holds T m (index_key i) b Hb HT) as (T' & -> & HT' & _). cbn [rbind].
  simpl in Hl. apply (IH (i + 1) T' (updated (index_key i) b m)); [lia|lia|done|].
  apply (small_keys_next (OUpdate (index_key i) b)); [|done]. split; [|done]. pose proof (index_key_spec i ltac:(lia)). lia.
Qed.

Lemma DeriveSha_total (items : list bytes) : Forall item_small items → zlen items < 2 ^ 64 → ∃ h, DeriveSha items = Ok h.
Proof.
  intros Hs Hl. unfold DeriveSha.
  destruct (derive_from_total 0 items zero_trie ∅) as (T & m & -> & HT & Hk); [done|lia|done|apply zero_trie_holds|apply small_keys_empty|]. cbn [rbind].
  apply holds_stands in HT as (t & Ht). destruct (Hash_stands T t m Ht Hk) as (T' & -> & _). by exists (hash_of t).
Qed.

Lemma NewBlock_total h txs us rs :
  Forall (fun t => item_small (tx_GetRlp t)) txs → zlen txs < 2 ^ 64 → receipts_small rs → ∃ b, NewBlock h txs us rs = Ok b.
Proof.
  intros Ht Hl (l & El & Hr & Hrl). unfold NewBlock.
  destruct (DeriveSha_total (map tx_GetRlp txs)) as (th & Eth); [by apply Forall_fmap|by rewrite length_map|].
  assert ((match txs with [] => EmptyRootHash | _ => DeriveSha (map tx_GetRlp txs) end) = Ok th) as -> by (by destruct txs). cbn [rbind].
  destruct (DeriveSha_total l Hr Hrl) as (rh & Erh). destruct rs as [|r rs].
  - injection El as <-. unfold EmptyRootHash. rewrite Erh. cbn [rbind]. by eexists.
  - rewrite El. destruct (CreateBloom_spec (r :: rs)) as (bl & -> & _). rewrite Erh. cbn [rbind]. by eexists.
Qed.

(** C16: The header that [NewBlock] completes binds the block: its filter answers yes for
    every address and topic of the logs of the receipts, and two blocks with the same
    root of transactions have the same transactions in the same order, unless two
    nodes of their tries collide under Keccak-256. *)
Theorem NewBlock_binds h1 h2 txs1 txs2 us1 us2 rs1 rs2 b1 b2 :
  Forall tx_ok txs1 → Forall tx_ok txs2 → zlen txs1 < 2 ^ 64 → zlen txs2 < 2 ^ 64 →
  NewBlock h1 txs1 us1 rs1 = Ok b1 → NewBlock h2 txs2 us2 rs2 = Ok b2 →
  (∀ r l x, r ∈ rs1 → l ∈ Logs r → x ∈ log_entries l → BloomLookup (Bloom (header b1)) x = true) ∧
  (TxHash (header b1) = TxHash (header b2) →
   transactions b1 = transactions b2 ∨
   ∃ t1 t2, trie_of (items_map 0 (map tx_GetRlp txs1) ∅) t1 ∧ trie_of (items_map 0 (map tx_GetRlp txs2) ∅) t2 ∧ collide t1 t2).
Proof.
  intros T1 T2 L1 L2 E1 E2. destruct (NewBlock_inv _ _ _ _ _ E1) as (D1 & -> & B1), (NewBlock_inv _ _ _ _ _ E2) as (D2 & -> & _). split.
  - intros r l x Hr Hl Hx. destruct (CreateBloom_spec rs1) as (bl & Ebl & Hin). rewrite B1 in Ebl by (by intros ->; apply elem_of_nil in Hr).
    injection Ebl as <-. by eapply Hin.
  - intros Eh. rewrite <- Eh in D2.
    destruct (DeriveSha_inj (map tx_GetRlp txs1) (map tx_GetRlp txs2) (TxHash (header b1))) as [E|Hc]; try done.
    + apply Forall_fmap. eapply Forall_impl; [exact T1|apply tx_item_ok].
    + apply Forall_fmap. eapply Forall_impl; [exact T2|apply tx_item_ok].
    + by rewrite length_map.
    + by rewrite length_map.
    + left. by apply tx_rlps_inj.
    + by right.
Qed.

Definition sample_tx : txdata := mkTx 7 1 21000 (Some (replicate 20 x11)) 5 [xca; xfe] 27 1 2.
Definition sample_log : Log := mkLog (replicate 20 x22) [x00 :: replicate 31 x33] [x01].
Definition sample_receipt : Receipt := mkReceipt [] 1 21000 (replicate 256 x00) [sample_log].
Definition sample_header : Header :=
  mkHeader emptyHash emptyHash emptyAddr emptyHash emptyHash emptyHash (replicate 256 x00) 1 1 0 0 10 [] emptyHash (replicate 8 x00).

Definition sample_new_block : Block :=
  Eval vm_compute in match NewBlock sample_header [sample_tx] [] [sample_receipt] with Ok b => b | _ => mkBlock sample_header [] [] end.
Lemma sample_new_block_eq : NewBlock sample_header [sample_tx] [] [sample_receipt] = Ok sample_new_block.
Proof. vm_cast_no_check (eq_refl (Ok (E:=putErr) sample_new_block)). Qed.

Lemma sample_tx_ok : tx_ok sample_tx.
Proof.
  split; [|vm_compute; done]. split_and!; [vm_compute; intuition congruence..|]. eexists. split; [vm_compute; reflexivity|vm_compute; done].
Qed.

Lemma NewBlock_binds_witness :
  (∀ r l x, r ∈ [sample_receipt] → l ∈ Logs r → x ∈ log_entries l → BloomLookup (Bloom (header sample_new_block)) x = true) ∧
  (TxHash (header sample_new_block) = TxHash (header sample_new_block) →
   transactions sample_new_block = transactions sample_new_block ∨
   ∃ t1 t2, trie_of (items_map 0 (map tx_GetRlp [sample_tx]) ∅) t1 ∧ trie_of (items_map 0 (map tx_GetRlp [sample_tx]) ∅) t2 ∧ collide t1 t2).
Proof.
  apply (NewBlock_binds sample_header sample_header [sample_tx] [sample_tx] [] [] [sample_receipt] [sample_receipt] sample_new_block sample_new_block).
  - constructor; [exact sample_tx_ok|constructor].
  - constructor; [exact sample_tx_ok|constructor].
  - reflexivity.
  - reflexivity.
  - exact sample_new_block_eq.
  - exact sample_new_block_eq.
Defined.

(** [TestBytes] goes through an integer and drops the zeros a topic starts with: it misses
    a topic that is in the filter. *)
Theorem TestBytes_misses_topic :
  BloomLookup (Bloom (header sample_new_block)) (x00 :: replicate 31 x33) = true ∧
  TestBytes (Bloom (header sample_new_block)) (x00 :: replicate 31 x33) = false.
Proof. split; [vm_cast_no_check (eq_refl true)|vm_cast_no_check (eq_refl false)]. Qed.

End CoreBlock.
