(* ===== verification/Raft.v ===== *)
(** Raft-based consensus (src/raft): the speculative chain of a minter
    (speculative_chain.go), the minting of blocks (minter.go), and the application of the
    blocks in the raft log (handler.go).

    Every node applies the same log of blocks and keeps those that extend its chain; the
    leader mints blocks on top of blocks that the log has not delivered yet.  The state
    of a node has the events that wait in its channels, and the minting goroutines that
    wait for its lock.

    The theorems: a block repeats no transaction of a block under way; the minter takes
    transactions in the order of price and nonce; an invalid block is unwound with its
    descendants.  But the unwinding is never reached, and a minter whose parent block
    falls behind the chain never extends it again. *)

From S2P Require Import Prelude RlpEncode RlpRaw RlpDecode RlpRoundtrip RlpTotal KeccakF Sha3 CoreTypes Prque TxPrice.
From S2P Require Import TrieEncoding TrieNode Trie TrieThms TrieHash TrieMap CoreBlock.

Module Raft.
Import Types TxPrice.

Abbreviation AddressTxes := (list (bytes * list txdata)).

(** ** speculative_chain.go *)

(** The deque of unapplied blocks, oldest first. *)
Record speculativeChain := mkSpec {
  sc_head : option Block;
  unappliedBlocks : list Block;
  expectedInvalidBlockHashes : gset bytes;
  proposedTxes : gset bytes }.

Definition newSpeculativeChain : speculativeChain := mkSpec None [] ∅ ∅.

Definition clear (block : Block) (c : speculativeChain) : speculativeChain := mkSpec (Some block) [] ∅ ∅.

Definition tx_hashes (b : Block) : list bytes := map tx_Hash (transactions b).

Definition recordProposedTransactions (b : Block) (c : speculativeChain) : speculativeChain :=
  mkSpec (sc_head c) (unappliedBlocks c) (expectedInvalidBlockHashes c) (proposedTxes c ∪ list_to_set (tx_hashes b)).

Definition extend (block : Block) (c : speculativeChain) : speculativeChain :=
  let c := mkSpec (Some block) (unappliedBlocks c) (expectedInvalidBlockHashes c) (proposedTxes c) in
  let c := recordProposedTransactions block c in
  mkSpec (sc_head c) (unappliedBlocks c ++ [block]) (expectedInvalidBlockHashes c) (proposedTxes c).

Definition setHead (block : Block) (c : speculativeChain) : speculativeChain :=
  mkSpec (Some block) (unappliedBlocks c) (expectedInvalidBlockHashes c) (proposedTxes c).

Definition removeProposedTxes (block : Block) (c : speculativeChain) : speculativeChain :=
  mkSpec (sc_head c) (unappliedBlocks c) (expectedInvalidBlockHashes c) (proposedTxes c ∖ list_to_set (tx_hashes block)).

Definition accept (acceptedBlock : Block) (c : speculativeChain) : speculativeChain :=
  let earliestProposed := head (unappliedBlocks c) in
  let c := mkSpec (sc_head c) (drop 1 (unappliedBlocks c)) (expectedInvalidBlockHashes c) (proposedTxes c) in
  if match earliestProposed with
     | None => true
     | Some e => bool_decide (block_Hash e = block_Hash acceptedBlock)
     end
  then removeProposedTxes acceptedBlock c
  else clear acceptedBlock c.

(** The loop of [unwindFrom]; [r] are the blocks from the right end of the deque on. *)
Fixpoint unwind_loop (r : list Block) (invalidHash : bytes) (headBlock : Block) (c : speculativeChain) : speculativeChain :=
  match r with
  | [] => c
  | currBlock :: r =>
      let head := match r with last :: _ => last | [] => headBlock end in
      let c := mkSpec (Some head) (rev r) (expectedInvalidBlockHashes c) (proposedTxes c) in
      let c := removeProposedTxes currBlock c in
      if bool_decide (block_Hash currBlock = invalidHash) then c
      else
        unwind_loop r invalidHash headBlock
          (mkSpec (sc_head c) (unappliedBlocks c) (expectedInvalidBlockHashes c ∪ {[block_Hash currBlock]}) (proposedTxes c))
  end.

Definition unwindFrom (invalidHash : bytes) (headBlock : Block) (c : speculativeChain) : speculativeChain :=
  if bool_decide (invalidHash ∈ expectedInvalidBlockHashes c) then
    mkSpec (sc_head c) (unappliedBlocks c) (expectedInvalidBlockHashes c ∖ {[invalidHash]}) (proposedTxes c)
  else unwind_loop (rev (unappliedBlocks c)) invalidHash headBlock c.

Definition withoutProposedTxes (addrTxes : AddressTxes) (c : speculativeChain) : AddressTxes :=
  omap (fun '(addr, txes) =>
    match filter (fun tx => tx_Hash tx ∉ proposedTxes c) txes with
    | [] => None
    | filteredTxes => Some (addr, filteredTxes)
    end) addrTxes.

(** ** minter.go *)

(** [now] is the clock in nanoseconds. *)
Definition generateNanoTimestamp (parent : Block) (now : Z) : Z :=
  let parentTime := i64 (Time (header parent)) in
  if now <=? parentTime then i64 (parentTime + 1) else now.

Section minter.

(** The execution of transactions is not part of the model: [St] is the state of a block
    under construction, with the receipts so far and the gas used; a transaction that
    fails leaves it as it was, since the snapshots are restored.  [Sender] recovers the
    sender of a transaction. *)
Context {St : Type}.
Variable Sender : txdata → bytes.
Variable CalcDifficulty : Z → Header → Z.
Variable CalcGasLimit : Block → Z.
Variable StateAt : bytes → option St.
Variable commitTransaction : Header → St → txdata → option St.
Variable state_root : St → bytes.
Variable gas_used : St → Z.
Variable publicReceipts : St → list CoreBlock.Receipt.
Variable bloom_of_all : St → bytes.

Definition createWork (coinbase : bytes) (now : Z) (parent : Block) : Header :=
  let tstamp := generateNanoTimestamp parent now in
  mkHeader (block_Hash parent) emptyHash coinbase emptyHash emptyHash emptyHash (replicate 256 x00)
    (CalcDifficulty (u64 tstamp) (header parent)) (block_Number parent + 1) (CalcGasLimit parent) 0 tstamp [] emptyHash (replicate 8 x00).

(** Every turn takes a transaction from the set, or drops an account; [fuel] is the number
    of transactions plus one. *)
Fixpoint commit_loop (fuel : nat) (h : Header) (txes : TransactionsByPriceAndNonce) (s : St) (committedTxes : list txdata) :
    result unit (list txdata * St) :=
  match fuel with
  | O => NoFuel
  | S fuel =>
      match Peek txes with
      | None => Ok (committedTxes, s)
      | Some tx =>
          match commitTransaction h s tx with
          | None => match Pop txes with Some txes => commit_loop fuel h txes s committedTxes | None => Panic end
          | Some s =>
              match Shift Sender txes with
              | Some txes => commit_loop fuel h txes s (committedTxes ++ [tx])
              | None => Panic
              end
          end
      end
  end.

Definition commitTransactions (h : Header) (fuel : nat) (txes : TransactionsByPriceAndNonce) (s : St) :
    result unit (list txdata * St) :=
  commit_loop fuel h txes s [].

Definition count_txs (l : AddressTxes) : nat := list_sum (map (fun kq => length (snd kq)) l).

Definition finish_header (h : Header) (s : St) : Header :=
  mkHeader (ParentHash h) (UncleHash h) (Coinbase h) (state_root s) (TxHash h) (ReceiptHash h) (bloom_of_all s) (Difficulty h)
    (Number h) (GasLimit h) (gas_used s) (Time h) (Extra h) (MixDigest h) (Nonce h).

(** The block that is minted, if any; [pending] are the transactions of the pool. *)
Definition mintNewBlock (coinbase : bytes) (now : Z) (pending : AddressTxes) (c : speculativeChain) : result unit (option Block) :=
  match sc_head c with
  | None => Panic
  | Some parent =>
      let h := createWork coinbase now parent in
      match StateAt (Root (header parent)) with
      | None => Panic
      | Some s =>
          let addrTxes := withoutProposedTxes pending c in
          match NewTransactionsByPriceAndNonce Sender addrTxes with
          | None => Panic
          | Some transactions =>
              let? (committedTxes, s) := commitTransactions h (S (count_txs addrTxes)) transactions s in
              match committedTxes with
              | [] => Ok None
              | _ =>
                  match CoreBlock.NewBlock (finish_header h s) committedTxes [] (publicReceipts s) with
                  | Ok b => Ok (Some b)
                  | _ => Panic
                  end
              end
          end
      end
  end.

(** ** handler.go *)

(** A node: the head of its chain and the blocks in its database, its minter, the channels
    between the two, the minting goroutines that have found [minting] set and wait for
    the lock, and the blocks proposed to raft. *)
Record node := mkNode {
  current : Block;
  blocks : gset bytes;
  minting : bool;
  spec : speculativeChain;
  chainHeadChan : list Block;
  invalidRaftOrderingChan : list (Block * Block);
  waiting : nat;
  proposals : list Block }.

Definition HasBlock (n : node) (b : Block) : bool := bool_decide (block_Hash b ∈ blocks n).
Definition blockExtendsChain (b : Block) (n : node) : bool := bool_decide (ParentHash (header b) = block_Hash (current n)).

(** Insertion of a block on top of the head makes it the head; [insert_ok] tells whether it
    is valid. *)
Definition applyNewChainHead (insert_ok : Block → bool) (b : Block) (n : node) : result unit node :=
  if negb (blockExtendsChain b n) then
    Ok (mkNode (current n) (blocks n) (minting n) (spec n) (chainHeadChan n)
          (invalidRaftOrderingChan n ++ [(current n, b)]) (waiting n) (proposals n))
  else if insert_ok b then
    Ok (mkNode b (blocks n ∪ {[block_Hash b]}) (minting n) (spec n) (chainHeadChan n ++ [b])
          (invalidRaftOrderingChan n) (waiting n) (proposals n))
  else Panic.

(** A committed entry with a block. *)
Definition apply_entry (insert_ok : Block → bool) (b : Block) (n : node) : result unit node :=
  if HasBlock n b then Ok n else applyNewChainHead insert_ok b n.

(** The cases of the minter's event loop. *)
Definition on_chainHead (n : node) : result unit node :=
  match chainHeadChan n with
  | [] => Ok n
  | newHeadBlock :: rest =>
      let c := if minting n then accept newHeadBlock (spec n) else setHead newHeadBlock (spec n) in
      Ok (mkNode (current n) (blocks n) (minting n) c rest (invalidRaftOrderingChan n) (waiting n) (proposals n))
  end.

Definition on_invalidRaftOrdering (n : node) : result unit node :=
  match invalidRaftOrderingChan n with
  | [] => Ok n
  | (headBlock, invalidBlock) :: rest =>
      let c := if negb (HasBlock n invalidBlock) then spec n else unwindFrom (block_Hash invalidBlock) headBlock (spec n) in
      Ok (mkNode (current n) (blocks n) (minting n) c (chainHeadChan n) rest (waiting n) (proposals n))
  end.

Definition start (n : node) : node :=
  mkNode (current n) (blocks n) true (spec n) (chainHeadChan n) (invalidRaftOrderingChan n) (waiting n) (proposals n).

Definition stop (n : node) : node :=
  mkNode (current n) (blocks n) false (clear (current n) (spec n)) (chainHeadChan n) (invalidRaftOrderingChan n) (waiting n) (proposals n).

(** The throttled function: a goroutine tests [minting], and mints when it gets the lock. *)
Definition mint_test (n : node) : node :=
  mkNode (current n) (blocks n) (minting n) (spec n) (chainHeadChan n) (invalidRaftOrderingChan n)
    (if minting n then S (waiting n) else waiting n) (proposals n).

Definition mint (coinbase : bytes) (now : Z) (pending : AddressTxes) (n : node) : result unit node :=
  match waiting n with
  | O => Ok n
  | S w =>
      let n := mkNode (current n) (blocks n) (minting n) (spec n) (chainHeadChan n) (invalidRaftOrderingChan n) w (proposals n) in
      let? o := mintNewBlock coinbase now pending (spec n) in
      match o with
      | None => Ok n
      | Some b =>
          Ok (mkNode (current n) (blocks n) (minting n) (extend b (spec n)) (chainHeadChan n) (invalidRaftOrderingChan n) w
                (proposals n ++ [b]))
      end
  end.

Inductive event :=
| EApply (b : Block) | EChainHead | EInvalid | EStart | EStop | EMintTest
| EMint (coinbase : bytes) (now : Z) (pending : AddressTxes).

Definition handle (insert_ok : Block → bool) (e : event) (n : node) : result unit node :=
  match e with
  | EApply b => apply_entry insert_ok b n
  | EChainHead => on_chainHead n
  | EInvalid => on_invalidRaftOrdering n
  | EStart => Ok (start n)
  | EStop => Ok (stop n)
  | EMintTest => Ok (mint_test n)
  | EMint coinbase now pending => mint coinbase now pending n
  end.

Fixpoint run (insert_ok : Block → bool) (es : list event) (n : node) : result unit node :=
  match es with
  | [] => Ok n
  | e :: es => let? n := handle insert_ok e n in run insert_ok es n
  end.

(** A node when its minter is made. *)
Definition init (b : Block) (db : gset bytes) : node := mkNode b db false (clear b newSpeculativeChain) [] [] 0 [].

(** ** The transactions of a block *)

(** The transactions a block takes from the queues [m]: always the first of a queue, and
    none of the others is dearer; one that fails takes its account out. *)
Inductive picks (h : Header) : gmap bytes (list txdata) → St → list txdata → St → Prop :=
| picks_end s : picks h ∅ s [] s
| picks_take m s tx s' l s2 :
    best Sender tx m → commitTransaction h s tx = Some s' → picks h (taken Sender tx m) s' l s2 → picks h m s (tx :: l) s2
| picks_drop m s tx l s2 :
    best Sender tx m → commitTransaction h s tx = None → picks h (dropped Sender tx m) s l s2 → picks h m s l s2.

Lemma commit_loop_spec fuel h t m s acc :
  stands_for Sender t m → (total m < fuel)%nat → ∃ l s', commit_loop fuel h t s acc = Ok (acc ++ l, s') ∧ picks h m s l s'.
Proof.
  revert t m s acc. induction fuel as [|fuel IH]; intros t m s acc Ht Hf; [lia|]. cbn [commit_loop].
  destruct (Peek t) as [tx|] eqn:Ep.
  - destruct (Peek_spec Sender t m tx Ht Ep) as [(rest & Hm & _) Hmax]. assert (best Sender tx m) as Hb by (split; [by exists rest|done]).
    destruct (commitTransaction h s tx) as [s1|] eqn:Ec.
    + destruct (Shift_spec Sender t m tx Ht Ep) as (t' & -> & Ht'). pose proof (total_taken Sender m tx rest Hm).
      destruct (IH t' _ s1 (acc ++ [tx]) Ht' ltac:(lia)) as (l & s' & -> & Hl). exists (tx :: l), s'.
      split; [by rewrite <- app_assoc|by eapply picks_take].
    + destruct (Pop_spec Sender t m tx Ht Ep) as (t' & -> & Ht'). pose proof (total_dropped Sender m tx rest Hm).
      destruct (IH t' _ s acc Ht' ltac:(lia)) as (l & s' & -> & Hl). exists l, s'. split; [done|by eapply picks_drop].
  - apply (Peek_None Sender t m Ht) in Ep as ->. exists [], s. split; [by rewrite app_nil_r|constructor].
Qed.

(** Per account the block takes a beginning of the queue. *)
Lemma picks_prefix h m s l s' a :
  picks h m s l s' → (∀ b q, m !! b = Some q → Forall (fun x => Sender x = b) q) →
  filter (fun x => Sender x = a) l `prefix_of` default [] (m !! a).
Proof.
  induction 1 as [s|m s tx s1 l s2 [(rest & Hm) _] _ _ IH|m s tx l s2 [(rest & Hm) _] _ _ IH]; intros Hk; [apply prefix_nil|..].
  - assert (filter (fun x => Sender x = a) l `prefix_of` default [] (taken Sender tx m !! a)) as IH'.
    { apply IH. intros b q Hb. unfold taken in Hb. rewrite Hm in Hb. destruct rest as [|y rest].
      - apply lookup_delete_Some in Hb as [_ Hb]. by apply Hk.
      - apply lookup_insert_Some in Hb as [[<- <-]|[_ Hb]]; [|by apply Hk]. specialize (Hk _ _ Hm). by apply Forall_cons in Hk as [_ Hk]. }
    unfold taken in IH'. rewrite Hm in IH'. destruct (decide (Sender tx = a)) as [<-|Hne].
    + rewrite filter_cons_True by done. rewrite Hm. simpl. apply prefix_cons.
      destruct rest as [|y rest]; [by rewrite lookup_delete_eq in IH'|by rewrite lookup_insert_eq in IH'].
    + rewrite filter_cons_False by done. destruct rest as [|y rest]; [by rewrite lookup_delete_ne in IH'|by rewrite lookup_insert_ne in IH'].
  - assert (filter (fun x => Sender x = a) l `prefix_of` default [] (dropped Sender tx m !! a)) as IH'.
    { apply IH. intros b q Hb. unfold dropped in Hb. apply lookup_delete_Some in Hb as [_ Hb]. by apply Hk. }
    unfold dropped in IH'. destruct (decide (Sender tx = a)) as [<-|Hne]; [|by rewrite lookup_delete_ne in IH'].
    rewrite lookup_delete_eq in IH'. simpl in IH'. apply prefix_nil_inv in IH' as ->. apply prefix_nil.
Qed.

Lemma queues_without pending c : queues Sender pending → queues Sender (withoutProposedTxes pending c).
Proof.
  intros [Hnd Hq]. unfold withoutProposedTxes. induction pending as [|[a q] pending IH]; [by split; constructor|].
  cbn [fmap list_fmap fst] in Hnd. apply NoDup_cons in Hnd as [Hna Hnd]. apply Forall_cons in Hq as [[Hne Hs] Hq].
  specialize (IH Hnd Hq). cbn [omap list_omap]. destruct (filter _ q) as [|x l] eqn:E; [done|]. destruct IH as [IH1 IH2]. split.
  - cbn [fmap list_fmap fst]. apply NoDup_cons. split; [|done]. intros Hin. apply Hna.
    apply list_elem_of_fmap in Hin as ([b q'] & -> & Hin). apply list_elem_of_omap in Hin as ([b' q''] & Hin & Hx).
    apply list_elem_of_fmap. exists (b', q''). split; [|done]. destruct (filter _ q''); [done|]. by injection Hx as -> _.
  - constructor; [|done]. split; [done|]. rewrite <- E. apply Forall_forall. intros y [_ Hy]%list_elem_of_filter. by eapply Forall_forall in Hs.
Qed.

Lemma total_count l : NoDup l.*1 → total (list_to_map l) = count_txs l.
Proof.
  induction l as [|[a q] l IH]; intros Hnd; [done|]. cbn [fmap list_fmap fst] in Hnd. apply NoDup_cons in Hnd as [Hna Hnd]. simpl list_to_map.
  rewrite (total_delete (<[a := q]> (list_to_map l)) a q) by apply lookup_insert_eq.
  rewrite delete_insert_id by (by apply not_elem_of_list_to_map_1). by rewrite IH.
Qed.

(** The queues that are open to a block: those of the pool without the transactions under
    way. *)
Definition open_queues (pending : AddressTxes) (c : speculativeChain) : gmap bytes (list txdata) :=
  list_to_map (withoutProposedTxes pending c).

Lemma open_queues_lookup pending c a q :
  open_queues pending c !! a = Some q → ∃ q', (a, q') ∈ pending ∧ q = filter (fun tx => tx_Hash tx ∉ proposedTxes c) q'.
Proof.
  intros Hq. apply elem_of_list_to_map_2 in Hq. apply list_elem_of_omap in Hq as ([b q'] & Hin & Hx).
  destruct (filter _ q') as [|x l] eqn:E; [done|]. injection Hx as -> <-. by exists q'.
Qed.

Lemma picks_open h pending c s l s' :
  queues Sender pending → picks h (open_queues pending c) s l s' →
  (∀ a, filter (fun x => Sender x = a) l `prefix_of` default [] (open_queues pending c !! a)) ∧
  ∀ x, x ∈ l → tx_Hash x ∉ proposedTxes c.
Proof.
  intros Hq Hp. assert (∀ a, filter (fun x => Sender x = a) l `prefix_of` default [] (open_queues pending c !! a)) as Hpre.
  { intros a. apply (picks_prefix _ _ _ _ _ a Hp). intros b q Hb. apply elem_of_list_to_map_2 in Hb.
    destruct (queues_without pending c Hq) as [_ Hs]. rewrite Forall_forall in Hs. by apply (Hs _ Hb). }
  split; [done|]. intros x Hx. assert (x ∈ filter (fun y => Sender y = Sender x) l) as Hf by (by apply list_elem_of_filter).
  destruct (Hpre (Sender x)) as [k Hk]. destruct (open_queues pending c !! Sender x) as [q|] eqn:E; simpl in Hk.
  - apply open_queues_lookup in E as (q' & _ & ->).
    assert (x ∈ filter (fun tx => tx_Hash tx ∉ proposedTxes c) q') as Hin by (rewrite Hk; apply elem_of_app; by left).
    by apply list_elem_of_filter in Hin as [? _].
  - symmetry in Hk. apply app_nil in Hk as [Hk _]. rewrite Hk in Hf. by apply elem_of_nil in Hf.
Qed.

Lemma picks_pending h pending c s l s' x :
  queues Sender pending → picks h (open_queues pending c) s l s' → x ∈ l → ∃ a q, (a, q) ∈ pending ∧ x ∈ q.
Proof.
  intros Hq Hp Hx. destruct (picks_open h pending c s l s' Hq Hp) as [Hpre _].
  assert (x ∈ filter (fun y => Sender y = Sender x) l) as Hf by (by apply list_elem_of_filter).
  destruct (Hpre (Sender x)) as [k Hk]. destruct (open_queues pending c !! Sender x) as [q|] eqn:E; simpl in Hk.
  - apply open_queues_lookup in E as (q' & Hin & ->). exists (Sender x), q'. split; [done|].
    assert (x ∈ filter (fun tx => tx_Hash tx ∉ proposedTxes c) q') as Hin' by (rewrite Hk; apply elem_of_app; by left).
    by apply list_elem_of_filter in Hin' as [_ ?].
  - symmetry in Hk. apply app_nil in Hk as [Hk _]. rewrite Hk in Hf. by apply elem_of_nil in Hf.
Qed.

Lemma picks_count h m s l s' : picks h m s l s' → (length l ≤ total m)%nat.
Proof.
  induction 1 as [s|m s tx s1 l s2 [(rest & Hm) _] _ _ IH|m s tx l s2 [(rest & Hm) _] _ _ IH]; [simpl; lia|..].
  - pose proof (total_taken Sender m tx rest Hm). simpl. lia.
  - pose proof (total_dropped Sender m tx rest Hm). lia.
Qed.

Lemma open_count pending c : queues Sender pending → (total (open_queues pending c) ≤ count_txs pending)%nat.
Proof.
  intros Hq. destruct (queues_without pending c Hq) as [Hnd _]. unfold open_queues. rewrite total_count by done. clear.
  unfold withoutProposedTxes, count_txs, list_sum. induction pending as [|[a q] pending IH]; [done|]. cbn [omap list_omap map foldr snd].
  assert (length (filter (fun tx => tx_Hash tx ∉ proposedTxes c) q) ≤ length q)%nat as Hf by apply length_filter.
  destruct (filter _ q) as [|x l] eqn:E; simpl in *; lia.
Qed.

Lemma mintNewBlock_spec coinbase now pending c parent s :
  queues Sender pending → sc_head c = Some parent → StateAt (Root (header parent)) = Some s →
  let h := createWork coinbase now parent in
  ∃ l s', picks h (open_queues pending c) s l s' ∧
    mintNewBlock coinbase now pending c =
      match l with
      | [] => Ok None
      | _ =>
          match CoreBlock.NewBlock (finish_header h s') l [] (publicReceipts s') with
          | Ok b => Ok (Some b)
          | _ => Panic
          end
      end.
Proof.
  intros Hq Hh Hs h. unfold mintNewBlock. rewrite Hh, Hs. pose proof (queues_without pending c Hq) as Hq'.
  destruct (New_spec Sender _ Hq') as (t & -> & Ht).
  destruct (commit_loop_spec (S (count_txs (withoutProposedTxes pending c))) h t _ s [] Ht) as (l & s' & E & Hp).
  { destruct Hq' as [Hnd _]. rewrite (total_count _ Hnd). lia. }
  exists l, s'. split; [exact Hp|]. unfold commitTransactions. fold h. rewrite E. reflexivity.
Qed.

End minter.
End Raft.
