(* ===== verification/RaftThms.v ===== *)
(** Theorems on the minter of src/raft: what its set of proposed transactions holds, how it
    unwinds an invalid block, and how the application of the raft log and the minter
    work together. *)

From S2P Require Import Prelude RlpEncode RlpRaw RlpDecode RlpRoundtrip RlpTotal KeccakF Sha3 CoreTypes Prque TxPrice.
From S2P Require Import TrieEncoding TrieNode Trie TrieThms TrieHash TrieMap CoreBlock Raft.

Module RaftThms.
Import Types TxPrice Raft.

(** ** The speculative chain *)

(** The transactions of some blocks, by hash. *)
Definition txs_of (q : list Block) : gset bytes := ⋃ (map (fun b => list_to_set (tx_hashes b)) q).

(** No two of the blocks share a transaction. *)
Fixpoint apart (q : list Block) : Prop :=
  match q with [] => True | b :: q => (list_to_set (tx_hashes b) : gset bytes) ## txs_of q ∧ apart q end.

(** The set of proposed transactions is that of the blocks under way, and these share none. *)
Definition spec_ok (c : speculativeChain) : Prop :=
  proposedTxes c = txs_of (unappliedBlocks c) ∧ apart (unappliedBlocks c).

Lemma txs_of_cons b q : txs_of (b :: q) = list_to_set (tx_hashes b) ∪ txs_of q.
Proof. done. Qed.

Lemma txs_of_app q1 q2 : txs_of (q1 ++ q2) = txs_of q1 ∪ txs_of q2.
Proof. unfold txs_of. by rewrite map_app, union_list_app_L. Qed.

Lemma txs_of_one b : txs_of [b] = list_to_set (tx_hashes b).
Proof. rewrite txs_of_cons. unfold txs_of. simpl. set_solver. Qed.

Lemma apart_app q1 q2 : apart (q1 ++ q2) ↔ apart q1 ∧ apart q2 ∧ txs_of q1 ## txs_of q2.
Proof.
  induction q1 as [|b q1 IH]; simpl.
  - split; [intros H; split_and!; [done|done|]|by intros (_ & H & _)]. unfold txs_of at 1. simpl. set_solver.
  - rewrite IH, txs_of_app, txs_of_cons. split; [intros (H1 & H2 & H3 & H4)|intros ((H1 & H2) & H3 & H4)]; split_and!; set_solver.
Qed.

Lemma extend_ok b c :
  spec_ok c → (list_to_set (tx_hashes b) : gset bytes) ## proposedTxes c → spec_ok (extend b c).
Proof.
  intros [Hp Ha] Hd. split; cbn [extend recordProposedTransactions proposedTxes unappliedBlocks].
  - by rewrite txs_of_app, txs_of_one, Hp.
  - apply apart_app. rewrite txs_of_one. split_and!; [done|..|set_solver]. simpl. split; [unfold txs_of; simpl; set_solver|done].
Qed.

(** Blocks with the same hash have the same transactions. *)
Definition binding (l : list Block) : Prop :=
  ∀ b1 b2, b1 ∈ l → b2 ∈ l → block_Hash b1 = block_Hash b2 → tx_hashes b1 = tx_hashes b2.

Lemma binding_two x y : block_Hash x ≠ block_Hash y → binding [x; y].
Proof. intros Hne b1 b2 H1 H2 E. set_unfold. naive_solver. Qed.

Lemma accept_ok b c : spec_ok c → binding (b :: unappliedBlocks c) → spec_ok (accept b c).
Proof.
  intros [Hp Ha] Hb. unfold accept. destruct (unappliedBlocks c) as [|e q] eqn:E; cbn [head drop].
  - split; [|done]. cbn. rewrite Hp. unfold txs_of. simpl. set_solver.
  - destruct Ha as [Hd Ha]. case_bool_decide as He; [|by split]. rewrite txs_of_cons in Hp.
    rewrite (Hb e b) in Hd, Hp by (done || set_solver). split; [|by rewrite drop_0].
    cbn. rewrite drop_0. set_solver.
Qed.

(** ** Unwinding *)

Lemma unwind_loop_spec r h hb c :
  proposedTxes c = txs_of (rev r) → apart (rev r) → unappliedBlocks c = rev r →
  let c' := unwind_loop r h hb c in
  spec_ok c' ∧
  ∃ kept gone, unappliedBlocks c = kept ++ gone ∧ unappliedBlocks c' = kept ∧
    expectedInvalidBlockHashes c' = expectedInvalidBlockHashes c ∪ list_to_set (filter (fun x => x ≠ h) (map block_Hash gone)) ∧
    (∀ b, b ∈ drop 1 gone → block_Hash b ≠ h) ∧
    (kept = [] ∨ (block_Hash <$> head gone) = Some h) ∧
    sc_head c' = match gone with [] => sc_head c | _ => Some (default hb (last kept)) end.
Proof.
  revert c. induction r as [|b r IH]; intros c Hp Ha Hu; cbn [unwind_loop].
  - simpl in *. split; [by split; rewrite Hu|]. exists [], []. rewrite Hu. split_and!; [done|done|set_solver|set_solver|by left|done].
  - simpl rev in *. apply apart_app in Ha as (Ha & _ & Hd). rewrite txs_of_one in Hd. rewrite txs_of_app, txs_of_one in Hp.
    assert (proposedTxes c ∖ list_to_set (tx_hashes b) = txs_of (rev r)) as Hp' by set_solver.
    assert (Some (match r with [] => hb | l :: _ => l end) = Some (default hb (last (rev r)))) as Hl.
    { destruct r as [|l r]; [done|]. simpl. by rewrite last_snoc. }
    case_bool_decide as He.
    + cbn. split; [by split|]. exists (rev r), [b]. split_and!; [done|done| |set_solver|right; simpl; by rewrite He|done].
      cbn [map]. rewrite filter_cons_False by (intros Hn; by apply Hn). rewrite filter_nil. set_solver.
    + cbn [removeProposedTxes sc_head unappliedBlocks expectedInvalidBlockHashes proposedTxes].
      edestruct IH as (Hok & kept & gone & E1 & E2 & E3 & E4 & E5 & E6); [..|split; [exact Hok|]]; [done|done|done|].
      cbn [sc_head unappliedBlocks expectedInvalidBlockHashes] in E1, E3, E6. exists kept, (gone ++ [b]). rewrite Hu. split_and!; [by rewrite E1, <- app_assoc|done|..].
      * rewrite E3, map_app, filter_app, list_to_set_app_L. cbn [map]. rewrite filter_cons_True by done. rewrite filter_nil. set_solver.
      * intros x Hx. destruct gone as [|g gone]; simpl in *; [by apply elem_of_nil in Hx|].
        rewrite drop_0 in *. apply elem_of_app in Hx as [Hx|Hx]; [by apply E4|by apply list_elem_of_singleton in Hx as ->].
      * destruct gone as [|g gone]; [|done]. destruct E5 as [->|E5]; [by left|done].
      * rewrite E6. destruct gone as [|g gone]; simpl; [|done]. rewrite app_nil_r in E1. by rewrite <- E1.
Qed.

Lemma unwindFrom_ok h hb c : spec_ok c → spec_ok (unwindFrom h hb c).
Proof.
  intros [Hp Ha]. unfold unwindFrom. case_bool_decide; [done|].
  apply (unwind_loop_spec (rev (unappliedBlocks c)) h hb c); by rewrite rev_involutive.
Qed.

(** The cut of [unwind_loop] is at the last block with the hash. *)
Lemma cut_at (q1 q2 kept gone : list Block) b h :
  q1 ++ b :: q2 = kept ++ gone → block_Hash b = h → h ∉ map block_Hash q2 →
  (∀ x, x ∈ drop 1 gone → block_Hash x ≠ h) → (kept = [] ∨ (block_Hash <$> head gone) = Some h) →
  kept = q1 ∧ gone = b :: q2.
Proof.
  intros E Hb Hq Hd Hk. apply app_eq_inv in E as [(k & -> & E)|(k & -> & E)].
  - destruct k as [|x k]; [by rewrite app_nil_r; split|]. simpl in E. subst gone. simpl in Hd. rewrite drop_0 in Hd.
    exfalso. apply (Hd b); [|done]. set_solver.
  - destruct k as [|x k]; [by rewrite app_nil_r; split|]. simpl in E. injection E as <- ->. exfalso.
    destruct Hk as [Hk|Hk]; [by destruct q1|]. destruct gone as [|y gone]; [done|]. injection Hk as Hk. apply Hq.
    rewrite map_app. apply elem_of_app. right. rewrite <- Hk. left.
Qed.

Lemma unwind_expected hb q c :
  list_to_set (map block_Hash q) ⊆ expectedInvalidBlockHashes c → NoDup (map block_Hash q) →
  foldl (fun c x => unwindFrom (block_Hash x) hb c) c q =
    mkSpec (sc_head c) (unappliedBlocks c) (expectedInvalidBlockHashes c ∖ list_to_set (map block_Hash q)) (proposedTxes c).
Proof.
  revert c. induction q as [|x q IH]; intros c Hin Hnd.
  - destruct c. simpl. f_equal. set_solver.
  - simpl in Hnd, Hin. apply NoDup_cons in Hnd as [Hx Hnd]. cbn [foldl map]. unfold unwindFrom at 2. rewrite bool_decide_true by set_solver.
    rewrite IH; [|set_solver|done]. cbn [sc_head unappliedBlocks expectedInvalidBlockHashes proposedTxes list_to_set foldr]. f_equal. set_solver.
Qed.

(** Unwinding takes the invalid block and the blocks after it out of the queue, and
    their transactions with them; the blocks after it are noted as expected to be
    invalid, so that their own events only drop the notes.  The parent of the next block
    is the last block left, or the head of the chain. *)
Theorem unwindFrom_cuts q1 b q2 hb c :
  spec_ok c → unappliedBlocks c = q1 ++ b :: q2 → NoDup (map block_Hash (b :: q2)) →
  block_Hash b ∉ expectedInvalidBlockHashes c →
  let c' := unwindFrom (block_Hash b) hb c in
  unappliedBlocks c' = q1 ∧ sc_head c' = Some (default hb (last q1)) ∧ proposedTxes c' = txs_of q1 ∧
  expectedInvalidBlockHashes c' = expectedInvalidBlockHashes c ∪ list_to_set (map block_Hash q2) ∧
  foldl (fun c x => unwindFrom (block_Hash x) hb c) c' q2 =
    mkSpec (sc_head c') q1 (expectedInvalidBlockHashes c ∖ list_to_set (map block_Hash q2)) (txs_of q1).
Proof.
  intros [Hp Ha] Hu Hnd Hg c'. simpl in Hnd. apply NoDup_cons in Hnd as [Hb Hnd].
  assert (c' = unwind_loop (rev (unappliedBlocks c)) (block_Hash b) hb c) as Ec by (unfold c', unwindFrom; by rewrite bool_decide_false).
  destruct (unwind_loop_spec (rev (unappliedBlocks c)) (block_Hash b) hb c) as ([Hp' _] & kept & gone & E1 & E2 & E3 & E4 & E5 & E6);
    [by rewrite rev_involutive..|]. rewrite <- Ec in *. rewrite Hu in E1.
  destruct (cut_at q1 q2 kept gone b (block_Hash b) E1) as [-> ->]; [done..|]. rewrite E2 in Hp'.
  assert (expectedInvalidBlockHashes c' = expectedInvalidBlockHashes c ∪ list_to_set (map block_Hash q2)) as E3'.
  { rewrite E3. cbn [map]. rewrite filter_cons_False by (intros Hn; by apply Hn). f_equal. f_equal. clear -Hb.
    induction q2 as [|x q2 IH]; [done|]. cbn [map]. simpl in Hb. rewrite filter_cons_True, IH; set_solver. }
  split_and!; [done|done|done|done|]. rewrite unwind_expected; [|rewrite E3'; set_solver|done]. rewrite E2, E3', Hp'. f_equal. set_solver.
Qed.

(** ** Runs of a node *)

Section runs.

Context {St : Type}.
Variable Sender : txdata → bytes.
Variable CalcDifficulty : Z → Header → Z.
Variable CalcGasLimit : Block → Z.
Variable StateAt : bytes → option St.
Variable commitTransaction : Header → St → txdata → option St.
Variable state_root : St → bytes.
Variable gas_used : St → Z.
Variable publicReceipts : St → list CoreBlock.Receipt.
Variable bloom_of_all : St → bytes.

Abbreviation mintNewBlock := (Raft.mintNewBlock Sender CalcDifficulty CalcGasLimit StateAt commitTransaction state_root gas_used publicReceipts bloom_of_all).

(** The pool hands out queues of transactions per sender. *)
Definition event_ok (e : event) : Prop := match e with EMint _ _ pending => queues Sender pending | _ => True end.

Definition applied (es : list event) : list Block := omap (fun e => match e with EApply b => Some b | _ => None end) es.

(** A new block, if there is one, is on the head of the speculative chain and takes none of
    the transactions under way. *)
Lemma mintNewBlock_inv coinbase now pending c b :
  queues Sender pending → mintNewBlock coinbase now pending c = Ok (Some b) →
  (∃ parent, sc_head c = Some parent ∧ ParentHash (header b) = block_Hash parent) ∧
  (list_to_set (tx_hashes b) : gset bytes) ## proposedTxes c.
Proof.
  intros Hq E. destruct (sc_head c) as [parent|] eqn:Hh; [|unfold Raft.mintNewBlock in E; by rewrite Hh in E].
  destruct (StateAt (Root (header parent))) as [s|] eqn:Hs; [|unfold Raft.mintNewBlock in E; by rewrite Hh, Hs in E].
  destruct (mintNewBlock_spec Sender CalcDifficulty CalcGasLimit StateAt commitTransaction state_root gas_used publicReceipts bloom_of_all
              coinbase now pending c parent s Hq Hh Hs) as (l & s' & Hp & E'). rewrite E in E'.
  destruct l as [|tx l]; [done|]. destruct (CoreBlock.NewBlock _ _ _ _) as [b'| | |] eqn:En; try done. injection E' as ->.
  split; [exists parent; split; [done|by apply CoreBlock.NewBlock_parent in En]|].
  destruct (picks_open _ _ _ pending c s _ s' Hq Hp) as [_ Hx]. apply CoreBlock.NewBlock_inv in En as (_ & Et & _).
  unfold tx_hashes. rewrite Et. intros y Hy1 Hy2. apply elem_of_list_to_set, list_elem_of_fmap in Hy1 as (x & -> & Hin). by eapply Hx.
Qed.

(** A minter on a block whose state is there ends with the transactions of the new block
    taken in the order of price and nonce: each is the first of its account's queue that
    is not under way yet and none of the other accounts' is dearer; per account they are
    a beginning of that queue.  The block, if any transaction succeeds, has exactly them,
    none of them is in a block under way, and it extends the minter's parent block. *)
Theorem minter_takes_in_order coinbase now pending c parent s :
  queues Sender pending → (∀ a q x, (a, q) ∈ pending → x ∈ q → CoreBlock.item_small (CoreBlock.tx_GetRlp x)) →
  Z.of_nat (count_txs pending) < 2 ^ 64 → (∀ s, CoreBlock.receipts_small (publicReceipts s)) →
  sc_head c = Some parent → StateAt (Root (header parent)) = Some s →
  ∃ l s', picks Sender commitTransaction (createWork CalcDifficulty CalcGasLimit coinbase now parent) (open_queues pending c) s l s' ∧
    (∀ a, filter (fun x => Sender x = a) l `prefix_of` default [] (open_queues pending c !! a)) ∧
    (∀ x, x ∈ l → tx_Hash x ∉ proposedTxes c) ∧
    match mintNewBlock coinbase now pending c with
    | Ok None => l = []
    | Ok (Some b) => transactions b = l ∧ ParentHash (header b) = block_Hash parent
    | _ => False
    end.
Proof.
  intros Hq Hsm Hn Hr Hh Hs. destruct (mintNewBlock_spec Sender CalcDifficulty CalcGasLimit StateAt commitTransaction state_root gas_used publicReceipts bloom_of_all
    coinbase now pending c parent s Hq Hh Hs) as (l & s' & Hp & ->).
  destruct (picks_open _ _ _ pending c s l s' Hq Hp) as [Hpre Hx]. exists l, s'. split_and!; [done|done|done|].
  destruct l as [|tx l]; [done|]. pose proof (picks_count Sender CalcDifficulty StateAt commitTransaction state_root gas_used publicReceipts bloom_of_all _ _ _ _ _ Hp) as Hc.
  destruct (CoreBlock.NewBlock_total 
    (finish_header state_root gas_used bloom_of_all (createWork CalcDifficulty CalcGasLimit coinbase now parent) s') (tx :: l) [] (publicReceipts s')) as (b & E).
  - apply Forall_forall. intros x Hin. destruct (picks_pending _ _ _ pending c s _ s' x Hq Hp Hin) as (a & q & Hq1 & Hq2). by eapply Hsm.
  - pose proof (open_count Sender pending c Hq). lia.
  - apply Hr.
  - rewrite E. split; [by apply CoreBlock.NewBlock_inv in E as (_ & -> & _)|by apply CoreBlock.NewBlock_parent in E].
Qed.

Variable insert_ok : Block → bool.

Abbreviation handle := (Raft.handle Sender CalcDifficulty CalcGasLimit StateAt commitTransaction state_root gas_used publicReceipts bloom_of_all insert_ok).
Abbreviation run := (Raft.run Sender CalcDifficulty CalcGasLimit StateAt commitTransaction state_root gas_used publicReceipts bloom_of_all insert_ok).

Definition node_ok (n : node) : Prop :=
  spec_ok (spec n) ∧ ∀ b, b ∈ unappliedBlocks (spec n) → b ∈ proposals n.

Lemma unwindFrom_sub h hb c b : spec_ok c → b ∈ unappliedBlocks (unwindFrom h hb c) → b ∈ unappliedBlocks c.
Proof.
  intros [Hp Ha]. unfold unwindFrom. case_bool_decide; [done|].
  destruct (unwind_loop_spec (rev (unappliedBlocks c)) h hb c) as (_ & kept & gone & E1 & -> & _); [by rewrite rev_involutive..|].
  rewrite E1. set_solver.
Qed.

(** Blocks waiting in the channel of new heads were applied. *)
Lemma handle_ok e n n' :
  handle e n = Ok n' → event_ok e → node_ok n → binding (chainHeadChan n ++ proposals n) →
  node_ok n' ∧ (∀ b, b ∈ chainHeadChan n' → b ∈ chainHeadChan n ∨ e = EApply b) ∧ ∀ b, b ∈ proposals n → b ∈ proposals n'.
Proof.
  intros E He [Hs Hu] Hb. destruct e; cbn [Raft.handle] in E.
  - unfold apply_entry, applyNewChainHead in E. destruct (HasBlock n b); [injection E as <-; by split_and!; [|by left|]|].
    destruct (blockExtendsChain b n); cbn [negb] in E; [destruct (insert_ok b); [|done]|]; injection E as <-; [|by split_and!; [|by left|]].
    split_and!; [done| |done]. cbn. intros x Hx. apply elem_of_app in Hx as [Hx|Hx]; [by left|]. apply list_elem_of_singleton in Hx as ->. by right.
  - unfold on_chainHead in E. destruct (chainHeadChan n) as [|hb rest] eqn:Ec; injection E as <-; [rewrite Ec; by split_and!; [|by left|]|].
    split_and!; [|cbn; set_solver|done]. cbn. destruct (minting n); [|by split].
    split; [apply accept_ok; [done|]|].
    + intros b1 b2 H1 H2. apply Hb; set_solver.
    + intros b. cbn. unfold accept. destruct (unappliedBlocks (spec n)) as [|x q] eqn:Eu; cbn [head drop]; [cbn; set_solver|].
      case_bool_decide; cbn; [|set_solver]. rewrite drop_0. intros Hin. apply Hu. set_solver.
  - unfold on_invalidRaftOrdering in E. destruct (invalidRaftOrderingChan n) as [|[hb ib] rest]; injection E as <-; [by split_and!; [|by left|]|].
    split_and!; cbn; [|by left|done]. destruct (HasBlock n ib); cbn [negb]; [|by split].
    split; [by apply unwindFrom_ok|]. cbn. intros b Hin. by eapply Hu, unwindFrom_sub.
  - injection E as <-. by split_and!; [|by left|].
  - injection E as <-. split_and!; cbn; [|by left|done]. split; [by split|]. cbn. set_solver.
  - injection E as <-. by split_and!; [|by left|].
  - unfold mint in E. destruct (waiting n) as [|w]; [injection E as <-; by split_and!; [|by left|]|]. cbn [spec] in E.
    destruct (mintNewBlock coinbase now pending (spec n)) as [[b|]| | |] eqn:Em; cbn [rbind] in E; try done; injection E as <-.
    + destruct (mintNewBlock_inv _ _ _ _ _ He Em) as [_ Hd]. split_and!; cbn; [|by left|set_solver].
      split; [by apply extend_ok|]. cbn. set_solver.
    + by split_and!; [|by left|].
Qed.

Lemma handle_proposals e n n' b : handle e n = Ok n' → b ∈ proposals n → b ∈ proposals n'.
Proof.
  intros E Hb. destruct e; cbn [Raft.handle] in E.
  - unfold apply_entry, applyNewChainHead in E. repeat case_match; by simplify_eq.
  - unfold on_chainHead in E. destruct (chainHeadChan n); by simplify_eq/=.
  - unfold on_invalidRaftOrdering in E. destruct (invalidRaftOrderingChan n) as [|[] ?]; by simplify_eq/=.
  - by simplify_eq.
  - by simplify_eq.
  - by simplify_eq.
  - unfold mint in E. destruct (waiting n); [by simplify_eq|]. cbn [spec] in E.
    destruct (mintNewBlock _ _ _ _) as [[x|]| | |]; simplify_eq/=; set_solver.
Qed.

Lemma run_proposals es n n' b : run es n = Ok n' → b ∈ proposals n → b ∈ proposals n'.
Proof.
  revert n. induction es as [|e es IH]; intros n E Hb; [by simplify_eq/=|]. cbn [Raft.run] in E.
  destruct (handle e n) as [n1| | |] eqn:Eh; simplify_eq/=. by eapply IH, handle_proposals.
Qed.

Lemma run_app es1 es2 n : run (es1 ++ es2) n = let? n := run es1 n in run es2 n.
Proof. revert n. induction es1 as [|e es1 IH]; intros n; [done|]. cbn [Raft.run app]. destruct (handle e n); [apply IH|done..]. Qed.

Lemma run_ok es n n' :
  run es n = Ok n' → Forall event_ok es → node_ok n → binding (applied es ++ chainHeadChan n ++ proposals n') → node_ok n'.
Proof.
  revert n. induction es as [|e es IH]; intros n E He Hn Hb; [by simplify_eq/=|].
  pose proof (fun b => run_proposals _ _ _ b E) as Hpr. cbn [Raft.run] in E.
  destruct (handle e n) as [n1| | |] eqn:Eh; simplify_eq/=. apply Forall_cons in He as [He Hes].
  destruct (handle_ok e n n1 Eh He Hn) as (Hn1 & Hch & _).
  { intros b1 b2 H1 H2. apply Hb; set_solver. }
  assert (∀ b, b ∈ applied es ++ chainHeadChan n1 ++ proposals n' → b ∈ applied (e :: es) ++ chainHeadChan n ++ proposals n') as Hsub.
  { intros b. rewrite !elem_of_app. intros [Hin|[Hin|Hin]]; [|destruct (Hch b Hin) as [?| ->]|]; [left| |left|]; [|by auto..| |by auto].
    - unfold applied. cbn [omap list_omap]. case_match; [by right|done].
    - left. }
  apply (IH n1); [done..|]. intros b1 b2 H1 H2. by apply Hb; apply Hsub.
Qed.

(** C29: At all times the set of proposed transactions of a minter is exactly that of the
    blocks it waits for, and no two of these share a transaction; so a new block takes
    no transaction that is under way.  The blocks it knows by hash are taken to have the
    transactions that belong to the hash. *)
Theorem proposed_once es g db n coinbase now pending :
  run es (init g db) = Ok n → Forall event_ok es → binding (applied es ++ proposals n) → queues Sender pending →
  spec_ok (spec n) ∧
  ∀ b, mintNewBlock coinbase now pending (spec n) = Ok (Some b) →
    (list_to_set (tx_hashes b) : gset bytes) ## txs_of (unappliedBlocks (spec n)).
Proof.
  intros E He Hb Hq. assert (node_ok n) as [Hs _].
  { apply (run_ok es (init g db) n E He); [|done]. split; [by split|]. cbn. set_solver. }
  split; [done|]. intros b Em. destruct Hs as [<- _]. by eapply mintNewBlock_inv.
Qed.

(** ** Unwinding and the block database *)

(** The blocks whose invalid ordering is still to be handled are not in the database, and
    are not applied again. *)
Definition unknown (n : node) (es : list event) : Prop :=
  ∀ h b, (h, b) ∈ invalidRaftOrderingChan n → block_Hash b ∉ blocks n ∧ block_Hash b ∉ map block_Hash (applied es).

Lemma handle_unknown e es n n' :
  handle e n = Ok n' → NoDup (map block_Hash (applied (e :: es))) → unknown n (e :: es) → unknown n' es.
Proof.
  intros E Hnd Hn. unfold applied in Hnd, Hn. destruct e; cbn [omap list_omap] in Hnd, Hn; cbn [Raft.handle] in E.
  - simpl in Hnd. apply NoDup_cons in Hnd as [Hb Hnd]. unfold apply_entry, applyNewChainHead, HasBlock in E.
    case_bool_decide as Hin; [simplify_eq; intros h x Hx; split; [by apply (Hn h)|by apply Hn in Hx as [_ ?]; set_solver]|].
    destruct (blockExtendsChain b n); cbn [negb] in E; [destruct (insert_ok b); [|done]|]; simplify_eq; intros h x Hx; cbn in Hx |- *.
    + apply Hn in Hx as [Hx1 Hx2]. simpl in Hx2. set_solver.
    + apply elem_of_app in Hx as [Hx|Hx]; [apply Hn in Hx as [Hx1 Hx2]; simpl in Hx2; set_solver|].
      apply list_elem_of_singleton in Hx. by simplify_eq.
  - unfold on_chainHead in E. by destruct (chainHeadChan n); simplify_eq/=.
  - unfold on_invalidRaftOrdering in E. unfold unknown in *. destruct (invalidRaftOrderingChan n) as [|[] rest] eqn:Ec; simplify_eq/=.
    + by rewrite Ec.
    + intros h x Hx. apply (Hn h). by right.
  - by simplify_eq.
  - by simplify_eq.
  - by simplify_eq.
  - unfold mint in E. destruct (waiting n); [by simplify_eq|]. cbn [spec] in E. by destruct (mintNewBlock _ _ _ _) as [[x|]| | |]; simplify_eq/=.
Qed.

Lemma run_unknown es n n' : run es n = Ok n' → NoDup (map block_Hash (applied es)) → unknown n es → unknown n' [].
Proof.
  revert n. induction es as [|e es IH]; intros n E Hnd Hn; [by simplify_eq/=|]. cbn [Raft.run] in E.
  destruct (handle e n) as [n1| | |] eqn:Eh; simplify_eq/=. apply (IH n1 E); [|by eapply handle_unknown].
  unfold applied in *. cbn [omap list_omap] in Hnd. case_match; [|done]. simpl in Hnd. by apply NoDup_cons in Hnd as [_ ?].
Qed.

(** C35: Along every run in which raft delivers no block twice, the handling of an invalid
    ordering changes nothing but its own channel: the node reports an ordering as invalid
    only for a block it does not have, and the minter unwinds only for a block it has. *)
Theorem invalid_orderings_ignored es g db n :
  run es (init g db) = Ok n → NoDup (map block_Hash (applied es)) →
  handle EInvalid n =
    Ok (mkNode (current n) (blocks n) (minting n) (spec n) (chainHeadChan n) (drop 1 (invalidRaftOrderingChan n)) (waiting n) (proposals n)).
Proof.
  intros E Hnd. apply run_unknown in E; [|done|intros h b Hb; by apply elem_of_nil in Hb]. cbn [Raft.handle]. unfold on_invalidRaftOrdering, unknown in *.
  destruct n as [cur bl mi sp ch inv w pr]; cbn in *. destruct inv as [|[h b] rest]; [done|]. unfold HasBlock. cbn. rewrite ?drop_0.
  by rewrite bool_decide_false by (apply (E h); left).
Qed.

(** A minter whose parent block is not the head of the chain, and none of whose proposals
    extends the chain. *)
Definition stale (n : node) : Prop :=
  (∃ p, sc_head (spec n) = Some p ∧ block_Hash p ≠ block_Hash (current n)) ∧ chainHeadChan n = [] ∧
  (∀ b, b ∈ proposals n → block_Hash b ∉ blocks n ∧ ParentHash (header b) ≠ block_Hash (current n)) ∧
  ∀ h b, (h, b) ∈ invalidRaftOrderingChan n → block_Hash b ∉ blocks n.

(** What the node does as long as it stays the minter and raft delivers its own blocks; the
    blocks it mints are new. *)
Inductive alone : node → node → Prop :=
| alone_refl n : alone n n
| alone_step e n n1 n2 :
    match e with EApply b => b ∈ proposals n | EStart | EStop => False | _ => True end → event_ok e →
    handle e n = Ok n1 → (∀ b, b ∈ proposals n1 → block_Hash b ∉ blocks n ∧ block_Hash b ≠ block_Hash (current n)) →
    alone n1 n2 → alone n n2.

Lemma handle_stale e n n' :
  match e with EApply b => b ∈ proposals n | EStart | EStop => False | _ => True end → event_ok e →
  handle e n = Ok n' → (∀ b, b ∈ proposals n' → block_Hash b ∉ blocks n ∧ block_Hash b ≠ block_Hash (current n)) →
  stale n → stale n' ∧ current n' = current n.
Proof.
  intros He Hok E Hnew ((p & Hp & Hpc) & Hch & Hpr & Hi). destruct e; cbn [Raft.handle] in E; try done.
  - destruct (Hpr b He) as [Hb1 Hb2]. unfold apply_entry, HasBlock, applyNewChainHead, blockExtendsChain in E.
    rewrite (bool_decide_false (_ ∈ _)), (bool_decide_false (ParentHash _ = _)) in E by done. cbn [negb] in E. simplify_eq. split; [|done].
    split_and!; cbn; [by exists p|done|done|]. intros h x Hx. apply elem_of_app in Hx as [Hx|Hx]; [by apply (Hi h)|].
    apply list_elem_of_singleton in Hx. by simplify_eq.
  - unfold on_chainHead in E. rewrite Hch in E. simplify_eq. split; [|done]. split_and!; [by exists p|done..].
  - unfold on_invalidRaftOrdering, HasBlock in E. destruct (invalidRaftOrderingChan n) as [|[h x] rest] eqn:Ei; simplify_eq; (split; [|done]).
    + split_and!; [by exists p|done|done|by rewrite Ei].
    + rewrite bool_decide_false by (apply (Hi h); left). split_and!; cbn; [by exists p|done|done|]. intros h' x' Hx. apply (Hi h'). by right.
  - simplify_eq. split; [|done]. split_and!; [by exists p|done..].
  - unfold mint in E. destruct (waiting n); [by simplify_eq; split; [split_and!; [by exists p|done..]|]|]. cbn [spec] in E.
    destruct (mintNewBlock coinbase now pending (spec n)) as [[b|]| | |] eqn:Em; simplify_eq/=; (split; [|done]); [|by split_and!; [exists p|..]].
    destruct (mintNewBlock_inv _ _ _ _ _ Hok Em) as [(p' & Hp' & Hb) _]. assert (p' = p) as -> by congruence.
    split_and!; cbn; [exists b; split; [done|apply Hnew; set_solver]|done| |done].
    intros x Hx. apply elem_of_app in Hx as [Hx|Hx]; [by apply Hpr|]. apply list_elem_of_singleton in Hx as ->.
    split; [apply Hnew; set_solver|by rewrite Hb].
Qed.

(** A node that becomes the minter while a block of the minter before it is still to be
    applied never extends the chain again: [accept] leaves the parent of its blocks
    behind the new head, its blocks are refused, and their invalid orderings are
    ignored.  Only a change of role ends this. *)
Theorem late_block_stops_minter g db x n1 n2 :
  ParentHash (header x) = block_Hash g → block_Hash x ∉ db → block_Hash g ≠ block_Hash x → insert_ok x = true →
  run [EStart; EApply x; EChainHead] (init g db) = Ok n1 → alone n1 n2 → minting n1 = true ∧ current n2 = x.
Proof.
  intros Hx Hdb Hne Hi E Ha. cbn [Raft.run Raft.handle rbind] in E. unfold apply_entry, HasBlock, applyNewChainHead, blockExtendsChain in E.
  cbn [start init blocks current] in E. rewrite bool_decide_false, bool_decide_true, Hi in E by done. cbn in E. injection E as <-.
  split; [done|]. assert (∀ n n', alone n n' → stale n → current n' = current n) as Hal.
  { clear. induction 1 as [|e n n1 n2 He Hok Eh Hnew _ IH]; intros Hs; [done|]. destruct (handle_stale e n n1 He Hok Eh Hnew Hs) as [Hs1 <-]. by apply IH. }
  apply (Hal _ _ Ha). split_and!; cbn; [by exists g|done|..]; set_solver.
Qed.

End runs.

(** ** Examples *)

(** Execution that only collects the transactions, and refuses those without gas. *)
Module Ex.
Definition Sender (t : txdata) : bytes := default emptyAddr (Recipient t).
Definition exec (h : Header) (s : list txdata) (t : txdata) : option (list txdata) :=
  if tx_GasLimit t =? 0 then None else Some (s ++ [t]).

Abbreviation mintNewBlock :=
  (Raft.mintNewBlock Sender (fun _ _ => 1) (fun _ => 1000) (fun _ => Some []) exec (fun _ => emptyHash) (fun s => zlen s) (fun _ => []) (fun _ => replicate 256 x00)).
Abbreviation run :=
  (Raft.run Sender (fun _ _ => 1) (fun _ => 1000) (fun _ => Some []) exec (fun _ => emptyHash) (fun s => zlen s) (fun _ => []) (fun _ => replicate 256 x00) (fun _ => true)).
Abbreviation handle :=
  (Raft.handle Sender (fun _ _ => 1) (fun _ => 1000) (fun _ => Some []) exec (fun _ => emptyHash) (fun s => zlen s) (fun _ => []) (fun _ => replicate 256 x00) (fun _ => true)).

Definition tx1 : txdata := mkTx 0 5 21000 (Some (replicate 20 x11)) 0 [] 27 1 1.
Definition tx2 : txdata := mkTx 1 9 0 (Some (replicate 20 x11)) 0 [] 27 1 1.
Definition tx3 : txdata := mkTx 4 7 21000 (Some (replicate 20 x22)) 0 [] 27 1 1.
Definition pending : AddressTxes := [(replicate 20 x11, [tx1; tx2]); (replicate 20 x22, [tx3])].

Definition genesis : Block := mkBlock CoreBlock.sample_header [] [].
Definition late_block : Block :=
  mkBlock (mkHeader (block_Hash genesis) emptyHash emptyAddr emptyHash emptyHash emptyHash (replicate 256 x00) 1 2 0 0 11 [] emptyHash (replicate 8 x00)) [] [].

(** The node has applied [late_block], mints and applies its own block. *)
Definition n1 : node := mkNode late_block (∅ ∪ {[block_Hash late_block]}) true (removeProposedTxes late_block (clear genesis newSpeculativeChain)) [] [] 0 [].
Definition minted : Block :=
  Eval vm_compute in match mintNewBlock emptyAddr 50 pending (spec n1) with Ok (Some b) => b | _ => genesis end.
Definition n2 : node := mkNode late_block (blocks n1) true (extend minted (spec n1)) [] [] 0 [minted].
Definition n3 : node := mkNode late_block (blocks n1) true (spec n2) [] [(late_block, minted)] 0 [minted].

Lemma minted_eq : mintNewBlock emptyAddr 50 pending (spec n1) = Ok (Some minted).
Proof. vm_cast_no_check (eq_refl (Ok (E:=unit) (Some minted))). Qed.
Lemma different : bool_decide (NoDup (map block_Hash [genesis; late_block; minted])) = true.
Proof. vm_cast_no_check (eq_refl true). Qed.

Lemma pending_queues : queues Sender pending.
Proof.
  split; [apply (bool_decide_unpack _); vm_compute; exact I|].
  repeat constructor; done.
Qed.

#[local] Opaque block_Hash tx_Hash.

Lemma differ : NoDup (map block_Hash [genesis; late_block; minted]).
Proof. apply (bool_decide_eq_true _), different. Qed.

Lemma own_hash : block_Hash minted ≠ block_Hash late_block.
Proof. pose proof differ as H. apply NoDup_cons in H as [_ H]. apply NoDup_cons in H as [H _]. intros E. apply H. rewrite E. left. Qed.

Lemma minted_parent : ParentHash (header minted) = block_Hash genesis.
Proof.
  destruct (mintNewBlock_inv _ _ _ _ _ _ _ _ _ _ _ _ _ _ pending_queues minted_eq) as [(p & Hp & ->) _]. injection Hp as <-. reflexivity.
Qed.

Definition prefix : list event := [EStart; EApply late_block; EChainHead].
Definition steps : list event := prefix ++ [EMintTest; EMint emptyAddr 50 pending].

Lemma run_prefix : run prefix (init genesis ∅) = Ok n1.
Proof.
  unfold prefix. cbn [Raft.run Raft.handle rbind]. unfold apply_entry, HasBlock, applyNewChainHead, blockExtendsChain.
  cbn [start init blocks current]. rewrite bool_decide_false by (apply not_elem_of_empty). rewrite bool_decide_true by reflexivity. reflexivity.
Qed.
Lemma handle_mint : handle (EMint emptyAddr 50 pending) (mint_test n1) = Ok n2.
Proof. cbn [Raft.handle]. unfold mint. cbn [waiting mint_test n1 minting spec]. fold n1. pose proof minted_eq as E. cbn [n1 spec] in E. rewrite E. reflexivity. Qed.
Lemma handle_apply : handle (EApply minted) n2 = Ok n3.
Proof.
  cbn [Raft.handle]. unfold apply_entry, HasBlock, applyNewChainHead, blockExtendsChain. cbn [blocks current n2 n1]. pose proof own_hash as Hd.
  rewrite bool_decide_false by (intros H; apply elem_of_union in H as [H|H]; [exact (not_elem_of_empty _ H)|exact (Hd (proj1 (elem_of_singleton _ _) H))]).
  rewrite bool_decide_false; [reflexivity|]. pose proof differ as H. apply NoDup_cons in H as [H _]. intros E. apply H.
  rewrite minted_parent in E. rewrite E. left.
Qed.
Lemma run_steps : run steps (init genesis ∅) = Ok n2.
Proof. unfold steps. rewrite run_app, run_prefix. cbn [rbind]. unfold Raft.run. change (handle EMintTest n1) with (Ok (E:=unit) (mint_test n1)). cbn [rbind]. rewrite handle_mint. reflexivity. Qed.
Lemma run_more : run (steps ++ [EApply minted]) (init genesis ∅) = Ok n3.
Proof. rewrite run_app, run_steps. cbn [rbind]. unfold Raft.run. rewrite handle_apply. reflexivity. Qed.
End Ex.

#[local] Opaque block_Hash tx_Hash.


Lemma minter_takes_in_order_witness :
  ∃ l s', picks Ex.Sender Ex.exec (createWork (fun _ _ => 1) (fun _ => 1000) emptyAddr 50 Ex.genesis)
      (open_queues Ex.pending (clear Ex.genesis newSpeculativeChain)) [] l s' ∧
    (∀ a, filter (fun x => Ex.Sender x = a) l `prefix_of` default [] (open_queues Ex.pending (clear Ex.genesis newSpeculativeChain) !! a)) ∧
    (∀ x, x ∈ l → tx_Hash x ∉ proposedTxes (clear Ex.genesis newSpeculativeChain)) ∧
    match Ex.mintNewBlock emptyAddr 50 Ex.pending (clear Ex.genesis newSpeculativeChain) with
    | Ok None => l = []
    | Ok (Some b) => transactions b = l ∧ ParentHash (header b) = block_Hash Ex.genesis
    | _ => False
    end.
Proof.
  apply (minter_takes_in_order Ex.Sender _ _ (fun _ => Some []) Ex.exec).
  - exact Ex.pending_queues.
  - assert (Forall (fun kq : bytes * list txdata => Forall (fun x => CoreBlock.item_small (CoreBlock.tx_GetRlp x)) (snd kq)) Ex.pending) as H
      by (repeat constructor; reflexivity).
    intros a q x Hq Hx. eapply Forall_forall in H; [|exact Hq]. by eapply Forall_forall in H.
  - reflexivity.
  - intros s. exists []. split; [reflexivity|]. split; [constructor|reflexivity].
  - reflexivity.
  - reflexivity.
Defined.

Lemma unwindFrom_cuts_witness :
  let c := mkSpec (Some Ex.late_block) [Ex.genesis; Ex.late_block] ∅ ∅ in
  let c' := unwindFrom (block_Hash Ex.genesis) Ex.minted c in
  unappliedBlocks c' = [] ∧ sc_head c' = Some (default Ex.minted (last [])) ∧ proposedTxes c' = txs_of [] ∧
  expectedInvalidBlockHashes c' = ∅ ∪ list_to_set (map block_Hash [Ex.late_block]) ∧
  foldl (fun c x => unwindFrom (block_Hash x) Ex.minted c) c' [Ex.late_block] =
    mkSpec (sc_head c') [] (∅ ∖ list_to_set (map block_Hash [Ex.late_block])) (txs_of []).
Proof.
  intros c. apply (unwindFrom_cuts [] Ex.genesis [Ex.late_block] Ex.minted c).
  - split; [reflexivity|]. split; [apply disjoint_empty_l|]. split; [apply disjoint_empty_l|exact I].
  - reflexivity.
  - pose proof Ex.differ as H. apply (NoDup_app (map block_Hash [Ex.genesis; Ex.late_block]) [block_Hash Ex.minted]) in H. apply H.
  - apply not_elem_of_empty.
Defined.

Lemma proposed_once_witness :
  spec_ok (spec Ex.n2) ∧
  ∀ b, Ex.mintNewBlock emptyAddr 60 Ex.pending (spec Ex.n2) = Ok (Some b) →
    (list_to_set (tx_hashes b) : gset bytes) ## txs_of (unappliedBlocks (spec Ex.n2)).
Proof.
  eapply (proposed_once Ex.Sender _ _ _ Ex.exec _ _ _ _ _ Ex.steps Ex.genesis ∅ Ex.n2).
  - exact Ex.run_steps.
  - do 4 (constructor; [exact I|]). constructor; [exact Ex.pending_queues|constructor].
  - pose proof Ex.differ as H. apply NoDup_cons in H as [_ H]. apply NoDup_cons in H as [H _].
    apply (binding_two Ex.late_block Ex.minted). intros E. apply H. rewrite E. left.
  - exact Ex.pending_queues.
Defined.

Lemma invalid_orderings_ignored_witness :
  let n := Ex.n3 in
  Ex.handle EInvalid n =
    Ok (mkNode (current n) (blocks n) (minting n) (spec n) (chainHeadChan n) (drop 1 (invalidRaftOrderingChan n)) (waiting n) (proposals n)).
Proof.
  intros n. eapply (invalid_orderings_ignored Ex.Sender _ _ _ Ex.exec _ _ _ _ _ (Ex.steps ++ [EApply Ex.minted]) Ex.genesis ∅).
  - exact Ex.run_more.
  - pose proof Ex.differ as H. apply NoDup_cons in H as [_ H]. exact H.
Defined.

Lemma late_block_stops_minter_witness : minting Ex.n1 = true ∧ current Ex.n3 = Ex.late_block.
Proof.
  pose proof Ex.differ as H. apply NoDup_cons in H as [Hg H]. apply NoDup_cons in H as [Hl _].
  assert (∀ n, n = Ex.n1 ∨ n = mint_test Ex.n1 ∨ n = Ex.n2 → ∀ b, b ∈ [Ex.minted] → block_Hash b ∉ blocks n ∧ block_Hash b ≠ block_Hash (current n)) as Hnew.
  { intros n Hn b Hb. apply list_elem_of_singleton in Hb as ->. assert (block_Hash Ex.minted ≠ block_Hash Ex.late_block) as Hd.
    { intros E. apply Hl. rewrite E. left. }
    assert (blocks n = ∅ ∪ {[block_Hash Ex.late_block]} ∧ current n = Ex.late_block) as [-> ->]
      by (destruct Hn as [->|[->| ->]]; split; reflexivity).
    split; [|exact Hd]. intros Hin. apply elem_of_union in Hin as [Hin|Hin]; [exact (not_elem_of_empty _ Hin)|exact (Hd (proj1 (elem_of_singleton _ _) Hin))]. }
  eapply (late_block_stops_minter Ex.Sender _ _ _ Ex.exec _ _ _ _ (fun _ => true) Ex.genesis ∅ Ex.late_block Ex.n1 Ex.n3).
  - reflexivity.
  - apply not_elem_of_empty.
  - intros E. apply Hg. rewrite E. left.
  - reflexivity.
  - exact Ex.run_prefix.
  - eapply (alone_step _ _ _ _ _ _ _ _ _ _ EMintTest); [exact I|exact I|reflexivity| |].
    { intros b Hb. apply elem_of_nil in Hb. destruct Hb. }
    eapply alone_step; [| |exact Ex.handle_mint| |]; [exact I|exact Ex.pending_queues|apply (Hnew (mint_test Ex.n1)); right; left; reflexivity|].
    eapply alone_step; [| |exact Ex.handle_apply| |apply alone_refl]; [left|exact I|apply (Hnew Ex.n2); right; right; reflexivity].
Defined.

End RaftThms.
