(* ===== verification/StateDB.v ===== *)
(** The state database (src/core/state): accounts cached as state objects over the account
    trie, with a journal for snapshots ([State]).

    Tries, contract code and the writer of a commit are the class [Tries], as state.Database
    and state.Trie of database.go; that the loading of nodes does not show is the theorem
    [trie_is_a_map].  A state object lives under its address in the map of its state
    database, so a pointer to it is its address.  A nil code is the empty string. *)

From S2P Require Import Prelude RlpEncode RlpRaw RlpDecode RlpRoundtrip RlpTotal KeccakF Sha3 CoreTypes.
From S2P Require Import Prque TrieEncoding TrieNode Trie TrieThms TrieHash TrieMap CoreBlock.

Module State.
Import Rlp Raw Codec Types.

(** ** Accounts (state_object.go) *)

Record Account := mkAccount {
  acc_Nonce : Z;
  acc_Balance : Z;
  acc_Root : bytes;
  acc_CodeHash : bytes }.

Definition account_typ : typ := TStruct [TUint 64; TBigInt; TByteArray 32; TBytes].
Definition account_val (a : Account) : val :=
  VStruct [VUint (acc_Nonce a); VBig (Some (acc_Balance a)); VByteArray (acc_Root a); VBytes (acc_CodeHash a)].
Definition of_account_val (v : val) : option Account :=
  match v with
  | VStruct [VUint a; VBig (Some b); VByteArray c; VBytes d] => Some (mkAccount a b c d)
  | _ => None
  end.

Lemma of_to_account x : of_account_val (account_val x) = Some x.
Proof. by destruct x. Qed.
#[global] Instance account_codec : Codec Account :=
  {| ctyp := account_typ; to_val := account_val; of_val := of_account_val; of_to := of_to_account |}.

Definition emptyCodeHash : bytes := Eval vm_compute in hash256 [].

(** ** Tries and the database (database.go)

    [None] is an error.  Opening a trie at the zero hash gives the empty trie. *)
Class Tries (Tr W : Type) := {
  OpenTrie : bytes → option Tr;
  OpenStorageTrie : bytes → bytes → option Tr;
  EmptyTrie : Tr;
  TryGet : Tr → bytes → option bytes;
  TryUpdate : Tr → bytes → bytes → option Tr;
  TryDelete : Tr → bytes → option Tr;
  trie_Hash : Tr → bytes;
  trie_CommitTo : Tr → W → option (bytes * Tr * W);
  Put : bytes → bytes → W → option W;
  ContractCode : bytes → bytes → option bytes }.

Section state.
Context {Tr W : Type} `{Tries Tr W}.

(** [onDirty] tells whether the callback is still set. *)
Record stateObject := mkObj {
  address : bytes;
  data : Account;
  o_dbErr : bool;
  o_trie : option Tr;
  code : bytes;
  cachedStorage : gmap bytes bytes;
  dirtyStorage : gmap bytes bytes;
  dirtyCode : bool;
  suicided : bool;
  touched : bool;
  deleted : bool;
  onDirty : bool }.

Definition addrHash (o : stateObject) : bytes := hash256 [address o].

Definition o_set_data (a : Account) (o : stateObject) : stateObject :=
  mkObj (address o) a (o_dbErr o) (o_trie o) (code o) (cachedStorage o) (dirtyStorage o) (dirtyCode o) (suicided o) (touched o) (deleted o) (onDirty o).
Definition o_set_storage (cached dirty : gmap bytes bytes) (o : stateObject) : stateObject :=
  mkObj (address o) (data o) (o_dbErr o) (o_trie o) (code o) cached dirty (dirtyCode o) (suicided o) (touched o) (deleted o) (onDirty o).
Definition o_set_trie (t : Tr) (err : bool) (o : stateObject) : stateObject :=
  mkObj (address o) (data o) err (Some t) (code o) (cachedStorage o) (dirtyStorage o) (dirtyCode o) (suicided o) (touched o) (deleted o) (onDirty o).
Definition o_set_code (c : bytes) (dirty : bool) (o : stateObject) : stateObject :=
  mkObj (address o) (data o) (o_dbErr o) (o_trie o) c (cachedStorage o) (dirtyStorage o) dirty (suicided o) (touched o) (deleted o) (onDirty o).
Definition o_set_flags (err suicided touched deleted onDirty : bool) (o : stateObject) : stateObject :=
  mkObj (address o) (data o) err (o_trie o) (code o) (cachedStorage o) (dirtyStorage o) (dirtyCode o) suicided touched deleted onDirty.

Definition set_Balance (b : Z) (a : Account) : Account := mkAccount (acc_Nonce a) b (acc_Root a) (acc_CodeHash a).
Definition set_Nonce (n : Z) (a : Account) : Account := mkAccount n (acc_Balance a) (acc_Root a) (acc_CodeHash a).
Definition set_Root (r : bytes) (a : Account) : Account := mkAccount (acc_Nonce a) (acc_Balance a) r (acc_CodeHash a).
Definition set_CodeHash (h : bytes) (a : Account) : Account := mkAccount (acc_Nonce a) (acc_Balance a) (acc_Root a) h.

Definition o_setError (o : stateObject) : stateObject :=
  o_set_flags true (suicided o) (touched o) (deleted o) (onDirty o) o.

Definition account_empty (a : Account) : bool :=
  (acc_Nonce a =? 0) && (acc_Balance a =? 0) && bool_decide (acc_CodeHash a = emptyCodeHash).
Definition empty (o : stateObject) : bool := account_empty (data o).

Definition newObject (addr : bytes) (a : Account) : stateObject :=
  mkObj addr a false None [] ∅ ∅ false false false false true.

(** An account value that is not set: no root, and the fields [newObject] fills in. *)
Definition zeroAccount : Account := mkAccount 0 0 emptyHash emptyCodeHash.

Definition getTrie (o : stateObject) : Tr * stateObject :=
  match o_trie o with
  | Some t => (t, o)
  | None =>
      match OpenStorageTrie (addrHash o) (acc_Root (data o)) with
      | Some t => (t, o_set_trie t (o_dbErr o) o)
      | None => (EmptyTrie, o_set_trie EmptyTrie true o)
      end
  end.

Definition o_GetState (key : bytes) (o : stateObject) : result unit (bytes * stateObject) :=
  match cachedStorage o !! key with
  | Some v => Ok (v, o)
  | None =>
      let (t, o) := getTrie o in
      match TryGet t key with
      | None => Ok (emptyHash, o_setError o)
      | Some enc =>
          let? (value, o) :=
            match enc with
            | [] => Ok (emptyHash, o)
            | _ =>
                match Split enc with
                | Ok (_, content, _) => Ok (BytesToHash content, o)
                | Err _ => Ok (emptyHash, o_setError o)
                | Panic => Panic
                | NoFuel => NoFuel
                end
            end in
          if bool_decide (value = emptyHash) then Ok (value, o)
          else Ok (value, o_set_storage (<[key := value]> (cachedStorage o)) (dirtyStorage o) o)
      end
  end.

Definition Code (o : stateObject) : bytes * stateObject :=
  match code o with
  | [] =>
      if bool_decide (acc_CodeHash (data o) = emptyCodeHash) then ([], o)
      else
        match ContractCode (addrHash o) (BytesToHash (acc_CodeHash (data o))) with
        | Some c => (c, o_set_code c (dirtyCode o) o)
        | None => ([], o_setError o)
        end
  | c => (c, o)
  end.

(** The leading zeros of a value are not stored. *)
Fixpoint trim_zeros (b : bytes) : bytes :=
  match b with x00 :: r => trim_zeros r | _ => b end.

(** The loop over the dirty slots; errors are noted and leave the trie as it was. *)
Definition flush_slot (o_t : bool * Tr) (kv : bytes * bytes) : bool * Tr :=
  let '(err, t) := o_t in
  let r :=
    if bool_decide (kv.2 = emptyHash) then TryDelete t kv.1
    else TryUpdate t kv.1 (match EncodeToBytes TBytes (VBytes (trim_zeros kv.2)) with Ok v => v | _ => [] end) in
  match r with Some t => (err, t) | None => (true, t) end.

Definition updateTrie (o : stateObject) : Tr * stateObject :=
  let (t, o) := getTrie o in
  let (err, t) := foldl flush_slot (o_dbErr o, t) (map_to_list (dirtyStorage o)) in
  (t, o_set_trie t err (o_set_storage (cachedStorage o) ∅ o)).

Definition updateRoot (o : stateObject) : stateObject :=
  let (t, o) := updateTrie o in
  o_set_data (set_Root (trie_Hash t) (data o)) o.

(** [None]: the object noted an error before, or the trie failed to commit. *)
Definition CommitTrie (o : stateObject) (w : W) : option (stateObject * W) :=
  let (t, o) := updateTrie o in
  if o_dbErr o then None
  else
    match trie_CommitTo t w with
    | Some (root, t, w) => Some (o_set_data (set_Root root (data o)) (o_set_trie t (o_dbErr o) o), w)
    | None => None
    end.

(** ** The state database (statedb.go) and its journal (journal.go) *)

Inductive journalEntry :=
| createObjectChange (account : bytes)
| resetObjectChange (prev : stateObject)
| suicideChange (account : bytes) (prev : bool) (prevbalance : Z)
| balanceChange (account : bytes) (prev : Z)
| nonceChange (account : bytes) (prev : Z)
| storageChange (account key prevalue : bytes)
| codeChange (account prevcode prevhash : bytes)
| refundChange (prev : Z)
| addLogChange (txhash : bytes)
| addPreimageChange (hash : bytes)
| touchChange (account : bytes) (prev prevDirty : bool).

(** A log with the fields the state database fills in. *)
Record LogEntry := mkEntry {
  le_log : CoreBlock.Log;
  le_TxHash : bytes;
  le_BlockHash : bytes;
  le_TxIndex : Z;
  le_Index : Z }.

Record StateDB := mkState {
  trie : Tr;
  stateObjects : gmap bytes stateObject;
  stateObjectsDirty : gset bytes;
  dbErr : bool;
  refund : Z;
  thash : bytes;
  bhash : bytes;
  txIndex : Z;
  logs : gmap bytes (list LogEntry);
  logSize : Z;
  preimages : gmap bytes bytes;
  journal : list journalEntry;
  validRevisions : list (Z * nat);
  nextRevisionId : Z }.

Definition New (root : bytes) : option StateDB :=
  match OpenTrie root with
  | Some tr => Some (mkState tr ∅ ∅ false 0 emptyHash emptyHash 0 ∅ 0 ∅ [] [] 0)
  | None => None
  end.

Definition s_set_objects (objs : gmap bytes stateObject) (dirty : gset bytes) (s : StateDB) : StateDB :=
  mkState (trie s) objs dirty (dbErr s) (refund s) (thash s) (bhash s) (txIndex s) (logs s) (logSize s) (preimages s) (journal s) (validRevisions s) (nextRevisionId s).
Definition s_set_trie (t : Tr) (err : bool) (s : StateDB) : StateDB :=
  mkState t (stateObjects s) (stateObjectsDirty s) err (refund s) (thash s) (bhash s) (txIndex s) (logs s) (logSize s) (preimages s) (journal s) (validRevisions s) (nextRevisionId s).
Definition s_set_refund (r : Z) (s : StateDB) : StateDB :=
  mkState (trie s) (stateObjects s) (stateObjectsDirty s) (dbErr s) r (thash s) (bhash s) (txIndex s) (logs s) (logSize s) (preimages s) (journal s) (validRevisions s) (nextRevisionId s).
Definition s_set_logs (l : gmap bytes (list LogEntry)) (n : Z) (s : StateDB) : StateDB :=
  mkState (trie s) (stateObjects s) (stateObjectsDirty s) (dbErr s) (refund s) (thash s) (bhash s) (txIndex s) l n (preimages s) (journal s) (validRevisions s) (nextRevisionId s).
Definition s_set_preimages (p : gmap bytes bytes) (s : StateDB) : StateDB :=
  mkState (trie s) (stateObjects s) (stateObjectsDirty s) (dbErr s) (refund s) (thash s) (bhash s) (txIndex s) (logs s) (logSize s) p (journal s) (validRevisions s) (nextRevisionId s).
Definition s_set_journal (j : list journalEntry) (revs : list (Z * nat)) (next : Z) (s : StateDB) : StateDB :=
  mkState (trie s) (stateObjects s) (stateObjectsDirty s) (dbErr s) (refund s) (thash s) (bhash s) (txIndex s) (logs s) (logSize s) (preimages s) j revs next.

Definition log_change (e : journalEntry) (s : StateDB) : StateDB :=
  s_set_journal (journal s ++ [e]) (validRevisions s) (nextRevisionId s) s.

Definition setError (s : StateDB) : StateDB := s_set_trie (trie s) true s.
Definition setStateObject (o : stateObject) (s : StateDB) : StateDB :=
  s_set_objects (<[address o := o]> (stateObjects s)) (stateObjectsDirty s) s.
Definition MarkStateObjectDirty (addr : bytes) (s : StateDB) : StateDB :=
  s_set_objects (stateObjects s) (stateObjectsDirty s ∪ {[addr]}) s.

(** The account under an address in the trie; [None] with whether an error is noted. *)
Definition load (addr : bytes) (s : StateDB) : option Account * bool :=
  match TryGet (trie s) addr with
  | None => (None, true)
  | Some [] => (None, false)
  | Some enc => match decode enc with Ok a => (Some a, false) | _ => (None, false) end
  end.

Definition getStateObject (addr : bytes) (s : StateDB) : option stateObject * StateDB :=
  match stateObjects s !! addr with
  | Some o => if deleted o then (None, s) else (Some o, s)
  | None =>
      match load addr s with
      | (None, err) => (None, if err then setError s else s)
      | (Some a, _) => let o := newObject addr a in (Some o, setStateObject o s)
      end
  end.

(** The write of a field of an object: the callback marks the object as dirty once. *)
Definition write (f : stateObject → stateObject) (o : stateObject) (s : StateDB) : StateDB :=
  let o := f o in
  if onDirty o then
    setStateObject (o_set_flags (o_dbErr o) (suicided o) (touched o) (deleted o) false o) (MarkStateObjectDirty (address o) s)
  else setStateObject o s.

Definition setBalance (amount : Z) : stateObject → StateDB → StateDB := write (fun o => o_set_data (set_Balance amount (data o)) o).
Definition setNonce (nonce : Z) : stateObject → StateDB → StateDB := write (fun o => o_set_data (set_Nonce nonce (data o)) o).
Definition setState (key value : bytes) : stateObject → StateDB → StateDB :=
  write (fun o => o_set_storage (<[key := value]> (cachedStorage o)) (<[key := value]> (dirtyStorage o)) o).
Definition setCode (codeHash c : bytes) : stateObject → StateDB → StateDB :=
  write (fun o => o_set_data (set_CodeHash codeHash (data o)) (o_set_code c true o)).

(** The new object is marked as dirty by [setNonce] before it is in the map. *)
Definition createObject (addr : bytes) (s : StateDB) : stateObject * option stateObject * StateDB :=
  let (prev, s) := getStateObject addr s in
  let newobj := newObject addr zeroAccount in
  let newobj := o_set_flags (o_dbErr newobj) false false false false newobj in
  let s := MarkStateObjectDirty addr s in
  let s := log_change (match prev with None => createObjectChange addr | Some p => resetObjectChange p end) s in
  (newobj, prev, setStateObject newobj s).

Definition GetOrNewStateObject (addr : bytes) (s : StateDB) : stateObject * StateDB :=
  match getStateObject addr s with
  | (Some o, s) => (o, s)
  | (None, s) => let '(o, _, s) := createObject addr s in (o, s)
  end.

(** *** Readers *)

Definition Exist (addr : bytes) (s : StateDB) : bool * StateDB :=
  let (o, s) := getStateObject addr s in (match o with Some _ => true | None => false end, s).
Definition Empty (addr : bytes) (s : StateDB) : bool * StateDB :=
  let (o, s) := getStateObject addr s in (match o with Some o => empty o | None => true end, s).
Definition GetBalance (addr : bytes) (s : StateDB) : Z * StateDB :=
  let (o, s) := getStateObject addr s in (match o with Some o => acc_Balance (data o) | None => 0 end, s).
Definition GetNonce (addr : bytes) (s : StateDB) : Z * StateDB :=
  let (o, s) := getStateObject addr s in (match o with Some o => acc_Nonce (data o) | None => 0 end, s).
Definition GetCodeHash (addr : bytes) (s : StateDB) : bytes * StateDB :=
  let (o, s) := getStateObject addr s in (match o with Some o => BytesToHash (acc_CodeHash (data o)) | None => emptyHash end, s).
Definition HasSuicided (addr : bytes) (s : StateDB) : bool * StateDB :=
  let (o, s) := getStateObject addr s in (match o with Some o => suicided o | None => false end, s).
Definition GetCode (addr : bytes) (s : StateDB) : bytes * StateDB :=
  match getStateObject addr s with
  | (Some o, s) => let (c, o) := Code o in (c, setStateObject o s)
  | (None, s) => ([], s)
  end.
Definition GetCodeSize (addr : bytes) (s : StateDB) : Z * StateDB :=
  match getStateObject addr s with
  | (Some o, s) =>
      match code o with
      | [] => match ContractCode (addrHash o) (BytesToHash (acc_CodeHash (data o))) with Some c => (zlen c, s) | None => (0, setError s) end
      | c => (zlen c, s)
      end
  | (None, s) => (0, s)
  end.
Definition GetState (addr key : bytes) (s : StateDB) : result unit (bytes * StateDB) :=
  match getStateObject addr s with
  | (Some o, s) => let? (v, o) := o_GetState key o in Ok (v, setStateObject o s)
  | (None, s) => Ok (emptyHash, s)
  end.
Definition GetRefund (s : StateDB) : Z := refund s.
Definition GetLogs (hash : bytes) (s : StateDB) : list LogEntry := default [] (logs s !! hash).

(** *** Writers *)

Definition SetBalance (addr : bytes) (amount : Z) (s : StateDB) : StateDB :=
  let (o, s) := GetOrNewStateObject addr s in
  setBalance amount o (log_change (balanceChange addr (acc_Balance (data o))) s).

Definition touch (o : stateObject) (s : StateDB) : StateDB :=
  write (fun o => o_set_flags (o_dbErr o) (suicided o) true (deleted o) (onDirty o) o) o
    (log_change (touchChange (address o) (touched o) (negb (onDirty o))) s).

Definition AddBalance (addr : bytes) (amount : Z) (s : StateDB) : StateDB :=
  let (o, s) := GetOrNewStateObject addr s in
  if amount =? 0 then if empty o then touch o s else s
  else setBalance (acc_Balance (data o) + amount) o (log_change (balanceChange addr (acc_Balance (data o))) s).

Definition SubBalance (addr : bytes) (amount : Z) (s : StateDB) : StateDB :=
  let (o, s) := GetOrNewStateObject addr s in
  if amount =? 0 then s
  else setBalance (acc_Balance (data o) - amount) o (log_change (balanceChange addr (acc_Balance (data o))) s).

Definition SetNonce (addr : bytes) (nonce : Z) (s : StateDB) : StateDB :=
  let (o, s) := GetOrNewStateObject addr s in
  setNonce nonce o (log_change (nonceChange addr (acc_Nonce (data o))) s).

Definition SetCode (addr : bytes) (c : bytes) (s : StateDB) : StateDB :=
  let (o, s) := GetOrNewStateObject addr s in
  let (prevcode, o) := Code o in
  setCode (hash256 [c]) c o (log_change (codeChange addr prevcode (acc_CodeHash (data o))) s).

Definition SetState (addr key value : bytes) (s : StateDB) : result unit StateDB :=
  let (o, s) := GetOrNewStateObject addr s in
  let? (prevalue, o) := o_GetState key o in
  Ok (setState key value o (log_change (storageChange addr key prevalue) s)).

Definition Suicide (addr : bytes) (s : StateDB) : bool * StateDB :=
  match getStateObject addr s with
  | (None, s) => (false, s)
  | (Some o, s) =>
      let s := log_change (suicideChange addr (suicided o) (acc_Balance (data o))) s in
      (true, write (fun o => o_set_data (set_Balance 0 (data o)) (o_set_flags (o_dbErr o) true (touched o) (deleted o) (onDirty o) o)) o s)
  end.

Definition CreateAccount (addr : bytes) (s : StateDB) : StateDB :=
  let '(new, prev, s) := createObject addr s in
  match prev with
  | Some p => setBalance (acc_Balance (data p)) new s
  | None => s
  end.

Definition AddLog (l : CoreBlock.Log) (s : StateDB) : StateDB :=
  let s := log_change (addLogChange (thash s)) s in
  let e := mkEntry l (thash s) (bhash s) (txIndex s) (logSize s) in
  s_set_logs (<[thash s := default [] (logs s !! thash s) ++ [e]]> (logs s)) (u64 (logSize s + 1)) s.

Definition AddPreimage (hash preimage : bytes) (s : StateDB) : StateDB :=
  match preimages s !! hash with
  | Some _ => s
  | None => s_set_preimages (<[hash := preimage]> (preimages s)) (log_change (addPreimageChange hash) s)
  end.

Definition AddRefund (gas : Z) (s : StateDB) : StateDB :=
  s_set_refund (refund s + gas) (log_change (refundChange (refund s)) s).

(** *** Snapshots *)

Definition ripemd : bytes := replicate 19 x00 ++ [x03].

(** A method call on the nil object panics. *)
Definition on_object (addr : bytes) (f : stateObject → StateDB → StateDB) (s : StateDB) : result unit StateDB :=
  match getStateObject addr s with
  | (Some o, s) => Ok (f o s)
  | (None, _) => Panic
  end.

Definition undo (e : journalEntry) (s : StateDB) : result unit StateDB :=
  match e with
  | createObjectChange a => Ok (s_set_objects (delete a (stateObjects s)) (stateObjectsDirty s ∖ {[a]}) s)
  | resetObjectChange prev => Ok (setStateObject prev s)
  | suicideChange a prev prevbalance =>
      match getStateObject a s with
      | (Some o, s) =>
          Ok (setBalance prevbalance (o_set_flags (o_dbErr o) prev (touched o) (deleted o) (onDirty o) o) s)
      | (None, s) => Ok s
      end
  | touchChange a prev prevDirty =>
      if negb prev && negb (bool_decide (a = ripemd)) then
        on_object a (fun o s =>
          let s := setStateObject (o_set_flags (o_dbErr o) (suicided o) prev (deleted o) (onDirty o) o) s in
          if prevDirty then s else s_set_objects (stateObjects s) (stateObjectsDirty s ∖ {[a]}) s) s
      else Ok s
  | balanceChange a prev => on_object a (setBalance prev) s
  | nonceChange a prev => on_object a (setNonce prev) s
  | codeChange a prevcode prevhash => on_object a (setCode (BytesToHash prevhash) prevcode) s
  | storageChange a key prevalue => on_object a (setState key prevalue) s
  | refundChange prev => Ok (s_set_refund prev s)
  | addLogChange h =>
      let l := default [] (logs s !! h) in
      match length l with
      | O => Panic
      | 1%nat => Ok (s_set_logs (delete h (logs s)) (u64 (logSize s - 1)) s)
      | S n => Ok (s_set_logs (<[h := take n l]> (logs s)) (u64 (logSize s - 1)) s)
      end
  | addPreimageChange h => Ok (s_set_preimages (delete h (preimages s)) s)
  end.

Fixpoint undo_all (js : list journalEntry) (s : StateDB) : result unit StateDB :=
  match js with
  | [] => Ok s
  | e :: js => let? s := undo e s in undo_all js s
  end.

Definition Snapshot (s : StateDB) : Z * StateDB :=
  let id := nextRevisionId s in
  (id, s_set_journal (journal s) (validRevisions s ++ [(id, length (journal s))]) (id + 1) s).

(** sort.Search of the Go library; the interval halves, its length is enough fuel. *)
Fixpoint search_loop (fuel : nat) (f : nat → bool) (i j : nat) : nat :=
  match fuel with
  | O => i
  | S fuel =>
      if (i <? j)%nat then
        let h := (i + (j - i) / 2)%nat in
        if f h then search_loop fuel f i h else search_loop fuel f (S h) j
      else i
  end.
Definition Search (n : nat) (f : nat → bool) : nat := search_loop (S n) f 0 n.

Definition RevertToSnapshot (revid : Z) (s : StateDB) : result unit StateDB :=
  let idx := Search (length (validRevisions s)) (fun i => match validRevisions s !! i with Some r => revid <=? fst r | None => true end) in
  match validRevisions s !! idx with
  | None => Panic
  | Some (id, snapshot) =>
      if negb (id =? revid) then Panic
      else
        let? s' := undo_all (rev (drop snapshot (journal s))) s in
        Ok (s_set_journal (take snapshot (journal s)) (take idx (validRevisions s)) (nextRevisionId s) s')
  end.

(** *** Writing the state to the trie *)

Definition clearJournalAndRefund (s : StateDB) : StateDB :=
  s_set_refund 0 (s_set_journal [] [] (nextRevisionId s) s).

Definition updateStateObject (o : stateObject) (s : StateDB) : result unit StateDB :=
  match encode (data o) with
  | Ok enc => match TryUpdate (trie s) (address o) enc with Some t => Ok (s_set_trie t (dbErr s) s) | None => Ok (setError s) end
  | _ => Panic
  end.

Definition deleteStateObject (o : stateObject) (s : StateDB) : StateDB :=
  let s := setStateObject (o_set_flags (o_dbErr o) (suicided o) (touched o) true (onDirty o) o) s in
  match TryDelete (trie s) (address o) with Some t => s_set_trie t (dbErr s) s | None => setError s end.

Definition finalise_one (deleteEmptyObjects : bool) (s : StateDB) (addr : bytes) : result unit StateDB :=
  match stateObjects s !! addr with
  | None => Panic
  | Some o =>
      if suicided o || (deleteEmptyObjects && empty o) then Ok (deleteStateObject o s)
      else let o := updateRoot o in updateStateObject o (setStateObject o s)
  end.

(** Iteration over a map: the order does not matter. *)
Fixpoint finalise_all (deleteEmptyObjects : bool) (addrs : list bytes) (s : StateDB) : result unit StateDB :=
  match addrs with
  | [] => Ok s
  | a :: addrs => let? s := finalise_one deleteEmptyObjects s a in finalise_all deleteEmptyObjects addrs s
  end.

Definition Finalise (deleteEmptyObjects : bool) (s : StateDB) : result unit StateDB :=
  let? s := finalise_all deleteEmptyObjects (elements (stateObjectsDirty s)) s in Ok (clearJournalAndRefund s).

Definition IntermediateRoot (deleteEmptyObjects : bool) (s : StateDB) : result unit (bytes * StateDB) :=
  let? s := Finalise deleteEmptyObjects s in Ok (trie_Hash (trie s), s).

Definition Prepare (th bh : bytes) (ti : Z) (s : StateDB) : StateDB :=
  mkState (trie s) (stateObjects s) (stateObjectsDirty s) (dbErr s) (refund s) th bh ti (logs s) (logSize s) (preimages s) (journal s) (validRevisions s) (nextRevisionId s).

(** [Err] is an error of the writer or an error noted before. *)
Definition commit_one (deleteEmptyObjects : bool) (addr : bytes) (s : StateDB) (w : W) : result unit (StateDB * W) :=
  match stateObjects s !! addr with
  | None => Ok (s, w)
  | Some o =>
      let isDirty := bool_decide (addr ∈ stateObjectsDirty s) in
      let clean s := s_set_objects (stateObjects s) (stateObjectsDirty s ∖ {[addr]}) s in
      if suicided o || (isDirty && deleteEmptyObjects && empty o) then Ok (clean (deleteStateObject o s), w)
      else if isDirty then
        let? (o, w) :=
          match code o, dirtyCode o with
          | [], _ | _, false => Ok (o, w)
          | c, true => match Put (acc_CodeHash (data o)) c w with Some w => Ok (o_set_code c false o, w) | None => Err tt end
          end in
        match CommitTrie o w with
        | None => Err tt
        | Some (o, w) => let? s := updateStateObject o (setStateObject o s) in Ok (clean s, w)
        end
      else Ok (clean s, w)
  end.

Fixpoint commit_all (deleteEmptyObjects : bool) (addrs : list bytes) (s : StateDB) (w : W) : result unit (StateDB * W) :=
  match addrs with
  | [] => Ok (s, w)
  | a :: addrs => let? (s, w) := commit_one deleteEmptyObjects a s w in commit_all deleteEmptyObjects addrs s w
  end.

Definition CommitTo (deleteEmptyObjects : bool) (s : StateDB) (w : W) : result unit (bytes * StateDB * W) :=
  let? (s, w) := commit_all deleteEmptyObjects (map fst (map_to_list (stateObjects s))) s w in
  match trie_CommitTo (trie s) w with
  | Some (root, t, w) => Ok (root, clearJournalAndRefund (s_set_trie t (dbErr s) s), w)
  | None => Err tt
  end.

(** *** Copies *)

Definition deepCopy (o : stateObject) : stateObject :=
  mkObj (address o) (data o) false (o_trie o) (code o) (dirtyStorage o) (dirtyStorage o) (dirtyCode o) (suicided o) false (deleted o) true.

(** A dirty address without an object makes the copy panic. *)
Fixpoint copy_objects (addrs : list bytes) (s : StateDB) : option (gmap bytes stateObject) :=
  match addrs with
  | [] => Some ∅
  | a :: addrs =>
      match stateObjects s !! a, copy_objects addrs s with
      | Some o, Some m => Some (<[a := deepCopy o]> m)
      | _, _ => None
      end
  end.

Definition Copy (s : StateDB) : result unit StateDB :=
  match copy_objects (elements (stateObjectsDirty s)) s with
  | Some objs =>
      Ok (mkState (trie s) objs (stateObjectsDirty s) false (refund s) emptyHash emptyHash 0 (logs s) (logSize s) (preimages s) [] [] 0)
  | None => Panic
  end.

End state.
End State.
