(* ===== verification/StateThms.v ===== *)
(** Theorems on the state database: reads are transparent, and reverting to a snapshot
    restores everything that can be read, whatever happened in between. *)

From S2P Require Import Prelude RlpEncode RlpRaw RlpDecode RlpRoundtrip RlpTotal KeccakF Sha3 CoreTypes.
From S2P Require Import Prque TrieEncoding TrieNode Trie TrieThms TrieHash TrieMap CoreBlock StateDB.
From stdpp Require Import sorting.
#[local] Open Scope Z_scope.

Module StateThms.
Import Rlp Raw Codec Types State.

#[local] Opaque hash256 decode Split.

Section thms.
Context {Tr W : Type} `{Tries Tr W}.
Implicit Types (s : StateDB (Tr:=Tr)) (o : stateObject (Tr:=Tr)) (e : journalEntry (Tr:=Tr)).

(** ** What can be read *)

(** The slot [key] of an object; [None] where [Split] panics. *)
Definition slot o (key : bytes) : option bytes := match o_GetState key o with Ok (v, _) => Some v | _ => None end.

Record same_obj o o' : Prop := {
  so_address : address o = address o';
  so_Nonce : acc_Nonce (data o) = acc_Nonce (data o');
  so_Balance : acc_Balance (data o) = acc_Balance (data o');
  so_CodeHash : acc_CodeHash (data o) = acc_CodeHash (data o');
  so_suicided : suicided o = suicided o';
  so_code : fst (Code o) = fst (Code o');
  so_slot : ∀ key, slot o key = slot o' key }.

Definition look s (a : bytes) : option stateObject := fst (getStateObject a s).

Definition same_opt (x y : option stateObject) : Prop :=
  match x, y with Some o, Some o' => same_obj o o' | None, None => True | _, _ => False end.

(** Two states that cannot be told apart by reading, now or after the same writes. *)
Record same s s' : Prop := {
  sa_trie : trie s = trie s';
  sa_look : ∀ a, same_opt (look s a) (look s' a);
  sa_refund : refund s = refund s';
  sa_tx : (thash s, bhash s, txIndex s) = (thash s', bhash s', txIndex s');
  sa_logs : logs s = logs s';
  sa_logSize : logSize s = logSize s';
  sa_preimages : preimages s = preimages s' }.

#[global] Instance same_obj_equiv : Equivalence same_obj.
Proof.
  split.
  - by intros o.
  - intros o o' []; split; try done; intros key; symmetry; auto.
  - intros o1 o2 o3 [] []; split; first [congruence|intros key; etrans; eauto].
Qed.

#[global] Instance same_opt_equiv : Equivalence same_opt.
Proof.
  split.
  - intros [o|]; simpl; [reflexivity|done].
  - intros [o|] [o'|]; simpl; done.
  - intros [o1|] [o2|] [o3|]; simpl; try done. apply transitivity.
Qed.

#[global] Instance same_equiv : Equivalence same.
Proof.
  split.
  - by intros s; split.
  - intros s s' []; split; done.
  - intros s1 s2 s3 [] []; split; first [congruence|intros a; etrans; eauto].
Qed.

(** ** Well-formed states *)

Record obj_ok o : Prop := {
  oo_hash : length (acc_CodeHash (data o)) = HashLength }.

Definition entry_ok e : Prop :=
  match e with
  | resetObjectChange prev => obj_ok prev ∧ deleted prev = false
  | codeChange _ _ prevhash => length prevhash = HashLength
  | _ => True
  end.

(** Objects are filed under their address; an object that was deleted is not in the trie;
    snapshots are in order. *)
Record wf s : Prop := {
  wf_objects : ∀ a o, stateObjects s !! a = Some o → address o = a ∧ obj_ok o ∧ (deleted o = true → fst (load a s) = None);
  wf_trie : ∀ a acc, fst (load a s) = Some acc → length (acc_CodeHash acc) = HashLength;
  wf_journal : Forall entry_ok (journal s);
  wf_logs : ∀ h, logs s !! h ≠ Some [];
  wf_logSize : 0 ≤ logSize s < 2 ^ 64 }.

(** ** Reading *)

Lemma look_spec s a :
  look s a = match stateObjects s !! a with
             | Some o => if deleted o then None else Some o
             | None => newObject a <$> fst (load a s)
             end.
Proof. unfold look, getStateObject. destruct (stateObjects s !! a) as [o|]; [by destruct (deleted o)|]. by destruct (load a s) as [[]]. Qed.

Lemma load_trie s s' a : trie s = trie s' → load a s = load a s'.
Proof. intros E. unfold load. by rewrite E. Qed.

Lemma look_put o s a :
  look (setStateObject o s) a = if decide (a = address o) then (if deleted o then None else Some o) else look s a.
Proof.
  rewrite !look_spec. cbn [setStateObject stateObjects s_set_objects]. destruct (decide (a = address o)) as [->|Hne].
  - by rewrite lookup_insert_eq.
  - rewrite lookup_insert_ne by done. done.
Qed.

Lemma look_address s a o : wf s → look s a = Some o → address o = a ∧ obj_ok o ∧ deleted o = false.
Proof.
  intros Hw Hl. rewrite look_spec in Hl. destruct (stateObjects s !! a) as [o'|] eqn:E.
  - destruct (deleted o') eqn:Ed; [done|]. injection Hl as <-. destruct (wf_objects s Hw a o' E) as (Ha & Ho & _). by split_and!.
  - destruct (load a s) as [[acc|] b] eqn:El; [|done]. injection Hl as <-. split_and!; [done| |done].
    split. apply (wf_trie s Hw a). by rewrite El.
Qed.

Lemma same_setError s : same (setError s) s.
Proof. split; try done. intros a. rewrite !look_spec. reflexivity. Qed.

(** [getStateObject] loads the object into the map, or notes an error. *)
Lemma getStateObject_spec a s r s' :
  wf s → getStateObject a s = (r, s') →
  r = look s a ∧ wf s' ∧ same s' s ∧ journal s' = journal s ∧ validRevisions s' = validRevisions s ∧ nextRevisionId s' = nextRevisionId s ∧
  (∀ o, r = Some o → stateObjects s' !! a = Some o).
Proof.
  intros Hw E. assert (r = look s a) as Hr by (unfold look; by rewrite E). split; [done|]. unfold getStateObject in E.
  destruct (stateObjects s !! a) as [o|] eqn:Eo.
  - destruct (deleted o) eqn:Ed; simplify_eq; split_and!; try done; congruence.
  - destruct (load a s) as [[acc|] b] eqn:El; simplify_eq.
    + assert (length (acc_CodeHash acc) = HashLength) as Hc by (apply (wf_trie s Hw a); by rewrite El).
      split_and!; try done.
      * destruct Hw as [Hobj Htr Hj Hl Hz]. split; [|done..].
        intros a' o' Ho. cbn in Ho. apply lookup_insert_Some in Ho as [[<- <-]|[Hne Ho]]; [by split_and!|]. by apply Hobj.
      * split; try done. intros a'. rewrite look_put. cbn [address newObject deleted]. destruct (decide (a' = a)) as [->|]; [|reflexivity].
        rewrite look_spec, Eo, El. reflexivity.
      * intros o [= <-]. cbn. by rewrite lookup_insert_eq.
    + destruct b; split_and!; first [done|by destruct Hw|apply same_setError|reflexivity|congruence].
Qed.

(** ** Slots and code of an object *)

Definition read_slot (t : Tr) (key : bytes) : option bytes :=
  match TryGet t key with
  | None | Some [] => Some emptyHash
  | Some enc => match Split enc with Ok (_, c, _) => Some (BytesToHash c) | Err _ => Some emptyHash | _ => None end
  end.

Lemma slot_spec o key :
  slot o key = match cachedStorage o !! key with Some v => Some v | None => read_slot (fst (getTrie o)) key end.
Proof.
  unfold slot, o_GetState, read_slot. destruct (cachedStorage o !! key) as [v|]; [done|]. destruct (getTrie o) as [t o1]. cbn [fst].
  destruct (TryGet t key) as [[|b enc]|]; cbn [rbind]; [by case_bool_decide| |done].
  destruct (Split (b :: enc)) as [[[k c] r]| | |]; cbn [rbind]; try done; by case_bool_decide.
Qed.

Lemma getTrie_eq o o' : o_trie o = o_trie o' → address o = address o' → acc_Root (data o) = acc_Root (data o') → fst (getTrie o) = fst (getTrie o').
Proof.
  intros E1 E2 E3. unfold getTrie, addrHash. rewrite <- E1, <- E2, <- E3. destruct (o_trie o); [done|]. by destruct (OpenStorageTrie _ _).
Qed.

Lemma slot_eq o o' key :
  cachedStorage o = cachedStorage o' → o_trie o = o_trie o' → address o = address o' → acc_Root (data o) = acc_Root (data o') →
  slot o key = slot o' key.
Proof. intros E1 E2 E3 E4. rewrite !slot_spec, E1, (getTrie_eq o o'); done. Qed.

Lemma Code_eq o o' :
  code o = code o' → address o = address o' → acc_CodeHash (data o) = acc_CodeHash (data o') → fst (Code o) = fst (Code o').
Proof.
  intros E1 E2 E3. unfold Code, addrHash. rewrite <- E1, <- E2, <- E3. destruct (code o); [|done]. case_bool_decide; [done|]. by destruct (ContractCode _ _).
Qed.

(** Only caches of the object change when it is read. *)
Definition frame o o' : Prop :=
  address o' = address o ∧ data o' = data o ∧ suicided o' = suicided o ∧ touched o' = touched o ∧ deleted o' = deleted o ∧ onDirty o' = onDirty o.

Lemma getTrie_frame o t o' :
  getTrie o = (t, o') → frame o o' ∧ fst (getTrie o') = t ∧ code o' = code o ∧ cachedStorage o' = cachedStorage o.
Proof.
  unfold getTrie. destruct (o_trie o) as [t'|] eqn:E; [intros [= <- <-]; by rewrite E|].
  destruct (OpenStorageTrie _ _); intros [= <- <-]; by split_and!.
Qed.

Lemma o_GetState_spec key o v o' : o_GetState key o = Ok (v, o') → slot o key = Some v ∧ same_obj o' o ∧ frame o o'.
Proof.
  intros E. split; [unfold slot; by rewrite E|]. unfold o_GetState in E. destruct (cachedStorage o !! key) as [v'|] eqn:Ec; [simplify_eq; by split|].
  destruct (getTrie o) as [t o1] eqn:Et. destruct (getTrie_frame o t o1 Et) as ((F1 & F2 & F3 & F4 & F5 & F6) & Ht & Hco & Hca).
  assert (∀ o2, frame o1 o2 → o_trie o2 = o_trie o1 → code o2 = code o1 → cachedStorage o2 = cachedStorage o1 → same_obj o2 o ∧ frame o o2) as Hstep.
  { intros o2 (G1 & G2 & G3 & G4 & G5 & G6) Ht2 Hco2 Hca2. split; [|split_and!; congruence]. split; try congruence.
    - apply Code_eq; congruence.
    - intros k. rewrite !slot_spec, Hca2, Hca, Et. rewrite (getTrie_eq o2 o1), Ht by congruence. done. }
  destruct (TryGet t key) as [enc|] eqn:Eg; [|injection E as <- <-; by apply Hstep].
  assert (∃ o2, frame o1 o2 ∧ o_trie o2 = o_trie o1 ∧ code o2 = code o1 ∧ cachedStorage o2 = cachedStorage o1 ∧
            read_slot t key = Some v ∧ (o' = o2 ∨ o' = o_set_storage (<[key := v]> (cachedStorage o2)) (dirtyStorage o2) o2)) as (o2 & G & G1 & G2 & G3 & Hr & Ho).
  { unfold read_slot. rewrite Eg. destruct enc as [|b enc].
    - cbn [rbind] in E. case_bool_decide; injection E as <- <-; exists o1; split_and!; auto; by split_and!.
    - destruct (Split (b :: enc)) as [[[k c] r]| | |]; cbn [rbind] in E; try done; case_bool_decide; injection E as <- <-;
        first [exists o1; split_and!; auto; by split_and!|exists (o_setError o1); split_and!; auto; by split_and!]. }
  destruct (Hstep o2 G G1 G2 G3) as [Hs Hf]. destruct Ho as [->| ->]; [done|]. split; [|by destruct Hf as (?&?&?&?&?&?); split_and!].
  destruct Hs as [S1 S2 S3 S4 S5 S6 S7]. split; try done.
  - rewrite <- S6. by apply Code_eq.
  - intros k. rewrite <- S7. rewrite !slot_spec. cbn [cachedStorage o_set_storage]. destruct (decide (k = key)) as [->|Hne].
    + rewrite lookup_insert_eq, G3, Hca, Ec. rewrite (getTrie_eq o2 o1), Ht; [done|congruence|destruct G as (?&?&_); congruence..].
    + rewrite lookup_insert_ne by done. destruct (cachedStorage o2 !! k); [done|]. by rewrite (getTrie_eq _ o2).
Qed.

Lemma Code_spec o c o' : Code o = (c, o') → same_obj o' o ∧ frame o o'.
Proof.
  unfold Code. destruct (code o) as [|b r] eqn:Ec; [|intros [= <- <-]; by split].
  case_bool_decide as Hh; [intros [= <- <-]; by split|]. destruct (ContractCode _ _) as [c'|] eqn:Ed; intros [= <- <-]; (split; [|by split_and!]).
  - split; try done; [|intros k; by apply slot_eq]. unfold Code. cbn [code o_set_code data]. rewrite Ec.
    rewrite !bool_decide_false by done. rewrite Ed. destruct c'; [|done]. unfold addrHash. cbn [address o_set_code]. fold (addrHash o). by rewrite Ed.
  - split; try done; [by apply Code_eq|intros k; by apply slot_eq].
Qed.

(** ** Writing *)

(** An object after the callback has marked it as dirty. *)
Definition clean o : stateObject := if onDirty o then o_set_flags (o_dbErr o) (suicided o) (touched o) (deleted o) false o else o.

Lemma clean_same o : same_obj (clean o) o.
Proof. unfold clean. destruct (onDirty o); [|reflexivity]. split; try done; [by apply Code_eq|intros k; by apply slot_eq]. Qed.

Lemma clean_fields o : address (clean o) = address o ∧ data (clean o) = data o ∧ deleted (clean o) = deleted o.
Proof. unfold clean. by destruct (onDirty o). Qed.

Lemma look_write f o s a :
  look (write f o s) a = if decide (a = address (f o)) then (if deleted (f o) then None else Some (clean (f o))) else look s a.
Proof.
  unfold write, clean. destruct (onDirty (f o)); rewrite look_put; cbn [address deleted o_set_flags]; [|done].
  destruct (decide _); [done|]. by rewrite !look_spec.
Qed.

(** What [write] keeps. *)
Lemma write_frame f o s :
  trie (write f o s) = trie s ∧ refund (write f o s) = refund s ∧ logs (write f o s) = logs s ∧ logSize (write f o s) = logSize s ∧
  preimages (write f o s) = preimages s ∧ journal (write f o s) = journal s ∧ validRevisions (write f o s) = validRevisions s ∧
  nextRevisionId (write f o s) = nextRevisionId s ∧ (thash (write f o s), bhash (write f o s), txIndex (write f o s)) = (thash s, bhash s, txIndex s).
Proof. unfold write. by destruct (onDirty (f o)). Qed.

Lemma write_wf f o s : wf s → obj_ok (f o) → deleted (f o) = false → wf (write f o s).
Proof.
  intros [Hobj Htr Hj Hl Hz] Ho Hd. destruct (clean_fields (f o)) as (C1 & C2 & C3).
  assert (stateObjects (write f o s) = <[address (f o) := clean (f o)]> (stateObjects s)) as Es by (unfold write, clean; by destruct (onDirty (f o))).
  destruct (write_frame f o s) as (F1 & F2 & F3 & F4 & F5 & F6 & _). split.
  - intros a x Hx. rewrite Es in Hx. rewrite (load_trie _ s a F1). apply lookup_insert_Some in Hx as [[<- <-]|[_ Hx]]; [|by apply Hobj].
    split_and!; [done| |by rewrite C3, Hd]. destruct Ho as [Ho]. split. by rewrite C2.
  - intros a acc. rewrite (load_trie _ s a F1). apply Htr.
  - by rewrite F6.
  - by rewrite F3.
  - by rewrite F4.
Qed.

Lemma write_same f o o' s s' :
  same s s' → same_obj (f o) (f o') → deleted (f o) = false → deleted (f o') = false → same (write f o s) (write f o' s').
Proof.
  intros [S1 S2 S3 S4 S5 S6 S7] Ho Hd Hd'. destruct (write_frame f o s) as (F1 & F2 & F3 & F4 & F5 & _ & _ & _ & F9).
  destruct (write_frame f o' s') as (G1 & G2 & G3 & G4 & G5 & _ & _ & _ & G9). split; try congruence.
  intros a. rewrite !look_write, Hd, Hd', <- (so_address _ _ Ho). destruct (decide _); [|done]. simpl. by rewrite !clean_same.
Qed.

Lemma log_change_same e s : same (log_change e s) s.
Proof. split; try done. intros a. rewrite !look_spec. reflexivity. Qed.

Lemma log_change_wf e s : wf s → entry_ok e → wf (log_change e s).
Proof. intros [Hobj Htr Hj Hl Hz] He. split; try done. cbn. apply Forall_app. split; [done|by constructor]. Qed.

(** ** Undoing *)

(** The writes that undo a change depend only on what can be read. *)
Definition respects (f : stateObject → stateObject) : Prop :=
  (∀ o o', same_obj o o' → same_obj (f o) (f o')) ∧ ∀ o, obj_ok o → obj_ok (f o) ∧ address (f o) = address o ∧ deleted (f o) = deleted o.

#[local] Ltac kept_code o o' := trans (fst (Code o)); [by apply Code_eq|]; trans (fst (Code o')); [done|by apply Code_eq].
#[local] Ltac kept_slots o o' := intros k; trans (slot o k); [by apply slot_eq|]; trans (slot o' k); [done|by apply slot_eq].

Lemma respects_balance b : respects (fun o => o_set_data (set_Balance b (data o)) o).
Proof.
  split; [|intros o [Ho]; by split_and!]. intros o o' [S1 S2 S3 S4 S5 S6 S7]. split; try done.
  - kept_code o o'.
  - kept_slots o o'.
Qed.

Lemma respects_nonce n : respects (fun o => o_set_data (set_Nonce n (data o)) o).
Proof.
  split; [|intros o [Ho]; by split_and!]. intros o o' [S1 S2 S3 S4 S5 S6 S7]. split; try done.
  - kept_code o o'.
  - kept_slots o o'.
Qed.

Lemma slot_set k v dirty o key :
  slot (o_set_storage (<[k := v]> (cachedStorage o)) dirty o) key = if decide (key = k) then Some v else slot o key.
Proof.
  rewrite !slot_spec. cbn [cachedStorage o_set_storage]. destruct (decide (key = k)) as [->|Hne]; [by rewrite lookup_insert_eq|].
  rewrite lookup_insert_ne by done. by rewrite (getTrie_eq _ o).
Qed.

Lemma respects_state k v : respects (fun o => o_set_storage (<[k := v]> (cachedStorage o)) (<[k := v]> (dirtyStorage o)) o).
Proof.
  split; [|intros o [Ho]; by split_and!]. intros o o' [S1 S2 S3 S4 S5 S6 S7]. split; try done.
  - kept_code o o'.
  - intros key. rewrite !slot_set. by case_decide.
Qed.

Lemma Code_set h c o : fst (Code (o_set_data (set_CodeHash h (data o)) (o_set_code c true o))) =
  match c with
  | [] => if bool_decide (h = emptyCodeHash) then [] else default [] (ContractCode (hash256 [address o]) (BytesToHash h))
  | _ => c
  end.
Proof. unfold Code, addrHash. cbn. destruct c; [|done]. case_bool_decide; [done|]. by destruct (ContractCode _ _). Qed.

Lemma respects_code h c : length h = HashLength → respects (fun o => o_set_data (set_CodeHash h (data o)) (o_set_code c true o)).
Proof.
  intros Hh. split; [|intros o [Ho]; by split_and!]. intros o o' [S1 S2 S3 S4 S5 S6 S7]. split; try done.
  - rewrite !Code_set. by rewrite S1.
  - kept_slots o o'.
Qed.

Lemma respects_suicide p b :
  respects (fun o => o_set_data (set_Balance b (data o)) (o_set_flags (o_dbErr o) p (touched o) (deleted o) (onDirty o) o)).
Proof.
  split; [|intros o [Ho]; by split_and!]. intros o o' [S1 S2 S3 S4 S5 S6 S7]. split; try done.
  - kept_code o o'.
  - kept_slots o o'.
Qed.

Lemma on_object_ok a f s s' r :
  wf s → wf s' → respects f → same s s' → on_object a (write f) s = Ok r →
  wf r ∧ ∃ r', on_object a (write f) s' = Ok r' ∧ wf r' ∧ same r r'.
Proof.
  intros Hw Hw' [Hf1 Hf2] Hs E. unfold on_object in *. destruct (getStateObject a s) as [[o|] s1] eqn:E1; [|done]. injection E as <-.
  destruct (getStateObject_spec a s _ s1 Hw E1) as (Hr & Hw1 & Hs1 & _). destruct (look_address s a o Hw) as (_ & Ho & Hd); [done|].
  pose proof (sa_look _ _ Hs a) as Hl. rewrite <- Hr in Hl. destruct (getStateObject a s') as [r1 s1'] eqn:E1'.
  destruct (getStateObject_spec a s' _ s1' Hw' E1') as (Hr' & Hw1' & Hs1' & _). rewrite <- Hr' in Hl. destruct r1 as [o'|]; [|done]. simpl in Hl.
  destruct (look_address s' a o' Hw') as (_ & Ho' & Hd'); [done|]. destruct (Hf2 o Ho) as (Hfo & _ & Hfd), (Hf2 o' Ho') as (Hfo' & _ & Hfd').
  split; [apply write_wf; [done..|congruence]|]. exists (write f o' s1'). split_and!; [done|apply write_wf; [done..|congruence]|].
  apply write_same; [|by apply Hf1|congruence..]. by rewrite Hs1, Hs1'.
Qed.

Lemma BytesToHash_id h : length h = HashLength → BytesToHash h = h.
Proof.
  intros Hh. unfold BytesToHash, set_bytes. rewrite Hh. replace (HashLength <? HashLength)%nat with false by done. rewrite Hh.
  by replace (HashLength - HashLength)%nat with 0%nat by done.
Qed.

Lemma set_objects_wf objs dirty s :
  wf s → (∀ a o, objs !! a = Some o → stateObjects s !! a = Some o ∨ (address o = a ∧ obj_ok o ∧ deleted o = false)) →
  wf (s_set_objects objs dirty s).
Proof.
  intros [Hobj Htr Hj Hl Hz] Ho. split; try done. intros a o Hin. cbn in Hin. destruct (Ho a o Hin) as [Hin'|(? & ? & Hd)]; [by apply Hobj|].
  split_and!; [done|done|by rewrite Hd].
Qed.

Lemma look_set_objects objs dirty s a :
  look (s_set_objects objs dirty s) a =
    match objs !! a with Some o => if deleted o then None else Some o | None => newObject a <$> fst (load a s) end.
Proof. by rewrite look_spec. Qed.

Lemma same_map s s' objs objs' dirty dirty' :
  same s s' → (∀ a, same_opt (look (s_set_objects objs dirty s) a) (look (s_set_objects objs' dirty' s') a)) →
  same (s_set_objects objs dirty s) (s_set_objects objs' dirty' s').
Proof. intros [S1 S2 S3 S4 S5 S6 S7] Hl. by split. Qed.

(** Undoing keeps states that cannot be told apart so. *)
Definition undo_respects e : Prop :=
  ∀ s s' r, wf s → wf s' → same s s' → undo e s = Ok r → wf r ∧ ∃ r', undo e s' = Ok r' ∧ wf r' ∧ same r r'.

Lemma undo_create a : undo_respects (createObjectChange a).
Proof.
  intros s s' r Hw Hw' Hs [= <-]. split; [apply set_objects_wf; [done|]; intros x o [_ Hx]%lookup_delete_Some; by left|].
  eexists. split_and!; [done|apply set_objects_wf; [done|]; intros x o [_ Hx]%lookup_delete_Some; by left|].
  apply same_map; [done|]. intros x. pose proof (sa_look _ _ Hs x) as Hx. rewrite !look_set_objects. rewrite !look_spec in Hx.
  rewrite (load_trie s s' x) in * by apply Hs.
  destruct (decide (x = a)) as [->|Hne]; [rewrite !lookup_delete_eq; reflexivity|by rewrite !lookup_delete_ne].
Qed.

Lemma put_wf o s : wf s → obj_ok o → deleted o = false → wf (setStateObject o s).
Proof. intros Hw Ho Hd. apply set_objects_wf; [done|]. intros x o' [[<- <-]|[_ Hx]]%lookup_insert_Some; [by right|by left]. Qed.

Lemma put_same o o' s s' : same s s' → same_obj o o' → deleted o = false → deleted o' = false → same (setStateObject o s) (setStateObject o' s').
Proof.
  intros [S1 S2 S3 S4 S5 S6 S7] Ho Hd Hd'. split; try done. intros x. rewrite !look_put, Hd, Hd', <- (so_address _ _ Ho). by case_decide.
Qed.

Lemma undo_reset prev : entry_ok (resetObjectChange prev) → undo_respects (resetObjectChange prev).
Proof.
  intros [Ho Hd] s s' r Hw Hw' Hs [= <-]. split; [by apply put_wf|]. eexists. split_and!; [done|by apply put_wf|]. by apply put_same.
Qed.

Lemma undo_suicide a prev pb : undo_respects (suicideChange a prev pb).
Proof.
  intros s s' r Hw Hw' Hs E. cbn [undo] in *.
  pose proof (on_object_ok a (fun o => o_set_data (set_Balance pb (data o)) (o_set_flags (o_dbErr o) prev (touched o) (deleted o) (onDirty o) o)) s s' r
                Hw Hw' (respects_suicide prev pb) Hs) as Hon. unfold on_object in Hon.
  pose proof (sa_look _ _ Hs a) as Hl. unfold look in Hl. destruct (getStateObject a s) as [[o|] s1] eqn:E1, (getStateObject a s') as [[o'|] s1'] eqn:E1'; try done.
  - by apply Hon.
  - injection E as <-. destruct (getStateObject_spec a s _ s1 Hw E1) as (_ & Hw1 & Hs1 & _).
    destruct (getStateObject_spec a s' _ s1' Hw' E1') as (_ & Hw1' & Hs1' & _). split; [done|]. exists s1'. split_and!; [done|done|]. by rewrite Hs1, Hs1'.
Qed.

Lemma undo_log h : undo_respects (addLogChange h).
Proof.
  intros s s' r Hw Hw' Hs E. cbn [undo] in *. rewrite <- (sa_logs _ _ Hs), <- (sa_logSize _ _ Hs). destruct (default [] (logs s !! h)) as [|x l] eqn:El; [done|].
  assert (∀ L n t, wf t → same t s → (∀ k, L !! k ≠ Some []) → 0 ≤ n < 2 ^ 64 → wf (s_set_logs L n t)) as Hwf by (by intros L n t []).
  assert (∀ L n, same (s_set_logs L n s) (s_set_logs L n s')) as Hsm.
  { intros L n. destruct Hs as [S1 S2 S3 S4 S5 S6 S7]. split; try done. intros a. specialize (S2 a). by rewrite !look_spec in *. }
  assert (∀ L, (∀ k, L !! k ≠ Some []) → r = s_set_logs L (u64 (logSize s - 1)) s →
    wf r ∧ ∃ r', Ok (E:=unit) (s_set_logs L (u64 (logSize s - 1)) s') = Ok r' ∧ wf r' ∧ same r r') as Hfin.
  { intros L HL ->. pose proof (u64_range (logSize s - 1)). split; [by apply Hwf|]. eexists. split_and!; [done|by apply Hwf|done]. }
  destruct l as [|y l]; cbn [length] in *; injection E as <-; apply Hfin; try done.
  - intros k [_ Hk]%lookup_delete_Some. by apply (wf_logs s Hw k).
  - intros k [[_ Hk]|[_ Hk]]%lookup_insert_Some; [done|by apply (wf_logs s Hw k)].
Qed.

Lemma dirty_same dirty s : same (s_set_objects (stateObjects s) dirty s) s.
Proof. split; try done. intros a. rewrite look_set_objects, look_spec. reflexivity. Qed.

Lemma dirty_wf dirty s : wf s → wf (s_set_objects (stateObjects s) dirty s).
Proof. intros Hw. apply set_objects_wf; [done|]. by left. Qed.

(** The [touched] flag does not show. *)
Lemma touched_same p o : same_obj (o_set_flags (o_dbErr o) (suicided o) p (deleted o) (onDirty o) o) o.
Proof. split; try done; [by apply Code_eq|intros k; by apply slot_eq]. Qed.

Lemma undo_touch a prev pd s r :
  wf s → undo (touchChange a prev pd) s = Ok r → wf r ∧ same r s.
Proof.
  intros Hw E. cbn [undo] in E. destruct (negb prev && negb (bool_decide (a = ripemd))); [|by injection E as <-].
  unfold on_object in E. destruct (getStateObject a s) as [[o|] s1] eqn:E1; [|done]. injection E as <-.
  destruct (getStateObject_spec a s _ s1 Hw E1) as (Hr & Hw1 & Hs1 & _ & _ & _ & Hin). destruct (look_address s a o Hw) as (Ha & Ho & Hd); [done|].
  set (o1 := o_set_flags _ _ _ _ _ o). assert (wf (setStateObject o1 s1)) as Hw2 by (by apply put_wf; [|destruct Ho|]).
  assert (same (setStateObject o1 s1) s) as Hs2.
  { rewrite <- Hs1. destruct (look_address s1 a o Hw1) as (Ha1 & _); [rewrite look_spec, (Hin o eq_refl); by rewrite Hd|].
    split; try done. intros x. rewrite look_put. cbn [address deleted o1 o_set_flags]. rewrite Hd, Ha. case_decide as Hx; [|reflexivity]. subst x.
    rewrite look_spec, (Hin o eq_refl), Hd. apply touched_same. }
  destruct pd; [done|]. split; [by apply dirty_wf|]. etrans; [apply dirty_same|done].
Qed.

Lemma undo_touch_respects a prev pd : undo_respects (touchChange a prev pd).
Proof.
  intros s s' r Hw Hw' Hs E. destruct (undo_touch a prev pd s r Hw E) as [Hr Hrs]. split; [done|].
  assert (∃ r', undo (touchChange a prev pd) s' = Ok r') as (r' & Er').
  { cbn [undo] in *. destruct (negb prev && negb (bool_decide (a = ripemd))); [|by eexists]. unfold on_object in *.
    pose proof (sa_look _ _ Hs a) as Hl. unfold look in Hl. destruct (getStateObject a s) as [[o|] s1]; [|done].
    destruct (getStateObject a s') as [[o'|] s1']; [by eexists|done]. }
  exists r'. destruct (undo_touch a prev pd s' r' Hw' Er') as [Hr' Hrs']. split_and!; [done|done|]. by rewrite Hrs, Hrs'.
Qed.

Lemma undo_ok e : entry_ok e → undo_respects e.
Proof.
  intros He. destruct e as [a|prev|a prev pb|a prev|a prev|a k prev|a pc ph|prev|h|h|a prev pd];
    [apply undo_create|by apply undo_reset|apply undo_suicide|..|apply undo_log| |apply undo_touch_respects]; intros s s' r Hw Hw' Hs E; cbn [undo] in *.
  - eapply on_object_ok; [..|exact E]; try done. apply respects_balance.
  - eapply on_object_ok; [..|exact E]; try done. apply respects_nonce.
  - eapply on_object_ok; [..|exact E]; try done. apply respects_state.
  - cbn in He. rewrite BytesToHash_id in * by done. eapply on_object_ok; [..|exact E]; try done. by apply respects_code.
  - injection E as <-. split; [by destruct Hw|]. eexists. split_and!; [done|by destruct Hw'|]. destruct Hs as [S1 S2 S3 S4 S5 S6 S7]. split; try done.
    intros x. specialize (S2 x). by rewrite !look_spec in *.
  - injection E as <-. split; [by destruct Hw|]. eexists. split_and!; [done|by destruct Hw'|]. destruct Hs as [S1 S2 S3 S4 S5 S6 S7]. split; try done.
    + intros x. specialize (S2 x). by rewrite !look_spec in *.
    + cbn. by rewrite S7.
Qed.

Lemma undo_all_ok js s s' r :
  Forall entry_ok js → wf s → wf s' → same s s' → undo_all js s = Ok r → wf r ∧ ∃ r', undo_all js s' = Ok r' ∧ wf r' ∧ same r r'.
Proof.
  intros Hj. revert s s'. induction Hj as [|e js He _ IH]; intros s s' Hw Hw' Hs E; cbn [undo_all] in *; [injection E as <-; split; [done|by exists s']|].
  destruct (undo e s) as [t| | |] eqn:Et; try done. destruct (undo_ok e He s s' t Hw Hw' Hs Et) as (Ht & t' & -> & Ht' & Hst).
  cbn [rbind] in *. by apply (IH t).
Qed.

Lemma undo_all_app js1 js2 s : undo_all (js1 ++ js2) s = let? s := undo_all js1 s in undo_all js2 s.
Proof. revert s. induction js1 as [|e js1 IH]; intros s; [done|]. cbn [undo_all app]. destruct (undo e s); [apply IH|done..]. Qed.

(** ** States that can be taken back *)

(** From [s'] the journal leads back to [s]. *)
Definition back s s' : Prop := ∃ js s0, journal s' = journal s ++ js ∧ undo_all (rev js) s' = Ok s0 ∧ same s0 s.

Lemma back_trans s1 s2 s3 : wf s2 → wf s3 → back s1 s2 → back s2 s3 → back s1 s3.
Proof.
  intros Hw2 Hw3 (js1 & t1 & Ej1 & Eu1 & Hs1) (js2 & t2 & Ej2 & Eu2 & Hs2).
  pose proof (wf_journal s3 Hw3) as Hj. rewrite Ej2, Ej1 in Hj. apply Forall_app in Hj as [Hj Hj2]. apply Forall_app in Hj as [_ Hj1].
  destruct (undo_all_ok (rev js2) s3 s3 t2) as (Hwt2 & _); [by apply Forall_rev|done..|].
  destruct (undo_all_ok (rev js1) s2 t2 t1) as (_ & t & Et & _ & Hst); [by apply Forall_rev|done|done|by symmetry|done|].
  exists (js1 ++ js2), t. split_and!; [by rewrite Ej2, Ej1, <- app_assoc| |by rewrite <- Hst].
  rewrite rev_app_distr, undo_all_app, Eu2. done.
Qed.

Record leads s s' : Prop := {
  ld_wf : wf s';
  ld_revs : validRevisions s' = validRevisions s ∧ nextRevisionId s' = nextRevisionId s;
  ld_back : back s s' }.

Definition same_revs s s' : Prop := validRevisions s' = validRevisions s ∧ nextRevisionId s' = nextRevisionId s.

Lemma leads_quiet s s' : wf s' → same s' s → same_revs s s' → journal s' = journal s → leads s s'.
Proof. intros Hw Hs Hr Hj. split; [done|done|]. exists [], s'. by rewrite app_nil_r. Qed.

Lemma leads_refl s : wf s → leads s s.
Proof. intros Hw. by apply leads_quiet. Qed.

Lemma leads_entry e s s' s0 : wf s' → same_revs s s' → journal s' = journal s ++ [e] → undo e s' = Ok s0 → same s0 s → leads s s'.
Proof. intros Hw Hr Hj Hu Hs. split; [done|done|]. exists [e], s0. split_and!; [done| |done]. simpl. by rewrite Hu. Qed.

Lemma leads_then s1 s2 s3 : leads s1 s2 → leads s2 s3 → leads s1 s3.
Proof. intros [Hw2 [Hv1 Hn1] Hb1] [Hw3 [Hv2 Hn2] Hb2]. split; [done|split; congruence|by apply (back_trans s1 s2 s3)]. Qed.

(** An object as its state database has it, up to caches. *)
Definition held o s : Prop := same_opt (Some o) (look s (address o)) ∧ obj_ok o ∧ deleted o = false.

Lemma look_held s a o : wf s → look s a = Some o → held o s ∧ address o = a.
Proof. intros Hw Hl. destruct (look_address s a o Hw Hl) as (Ha & Ho & Hd). split; [|done]. split_and!; [|done|done]. by rewrite Ha, Hl. Qed.

Lemma write_leads e f g o s :
  wf s → held o s → respects f → respects g → entry_ok e →
  (∀ t x, look t (address o) = Some x → undo e t = on_object (address o) (write g) t) → (∀ x, same_obj x (f o) → same_obj (g x) o) →
  leads s (write f o (log_change e s)).
Proof.
  intros Hw (Hl & Ho & Hd) [Hf1 Hf2] [Hg1 Hg2] He Hu Hback. destruct (Hf2 o Ho) as (Hfo & Hfa & Hfd).
  set (s' := write f o (log_change e s)). assert (wf s') as Hw' by (apply write_wf; [by apply log_change_wf|done|congruence]).
  assert (look s' (address o) = Some (clean (f o))) as Hl' by (unfold s'; rewrite look_write, Hfa, decide_True, Hfd, Hd by done; done).
  assert (obj_ok (clean (f o)) ∧ address (clean (f o)) = address o ∧ deleted (clean (f o)) = false) as (Hco & Hca & Hcd).
  { destruct (clean_fields (f o)) as (-> & E & ->). split_and!; [|done|congruence]. destruct Hfo as [Hfo]. split. by rewrite E. }
  destruct (Hg2 _ Hco) as (Hgo & Hga & Hgd).
  destruct (getStateObject (address o) s') as [r s1] eqn:E1. destruct (getStateObject_spec _ _ _ _ Hw' E1) as (Hr & Hw1 & Hs1 & _). rewrite Hl' in Hr. subst r.
  apply (leads_entry e s s' (write g (clean (f o)) s1)); [done| | |by rewrite (Hu _ _ Hl'); unfold on_object; rewrite E1|].
  - unfold s'. destruct (write_frame f o (log_change e s)) as (_ & _ & _ & _ & _ & _ & Ev & En & _). by split.
  - unfold s'. destruct (write_frame f o (log_change e s)) as (_ & _ & _ & _ & _ & -> & _). done.
  - destruct (write_frame g (clean (f o)) s1) as (F1 & F2 & F3 & F4 & F5 & _ & _ & _ & F9). destruct Hs1 as [S1 S2 S3 S4 S5 S6 S7].
    destruct (write_frame f o (log_change e s)) as (G1 & G2 & G3 & G4 & G5 & _ & _ & _ & G9). fold s' in G1, G2, G3, G4, G5, G9.
    cbn [log_change s_set_journal trie refund logs logSize preimages thash bhash txIndex] in G1, G2, G3, G4, G5, G9.
    split; try congruence. intros a. rewrite look_write, Hga, Hca, Hgd, Hcd. destruct (decide (a = address o)) as [->|Hne].
    + etrans; [|exact Hl]. simpl. rewrite clean_same. apply Hback, clean_same.
    + etrans; [apply S2|]. unfold s'. rewrite look_write, Hfa, decide_False by done. apply (sa_look _ _ (log_change_same e s)).
Qed.

(** ** The operations can be taken back *)

Lemma get_leads a s r s' : wf s → getStateObject a s = (r, s') → leads s s' ∧ r = look s' a ∧ r = look s a.
Proof.
  intros Hw E. destruct (getStateObject_spec a s r s' Hw E) as (Hr & Hw' & Hs & Hj & Hv & Hn & Hin). split; [by apply leads_quiet|]. split; [|done].
  destruct r as [o|].
  - rewrite look_spec, (Hin o eq_refl). destruct (look_address s a o Hw) as (_ & _ & ->); done.
  - pose proof (sa_look _ _ Hs a) as Hl. rewrite <- Hr in Hl. by destruct (look s' a).
Qed.

Lemma create_leads a s n prev s' :
  wf s → createObject a s = (n, prev, s') → leads s s' ∧ look s' a = Some n ∧ address n = a ∧ prev = look s a.
Proof.
  intros Hw. unfold createObject. destruct (getStateObject a s) as [p s1] eqn:E1. destruct (get_leads a s p s1 Hw E1) as (Hl1 & Hp1 & Hp).
  assert (wf s1) as Hw1 by apply Hl1. intros [= <- <- <-]. set (e := match p with None => _ | Some _ => _ end).
  set (n := o_set_flags _ _ _ _ _ _). set (s2 := log_change e (MarkStateObjectDirty a s1)).
  assert (entry_ok e) as He.
  { unfold e. destruct p as [p|]; [|done]. destruct (look_address s a p Hw) as (_ & Ho & Hd); done. }
  assert (wf (setStateObject n s2)) as Hw'.
  { apply put_wf; [|done..]. by apply log_change_wf; [apply dirty_wf|]. }
  split_and!; [|rewrite look_put; by rewrite decide_True|done|done].
  eapply leads_then; [exact Hl1|]. assert (∀ x, x ≠ a → look s2 x = look s1 x) as Hs2 by (intros x Hx; by rewrite !look_spec).
  destruct p as [p|].
  - destruct (look_address s a p Hw) as (Ha & Ho & Hd); [done|].
    apply (leads_entry e _ _ (setStateObject p (setStateObject n s2))); [done..|]. split; try done. intros x. rewrite !look_put, Hd, Ha.
    cbn [address n newObject o_set_flags]. destruct (decide (x = a)) as [->|Hne]; [by rewrite <- Hp1|by rewrite Hs2].
  - eapply (leads_entry e); [done|done|done|reflexivity|]. split; try done. intros x. rewrite look_set_objects.
    cbn [setStateObject stateObjects s_set_objects s2 log_change s_set_journal MarkStateObjectDirty address n newObject o_set_flags].
    destruct (decide (x = a)) as [->|Hne].
    + rewrite lookup_delete_eq. rewrite <- Hp1. rewrite look_spec in Hp1. change (load a (setStateObject n s2)) with (load a s1).
      destruct (stateObjects s1 !! a) as [o|] eqn:Eo.
      * destruct (deleted o) eqn:Ed; [|done]. destruct (wf_objects s1 Hw1 a o Eo) as (_ & _ & ->); done.
      * by destruct (load a s1) as [[]].
    + rewrite lookup_delete_ne, lookup_insert_ne by done. by rewrite (look_spec s1).
Qed.

Lemma getOrNew_leads a s o s' : wf s → GetOrNewStateObject a s = (o, s') → leads s s' ∧ look s' a = Some o ∧ held o s' ∧ address o = a.
Proof.
  intros Hw E. assert (leads s s' ∧ look s' a = Some o) as [Hl Ho].
  { unfold GetOrNewStateObject in E. destruct (getStateObject a s) as [[p|] s1] eqn:E1; destruct (get_leads a s _ s1 Hw E1) as (Hl1 & Hp1 & _).
    - by injection E as <- <-.
    - destruct (createObject a s1) as [[n p] s2] eqn:E2. injection E as <- <-.
      destruct (create_leads a s1 n p s2) as (Hl2 & Hn & _); [apply Hl1|done|]. split; [by eapply leads_then|done]. }
  split_and!; [done|done|..]; by apply (look_held s' a o); [apply Hl|].
Qed.

Lemma same_restored (f : stateObject → stateObject) o x :
  same_obj x (f o) → (∀ k, slot (f o) k = slot o k) → fst (Code (f o)) = fst (Code o) → address (f o) = address o →
  address x = address o ∧ fst (Code x) = fst (Code o) ∧ ∀ k, slot x k = slot o k.
Proof. intros [S1 _ _ _ _ S6 S7] Hk Hc Ha. split_and!; [congruence|congruence|]. intros k. by rewrite S7. Qed.

Lemma balance_leads b o s :
  wf s → held o s → leads s (setBalance b o (log_change (balanceChange (address o) (acc_Balance (data o))) s)).
Proof.
  intros Hw Ho. unfold setBalance. apply (write_leads _ _ (fun x => o_set_data (set_Balance (acc_Balance (data o)) (data x)) x));
    [done|done|apply respects_balance|apply respects_balance|done|done|].
  intros x Hx. destruct (same_restored (fun o => o_set_data (set_Balance b (data o)) o) o x Hx) as (E1 & E2 & E3);
    [intros k; by apply slot_eq|by apply Code_eq|done|]. destruct Hx as [S1 S2 S3 S4 S5 _ _]. split; try done.
  - rewrite <- E2. by apply Code_eq.
  - intros k. rewrite <- E3. by apply slot_eq.
Qed.

Lemma nonce_leads n o s :
  wf s → held o s → leads s (setNonce n o (log_change (nonceChange (address o) (acc_Nonce (data o))) s)).
Proof.
  intros Hw Ho. unfold setNonce. apply (write_leads _ _ (fun x => o_set_data (set_Nonce (acc_Nonce (data o)) (data x)) x));
    [done|done|apply respects_nonce|apply respects_nonce|done|done|].
  intros x Hx. destruct (same_restored (fun o => o_set_data (set_Nonce n (data o)) o) o x Hx) as (E1 & E2 & E3);
    [intros k; by apply slot_eq|by apply Code_eq|done|]. destruct Hx as [S1 S2 S3 S4 S5 _ _]. split; try done.
  - rewrite <- E2. by apply Code_eq.
  - intros k. rewrite <- E3. by apply slot_eq.
Qed.

Lemma state_leads k v prev o s :
  wf s → held o s → slot o k = Some prev → leads s (setState k v o (log_change (storageChange (address o) k prev) s)).
Proof.
  intros Hw Ho Hp. unfold setState. apply (write_leads _ _ (fun x => o_set_storage (<[k := prev]> (cachedStorage x)) (<[k := prev]> (dirtyStorage x)) x));
    [done|done|apply respects_state|apply respects_state|done|done|].
  intros x [S1 S2 S3 S4 S5 S6 S7]. split; try done.
  - trans (fst (Code x)); [by apply Code_eq|]. rewrite S6. by apply Code_eq.
  - intros key. rewrite slot_set. case_decide as Hk; [by subst key|]. rewrite S7, slot_set. by rewrite decide_False.
Qed.

Lemma Code_again o h c : fst (Code o) = c → acc_CodeHash (data o) = h →
  match c with
  | [] => if bool_decide (h = emptyCodeHash) then [] else default [] (ContractCode (hash256 [address o]) (BytesToHash h))
  | _ => c
  end = c.
Proof.
  intros <- <-. unfold Code, addrHash. destruct (code o) as [|b r]; [|done]. case_bool_decide as Hh; [done|].
  destruct (ContractCode _ _) as [[|]|] eqn:E; cbn [fst]; [by rewrite ?bool_decide_false, ?E|done|by rewrite ?bool_decide_false, ?E].
Qed.

Lemma code_leads h c o s :
  length h = HashLength → wf s → held o s →
  leads s (setCode h c o (log_change (codeChange (address o) (fst (Code o)) (acc_CodeHash (data o))) s)).
Proof.
  intros Hh Hw Ho. assert (length (acc_CodeHash (data o)) = HashLength) as Ho' by (by destruct Ho as (_ & [? ] & _)).
  unfold setCode. apply (write_leads _ _ (fun x => o_set_data (set_CodeHash (acc_CodeHash (data o)) (data x)) (o_set_code (fst (Code o)) true x)));
    [done|done|by apply respects_code|by apply respects_code|done|intros t y _; cbn [undo]; by rewrite BytesToHash_id|].
  intros x [S1 S2 S3 S4 S5 S6 S7]. split; try done.
  - rewrite Code_set, S1. cbn [address o_set_data o_set_code]. by apply (Code_again o).
  - intros key. trans (slot x key); [by apply slot_eq|]. rewrite S7. by apply slot_eq.
Qed.

Lemma SetBalance_leads a b s : wf s → leads s (SetBalance a b s).
Proof.
  intros Hw. unfold SetBalance. destruct (GetOrNewStateObject a s) as [o s1] eqn:E. destruct (getOrNew_leads a s o s1 Hw E) as (Hl & _ & Ho & <-).
  eapply leads_then; [exact Hl|]. apply balance_leads; [apply Hl|done].
Qed.

Lemma touch_leads o s : wf s → look s (address o) = Some o → leads s (touch o s).
Proof.
  intros Hw Hl. destruct (look_address s _ o Hw Hl) as (_ & [Ho] & Hd). unfold touch. set (e := touchChange _ _ _). set (f := fun o => _).
  assert (same_obj (f o) o) as Hfo by apply touched_same.
  assert (wf (write f o (log_change e s))) as Hw' by (apply write_wf; [by apply log_change_wf|by split|done]).
  destruct (write_frame f o (log_change e s)) as (F1 & F2 & F3 & F4 & F5 & F6 & F7 & F8 & F9).
  assert (same (write f o (log_change e s)) s) as Hs.
  { split; try done. intros a. rewrite look_write. cbn [address deleted f o_set_flags]. rewrite Hd. destruct (decide (a = address o)) as [->|Hne].
    - rewrite Hl. simpl. by rewrite clean_same.
    - apply (sa_look _ _ (log_change_same e s)). }
  assert (∃ r, undo e (write f o (log_change e s)) = Ok r) as (r & Er).
  { cbn [undo e]. destruct (negb _ && negb _); [|by eexists]. unfold on_object. pose proof (sa_look _ _ Hs (address o)) as Hx. rewrite Hl in Hx.
    unfold look in Hx. destruct (getStateObject _ (write _ _ _)) as [[x|] t]; [by eexists|done]. }
  destruct (undo_touch _ _ _ _ _ Hw' Er) as [_ Hr]. apply (leads_entry e s _ r); [done|by split|done|done|]. by rewrite Hr.
Qed.

Lemma AddBalance_leads a b s : wf s → leads s (AddBalance a b s).
Proof.
  intros Hw. unfold AddBalance. destruct (GetOrNewStateObject a s) as [o s1] eqn:E. destruct (getOrNew_leads a s o s1 Hw E) as (Hl & Hlo & Ho & <-).
  assert (wf s1) as Hw1 by apply Hl. destruct (b =? 0); [destruct (empty o); [|done]|]; (eapply leads_then; [exact Hl|]); [by apply touch_leads|by apply balance_leads].
Qed.

Lemma SubBalance_leads a b s : wf s → leads s (SubBalance a b s).
Proof.
  intros Hw. unfold SubBalance. destruct (GetOrNewStateObject a s) as [o s1] eqn:E. destruct (getOrNew_leads a s o s1 Hw E) as (Hl & Hlo & Ho & <-).
  destruct (b =? 0); [done|]. eapply leads_then; [exact Hl|]. apply balance_leads; [apply Hl|done].
Qed.

Lemma SetNonce_leads a n s : wf s → leads s (SetNonce a n s).
Proof.
  intros Hw. unfold SetNonce. destruct (GetOrNewStateObject a s) as [o s1] eqn:E. destruct (getOrNew_leads a s o s1 Hw E) as (Hl & _ & Ho & <-).
  eapply leads_then; [exact Hl|]. apply nonce_leads; [apply Hl|done].
Qed.

Lemma held_refreshed o o' s : held o s → same_obj o' o → frame o o' → held o' s.
Proof.
  intros (Hl & [Ho] & Hd) Hs (F1 & F2 & F3 & F4 & F5 & F6). split_and!; [|split; by rewrite F2|congruence]. rewrite F1. etrans; [|exact Hl]. exact Hs.
Qed.

Lemma SetCode_leads a c s : wf s → leads s (SetCode a c s).
Proof.
  intros Hw. unfold SetCode. destruct (GetOrNewStateObject a s) as [o s1] eqn:E. destruct (getOrNew_leads a s o s1 Hw E) as (Hl & _ & Ho & Ha).
  destruct (Code o) as [pc o1] eqn:Ec. destruct (Code_spec o pc o1 Ec) as [Hs Hf]. eapply leads_then; [exact Hl|].
  assert (pc = fst (Code o1)) as -> by (rewrite (so_code _ _ Hs); by rewrite Ec). assert (address o1 = a) as <- by (destruct Hf as [-> _]; done).
  apply code_leads; [apply length_hash256|apply Hl|by eapply held_refreshed].
Qed.

Lemma SetState_leads a k v s s' : wf s → SetState a k v s = Ok s' → leads s s'.
Proof.
  intros Hw E. unfold SetState in E. destruct (GetOrNewStateObject a s) as [o s1] eqn:E1. destruct (getOrNew_leads a s o s1 Hw E1) as (Hl & _ & Ho & Ha).
  destruct (o_GetState k o) as [[prev o1]| | |] eqn:Eg; cbn [rbind] in E; try done. injection E as <-.
  destruct (o_GetState_spec k o prev o1 Eg) as (Hp & Hs & Hf). eapply leads_then; [exact Hl|]. assert (address o1 = a) as <- by (destruct Hf as [-> _]; done).
  apply state_leads; [apply Hl|by eapply held_refreshed|]. by rewrite (so_slot _ _ Hs).
Qed.

Lemma Suicide_leads a s : wf s → leads s (snd (Suicide a s)).
Proof.
  intros Hw. unfold Suicide. destruct (getStateObject a s) as [[o|] s1] eqn:E; destruct (get_leads a s _ s1 Hw E) as (Hl & Hlo & _); [|done].
  eapply leads_then; [exact Hl|]. cbn [snd]. assert (wf s1) as Hw1 by apply Hl. destruct (look_held s1 a o Hw1) as [Ho <-]; [done|].
  set (f := fun x : stateObject => o_set_data (set_Balance 0 (data x)) _).
  apply (write_leads _ f (fun x => o_set_data (set_Balance (acc_Balance (data o)) (data x))
    (o_set_flags (o_dbErr x) (suicided o) (touched x) (deleted x) (onDirty x) x))); [done|done|apply respects_suicide|apply respects_suicide|done|..].
  - intros t x Hx. cbn [undo]. unfold on_object. unfold look in Hx. by destruct (getStateObject (address o) t) as [[y|] t1].
  - intros x Hx. destruct (same_restored f o x Hx) as (E1 & E2 & E3); [intros k; by apply slot_eq|by apply Code_eq|done|].
    destruct Hx as [S1 S2 S3 S4 S5 _ _]. split; try done.
    + rewrite <- E2. by apply Code_eq.
    + intros k. rewrite <- E3. by apply slot_eq.
Qed.

(** The balance that is carried over needs no entry: undoing the creation drops it. *)
Lemma CreateAccount_leads a s : wf s → leads s (CreateAccount a s).
Proof.
  intros Hw. unfold CreateAccount. destruct (createObject a s) as [[n [p|]] s1] eqn:E; destruct (create_leads a s n _ s1 Hw E) as (Hl & Hn & Ha & Hp); [|done].
  unfold createObject in E. destruct (getStateObject a s) as [q s0] eqn:E0. injection E as En -> Es. destruct (get_leads a s _ s0 Hw E0) as (Hl0 & Hp0 & _).
  assert (wf s1) as Hw1 by apply Hl. destruct (look_held s1 a n Hw1 Hn) as [(_ & [Hno] & Hnd) _].
  eapply leads_then; [exact Hl0|]. set (s' := setBalance _ n s1).
  assert (wf s') as Hw' by (apply write_wf; [done|by split|done]). destruct (look_address s a p Hw) as (Hpa & Hpo & Hpd); [done|].
  destruct (write_frame (fun o => o_set_data (set_Balance (acc_Balance (data p)) (data o)) o) n s1) as (F1 & F2 & F3 & F4 & F5 & F6 & F7 & F8 & F9).
  apply (leads_entry (resetObjectChange p) s0 s' (setStateObject p s')); [done| | |done|].
  - split; unfold s', setBalance; [rewrite F7|rewrite F8]; by subst s1.
  - unfold s', setBalance. rewrite F6. by subst s1.
  - split; [unfold s', setBalance; cbn; rewrite F1; by subst s1| |unfold s', setBalance; cbn; rewrite ?F2, ?F3, ?F4, ?F5; subst s1; try done..].
    + intros x. rewrite look_put, Hpd, Hpa. destruct (decide (x = a)) as [->|Hne]; [by rewrite <- Hp0|].
      unfold s', setBalance. rewrite look_write. cbn [address o_set_data]. rewrite Ha, decide_False by done. subst s1. rewrite look_put.
      cbn [address newObject o_set_flags]. rewrite decide_False by done. by rewrite !look_spec.
Qed.

Lemma AddLog_leads l s : wf s → leads s (AddLog l s).
Proof.
  intros Hw. unfold AddLog. set (e := addLogChange (thash s)). set (x := mkEntry _ _ _ _ _). set (L := default [] (logs s !! thash s)).
  pose proof (wf_logSize s Hw) as Hz. pose proof (u64_range (logSize s + 1)) as Hu.
  assert (u64 (u64 (logSize s + 1) - 1) = logSize s) as Hback.
  { unfold u64 in *. destruct (decide (logSize s = 2 ^ 64 - 1)) as [->|Hne]; [done|]. rewrite !Z.mod_small; lia. }
  set (s' := s_set_logs _ _ _). assert (wf s') as Hw'.
  { destruct (log_change_wf e s Hw I) as [Hobj Htr Hj Hl _]. split; try done. intros h Hin. unfold s' in Hin. cbn in Hin.
    apply lookup_insert_Some in Hin as [[_ Hk]|[_ Hk]]; [by destruct (default _ _)|by apply (Hl h)]. }
  assert (∃ s0, undo e s' = Ok s0 ∧ logs s0 = logs s ∧ logSize s0 = logSize s ∧ preimages s0 = preimages s ∧ refund s0 = refund s ∧ trie s0 = trie s ∧
    stateObjects s0 = stateObjects s ∧ (thash s0, bhash s0, txIndex s0) = (thash s, bhash s, txIndex s)) as (s0 & Eu & U1 & U2 & U3 & U4 & U5 & U6 & U7).
  { cbn [undo e]. unfold s'. cbn [logs s_set_logs logSize log_change s_set_journal thash]. rewrite lookup_insert_eq. cbn [from_option id]. rewrite length_app. cbn [length].
    fold L. destruct (logs s !! thash s) as [L'|] eqn:El; subst L; cbn [from_option id length] in *.
    - destruct L' as [|y L']; [by destruct (wf_logs s Hw (thash s))|]. cbn [length]. replace (S (length L') + 1)%nat with (S (S (length L'))) by lia.
      eexists. split_and!; [done|..|done|done|done|done|done]; cbn; [|done].
      rewrite insert_insert_eq. rewrite take_app_length' by (simpl; lia). by rewrite insert_id.
    - eexists. split_and!; [done|..|done|done|done|done|done]; cbn; [|done]. rewrite delete_insert_eq. by rewrite delete_id. }
  apply (leads_entry e s s' s0); [done|done|done|done|]. split; try done. intros a. rewrite !look_spec, U6, (load_trie s0 s a U5). reflexivity.
Qed.

Lemma AddPreimage_leads h p s : wf s → leads s (AddPreimage h p s).
Proof.
  intros Hw. unfold AddPreimage. destruct (preimages s !! h) as [x|] eqn:Ep; [by apply leads_refl|].
  assert (wf (log_change (addPreimageChange h) s)) as [Hobj Htr Hj Hl Hz] by (by apply log_change_wf).
  eapply (leads_entry (addPreimageChange h)); [by split|done|done|reflexivity|]. split; try done.
  - intros a. rewrite !look_spec. reflexivity.
  - cbn. by rewrite delete_insert_id.
Qed.

Lemma AddRefund_leads g s : wf s → leads s (AddRefund g s).
Proof.
  intros Hw. assert (wf (log_change (refundChange (refund s)) s)) as [Hobj Htr Hj Hl Hz] by (by apply log_change_wf).
  eapply (leads_entry (refundChange (refund s))); [by split|done|done|reflexivity|]. split; try done. intros a. rewrite !look_spec. reflexivity.
Qed.

(** Readers load objects and slots, and note errors. *)
Lemma put_held_leads o s : wf s → held o s → leads s (setStateObject o s).
Proof.
  intros Hw (Hl & Ho & Hd). apply leads_quiet; [by apply put_wf| |done|done]. split; try done. intros a. rewrite look_put, Hd. case_decide as Ha; [|reflexivity].
  by rewrite Ha.
Qed.

Lemma GetCode_leads a s : wf s → leads s (snd (GetCode a s)).
Proof.
  intros Hw. unfold GetCode. destruct (getStateObject a s) as [[o|] s1] eqn:E; destruct (get_leads a s _ s1 Hw E) as (Hl & Hlo & _); [|done].
  destruct (Code o) as [c o1] eqn:Ec. destruct (Code_spec o c o1 Ec) as [Hs Hf]. eapply leads_then; [exact Hl|]. cbn [snd].
  apply put_held_leads; [apply Hl|]. eapply held_refreshed; [|done..]. apply (look_held s1 a o); [apply Hl|done].
Qed.

Lemma setError_leads s : wf s → leads s (setError s).
Proof. intros Hw. apply leads_quiet; [by destruct Hw|apply same_setError|done|done]. Qed.

Lemma GetCodeSize_leads a s : wf s → leads s (snd (GetCodeSize a s)).
Proof.
  intros Hw. unfold GetCodeSize. destruct (getStateObject a s) as [[o|] s1] eqn:E; destruct (get_leads a s _ s1 Hw E) as (Hl & Hlo & _); [|done].
  destruct (code o); [|done]. destruct (ContractCode _ _); [done|]. eapply leads_then; [exact Hl|]. apply setError_leads, Hl.
Qed.

Lemma GetState_leads a k s v s' : wf s → GetState a k s = Ok (v, s') → leads s s'.
Proof.
  intros Hw E. unfold GetState in E. destruct (getStateObject a s) as [[o|] s1] eqn:E1; destruct (get_leads a s _ s1 Hw E1) as (Hl & Hlo & _); [|by injection E as <- <-].
  destruct (o_GetState k o) as [[v' o1]| | |] eqn:Eg; cbn [rbind] in E; try done. injection E as <- <-.
  destruct (o_GetState_spec k o v' o1 Eg) as (Hp & Hs & Hf). eapply leads_then; [exact Hl|].
  apply put_held_leads; [apply Hl|]. eapply held_refreshed; [|done..]. apply (look_held s1 a o); [apply Hl|done].
Qed.

(** ** Snapshots *)

(** All operations a contract can cause. *)
Inductive op :=
| OExist (a : bytes) | OEmpty (a : bytes) | OGetBalance (a : bytes) | OGetNonce (a : bytes) | OGetCodeHash (a : bytes) | OHasSuicided (a : bytes)
| OGetCode (a : bytes) | OGetCodeSize (a : bytes) | OGetState (a k : bytes)
| OSetBalance (a : bytes) (b : Z) | OAddBalance (a : bytes) (b : Z) | OSubBalance (a : bytes) (b : Z) | OSetNonce (a : bytes) (n : Z)
| OSetCode (a c : bytes) | OSetState (a k v : bytes) | OSuicide (a : bytes) | OCreateAccount (a : bytes)
| OAddLog (l : CoreBlock.Log) | OAddPreimage (h p : bytes) | OAddRefund (g : Z)
| OSnapshot | ORevert (id : Z).

Definition apply_op (x : op) s : result unit StateDB :=
  match x with
  | OExist a => Ok (snd (Exist a s)) | OEmpty a => Ok (snd (Empty a s)) | OGetBalance a => Ok (snd (GetBalance a s))
  | OGetNonce a => Ok (snd (GetNonce a s)) | OGetCodeHash a => Ok (snd (GetCodeHash a s)) | OHasSuicided a => Ok (snd (HasSuicided a s))
  | OGetCode a => Ok (snd (GetCode a s)) | OGetCodeSize a => Ok (snd (GetCodeSize a s))
  | OGetState a k => let? (_, s) := GetState a k s in Ok s
  | OSetBalance a b => Ok (SetBalance a b s) | OAddBalance a b => Ok (AddBalance a b s) | OSubBalance a b => Ok (SubBalance a b s)
  | OSetNonce a n => Ok (SetNonce a n s) | OSetCode a c => Ok (SetCode a c s) | OSetState a k v => SetState a k v s
  | OSuicide a => Ok (snd (Suicide a s)) | OCreateAccount a => Ok (CreateAccount a s)
  | OAddLog l => Ok (AddLog l s) | OAddPreimage h p => Ok (AddPreimage h p s) | OAddRefund g => Ok (AddRefund g s)
  | OSnapshot => Ok (snd (Snapshot s)) | ORevert id => RevertToSnapshot id s
  end.

Fixpoint run (xs : list op) s : result unit StateDB :=
  match xs with [] => Ok s | x :: xs => let? s := apply_op x s in run xs s end.

Lemma apply_op_leads x s s' :
  wf s → match x with OSnapshot | ORevert _ => False | _ => True end → apply_op x s = Ok s' → leads s s'.
Proof.
  intros Hw Hx E. destruct x; cbn [apply_op] in E; try done;
    try (by injection E as <-; first [by apply GetCode_leads|by apply GetCodeSize_leads|by apply SetBalance_leads|by apply AddBalance_leads|
      by apply SubBalance_leads|by apply SetNonce_leads|by apply SetCode_leads|by apply Suicide_leads|by apply CreateAccount_leads|by apply AddLog_leads|
      by apply AddPreimage_leads|by apply AddRefund_leads]);
    try (injection E as <-; unfold Exist, Empty, GetBalance, GetNonce, GetCodeHash, HasSuicided; destruct (getStateObject a s) as [r s1] eqn:E1;
      by destruct (get_leads a s r s1 Hw E1)).
  - destruct (GetState a k s) as [[v s1]| | |] eqn:Eg; cbn [rbind] in E; try done. injection E as <-. by eapply GetState_leads.
  - by eapply SetState_leads.
Qed.

Lemma search_loop_spec fuel f i j k :
  (i ≤ k ≤ j)%nat → (j - i < fuel)%nat → (∀ n, (i ≤ n < k)%nat → f n = false) → (∀ n, (k ≤ n < j)%nat → f n = true) → search_loop fuel f i j = k.
Proof.
  revert i j. induction fuel as [|fuel IH]; intros i j Hk Hf Hlo Hhi; [lia|]. cbn [search_loop]. destruct (Nat.ltb_spec i j) as [Hij|Hij]; [|lia].
  set (h := (i + (j - i) / 2)%nat). assert (i ≤ h < j)%nat as Hh.
  { pose proof (Nat.div_lt (j - i) 2). pose proof (Nat.div_small (j - i) 2). unfold h. destruct (decide (j - i = 1)%nat) as [->|]; [cbn; lia|].
    assert ((j - i) / 2 < j - i)%nat by (apply Nat.div_lt; lia). lia. }
  destruct (decide (h < k)%nat) as [Hhk|Hhk].
  - rewrite (Hlo h) by lia. apply IH; [lia|lia|..]; intros n Hn; [apply Hlo|apply Hhi]; lia.
  - rewrite (Hhi h) by lia. apply IH; [lia|lia|..]; intros n Hn; [apply Hlo|apply Hhi]; lia.
Qed.

Lemma Search_spec n f k :
  (k ≤ n)%nat → (∀ i, (i < k)%nat → f i = false) → (∀ i, (k ≤ i < n)%nat → f i = true) → Search n f = k.
Proof. intros Hk Hlo Hhi. apply search_loop_spec; [lia|lia|..]; intros i Hi; [apply Hlo|apply Hhi]; lia. Qed.

Definition before (r r' : Z * nat) : Prop := r.1 < r'.1 ∧ (r.2 ≤ r'.2)%nat.

Record revs_ok s : Prop := {
  ro_sorted : StronglySorted before (validRevisions s);
  ro_bounds : Forall (fun r => r.1 < nextRevisionId s ∧ (r.2 ≤ length (journal s))%nat) (validRevisions s) }.

(** The snapshot that is looked for is found where it is. *)
Lemma find_revision revs1 id n revs2 :
  StronglySorted before (revs1 ++ (id, n) :: revs2) →
  let revs := revs1 ++ (id, n) :: revs2 in
  Search (length revs) (fun i => match revs !! i with Some r => id <=? r.1 | None => true end) = length revs1.
Proof.
  intros Hs revs. apply Search_spec.
  - unfold revs. rewrite length_app. lia.
  - intros i Hi. unfold revs. rewrite lookup_app_l by done. destruct (lookup_lt_is_Some_2 revs1 i Hi) as [r Er]. rewrite Er.
    apply Z.leb_gt. apply StronglySorted_app_1_elem_of with (x1 := r) (x2 := (id, n)) in Hs as [? _]; [done|by eapply list_elem_of_lookup_2|left].
  - intros i Hi. destruct (revs !! i) as [r|] eqn:Er; [|done]. apply Z.leb_le. unfold revs in Er. rewrite lookup_app_r in Er by lia.
    destruct (i - length revs1)%nat as [|m]; [by injection Er as <-|]. simpl in Er. apply StronglySorted_app_1_r in Hs.
    apply StronglySorted_inv in Hs as [_ Hs]. rewrite Forall_forall in Hs. destruct (Hs r) as [? _]; [by eapply list_elem_of_lookup_2|]. simpl in *. lia.
Qed.

(** From [s'] one can go back to [s] or to any snapshot taken since. *)
Record grows s s' : Prop := {
  gr_wf : wf s';
  gr_revs_ok : revs_ok s';
  gr_next : nextRevisionId s ≤ nextRevisionId s';
  gr_revs : ∃ rs, validRevisions s' = validRevisions s ++ rs ∧ Forall (fun r => nextRevisionId s ≤ r.1 ∧ (length (journal s) ≤ r.2)%nat) rs;
  gr_back : back s s' }.

Lemma grow_refl s : wf s → revs_ok s → grows s s.
Proof. intros Hw Hr. split; [done|done|lia|exists []; by rewrite app_nil_r|exists [], s; by rewrite app_nil_r]. Qed.

Lemma leads_revs s s' : leads s s' → revs_ok s → revs_ok s'.
Proof.
  intros [_ [Hv Hn] (js & _ & Hj & _)] [Hs Hb]. split; rewrite Hv; [done|]. eapply Forall_impl; [exact Hb|]. intros r [H1 H2]. rewrite Hn, Hj, length_app. lia.
Qed.

Lemma grows_leads s s1 s2 : grows s s1 → leads s1 s2 → grows s s2.
Proof.
  intros [Hw1 Hr1 Hn (rs & Ers & Hrs) Hb] Hl. pose proof (leads_revs s1 s2 Hl Hr1) as Hr2. destruct Hl as [Hw2 [Hv Hn2] Hb2].
  split; [done|done|lia|exists rs; split; [congruence|done]|by apply (back_trans s s1 s2)].
Qed.

Lemma Snapshot_leads_back s : wf s → wf (snd (Snapshot s)) ∧ back s (snd (Snapshot s)).
Proof.
  intros [Hobj Htr Hj Hl Hz]. split; [by split|]. exists [], (snd (Snapshot s)). rewrite app_nil_r. split_and!; [done|done|].
  split; try done. intros a. rewrite !look_spec. reflexivity.
Qed.

Lemma Snapshot_revs s : revs_ok s → revs_ok (snd (Snapshot s)).
Proof.
  intros [Hs Hb]. rewrite Forall_forall in Hb. split; cbn.
  - apply StronglySorted_app_2; [|done|by repeat constructor]. intros x1 x2 H1 H2. apply list_elem_of_singleton in H2 as ->. by apply Hb.
  - apply Forall_app. split; [|by repeat constructor; cbn; lia]. apply Forall_forall. intros r Hr. destruct (Hb r Hr). cbn. lia.
Qed.

Lemma grows_snapshot s s1 : grows s s1 → grows s (snd (Snapshot s1)).
Proof.
  intros [Hw1 Hr1 Hn (rs & Ers & Hrs) Hb]. destruct (Snapshot_leads_back s1 Hw1) as [Hw2 Hb2].
  split; [done|by apply Snapshot_revs|cbn; lia| |by apply (back_trans s s1)].
  exists (rs ++ [(nextRevisionId s1, length (journal s1))]). split; [cbn; by rewrite Ers, app_assoc|]. apply Forall_app. split; [done|].
  repeat constructor; cbn; [done|]. destruct Hb as (js & _ & -> & _). rewrite length_app. lia.
Qed.

(** The state a revert returns, when the journal is undone from [js2] on. *)
Lemma undone s s1 js1 js2 t revs next :
  wf s1 → journal s1 = journal s ++ js1 ++ js2 → back s s1 → undo_all (rev js2) s1 = Ok t →
  let s2 := s_set_journal (journal s ++ js1) revs next t in wf s2 ∧ back s s2.
Proof.
  intros Hw1 Ej (js & s0 & Ej' & Eu & Hs) Et s2. rewrite Ej in Ej'. apply app_inv_head in Ej' as <-.
  pose proof (wf_journal s1 Hw1) as Hj. rewrite Ej in Hj. apply Forall_app in Hj as [Hj0 Hj]. apply Forall_app in Hj as [Hj1 Hj2].
  rewrite rev_app_distr, undo_all_app, Et in Eu. cbn [rbind] in Eu.
  destruct (undo_all_ok (rev js2) s1 s1 t) as (Hwt & _); [by apply Forall_rev|done..|].
  assert (wf s2) as Hw2 by (destruct Hwt; split; try done; by apply Forall_app). split; [done|].
  destruct (undo_all_ok (rev js1) t s2 s0) as (_ & s0' & Eu' & _ & Hs0); [by apply Forall_rev|done|done| |done|].
  { split; try done. intros a. rewrite !look_spec. reflexivity. }
  exists js1, s0'. split_and!; [done|done|by rewrite <- Hs0].
Qed.

Lemma Revert_split id s s' :
  RevertToSnapshot id s = Ok s' →
  ∃ revs1 n revs2 t, validRevisions s = revs1 ++ (id, n) :: revs2 ∧ undo_all (rev (drop n (journal s))) s = Ok t ∧
    s' = s_set_journal (take n (journal s)) revs1 (nextRevisionId s) t.
Proof.
  intros E. unfold RevertToSnapshot in E. set (idx := Search _ _) in E. destruct (validRevisions s !! idx) as [[id' n]|] eqn:El; [|done].
  destruct (Z.eqb_spec id' id) as [->|]; [|done]. cbn [negb] in E. destruct (undo_all _ s) as [t| | |] eqn:Et; cbn [rbind] in E; try done. injection E as <-.
  exists (take idx (validRevisions s)), n, (drop (S idx) (validRevisions s)), t. split_and!; [|done|done]. by rewrite take_drop_middle.
Qed.

Lemma revs_ok_reverted s t revs1 id n revs2 :
  revs_ok s → validRevisions s = revs1 ++ (id, n) :: revs2 → revs_ok (s_set_journal (take n (journal s)) revs1 (nextRevisionId s) t).
Proof.
  intros [Hs Hb] Ev. rewrite Ev in Hs, Hb. apply Forall_app in Hb as [Hb1 Hb2]. apply Forall_cons in Hb2 as [[_ Hn] _]. simpl in Hn. split; cbn.
  - by eapply StronglySorted_app_1_l.
  - rewrite Forall_forall in *. intros r Hr. destruct (Hb1 r Hr). split; [done|]. rewrite length_take.
    destruct (StronglySorted_app_1_elem_of before revs1 ((id, n) :: revs2) r (id, n) Hs Hr) as [_ Hle]; [left|]. simpl in Hle. lia.
Qed.

Lemma grows_revert s s1 id s2 : revs_ok s → grows s s1 → nextRevisionId s ≤ id → RevertToSnapshot id s1 = Ok s2 → grows s s2.
Proof.
  intros Hrs [Hw1 Hr1 Hn (rs & Ers & Hin) Hb] Hid E. destruct (Revert_split id s1 s2 E) as (revs1 & n & revs2 & t & Ev & Et & ->).
  pose proof (revs_ok_reverted s1 t revs1 id n revs2 Hr1 Ev) as Hr2.
  assert (∃ k, revs1 = validRevisions s ++ k ∧ rs = k ++ (id, n) :: revs2) as (k & -> & ->).
  { rewrite Ers in Ev. apply app_eq_inv in Ev as [([|r k] & Ek & Ev)|(k & Ek & Ev)]; [|exfalso|by exists k].
    - rewrite app_nil_r in Ek. exists []. by rewrite app_nil_r.
    - injection Ev as <- ->. destruct Hrs as [_ Hrs]. rewrite Ek, Forall_app, Forall_cons in Hrs. simpl in Hrs. lia. }
  apply Forall_app in Hin as [Hin1 Hin2]. apply Forall_cons in Hin2 as [[_ Hln] _]. simpl in Hln. destruct Hb as (js & s0 & Ej & Hb).
  rewrite Ej, drop_app_ge in Et by done. rewrite Ej, take_app_ge in * by done.
  destruct (undone s s1 (take (n - length (journal s)) js) (drop (n - length (journal s)) js) t (validRevisions s ++ k) (nextRevisionId s1)) as [Hw2 Hb2];
    [done|by rewrite take_drop|by exists js, s0|done|]. split; [done|done|done|by exists k|done].
Qed.

Lemma run_grows xs s s1 s2 :
  revs_ok s → grows s s1 → Forall (fun x => match x with ORevert id => nextRevisionId s ≤ id | _ => True end) xs → run xs s1 = Ok s2 → grows s s2.
Proof.
  intros Hr Hg Hxs. revert s1 Hg. induction Hxs as [|x xs Hx _ IH]; intros s1 Hg E; [by injection E as <-|]. cbn [run] in E.
  destruct (apply_op x s1) as [t| | |] eqn:Et; cbn [rbind] in E; try done. apply (IH t); [|done].
  assert (match x with OSnapshot | ORevert _ => False | _ => True end ∨ match x with OSnapshot | ORevert _ => True | _ => False end) as [Hs|Hs]
    by (destruct x; tauto).
  - eapply grows_leads; [done|]. eapply apply_op_leads; [apply Hg|done|done].
  - destruct x; try done; cbn [apply_op] in Et; [injection Et as <-; by apply grows_snapshot|by eapply grows_revert].
Qed.

Lemma grows_then s s1 s2 : grows s s1 → grows s1 s2 → grows s s2.
Proof.
  intros [Hw1 Hr1 Hn (rs & Ers & Hrs) Hb] [Hw2 Hr2 Hn2 (rs2 & Ers2 & Hrs2) Hb2]. split; [done|done|lia| |by apply (back_trans s s1 s2)].
  exists (rs ++ rs2). split; [by rewrite Ers2, Ers, app_assoc|]. apply Forall_app. split; [done|].
  destruct Hb as (js & _ & Ej & _). eapply Forall_impl; [exact Hrs2|]. intros r [H1 H2]. rewrite Ej, length_app in H2. lia.
Qed.

(** Going back to a snapshot from a state that grew from it. *)
Lemma revert_grown s s2 :
  wf s → revs_ok s → grows (snd (Snapshot s)) s2 →
  ∃ s3, RevertToSnapshot (nextRevisionId s) s2 = Ok s3 ∧ same s3 s ∧ journal s3 = journal s ∧ validRevisions s3 = validRevisions s ∧
    nextRevisionId s ≤ nextRevisionId s3 ∧ wf s3 ∧ revs_ok s3.
Proof.
  intros Hw Hr [Hw2 Hr2 Hn (rs & Ers & Hrs) (js & t & Ej & Eu & Hs)]. cbn in Hn.
  assert (same (snd (Snapshot s)) s) as Hs1 by (split; try done; intros a; rewrite !look_spec; reflexivity).
  assert (validRevisions s2 = validRevisions s ++ (nextRevisionId s, length (journal s)) :: rs) as Ev by (rewrite Ers; cbn; by rewrite <- app_assoc).
  cbn in Ej. pose proof (revs_ok_reverted s2 t _ _ _ _ Hr2 Ev) as Hr3. rewrite Ej, take_app_length in Hr3.
  destruct (undone (snd (Snapshot s)) s2 [] js t (validRevisions s) (nextRevisionId s2)) as [Hw3 _]; [done|done|by exists js, t|done|].
  unfold RevertToSnapshot. destruct Hr2 as [Hsort _]. rewrite Ev in Hsort |- *. rewrite (find_revision _ _ _ _ Hsort), list_lookup_middle by done.
  rewrite Z.eqb_refl. cbn [negb]. rewrite Ej, drop_app_length, Eu. cbn [rbind]. eexists. split; [done|]. rewrite take_app_length, take_app_length in *.
  cbn in Hw3. rewrite app_nil_r in Hw3. split_and!; try done; [|cbn; lia].
  trans t; [split; try done; intros a; rewrite !look_spec; reflexivity|]. by rewrite Hs.
Qed.

(** C17: Reverting to a snapshot succeeds and restores everything that can be read: the
    accounts with their balance, nonce, code, storage and suicide mark, the refund, the
    logs and the preimages.  Whatever reads, writes, snapshots and reverts to later
    snapshots happened in between, in any order, the journal and the older snapshots are
    as they were. *)
Theorem snapshots_restore s id s1 xs s2 :
  wf s → revs_ok s → Snapshot s = (id, s1) →
  Forall (fun x => match x with ORevert id' => id < id' | _ => True end) xs → run xs s1 = Ok s2 →
  ∃ s3, RevertToSnapshot id s2 = Ok s3 ∧ same s3 s ∧ journal s3 = journal s ∧ validRevisions s3 = validRevisions s ∧ wf s3 ∧ revs_ok s3.
Proof.
  intros Hw Hr Es Hxs Erun. injection Es as <- Es1. assert (s1 = snd (Snapshot s)) as -> by (by rewrite <- Es1).
  pose proof (Snapshot_revs s Hr) as Hr1. destruct (Snapshot_leads_back s Hw) as [Hw1 _].
  destruct (revert_grown s s2 Hw Hr) as (s3 & ? & ? & ? & ? & _ & ? & ?); [|by exists s3].
  eapply run_grows; [done|by apply grow_refl| |done]. eapply Forall_impl; [exact Hxs|]. intros x Hx. destruct x; cbn; try done. lia.
Qed.
End thms.

#[local] Transparent hash256 decode Split.

(** ** A database in memory *)

(** Tries as maps; only the empty trie can be opened, and there is no code. *)
#[local] Instance map_tries : Tries (gmap bytes bytes) unit := {|
  OpenTrie root := if bool_decide (root = emptyHash) then Some ∅ else None;
  OpenStorageTrie _ root := if bool_decide (root = emptyHash) then Some ∅ else None;
  EmptyTrie := ∅;
  TryGet t k := Some (default [] (t !! k));
  TryUpdate t k v := Some (match v with [] => delete k t | _ => <[k := v]> t end);
  TryDelete t k := Some (delete k t);
  trie_Hash t := hash256 (concat (map (fun kv => [kv.1; kv.2]) (map_to_list t)));
  trie_CommitTo t w := Some (emptyHash, t, w);
  Put _ _ w := Some w;
  ContractCode _ _ := None |}.

Definition sample_addr : bytes := replicate 20 x11.
Definition other_addr : bytes := replicate 20 x22.

(** A state whose trie has one account, with no balance, nonce or code. *)
Definition sample_enc : bytes := Eval vm_compute in match encode zeroAccount with Ok b => b | _ => [] end.
Definition sample_state : StateDB (Tr:=gmap bytes bytes) :=
  mkState {[sample_addr := sample_enc]} ∅ ∅ false 0 emptyHash emptyHash 0 ∅ 0 ∅ [] [] 0.

Lemma sample_load a : fst (load a sample_state) = if decide (a = sample_addr) then Some zeroAccount else None.
Proof.
  unfold load. cbn [TryGet map_tries trie sample_state]. destruct (decide (a = sample_addr)) as [->|Hne]; [vm_compute; reflexivity|].
  by rewrite lookup_singleton_ne by congruence.
Qed.

Lemma sample_wf : wf sample_state ∧ revs_ok sample_state.
Proof.
  split; [split; try done|by split; constructor].
  - intros a acc Hl. rewrite sample_load in Hl. case_decide; [|done]. by injection Hl as <-.
Qed.

Definition sample_ops : list op := [OAddBalance sample_addr 0; OAddBalance other_addr 7; OSetState other_addr emptyHash (replicate 32 x01); OSnapshot;
  OSuicide other_addr; OSetCode sample_addr [x60; x00]; ORevert 1; OSetNonce other_addr 3; OAddRefund 5].
Definition sample_after : StateDB (Tr:=gmap bytes bytes) :=
  match run sample_ops (snd (Snapshot sample_state)) with Ok s => s | _ => sample_state end.

Lemma is_ok_get {E A} (r : result E A) d : is_ok r = true → r = Ok (match r with Ok a => a | _ => d end).
Proof. by destruct r. Qed.
Lemma sample_runs : run sample_ops (snd (Snapshot sample_state)) = Ok sample_after.
Proof. apply is_ok_get. vm_compute. reflexivity. Qed.

Lemma snapshots_restore_witness :
  ∃ s3, RevertToSnapshot 0 sample_after = Ok s3 ∧ same s3 sample_state ∧ journal s3 = journal sample_state ∧
    validRevisions s3 = validRevisions sample_state ∧ wf s3 ∧ revs_ok s3.
Proof.
  apply (snapshots_restore sample_state 0 (snd (Snapshot sample_state)) sample_ops).
  - exact (proj1 sample_wf).
  - exact (proj2 sample_wf).
  - reflexivity.
  - repeat constructor.
  - exact sample_runs.
Defined.

End StateThms.
