(* ===== verification/StateTidy.v ===== *)
(** More invariants of the state database ([StateTidy]): an address that is marked as changed
    has an object, the cache of an object's slots has those that are to be written and
    otherwise what is in its trie, and an object that was taken out
    of the trie stays as it was.  They hold along all operations and their undoing, and are
    what writing the state relies on. *)

From S2P Require Import Prelude RlpEncode RlpRaw RlpDecode RlpRoundtrip RlpTotal KeccakF Sha3 CoreTypes.
From S2P Require Import Prque TrieEncoding TrieNode Trie TrieThms TrieHash TrieMap CoreBlock StateDB StateThms.

Module StateTidy.
Import Rlp Raw Codec Types State StateThms.

#[local] Opaque hash256 decode Split.

Lemma length_BytesToHash b : length (BytesToHash b) = HashLength.
Proof.
  unfold BytesToHash, set_bytes. cbv zeta. destruct (Nat.ltb_spec HashLength (length b)); rewrite length_app, length_replicate, ?length_drop; lia.
Qed.

Section tidy.
Context {Tr W : Type} `{Tries Tr W}.
Implicit Types (s t : StateDB (Tr:=Tr)) (o : stateObject (Tr:=Tr)) (e : journalEntry (Tr:=Tr)).

Record slots_ok o : Prop := {
  sl_dirty : ∀ k v, dirtyStorage o !! k = Some v → cachedStorage o !! k = Some v;
  sl_words : ∀ k v, cachedStorage o !! k = Some v → length v = HashLength;
  sl_clean : ∀ k v, cachedStorage o !! k = Some v → dirtyStorage o !! k = None → read_slot (fst (getTrie o)) k = Some v }.
Definition tidy_object o : Prop := slots_ok o ∧ (deleted o = true → suicided o = true ∨ empty o = true).
Definition tidy_entry e : Prop :=
  match e with resetObjectChange prev => slots_ok prev | storageChange _ _ prev => length prev = HashLength | _ => True end.

Record tidy s : Prop := {
  td_dirty : ∀ a, a ∈ stateObjectsDirty s → is_Some (stateObjects s !! a);
  td_objects : ∀ a o, stateObjects s !! a = Some o → tidy_object o;
  td_journal : Forall tidy_entry (journal s) }.

(** Writes that keep the storage and its root. *)
Lemma slots_same o o' :
  slots_ok o → cachedStorage o' = cachedStorage o → dirtyStorage o' = dirtyStorage o → o_trie o' = o_trie o → address o' = address o → acc_Root (data o') = acc_Root (data o) →
  slots_ok o'.
Proof. intros [H1 H2 H3] E1 E2 E3 E4 E5. split; rewrite ?E1, ?E2; [done|done|]. by rewrite (getTrie_eq o' o). Qed.

Lemma slots_new a acc : slots_ok (newObject a acc).
Proof. split; intros k v; cbn; by rewrite lookup_empty. Qed.
#[local] Hint Resolve slots_new : core.
#[local] Hint Extern 0 (slots_ok _) => (eapply slots_same; [eassumption|reflexivity..]) : core.

(** ** Steps the operations are made of *)

Lemma tidy_put o s : tidy s → tidy_object o → tidy (setStateObject o s).
Proof.
  intros [Hd Ho Hj] Hx. split; [| |done]; cbn.
  - intros a Ha. destruct (decide (address o = a)) as [->|Hne]; [by rewrite lookup_insert_eq|rewrite lookup_insert_ne by done; by apply Hd].
  - intros a o' [[_ <-]|[_ Hin]]%lookup_insert_Some; [done|by eapply Ho].
Qed.

Lemma tidy_alive o : slots_ok o → deleted o = false → tidy_object o.
Proof. intros Hs Hd. split; [done|]. by rewrite Hd. Qed.

Lemma tidy_put_dirty o s : tidy s → tidy_object o → tidy (setStateObject o (MarkStateObjectDirty (address o) s)).
Proof.
  intros [Hd Ho Hj] Hx. split; [| |done]; cbn.
  - intros a [Ha|<-%elem_of_singleton]%elem_of_union; [|by rewrite lookup_insert_eq].
    destruct (decide (address o = a)) as [->|Hne]; [by rewrite lookup_insert_eq|rewrite lookup_insert_ne by done; by apply Hd].
  - intros a o' [[_ <-]|[_ Hin]]%lookup_insert_Some; [done|by eapply Ho].
Qed.

Lemma tidy_log e s : tidy s → tidy_entry e → tidy (log_change e s).
Proof. intros [Hd Ho Hj] He. split; [done|done|]. cbn. apply Forall_app. split; [done|by constructor]. Qed.

Lemma tidy_undirty a s : tidy s → tidy (s_set_objects (stateObjects s) (stateObjectsDirty s ∖ {[a]}) s).
Proof. intros [Hd Ho Hj]. split; [|done|done]. cbn. intros x [Hx _]%elem_of_difference. by apply Hd. Qed.

Lemma tidy_write f o s : tidy s → slots_ok (f o) → deleted (f o) = false → tidy (write f o s).
Proof.
  intros Ht Hs Hd. unfold write. destruct (onDirty (f o)); [|by apply tidy_put, tidy_alive].
  apply (tidy_put_dirty (o_set_flags (o_dbErr (f o)) (suicided (f o)) (touched (f o)) (deleted (f o)) false (f o))); [done|]. apply tidy_alive; [by apply (slots_same (f o))|done].
Qed.

(** Only fields change that do not count here. *)
Lemma tidy_frame s t : stateObjects t = stateObjects s → stateObjectsDirty t = stateObjectsDirty s → journal t = journal s → tidy s → tidy t.
Proof. intros E1 E2 E3 [Hd Ho Hj]. split; by rewrite ?E1, ?E2, ?E3. Qed.

Lemma tidy_get a s r s' : tidy s → getStateObject a s = (r, s') → tidy s' ∧ ∀ o, r = Some o → slots_ok o ∧ deleted o = false.
Proof.
  intros Ht E. unfold getStateObject in E. destruct (stateObjects s !! a) as [o|] eqn:Eo.
  - destruct (deleted o) eqn:Ed; injection E as <- <-; (split; [done|]); [done|]. intros x [= <-]. split; [by apply (td_objects s Ht a)|done].
  - destruct (load a s) as [[acc|] b].
    + injection E as <- <-. split; [apply tidy_put; [done|by apply tidy_alive]|]. intros x [= <-]. done.
    + injection E as <- <-. split; [|done]. destruct b; [|done]. by apply (tidy_frame s).
Qed.

Lemma tidy_create a s n p s' : wf s → tidy s → createObject a s = (n, p, s') → tidy s' ∧ slots_ok n ∧ deleted n = false.
Proof.
  intros Hw Ht E. unfold createObject in E. destruct (getStateObject a s) as [q s1] eqn:E1. destruct (tidy_get a s q s1 Ht E1) as [Ht1 Hq]. injection E as <- <- <-.
  split; [|done]. set (n := o_set_flags _ _ _ _ _ _). set (e := match q with None => _ | Some _ => _ end).
  assert (tidy (setStateObject n (MarkStateObjectDirty a s1))) as Ht2 by (apply (tidy_put_dirty n); [done|by apply tidy_alive]).
  assert (tidy_entry e) as He by (unfold e; destruct q as [x|]; [by apply Hq|done]).
  apply (tidy_frame (log_change e (setStateObject n (MarkStateObjectDirty a s1)))); [done..|]. by apply tidy_log.
Qed.

Lemma tidy_getOrNew a s o s' : wf s → tidy s → GetOrNewStateObject a s = (o, s') → tidy s' ∧ slots_ok o ∧ deleted o = false.
Proof.
  intros Hw Ht E. unfold GetOrNewStateObject in E. destruct (getStateObject a s) as [[p|] s1] eqn:E1; destruct (tidy_get a s _ s1 Ht E1) as [Ht1 Hq].
  - injection E as <- <-. split; [done|by apply Hq].
  - destruct (getStateObject_spec a s _ s1 Hw E1) as (_ & Hw1 & _). destruct (createObject a s1) as [[n q] s2] eqn:E2. injection E as <- <-. by eapply tidy_create.
Qed.

Lemma tidy_Code o c o' : Code o = (c, o') → slots_ok o → slots_ok o'.
Proof.
  unfold Code. destruct (code o); [|by intros [= _ <-]]. case_bool_decide; [by intros [= _ <-]|]. destruct (ContractCode _ _); by intros [= _ <-].
Qed.

Lemma slots_read k v o :
  slots_ok o → cachedStorage o !! k = None → length v = HashLength → read_slot (fst (getTrie o)) k = Some v →
  slots_ok (o_set_storage (<[k := v]> (cachedStorage o)) (dirtyStorage o) o).
Proof.
  intros [Hd Hc Hr] Hk Hv Hg. split; cbn [cachedStorage dirtyStorage o_set_storage]; intros x y Hx.
  - destruct (decide (k = x)) as [<-|Hne]; [apply Hd in Hx; congruence|]. rewrite lookup_insert_ne by done. by apply Hd.
  - apply lookup_insert_Some in Hx as [[_ <-]|[_ Hx]]; [done|by eapply Hc].
  - intros Hy. rewrite (getTrie_eq _ o) by done. apply lookup_insert_Some in Hx as [[<- <-]|[_ Hx]]; [done|by apply Hr].
Qed.

Lemma slots_set k v o : slots_ok o → length v = HashLength → slots_ok (o_set_storage (<[k := v]> (cachedStorage o)) (<[k := v]> (dirtyStorage o)) o).
Proof.
  intros [Hd Hc Hr] Hv. split; cbn [cachedStorage dirtyStorage o_set_storage]; intros x y.
  - destruct (decide (k = x)) as [<-|Hne]; [by rewrite !lookup_insert_eq|]. rewrite !lookup_insert_ne by done. apply Hd.
  - intros [[_ <-]|[_ Hx]]%lookup_insert_Some; [done|by eapply Hc].
  - rewrite (getTrie_eq _ o) by done. destruct (decide (k = x)) as [<-|Hne]; [by rewrite (lookup_insert_eq (dirtyStorage o))|]. rewrite !lookup_insert_ne by done. apply Hr.
Qed.

Lemma tidy_getTrie o (t : Tr) o1 : getTrie o = (t, o1) → slots_ok o → slots_ok o1.
Proof.
  intros Et [Hd Hc Hr]. destruct (getTrie_frame o t o1 Et) as (_ & Hg & _ & Hca).
  assert (dirtyStorage o1 = dirtyStorage o) as Hdi by (unfold getTrie in Et; destruct (o_trie o); [by injection Et as _ <-|]; destruct (OpenStorageTrie _ _); by injection Et as _ <-).
  split; rewrite ?Hca, ?Hdi; [done|done|]. rewrite Hg. by rewrite Et in Hr.
Qed.

Lemma tidy_o_GetState k o v o' : o_GetState k o = Ok (v, o') → slots_ok o → slots_ok o' ∧ length v = HashLength.
Proof.
  intros E Hs. unfold o_GetState in E. destruct (cachedStorage o !! k) as [x|] eqn:Ec; [injection E as <- <-; split; [done|by eapply sl_words]|].
  destruct (getTrie o) as [t o1] eqn:Et. destruct (getTrie_frame o t o1 Et) as (_ & Hg & _ & Hca). pose proof (tidy_getTrie o t o1 Et Hs) as Hs1.
  destruct (TryGet t k) as [[|b enc]|] eqn:Eg; cbn [rbind] in E; [case_bool_decide; by injection E as <- <-| |by injection E as <- <-].
  destruct (Split (b :: enc)) as [[[kk cc] rr]| | |] eqn:Ep; cbn [rbind] in E; try done; case_bool_decide; injection E as <- <-; (split; [|try done; apply length_BytesToHash]);
    try done; apply slots_read; try done; try congruence; try apply length_BytesToHash; by rewrite Hg; unfold read_slot; rewrite Eg, Ep.
Qed.

(** ** The operations *)

Ltac tidy_new a s Hw Ht := destruct (GetOrNewStateObject a s) as [?o ?s'] eqn:?E; destruct (tidy_getOrNew a s _ _ Hw Ht E) as (? & ? & ?).

Lemma tidy_AddBalance a x s : wf s → tidy s → tidy (AddBalance a x s).
Proof.
  intros Hw Ht. unfold AddBalance. tidy_new a s Hw Ht. destruct (x =? 0); [destruct (empty o); [|done]|]; (apply tidy_write; [by apply tidy_log|done..]).
Qed.
Lemma tidy_SubBalance a x s : wf s → tidy s → tidy (SubBalance a x s).
Proof. intros Hw Ht. unfold SubBalance. tidy_new a s Hw Ht. destruct (x =? 0); [done|]. apply tidy_write; [by apply tidy_log|done..]. Qed.
Lemma tidy_SetBalance a x s : wf s → tidy s → tidy (SetBalance a x s).
Proof. intros Hw Ht. unfold SetBalance. tidy_new a s Hw Ht. apply tidy_write; [by apply tidy_log|done..]. Qed.
Lemma tidy_SetNonce a n s : wf s → tidy s → tidy (SetNonce a n s).
Proof. intros Hw Ht. unfold SetNonce. tidy_new a s Hw Ht. apply tidy_write; [by apply tidy_log|done..]. Qed.
Lemma tidy_SetCode a c s : wf s → tidy s → tidy (SetCode a c s).
Proof.
  intros Hw Ht. unfold SetCode. tidy_new a s Hw Ht. destruct (Code o) as [pc o1] eqn:Ec. destruct (Code_spec o pc o1 Ec) as [_ (F1 & F2 & F3 & F4 & F5 & F6)].
  apply tidy_write; [by apply tidy_log|apply (slots_same o1); [by eapply tidy_Code|done..]|]. cbn. congruence.
Qed.

Lemma tidy_SetState a k v s s' : wf s → tidy s → length v = HashLength → SetState a k v s = Ok s' → tidy s'.
Proof.
  intros Hw Ht Hv Es. unfold SetState in Es. tidy_new a s Hw Ht. destruct (o_GetState k o) as [[prev o1]| | |] eqn:Eg; try done. cbn [rbind] in Es. injection Es as <-.
  destruct (o_GetState_spec k o prev o1 Eg) as (_ & _ & (F1 & F2 & F3 & F4 & F5 & F6)).
  destruct (tidy_o_GetState k o prev o1 Eg) as [Hs1 Hp]; [done|]. apply tidy_write; [by apply tidy_log|by apply slots_set|]. cbn. congruence.
Qed.

Lemma tidy_Suicide a s : tidy s → tidy (snd (Suicide a s)).
Proof.
  intros Ht. unfold Suicide. destruct (getStateObject a s) as [[o|] s1] eqn:E; destruct (tidy_get a s _ s1 Ht E) as [Ht1 Hq]; [|done].
  destruct (Hq o eq_refl). apply tidy_write; [by apply tidy_log|done..].
Qed.

Lemma tidy_CreateAccount a s : wf s → tidy s → tidy (CreateAccount a s).
Proof.
  intros Hw Ht. unfold CreateAccount. destruct (createObject a s) as [[n [p|]] s1] eqn:E; destruct (tidy_create a s n _ s1 Hw Ht E) as (? & ? & ?); [|done]. by apply tidy_write.
Qed.

Lemma tidy_AddLog l s : tidy s → tidy (AddLog l s).
Proof. intros Ht. unfold AddLog. apply (tidy_frame (log_change (addLogChange (thash s)) s)); [done..|]. by apply tidy_log. Qed.
Lemma tidy_AddPreimage h b s : tidy s → tidy (AddPreimage h b s).
Proof. intros Ht. unfold AddPreimage. destruct (preimages s !! h); [done|]. apply (tidy_frame (log_change (addPreimageChange h) s)); [done..|]. by apply tidy_log. Qed.
Lemma tidy_AddRefund g s : tidy s → tidy (AddRefund g s).
Proof. intros Ht. unfold AddRefund. apply (tidy_frame (log_change (refundChange (refund s)) s)); [done..|]. by apply tidy_log. Qed.

(** ** Undoing *)

Lemma tidy_on_object a f s s' : tidy s → (∀ o, slots_ok o → slots_ok (f o)) → (∀ o, deleted (f o) = deleted o) → on_object a (write f) s = Ok s' → tidy s'.
Proof.
  intros Ht Hs Hd E. unfold on_object in E. destruct (getStateObject a s) as [[o|] s1] eqn:E1; [|done]. injection E as <-. destruct (tidy_get a s _ s1 Ht E1) as [Ht1 Hq].
  destruct (Hq o eq_refl). apply tidy_write; [done|by apply Hs|by rewrite Hd].
Qed.

Lemma tidy_undo e s s' : tidy s → entry_ok e → tidy_entry e → undo e s = Ok s' → tidy s'.
Proof.
  intros Ht He Hte E. destruct e as [a|prev|a prev pb|a prev|a prev|a k prev|a pc ph|prev|h|h|a prev pd]; cbn [undo] in E.
  - injection E as <-. destruct Ht as [Hd Ho Hj]. split; [| |done]; cbn.
    + intros x [Hx Hne]%elem_of_difference. rewrite lookup_delete_ne by set_solver. by apply Hd.
    + intros x o [_ Hx]%lookup_delete_Some. by eapply Ho.
  - injection E as <-. destruct He as [_ Hd]. by apply tidy_put, tidy_alive.
  - destruct (getStateObject a s) as [[o|] s1] eqn:E1; destruct (tidy_get a s _ s1 Ht E1) as [Ht1 Hq]; injection E as <-; [|done].
    destruct (Hq o eq_refl). by apply tidy_write.
  - by eapply (tidy_on_object a); [..|exact E].
  - by eapply (tidy_on_object a); [..|exact E].
  - eapply (tidy_on_object a); [done|intros o Hs; by apply slots_set|done|exact E].
  - by eapply (tidy_on_object a); [..|exact E].
  - injection E as <-. by apply (tidy_frame s).
  - destruct (default [] (logs s !! h)) as [|x [|y l]]; cbn [length] in E; try done; injection E as <-; by apply (tidy_frame s).
  - injection E as <-. by apply (tidy_frame s).
  - destruct (negb prev && negb (bool_decide (a = ripemd))); [|by injection E as <-]. unfold on_object in E.
    destruct (getStateObject a s) as [[o|] s1] eqn:E1; [|done]. destruct (tidy_get a s _ s1 Ht E1) as [Ht1 Hq]. injection E as <-. destruct (Hq o eq_refl).
    assert (tidy (setStateObject (o_set_flags (o_dbErr o) (suicided o) prev (deleted o) (onDirty o) o) s1)) as H2 by by apply tidy_put, tidy_alive.
    destruct pd; [done|]. exact (tidy_undirty a _ H2).
Qed.

Lemma tidy_undo_all js s s' : tidy s → Forall entry_ok js → Forall tidy_entry js → undo_all js s = Ok s' → tidy s'.
Proof.
  intros Ht Hj. revert s Ht. induction Hj as [|e js He _ IH]; intros s Ht Hte E; cbn [undo_all] in E; [by injection E as <-|]. apply Forall_cons in Hte as [Hte1 Hte2].
  destruct (undo e s) as [t| | |] eqn:Et; try done. cbn [rbind] in E. eapply IH; [by eapply tidy_undo|done|done].
Qed.

Lemma tidy_revert id s s' : wf s → tidy s → RevertToSnapshot id s = Ok s' → tidy s'.
Proof.
  intros Hw Ht E. destruct (Revert_split id s s' E) as (revs1 & n & revs2 & t & _ & Et & ->). pose proof (td_journal s Ht) as Hj. pose proof (wf_journal s Hw) as Hj'.
  assert (tidy t) as [Hd Ho _]. { eapply tidy_undo_all; [exact Ht| | |exact Et]; apply Forall_rev, Forall_drop; done. }
  split; [done|done|]. cbn. by apply Forall_take.
Qed.

End tidy.
End StateTidy.
