(* ===== verification/EvmWord.v ===== *)
(** The words of the EVM ([EvmWord]): src/common/math and the arithmetic instructions of
    src/core/vm/instructions.go, as operations on the stack.

    A big.Int is a [Z]; the top of a stack is the head of the list.  The pool of integers
    is left out: an integer is put into it only after it was popped, and is overwritten
    before it is pushed again. *)

From S2P Require Import Prelude.

Module EvmWord.

(** ** src/common/math *)

Definition tt255 : Z := 2 ^ 255.
Definition tt256 : Z := 2 ^ 256.
Definition tt256m1 : Z := tt256 - 1.
Definition MaxUint64 : Z := 2 ^ 64 - 1.

(** The methods [BitLen], [Bits] and [Bytes] of big.Int. *)
Definition BitLen (x : Z) : Z := if x =? 0 then 0 else Z.log2 (Z.abs x) + 1.
Fixpoint words (n : nat) (x : Z) : list Z :=
  match n with
  | O => []
  | S n => if x =? 0 then [] else Z.land x MaxUint64 :: words n (Z.shiftr x 64)
  end.
Definition Bits (x : Z) : list Z := words (S (Z.to_nat (Z.log2 (Z.abs x) / 64))) (Z.abs x).

Definition U256 (x : Z) : Z := Z.land x tt256m1.
Definition S256 (x : Z) : Z := if x <? tt255 then x else x - tt256.
Definition BigMax (x y : Z) : Z := if x <? y then y else x.
Definition BigMin (x y : Z) : Z := if y <? x then y else x.

(** The bits of one word of the exponent: the result and the squared base. *)
Fixpoint exp_word (n : nat) (word result base : Z) : Z * Z :=
  match n with
  | O => (result, base)
  | S n =>
      let result := if Z.land word 1 =? 1 then U256 (result * base) else result in
      exp_word n (Z.shiftr word 1) result (U256 (base * base))
  end.
Definition Exp (base exponent : Z) : Z :=
  fst (foldl (fun rb word => exp_word 64 word (fst rb) (snd rb)) (1, base) (Bits exponent)).

(** The first [n] bytes of a word, written from the end of the buffer: what is not written
    when the buffer is full is the rest. *)
Fixpoint read_word (j : nat) (d : Z) (i : nat) (buf : bytes) : nat * bytes :=
  match j, i with
  | S j, S i => read_word j (Z.shiftr d 8) i (<[i := zb d]> buf)
  | _, _ => (i, buf)
  end.
Definition ReadBits (bigint : Z) (buf : bytes) : bytes :=
  snd (foldl (fun ib d => read_word 8 d (fst ib) (snd ib)) (length buf, buf) (Bits bigint)).
Definition PaddedBigBytes (bigint : Z) (n : nat) : bytes :=
  if Z.of_nat n <=? BitLen bigint / 8 then be_bytes (Z.abs bigint) else ReadBits bigint (replicate n x00).

Definition bigEndianByteAt (bigint : Z) (n : Z) : byte :=
  match Bits bigint !! Z.to_nat (n / 8) with
  | None => x00
  | Some word => zb (Z.shiftr word (8 * (n mod 8)))
  end.
Definition Byte (bigint padlength n : Z) : byte :=
  if padlength <=? n then x00 else bigEndianByteAt bigint (padlength - 1 - n).

Definition SafeSub (x y : Z) : Z * bool := (u64 (x - y), x <? y).
Definition SafeAdd (x y : Z) : Z * bool := (u64 (x + y), MaxUint64 - x <? y).
Definition SafeMul (x y : Z) : Z * bool :=
  if (x =? 0) || (y =? 0) then (0, false) else (u64 (x * y), MaxUint64 / x <? y).

(** ** Instructions on words

    [None] is the panic of a pop from an empty stack. *)

Notation stackop := (list Z → option (list Z)).

Definition opAdd : stackop := fun st =>
  match st with x :: y :: st => Some (U256 (x + y) :: st) | _ => None end.
Definition opSub : stackop := fun st =>
  match st with x :: y :: st => Some (U256 (x - y) :: st) | _ => None end.
Definition opMul : stackop := fun st =>
  match st with x :: y :: st => Some (U256 (x * y) :: st) | _ => None end.
Definition opDiv : stackop := fun st =>
  match st with x :: y :: st => Some ((if y =? 0 then 0 else U256 (x / y)) :: st) | _ => None end.
Definition opSdiv : stackop := fun st =>
  match st with
  | x :: y :: st =>
      let x := S256 x in
      let y := S256 y in
      if y =? 0 then Some (0 :: st)
      else
        let n := if x * y <? 0 then -1 else 1 in
        let res := Z.abs x / Z.abs y in
        Some (U256 (res * n) :: st)
  | _ => None
  end.
Definition opMod : stackop := fun st =>
  match st with x :: y :: st => Some ((if y =? 0 then 0 else U256 (x mod y)) :: st) | _ => None end.
Definition opSmod : stackop := fun st =>
  match st with
  | x :: y :: st =>
      let x := S256 x in
      let y := S256 y in
      if y =? 0 then Some (0 :: st)
      else
        let n := if x <? 0 then -1 else 1 in
        let res := Z.abs x mod Z.abs y in
        Some (U256 (res * n) :: st)
  | _ => None
  end.
Definition opExp : stackop := fun st =>
  match st with base :: exponent :: st => Some (Exp base exponent :: st) | _ => None end.
Definition opSignExtend : stackop := fun st =>
  match st with
  | back :: st =>
      if back <? 31 then
        match st with
        | num :: st =>
            let bit := back * 8 + 7 in
            let mask := Z.shiftl 1 bit - 1 in
            let num := if Z.testbit num bit then Z.lor num (Z.lnot mask) else Z.land num mask in
            Some (U256 num :: st)
        | _ => None
        end
      else Some st
  | _ => None
  end.
Definition opNot : stackop := fun st =>
  match st with x :: st => Some (U256 (Z.lnot x) :: st) | _ => None end.
Definition opLt : stackop := fun st =>
  match st with x :: y :: st => Some ((if x <? y then 1 else 0) :: st) | _ => None end.
Definition opGt : stackop := fun st =>
  match st with x :: y :: st => Some ((if y <? x then 1 else 0) :: st) | _ => None end.
Definition opSlt : stackop := fun st =>
  match st with x :: y :: st => Some ((if S256 x <? S256 (S256 y) then 1 else 0) :: st) | _ => None end.
Definition opSgt : stackop := fun st =>
  match st with x :: y :: st => Some ((if S256 y <? S256 x then 1 else 0) :: st) | _ => None end.
Definition opEq : stackop := fun st =>
  match st with x :: y :: st => Some ((if x =? y then 1 else 0) :: st) | _ => None end.
Definition opIszero : stackop := fun st =>
  match st with x :: st => Some ((if 0 <? x then 0 else 1) :: st) | _ => None end.
Definition opAnd : stackop := fun st =>
  match st with x :: y :: st => Some (Z.land x y :: st) | _ => None end.
Definition opOr : stackop := fun st =>
  match st with x :: y :: st => Some (Z.lor x y :: st) | _ => None end.
Definition opXor : stackop := fun st =>
  match st with x :: y :: st => Some (Z.lxor x y :: st) | _ => None end.
Definition opByte : stackop := fun st =>
  match st with
  | th :: val :: st => Some ((if th <? 32 then bz (Byte val 32 th) else 0) :: st)
  | _ => None
  end.
Definition opAddmod : stackop := fun st =>
  match st with x :: y :: z :: st => Some ((if 0 <? z then U256 ((x + y) mod z) else 0) :: st) | _ => None end.
Definition opMulmod : stackop := fun st =>
  match st with x :: y :: z :: st => Some ((if 0 <? z then U256 ((x * y) mod z) else 0) :: st) | _ => None end.

(** ** The arithmetic of 256-bit words *)

Definition word (x : Z) : Prop := 0 ≤ x < 2 ^ 256.

Lemma U256_mod x : U256 x = x mod 2 ^ 256.
Proof. unfold U256. change tt256m1 with (Z.ones 256). by rewrite Z.land_ones. Qed.
Lemma U256_word x : word (U256 x).
Proof. rewrite U256_mod. apply Z.mod_pos_bound. lia. Qed.
Lemma U256_small x : word x → U256 x = x.
Proof. intros. rewrite U256_mod. by apply Z.mod_small. Qed.
Lemma u64_land x : Z.land x MaxUint64 = u64 x.
Proof. change MaxUint64 with (Z.ones 64). by rewrite Z.land_ones. Qed.

Lemma SafeAdd_spec x y :
  0 ≤ x < 2 ^ 64 → 0 ≤ y < 2 ^ 64 →
  SafeAdd x y = if decide (x + y < 2 ^ 64) then (x + y, false) else (x + y - 2 ^ 64, true).
Proof.
  intros Hx Hy. unfold SafeAdd, MaxUint64. case_decide.
  - rewrite u64_small by lia. f_equal. lia.
  - replace (u64 (x + y)) with (x + y - 2 ^ 64); [f_equal; lia|]. unfold u64. rewrite <- (Z_mod_plus_full (x + y) (-1)).
    rewrite Z.mod_small; lia.
Qed.

Lemma SafeMul_spec x y :
  0 ≤ x < 2 ^ 64 → 0 ≤ y < 2 ^ 64 →
  SafeMul x y = if decide (x * y < 2 ^ 64) then (x * y, false) else (u64 (x * y), true).
Proof.
  intros Hx Hy. unfold SafeMul, MaxUint64.
  destruct (Z.eqb_spec x 0) as [->|]; [by rewrite decide_True by lia|]. cbn [orb].
  destruct (Z.eqb_spec y 0) as [->|]; [by rewrite Z.mul_0_r, decide_True by lia|]. cbn [orb].
  pose proof (Z.div_mod (2 ^ 64 - 1) x ltac:(lia)). pose proof (Z.mod_pos_bound (2 ^ 64 - 1) x ltac:(lia)).
  case_decide.
  - rewrite u64_small by nia. f_equal. apply Z.ltb_ge. nia.
  - f_equal. apply Z.ltb_lt. nia.
Qed.

(** *** The words of an integer *)

Lemma shift_range n x : 0 ≤ x < 2 ^ (64 * Z.of_nat (S n)) → 0 ≤ x / 2 ^ 64 < 2 ^ (64 * Z.of_nat n).
Proof.
  intros Hx. split; [apply Z.div_pos; lia|]. apply Z.div_lt_upper_bound; [lia|]. rewrite <- Z.pow_add_r by lia.
  replace (64 + 64 * Z.of_nat n) with (64 * Z.of_nat (S n)) by lia. lia.
Qed.

Lemma words_lookup n x i :
  0 ≤ x < 2 ^ (64 * Z.of_nat n) → default 0 (words n x !! i) = u64 (x / 2 ^ (64 * Z.of_nat i)).
Proof.
  revert x i. induction n as [|n IH]; intros x i Hx.
  { assert (x = 0) as -> by (change (2 ^ _) with 1 in Hx; lia). by rewrite Z.div_0_l by lia. }
  cbn [words]. destruct (Z.eqb_spec x 0) as [->|]; [by rewrite Z.div_0_l by lia|].
  destruct i as [|i].
  { rewrite Z.mul_0_r, Z.pow_0_r, Z.div_1_r. apply u64_land. }
  cbn [lookup list_lookup]. rewrite Z.shiftr_div_pow2 by lia. fold (lookup (M:=list Z) i). change (list_lookup i ?l) with (l !! i).
  rewrite IH.
  - rewrite Z.div_div by lia. rewrite <- Z.pow_add_r by lia. do 3 f_equal. lia.
  - by apply shift_range.
Qed.

Lemma Bits_fuel x : 0 ≤ x → x < 2 ^ (64 * Z.of_nat (S (Z.to_nat (Z.log2 x / 64)))).
Proof.
  intros Hx. destruct (decide (x = 0)) as [->|]; [done|].
  pose proof (Z.log2_spec x ltac:(lia)) as [_ Hlt]. eapply Z.lt_le_trans; [exact Hlt|]. apply Z.pow_le_mono_r; [lia|].
  pose proof (Z.log2_nonneg x). pose proof (Z.div_mod (Z.log2 x) 64 ltac:(lia)). pose proof (Z.mod_pos_bound (Z.log2 x) 64 ltac:(lia)).
  rewrite Nat2Z.inj_succ, Z2Nat.id by (apply Z.div_pos; lia). lia.
Qed.

Lemma Bits_lookup x i : 0 ≤ x → default 0 (Bits x !! i) = u64 (x / 2 ^ (64 * Z.of_nat i)).
Proof. intros Hx. unfold Bits. rewrite Z.abs_eq by done. apply words_lookup. split; [done|]. by apply Bits_fuel. Qed.

Lemma mod_div_mod x a b c : 0 ≤ b → 0 ≤ c → b + c ≤ a → (x mod 2 ^ a) / 2 ^ b mod 2 ^ c = x / 2 ^ b mod 2 ^ c.
Proof.
  intros. apply Z.bits_inj'. intros i Hi. destruct (decide (i < c)).
  - rewrite !Z.mod_pow2_bits_low, !Z.div_pow2_bits, Z.mod_pow2_bits_low by lia. done.
  - by rewrite !Z.mod_pow2_bits_high by lia.
Qed.

Lemma Byte_spec v k : 0 ≤ v → 0 ≤ k < 32 → bz (Byte v 32 k) = v / 256 ^ (31 - k) mod 256.
Proof.
  intros Hv Hk. unfold Byte. replace (32 <=? k) with false by lia. unfold bigEndianByteAt.
  replace (32 - 1 - k) with (31 - k) by lia. set (n := 31 - k).
  pose proof (Bits_lookup v (Z.to_nat (n / 8)) Hv) as Hl. rewrite Z2Nat.id in Hl by (apply Z.div_pos; lia).
  assert (bz (zb (Z.shiftr (u64 (v / 2 ^ (64 * (n / 8)))) (8 * (n mod 8)))) = v / 256 ^ n mod 256) as Hs.
  { pose proof (Z.mod_pos_bound n 8 ltac:(lia)). pose proof (Z.div_mod n 8 ltac:(lia)). pose proof (Z.div_pos n 8 ltac:(lia) ltac:(lia)).
    rewrite bz_zb, pow256_pow2, Z.shiftr_div_pow2 by lia. unfold u64. change 256 with (2 ^ 8).
    rewrite mod_div_mod, Z.div_div, <- Z.pow_add_r by lia. do 3 f_equal. lia. }
  destruct (Bits v !! _); cbn in Hl.
  - by rewrite Hl.
  - rewrite <- Hs, <- Hl. by rewrite Z.shiftr_0_l.
Qed.

(** *** Exponentiation by squaring *)

Lemma pow_mod_l b e n : 0 ≤ e → (b mod n) ^ e mod n = b ^ e mod n.
Proof.
  intros He. destruct (decide (n = 0)) as [->|Hn]; [by rewrite !Zmod_0_r|]. revert e He. apply natlike_ind; [done|].
  intros e He IH. rewrite !Z.pow_succ_r by done. rewrite Z.mul_mod, IH, Z.mod_mod, <- Z.mul_mod by done. done.
Qed.

Lemma pow_split r b u q m n :
  0 ≤ u → 0 ≤ q → 0 ≤ m → 0 < n → ((r * b ^ u) mod n * (b ^ m mod n) ^ q) mod n = (r * b ^ (u + m * q)) mod n.
Proof.
  intros. rewrite <- Z.mul_mod_idemp_r, pow_mod_l, Z.mul_mod_idemp_r, Z.mul_mod_idemp_l by lia.
  rewrite <- Z.mul_assoc, <- Z.pow_mul_r, <- Z.pow_add_r by lia. done.
Qed.

Lemma exp_word_spec n w r b :
  0 ≤ w → word r → word b →
  exp_word n w r b = ((r * b ^ (w mod 2 ^ Z.of_nat n)) mod 2 ^ 256, b ^ (2 ^ Z.of_nat n) mod 2 ^ 256).
Proof.
  revert w r b. induction n as [|n IH]; intros w r b Hw Hr Hb.
  { cbn [exp_word]. change (2 ^ Z.of_nat 0) with 1. rewrite Z.mod_1_r, Z.pow_0_r, Z.mul_1_r, Z.pow_1_r. by rewrite !Z.mod_small. }
  cbn [exp_word]. rewrite Z.shiftr_div_pow2 by lia. change (2 ^ 1) with 2.
  assert (w mod 2 ^ Z.of_nat (S n) = 2 * ((w / 2) mod 2 ^ Z.of_nat n) + w mod 2) as Ew.
  { rewrite Nat2Z.inj_succ, Z.pow_succ_r, Z.rem_mul_r by lia. lia. }
  assert (0 ≤ (w / 2) mod 2 ^ Z.of_nat n) as Hq by (apply Z.mod_pos_bound; lia).
  rewrite IH; [|apply Z.div_pos; lia|destruct (_ =? 1); [apply U256_word|done]|apply U256_word].
  rewrite !U256_mod. rewrite Nat2Z.inj_succ, Z.pow_succ_r in * by lia. f_equal.
  - rewrite Ew, Z.pow_add_r, Z.pow_mul_r by (try apply Z.mod_pos_bound; lia). rewrite <- Z.mul_mod_idemp_r, pow_mod_l by lia.
    rewrite Z.mul_mod_idemp_r by lia. replace (b ^ 2) with (b * b) by lia. change 1 with (Z.ones 1) at 1. rewrite Z.land_ones by lia. change (2 ^ 1) with 2.
    pose proof (Z.mod_pos_bound w 2 ltac:(lia)). destruct (Z.eqb_spec (w mod 2) 1) as [->|].
    + rewrite Z.mul_mod_idemp_l, Z.pow_1_r by lia. f_equal. lia.
    + replace (w mod 2) with 0 by lia. rewrite Z.pow_0_r, Z.mul_1_r. done.
  - rewrite pow_mod_l, Z.pow_mul_r by lia. by replace (b ^ 2) with (b * b) by lia.
Qed.

Lemma exp_words_spec n x r b :
  0 ≤ x < 2 ^ (64 * Z.of_nat n) → word r → word b →
  fst (foldl (fun rb w => exp_word 64 w (fst rb) (snd rb)) (r, b) (words n x)) = (r * b ^ x) mod 2 ^ 256.
Proof.
  revert x r b. induction n as [|n IH]; intros x r b Hx Hr Hb.
  { assert (x = 0) as -> by (change (2 ^ _) with 1 in Hx; lia). cbn. rewrite Z.mul_1_r. by rewrite Z.mod_small. }
  cbn [words]. destruct (Z.eqb_spec x 0) as [->|].
  { cbn. rewrite Z.mul_1_r. by rewrite Z.mod_small. }
  assert (0 ≤ x / 2 ^ 64 < 2 ^ (64 * Z.of_nat n)) as Hq by by apply shift_range.
  assert (x = u64 x + 2 ^ 64 * (x / 2 ^ 64)) as Ex by (unfold u64; pose proof (Z.div_mod x (2 ^ 64) ltac:(lia)); lia).
  pose proof (u64_range x) as Hu. cbn [foldl fst snd]. rewrite u64_land, exp_word_spec by (done || apply Hu).
  rewrite Z.shiftr_div_pow2, IH by (done || by apply Z.mod_pos_bound). change (2 ^ Z.of_nat 64) with (2 ^ 64). rewrite (Z.mod_small (u64 x)) by done.
  rewrite pow_split by (done || apply Hu || apply Hq). by rewrite <- Ex.
Qed.

Lemma Exp_spec b e : word b → 0 ≤ e → Exp b e = b ^ e mod 2 ^ 256.
Proof.
  intros Hb He. unfold Exp, Bits. rewrite Z.abs_eq by done. rewrite exp_words_spec; [by rewrite Z.mul_1_l|split; [done|by apply Bits_fuel]|split; lia|done].
Qed.

(** *** Words as bytes *)

Fixpoint le_fix (n : nat) (x : Z) : bytes := match n with O => [] | S n => zb x :: le_fix n (x / 256) end.
(** The [n] low bytes of an integer, the most significant first. *)
Definition be_fix (n : nat) (x : Z) : bytes := reverse (le_fix n x).

Lemma length_le_fix n x : length (le_fix n x) = n.
Proof. revert x. induction n as [|n IH]; intros x; simpl; [done|by rewrite IH]. Qed.
Lemma length_be_fix n x : length (be_fix n x) = n.
Proof. unfold be_fix. by rewrite length_reverse, length_le_fix. Qed.
Lemma le_fix_0 n : le_fix n 0 = replicate n x00.
Proof. induction n as [|n IH]; [done|]. cbn [le_fix replicate]. by rewrite Z.div_0_l, IH. Qed.
Lemma le_fix_app a b x : le_fix (a + b) x = le_fix a x ++ le_fix b (x / 256 ^ Z.of_nat a).
Proof.
  revert x. induction a as [|a IH]; intros x; [by rewrite Z.pow_0_r, Z.div_1_r|].
  cbn [le_fix plus app]. rewrite IH, Z.div_div, Nat2Z.inj_succ, Z.pow_succ_r by lia. done.
Qed.
Lemma zb_mod x : zb (x mod 256) = zb x.
Proof. apply bz_inj. by rewrite !bz_zb, Z.mod_mod. Qed.
Lemma le_fix_mod k m x : (k ≤ m)%nat → le_fix k (x mod 256 ^ Z.of_nat m) = le_fix k x.
Proof.
  revert m x. induction k as [|k IH]; intros m x Hk; [done|]. destruct m as [|m]; [lia|].
  cbn [le_fix]. rewrite Nat2Z.inj_succ, Z.pow_succ_r, Z.rem_mul_r by lia. f_equal.
  - rewrite <- (zb_mod (_ + _)), Z.add_mod, Z.mod_mod, Z.mul_comm, Z_mod_mult, Z.add_0_r, Z.mod_mod by lia. apply zb_mod.
  - rewrite Z.mul_comm, Z.div_add, Z.div_small, Z.add_0_l by (try apply Z.mod_pos_bound; lia). apply IH. lia.
Qed.
Lemma be_fix_val n x : be_val (be_fix n x) = x mod 256 ^ Z.of_nat n.
Proof.
  revert x. induction n as [|n IH]; intros x; [by rewrite Z.pow_0_r, Z.mod_1_r|].
  unfold be_fix in *. cbn [le_fix]. rewrite reverse_cons, be_val_snoc, IH, bz_zb, Nat2Z.inj_succ, Z.pow_succ_r, Z.rem_mul_r by lia. lia.
Qed.

Lemma read_word_spec j d i suf :
  read_word j d i (replicate i x00 ++ suf)
  = ((i - j)%nat, replicate (i - j) x00 ++ be_fix (j `min` i) d ++ suf).
Proof.
  revert d i suf. induction j as [|j IH]; intros d i suf; [by rewrite Nat.sub_0_r; destruct i|].
  destruct i as [|i]; [done|]. cbn [read_word]. rewrite Z.shiftr_div_pow2 by lia. change (2 ^ 8) with 256.
  replace (<[i := zb d]> (replicate (S i) x00 ++ suf)) with (replicate i x00 ++ zb d :: suf).
  - rewrite IH. rewrite Nat.sub_succ. do 2 f_equal. unfold be_fix. rewrite <- Nat.succ_min_distr. cbn [le_fix]. rewrite reverse_cons. by rewrite <- app_assoc.
  - rewrite replicate_S_end, <- app_assoc. change ([x00] ++ suf) with (x00 :: suf). by rewrite list_insert_middle || (rewrite insert_app_r_alt by (rewrite length_replicate; lia); rewrite length_replicate, Nat.sub_diag; done).
Qed.

Lemma ReadBits_words n x i suf :
  0 ≤ x < 2 ^ (64 * Z.of_nat n) →
  snd (foldl (fun ib d => read_word 8 d (fst ib) (snd ib)) (i, replicate i x00 ++ suf) (words n x)) = be_fix i x ++ suf.
Proof.
  revert x i suf. induction n as [|n IH]; intros x i suf Hx.
  { assert (x = 0) as -> by (change (2 ^ _) with 1 in Hx; lia). cbn [words foldl snd]. unfold be_fix. by rewrite le_fix_0, reverse_replicate. }
  cbn [words]. destruct (Z.eqb_spec x 0) as [->|].
  { cbn [foldl snd]. unfold be_fix. by rewrite le_fix_0, reverse_replicate. }
  cbn [foldl fst snd]. rewrite u64_land, read_word_spec, Z.shiftr_div_pow2 by lia.
  rewrite IH by by apply shift_range.
  rewrite app_assoc. f_equal. unfold be_fix. rewrite <- reverse_app. f_equal. unfold u64.
  change (2 ^ 64) with (256 ^ Z.of_nat 8) at 1. rewrite le_fix_mod by lia.
  destruct (decide (8 ≤ i)%nat) as [Hi|Hi].
  - rewrite Nat.min_l by done. replace i with (8 + (i - 8))%nat at 2 by lia. rewrite le_fix_app. done.
  - rewrite Nat.min_r by lia. replace (i - 8)%nat with 0%nat by lia. apply app_nil_r.
Qed.

Lemma ReadBits_spec x n : 0 ≤ x → ReadBits x (replicate n x00) = be_fix n x.
Proof.
  intros Hx. unfold ReadBits, Bits. rewrite Z.abs_eq by done. rewrite length_replicate.
  pose proof (ReadBits_words _ x n [] (conj Hx (Bits_fuel x Hx))) as E. by rewrite !app_nil_r in E.
Qed.

Lemma PaddedBigBytes_spec x : word x → PaddedBigBytes x 32 = be_fix 32 x.
Proof.
  intros Hx. unfold PaddedBigBytes. change (Z.of_nat 32) with 32. destruct (Z.leb_spec 32 (BitLen x / 8)) as [Hl|]; [|by apply ReadBits_spec; unfold word in Hx; lia].
  unfold word in Hx. rewrite Z.abs_eq by lia. unfold BitLen in Hl. destruct (Z.eqb_spec x 0) as [->|]; [done|]. rewrite Z.abs_eq in Hl by lia.
  pose proof (Z.log2_spec x ltac:(lia)) as [Hlo _]. pose proof (Z.div_mod (Z.log2 x + 1) 8 ltac:(lia)). pose proof (Z.mod_pos_bound (Z.log2 x + 1) 8 ltac:(lia)).
  assert (2 ^ 255 ≤ x) as Hx2 by (trans (2 ^ Z.log2 x); [apply Z.pow_le_mono_r; lia|done]).
  pose proof (be_val_be_bytes x ltac:(lia)) as Ev. pose proof (be_val_range (be_bytes x)) as Hr. rewrite Ev in Hr.
  pose proof (no_lead0_lower _ (be_bytes_no_lead0 x ltac:(lia)) ltac:(intros E0; rewrite E0 in Ev; cbn in Ev; lia)) as Hlow. rewrite Ev in Hlow.
  apply be_val_inj_len.
  - rewrite length_be_fix. rewrite !pow256_pow2 in * by (destruct (be_bytes x); [cbn in Ev; lia|cbn [length]; lia]).
    assert (8 * (zlen (be_bytes x) - 1) < 256) by (apply (Z.pow_lt_mono_r_iff 2); lia).
    assert (255 < 8 * zlen (be_bytes x)) by (apply (Z.pow_lt_mono_r_iff 2); lia). lia.
  - rewrite Ev, be_fix_val. symmetry. apply Z.mod_small. by change (256 ^ Z.of_nat 32) with (2 ^ 256).
Qed.

(** *** The instructions *)

Lemma S256_zero y : word y → (S256 y =? 0) = (y =? 0).
Proof. unfold word, S256, tt255, tt256. intros. destruct (Z.ltb_spec y (2 ^ 255)); lia. Qed.
Lemma S256_small y : word y → S256 (S256 y) = S256 y.
Proof. unfold word, S256, tt255, tt256. intros. destruct (Z.ltb_spec y (2 ^ 255)) as [Hl|]; [by rewrite (proj2 (Z.ltb_lt _ _) Hl)|]. by rewrite (proj2 (Z.ltb_lt _ _)) by lia. Qed.

Lemma sign_extend_spec k y :
  0 ≤ k < 31 → word y →
  opSignExtend [k; y] = Some [(let b := 8 * (k + 1) in let v := y mod 2 ^ b in if decide (v < 2 ^ (b - 1)) then v else v - 2 ^ b) mod 2 ^ 256].
Proof.
  intros Hk Hy. cbn [opSignExtend]. replace (k <? 31) with true by lia. cbv zeta. rewrite U256_mod.
  replace (k * 8 + 7) with (8 * (k + 1) - 1) by lia. set (b := 8 * (k + 1)). assert (0 < b <= 248) as Hb by lia.
  rewrite Z.shiftl_1_l. replace (2 ^ (b - 1) - 1) with (Z.ones (b - 1)) by (rewrite Z.ones_equiv; lia).
  assert (2 ^ b = 2 * 2 ^ (b - 1)) as Eb by (rewrite <- Z.pow_succ_r by lia; f_equal; lia).
  assert (y mod 2 ^ b = y mod 2 ^ (b - 1) + 2 ^ (b - 1) * Z.b2z (Z.testbit y (b - 1))) as Em.
  { rewrite Eb, Z.mul_comm, Z.rem_mul_r by lia. by rewrite Z.testbit_spec' by lia. }
  pose proof (Z.mod_pos_bound y (2 ^ (b - 1)) ltac:(lia)) as Hlow. do 2 f_equal. destruct (Z.testbit y (b - 1)) eqn:Et; cbn [Z.b2z] in Em.
  - rewrite decide_False by lia. f_equal. apply Z.bits_inj'. intros i Hi. rewrite Z.lor_spec, Z.lnot_spec by done.
    replace (y mod 2 ^ b - 2 ^ b) with (Z.lor (y mod 2 ^ (b - 1)) (Z.lnot (Z.ones (b - 1)))).
    + rewrite Z.lor_spec, Z.lnot_spec by done. destruct (decide (i < b - 1)).
      * by rewrite Z.mod_pow2_bits_low by lia.
      * rewrite Z.ones_spec_high by lia. by rewrite !orb_true_r.
    + rewrite <- Z.add_nocarry_lor; [unfold Z.lnot; rewrite Z.ones_equiv; lia|]. apply Z.bits_inj'. intros j Hj. rewrite Z.land_spec, Z.lnot_spec, Z.bits_0 by done.
      destruct (decide (j < b - 1)); [rewrite Z.ones_spec_low by lia; apply andb_false_r|]. by rewrite Z.mod_pow2_bits_high by lia.
  - rewrite decide_True by lia. rewrite Z.land_ones by lia. f_equal. lia.
Qed.



End EvmWord.
