(* ===== verification/EvmCode.v ===== *)
(** Memory, code and gas of the EVM ([EvmCode]): src/core/vm/memory.go, common.go,
    analysis.go, stack_table.go, gas.go, the part of gas_table.go that does not touch the
    state, and src/params.

    A slice expression that reaches past the length of a memory is a panic; in Go it is one
    past the capacity, which no run tells apart ([EvmThms.interpreter_is_safe]). *)

From S2P Require Import Prelude CoreTypes EvmWord.

Module EvmCode.
Import EvmWord.

(** ** Memory (memory.go) *)

Record Memory := mkMem { store : bytes; lastGasCost : Z }.

Definition NewMemory : Memory := mkMem [] 0.
Definition mem_Len (m : Memory) : Z := zlen (store m).

(** [copy(dst[offset:offset+size], value)]. *)
Definition mem_Set (offset size : Z) (value : bytes) (m : Memory) : option Memory :=
  if mem_Len m <? size then None
  else if 0 <? size then
    let stop := u64 (offset + size) in
    if (offset <=? stop) && (stop <=? mem_Len m) then
      let v := take (Z.to_nat size) value in
      Some (mkMem (take (Z.to_nat offset) (store m) ++ v ++ drop (Z.to_nat offset + length v) (store m)) (lastGasCost m))
    else None
  else Some m.

Definition Resize (size : Z) (m : Memory) : Memory :=
  if mem_Len m <? size then mkMem (store m ++ replicate (Z.to_nat (size - mem_Len m)) x00) (lastGasCost m) else m.

(** [offset] and [size] are int64. *)
Definition mem_Get (offset size : Z) (m : Memory) : option bytes :=
  if size =? 0 then Some []
  else if offset <? mem_Len m then
    if (0 <=? offset) && (0 <=? size) && (offset + size <=? mem_Len m) then Some (take (Z.to_nat size) (drop (Z.to_nat offset) (store m)))
    else None
  else Some [].

(** The slice itself: no one writes to the memory of a frame that has returned it. *)
Definition GetPtr (offset size : Z) (m : Memory) : option bytes := mem_Get offset size m.

(** [memory.store[off] = b]. *)
Definition store_byte (off : Z) (b : byte) (m : Memory) : option Memory :=
  if (0 <=? off) && (off <? mem_Len m) then Some (mkMem (<[Z.to_nat off := b]> (store m)) (lastGasCost m)) else None.

(** ** Data (common.go, src/common/bytes.go) *)

Definition calcMemSize (off l : Z) : Z := if l =? 0 then 0 else off + l.

Definition RightPadBytes (slice : bytes) (l : Z) : bytes :=
  if l <=? zlen slice then slice else slice ++ replicate (Z.to_nat (l - zlen slice)) x00.

Definition getDataBig (data : bytes) (start size : Z) : bytes :=
  let dlen := zlen data in
  let s := BigMin start dlen in
  let e := BigMin (s + size) dlen in
  RightPadBytes (take (Z.to_nat (e - s)) (drop (Z.to_nat s) data)) (i64 size).

Definition bigUint64 (v : Z) : Z * bool := (u64 v, 64 <? BitLen v).

Definition toWordSize (size : Z) : Z :=
  if MaxUint64 - 31 <? size then MaxUint64 / 32 + 1 else (size + 31) / 32.

(** ** Jump destinations (analysis.go) *)

Definition JUMPDEST : Z := 0x5b.
Definition PUSH1 : Z := 0x60.
Definition PUSH32 : Z := 0x7f.

Definition set_bit (pc : nat) (m : bytes) : bytes :=
  match m !! (pc / 8)%nat with
  | Some b => <[(pc / 8)%nat := zb (Z.lor (bz b) (Z.shiftl 1 (Z.of_nat (pc mod 8))))]> m
  | None => m
  end.

(** The bytes of immediate data after an opcode. *)
Definition push_data (op : Z) : nat := if (PUSH1 <=? op) && (op <=? PUSH32) then Z.to_nat (op - PUSH1 + 1) else 0.

Fixpoint jumpdests_loop (fuel : nat) (code : bytes) (pc : nat) (m : bytes) : bytes :=
  match fuel, code !! pc with
  | S fuel, Some b =>
      let op := bz b in
      if op =? JUMPDEST then jumpdests_loop fuel code (S pc) (set_bit pc m)
      else if (PUSH1 <=? op) && (op <=? PUSH32) then jumpdests_loop fuel code (S (pc + push_data op)) m
      else jumpdests_loop fuel code (S pc) m
  | _, _ => m
  end.
Definition jumpdests (code : bytes) : bytes :=
  jumpdests_loop (length code) code 0 (replicate (length code / 8 + 1) x00).

(** The cache of analysed codes; [None] is the panic of an index out of range. *)
Definition has (d : gmap bytes bytes) (codehash code : bytes) (dest : Z) : option (bool * gmap bytes bytes) :=
  let udest := u64 dest in
  if (63 <=? BitLen dest) || (zlen code <=? udest) then Some (false, d)
  else
    let '(m, d) :=
      match d !! codehash with
      | Some m => (m, d)
      | None => let m := jumpdests code in (m, <[codehash := m]> d)
      end in
    match m !! Z.to_nat (udest / 8) with
    | Some b => Some (negb (Z.land (bz b) (Z.shiftl 1 (udest mod 8)) =? 0), d)
    | None => None
    end.

(** ** Gas (src/params/protocol_params.go, gas_table.go; gas.go) *)

Definition CallValueTransferGas : Z := 9000.
Definition CallNewAccountGas : Z := 25000.
Definition QuadCoeffDiv : Z := 512.
Definition SstoreSetGas : Z := 20000.
Definition LogDataGas : Z := 8.
Definition CallStipend : Z := 2300.
Definition Sha3Gas : Z := 30.
Definition Sha3WordGas : Z := 6.
Definition SstoreResetGas : Z := 5000.
Definition SstoreClearGas : Z := 5000.
Definition SstoreRefundGas : Z := 15000.
Definition JumpdestGas : Z := 1.
Definition CreateDataGas : Z := 200.
Definition CallCreateDepth : Z := 1024.
Definition LogGas : Z := 375.
Definition CopyGas : Z := 3.
Definition StackLimit : Z := 1024.
Definition LogTopicGas : Z := 375.
Definition CreateGas : Z := 32000.
Definition SuicideRefundGas : Z := 24000.
Definition MemoryGas : Z := 3.
Definition MaxCodeSize : Z := 24576.

Definition GasQuickStep : Z := 2.
Definition GasFastestStep : Z := 3.
Definition GasFastStep : Z := 5.
Definition GasMidStep : Z := 8.
Definition GasSlowStep : Z := 10.
Definition GasExtStep : Z := 20.

Record GasTable := mkGasTable {
  gt_ExtcodeSize : Z; gt_ExtcodeCopy : Z; gt_Balance : Z; gt_SLoad : Z; gt_Calls : Z; gt_Suicide : Z;
  gt_ExpByte : Z; gt_CreateBySuicide : Z }.
Definition GasTableHomestead : GasTable := mkGasTable 20 20 20 50 40 0 10 0.
Definition GasTableEIP150 : GasTable := mkGasTable 700 700 400 200 700 5000 10 25000.
Definition GasTableEIP158 : GasTable := mkGasTable 700 700 400 200 700 5000 50 25000.

(** [None] is errGasUintOverflow. *)
Definition callGas (gasTable : GasTable) (availableGas base callCost : Z) : option Z :=
  let early :=
    if 0 <? gt_CreateBySuicide gasTable then
      let availableGas := u64 (availableGas - base) in
      let gas := availableGas - availableGas / 64 in
      if (64 <? BitLen callCost) || (gas <? u64 callCost) then Some gas else None
    else None in
  match early with
  | Some gas => Some gas
  | None => if 64 <? BitLen callCost then None else Some (u64 callCost)
  end.

Definition memoryGasCost (mem : Memory) (newMemSize : Z) : option (Z * Memory) :=
  if newMemSize =? 0 then Some (0, mem)
  else if 0xffffffffe0 <? newMemSize then None
  else
    let newMemSizeWords := toWordSize newMemSize in
    let newMemSize := u64 (newMemSizeWords * 32) in
    if mem_Len mem <? newMemSize then
      let square := u64 (newMemSizeWords * newMemSizeWords) in
      let linCoef := u64 (newMemSizeWords * MemoryGas) in
      let quadCoef := square / QuadCoeffDiv in
      let newTotalFee := u64 (linCoef + quadCoef) in
      Some (u64 (newTotalFee - lastGasCost mem), mkMem (store mem) newTotalFee)
    else Some (0, mem).

(** The checked sum and the checked price per word of the gas functions. *)
Definition add_gas (gas x : Z) : option Z := let '(r, overflow) := SafeAdd gas x in if overflow then None else Some r.
Definition words_gas (size price : Z) : option Z :=
  let '(words, overflow) := bigUint64 size in
  if overflow then None else let '(r, overflow) := SafeMul (toWordSize words) price in if overflow then None else Some r.

(** ** The analysis of code *)

(** [starts code p i]: reading instructions from [p] on, one begins at [i]. *)
Inductive starts (code : bytes) : nat → nat → Prop :=
| starts_here p : starts code p p
| starts_next p b i : code !! p = Some b → starts code (S (p + push_data (bz b))) i → starts code p i.

Definition bit (m : bytes) (i : nat) : bool :=
  match m !! (i / 8)%nat with Some b => Z.testbit (bz b) (Z.of_nat (i mod 8)) | None => false end.

Lemma starts_le code p i : starts code p i → (p ≤ i)%nat.
Proof. induction 1; lia. Qed.

Lemma length_set_bit pc m : length (set_bit pc m) = length m.
Proof. unfold set_bit. destruct (m !! _); [by rewrite length_insert|done]. Qed.

Lemma nat_divmod8 i j : (i / 8 = j / 8)%nat → (i mod 8 = j mod 8)%nat → i = j.
Proof. intros. rewrite (Nat.div_mod_eq i 8), (Nat.div_mod_eq j 8). lia. Qed.

Lemma bit_set_bit pc m i :
  (pc / 8 < length m)%nat → bit (set_bit pc m) i = bool_decide (i = pc) || bit m i.
Proof.
  intros Hl. unfold set_bit, bit. destruct (lookup_lt_is_Some_2 m _ Hl) as [b Eb]. rewrite Eb.
  destruct (decide (i / 8 = pc / 8)%nat) as [Eq|Hne].
  - rewrite Eq, list_lookup_insert_eq by done. rewrite Eb. rewrite bz_zb. change 256 with (2 ^ 8).
    pose proof (Nat.mod_upper_bound i 8). pose proof (Nat.mod_upper_bound pc 8).
    rewrite Z.mod_pow2_bits_low, Z.lor_spec, Z.shiftl_1_l, Z.pow2_bits_eqb by lia. rewrite orb_comm. f_equal.
    destruct (Z.eqb_spec (Z.of_nat (pc mod 8)) (Z.of_nat (i mod 8))).
    + symmetry. apply bool_decide_eq_true_2. apply nat_divmod8; lia.
    + symmetry. apply bool_decide_eq_false_2. intros ->. lia.
  - rewrite list_lookup_insert_ne by done. rewrite bool_decide_eq_false_2; [done|]. by intros ->.
Qed.

Lemma jumpdests_loop_spec fuel code pc m i :
  (length code ≤ pc + fuel)%nat → length m = (length code / 8 + 1)%nat →
  length (jumpdests_loop fuel code pc m) = length m
  ∧ (bit (jumpdests_loop fuel code pc m) i = true ↔ bit m i = true ∨ (starts code pc i ∧ code !! i = Some x5b)).
Proof.
  revert pc m. induction fuel as [|fuel IH]; intros pc m Hf Hm.
  { cbn [jumpdests_loop]. split; [done|]. split; [by left|]. intros [?|[Hs Hi]]; [done|]. apply starts_le in Hs. apply lookup_lt_Some in Hi. lia. }
  cbn [jumpdests_loop]. destruct (code !! pc) as [b|] eqn:Eb.
  2: { split; [done|]. split; [by left|]. intros [?|[Hs Hi]]; [done|]. apply starts_le in Hs. apply lookup_lt_Some in Hi. apply lookup_ge_None_1 in Eb. lia. }
  assert (starts code pc i ↔ i = pc ∨ starts code (S (pc + push_data (bz b))) i) as Est.
  { split; [intros Hs; inversion Hs; simplify_eq; auto|]. intros [->|Hs]; [constructor|by econstructor]. }
  destruct (Z.eqb_spec (bz b) JUMPDEST) as [Ej|Hj].
  - rewrite Ej in Est. change (push_data JUMPDEST) with 0%nat in Est. rewrite Nat.add_0_r in Est.
    assert (b = x5b) as -> by (by apply bz_inj).
    assert (pc / 8 < length m)%nat as Hpc.
    { apply lookup_lt_Some in Eb. rewrite Hm. pose proof (Nat.div_le_mono pc (length code) 8). lia. }
    destruct (IH (S pc) (set_bit pc m)) as [Hlen Hbit]; [lia|by rewrite length_set_bit|]. rewrite Hlen, length_set_bit. split; [done|].
    rewrite Hbit, bit_set_bit, orb_true_iff, bool_decide_eq_true, Est by done. naive_solver.
  - assert (code !! i = Some x5b → i ≠ pc) as Hne by (intros Hi ->; rewrite Eb in Hi; by simplify_eq).
    destruct ((PUSH1 <=? bz b) && (bz b <=? PUSH32)) eqn:Ep.
    + destruct (IH (S (pc + push_data (bz b))) m) as [Hlen Hbit]; [lia|done|]. split; [done|]. rewrite Hbit, Est. naive_solver.
    + unfold push_data in Est. rewrite Ep in Est. rewrite Nat.add_0_r in Est. destruct (IH (S pc) m) as [Hlen Hbit]; [lia|done|].
      split; [done|]. rewrite Hbit, Est. naive_solver.
Qed.

Lemma jumpdests_spec code i :
  length (jumpdests code) = (length code / 8 + 1)%nat
  ∧ (bit (jumpdests code) i = true ↔ starts code 0 i ∧ code !! i = Some x5b).
Proof.
  unfold jumpdests. destruct (jumpdests_loop_spec (length code) code 0 (replicate (length code / 8 + 1) x00) i) as [Hl Hb];
    [lia|apply length_replicate|]. rewrite Hl, Hb, length_replicate. split; [done|].
  assert (bit (replicate (length code / 8 + 1) x00) i = false) as ->; [|naive_solver]. unfold bit. destruct (replicate _ _ !! _) as [b|] eqn:E; [|done].
  apply lookup_replicate in E as [-> _]. apply Z.bits_0.
Qed.

Lemma BitLen_small x n : 0 ≤ x → 0 ≤ n → BitLen x ≤ n ↔ x < 2 ^ n.
Proof.
  intros Hx Hn. unfold BitLen. destruct (Z.eqb_spec x 0) as [->|]; [split; lia|]. rewrite Z.abs_eq by done.
  rewrite Z.log2_lt_pow2 by lia. lia.
Qed.

(** C28: The jump analysis finds exactly the JUMPDEST instructions: a destination is accepted if and only if
    reading the code instruction by instruction from its start, with the data of PUSH skipped, one begins there
    and it is JUMPDEST.  The cache stays right and the lookup in the bitmap stays within it. *)
Theorem jumps_land_on_instructions d codehash code dest :
  0 ≤ dest → zlen code < 2 ^ 62 → (∀ m, d !! codehash = Some m → m = jumpdests code) →
  ∃ b d', has d codehash code dest = Some (b, d')
    ∧ (b = true ↔ starts code 0 (Z.to_nat dest) ∧ code !! Z.to_nat dest = Some x5b)
    ∧ (∀ m, d' !! codehash = Some m → m = jumpdests code) ∧ (∀ h, h ≠ codehash → d' !! h = d !! h).
Proof.
  intros Hd Hc Hcache. unfold has. destruct (Z.leb_spec 63 (BitLen dest)) as [Hl|Hl]; cbn [orb].
  { exists false, d. split_and!; [done| |done|done]. split; [done|]. intros [_ Hi]. apply lookup_lt_Some in Hi.
    assert (¬ BitLen dest ≤ 62) as Hn by lia. rewrite BitLen_small in Hn by lia. lia. }
  assert (dest < 2 ^ 62) as Hs by (apply BitLen_small; lia). rewrite u64_small by lia.
  destruct (Z.leb_spec (zlen code) dest).
  { exists false, d. split_and!; [done| |done|done]. split; [done|]. intros [_ Hi]. apply lookup_lt_Some in Hi. lia. }
  destruct (jumpdests_spec code (Z.to_nat dest)) as [Hlen Hbit].
  assert (Z.to_nat (dest / 8) = Z.to_nat dest / 8)%nat as Ediv by (rewrite Z2Nat.inj_div by lia; done).
  destruct (lookup_lt_is_Some_2 (jumpdests code) (Z.to_nat (dest / 8))) as [b Eb].
  { rewrite Hlen, Ediv. pose proof (Nat.div_le_mono (Z.to_nat dest) (length code) 8). lia. }
  assert (negb (Z.land (bz b) (Z.shiftl 1 (dest mod 8)) =? 0) = bit (jumpdests code) (Z.to_nat dest)) as Ebit.
  { unfold bit. rewrite <- Ediv, Eb. replace (Z.of_nat (Z.to_nat dest mod 8)) with (dest mod 8) by (rewrite Nat2Z.inj_mod, Z2Nat.id by lia; done).
    pose proof (Z.mod_pos_bound dest 8 ltac:(lia)). rewrite Z.shiftl_1_l. destruct (Z.testbit (bz b) (dest mod 8)) eqn:Et.
    - destruct (Z.eqb_spec (Z.land (bz b) (2 ^ (dest mod 8))) 0) as [E0|]; [|done].
      apply (f_equal (fun x => Z.testbit x (dest mod 8))) in E0. rewrite Z.land_spec, Et, Z.pow2_bits_true, Z.bits_0 in E0 by lia. done.
    - replace (Z.land (bz b) (2 ^ (dest mod 8))) with 0; [done|]. symmetry. apply Z.bits_inj'. intros j Hj. rewrite Z.land_spec, Z.bits_0.
      destruct (decide (j = dest mod 8)) as [->|]; [by rewrite Et|]. rewrite Z.pow2_bits_false by done. apply andb_false_r. }
  destruct (d !! codehash) as [m|] eqn:Em.
  - rewrite (Hcache m eq_refl), Eb, Ebit. exists (bit (jumpdests code) (Z.to_nat dest)), d. split_and!; [done|done|by rewrite Em|done].
  - rewrite Eb, Ebit. exists (bit (jumpdests code) (Z.to_nat dest)), (<[codehash:=jumpdests code]> d). split_and!; [done|done| |].
    + intros m. rewrite lookup_insert_eq. congruence.
    + intros h Hne. by rewrite lookup_insert_ne.
Qed.

(** PUSH2 5b 5b, JUMPDEST: the two bytes of data are no destinations. *)
Definition pushed_dests : bytes := [x61; x5b; x5b; x5b].
Lemma jumps_land_on_instructions_witness :
  (∃ b d', has ∅ [] pushed_dests 3 = Some (b, d') ∧ (b = true ↔ starts pushed_dests 0 3 ∧ pushed_dests !! 3%nat = Some x5b))
  ∧ fst <$> has ∅ [] pushed_dests 1 = Some false ∧ fst <$> has ∅ [] pushed_dests 3 = Some true.
Proof.
  split; [|split; by vm_compute].
  destruct (jumps_land_on_instructions ∅ [] pushed_dests 3) as (b & d' & E & Hb & _); [lia|by vm_compute|intros m Hm; by rewrite lookup_empty in Hm|].
  exists b, d'. split; [exact E|exact Hb].
Defined.

(** ** The price of memory *)

Definition mem_fee (w : Z) : Z := 3 * w + w * w / 512.

(** A memory of [w] words that was paid for. *)
Definition paid (w : Z) (m : Memory) : Prop := 0 ≤ w ∧ mem_Len m = 32 * w ∧ lastGasCost m = mem_fee w.

Lemma toWordSize_spec size : 0 ≤ size < 2 ^ 64 → 0 ≤ toWordSize size ≤ 2 ^ 59 ∧ size ≤ 32 * toWordSize size ∧ (size = 0 → toWordSize size = 0).
Proof.
  intros Hs. unfold toWordSize, MaxUint64. destruct (Z.ltb_spec (2 ^ 64 - 1 - 31) size).
  - change ((2 ^ 64 - 1) / 32 + 1) with (2 ^ 59). lia.
  - pose proof (Z.div_mod (size + 31) 32 ltac:(lia)). pose proof (Z.mod_pos_bound (size + 31) 32 ltac:(lia)). lia.
Qed.

Lemma mem_fee_bound w : 0 ≤ w < 2 ^ 32 → 0 ≤ mem_fee w < 2 ^ 60.
Proof.
  intros Hw. unfold mem_fee. pose proof (Z.div_pos (w * w) 512 ltac:(nia) ltac:(lia)).
  assert (w * w / 512 < 2 ^ 56) by (apply Z.div_lt_upper_bound; nia). lia.
Qed.

Lemma mem_fee_mono v w : 0 ≤ v ≤ w → mem_fee v ≤ mem_fee w.
Proof. intros. unfold mem_fee. pose proof (Z.div_le_mono (v * v) (w * w) 512 ltac:(lia) ltac:(nia)). lia. Qed.

Lemma Resize_len size m : mem_Len (Resize size m) = Z.max (mem_Len m) size.
Proof.
  unfold Resize. destruct (Z.ltb_spec (mem_Len m) size); [|lia]. unfold mem_Len in *. cbn [store]. rewrite length_app, length_replicate. lia.
Qed.

(** Memory is priced by the quadratic formula below 2^32 words (128 GiB): expanding to any size costs the
    difference of the fees of the new and the old size, nothing if the memory is already that large, and the
    expanded memory is then paid for. *)
Theorem memory_price_is_quadratic m w size :
  paid w m → 0 ≤ size ≤ 32 * (2 ^ 32 - 1) → w < 2 ^ 32 →
  ∃ m', memoryGasCost m size = Some (mem_fee (Z.max w (toWordSize size)) - mem_fee w, m')
    ∧ store m' = store m ∧ paid (Z.max w (toWordSize size)) (Resize (32 * toWordSize size) m').
Proof.
  intros (Hw & Hlen & Hfee) Hs Hw32. unfold memoryGasCost. pose proof (toWordSize_spec size ltac:(lia)) as (Hn0 & Hn1 & Hn2). destruct (Z.eqb_spec size 0) as [->|Hnz].
  { exists m. rewrite Hn2 by done. rewrite Z.max_l by lia. rewrite Z.sub_diag. split_and!; [done|done|split_and!; [done| |]].
    - by rewrite Resize_len, Z.max_l by lia.
    - unfold Resize. by destruct (_ <? _). }
  replace (0xffffffffe0 <? size) with false by lia.
  assert (toWordSize size < 2 ^ 32) as Hn.
  { unfold toWordSize, MaxUint64. replace (_ <? size) with false by lia. apply Z.div_lt_upper_bound; lia. }
  set (n := toWordSize size) in *. rewrite (u64_small (n * 32)) by lia. rewrite Hlen. destruct (Z.ltb_spec (32 * w) (n * 32)).
  - unfold MemoryGas, QuadCoeffDiv. rewrite (u64_small (n * n)), (u64_small (n * 3)) by nia.
    pose proof (mem_fee_bound n ltac:(lia)). pose proof (mem_fee_mono w n ltac:(lia)). pose proof (mem_fee_bound w ltac:(lia)).
    replace (n * 3 + n * n / 512) with (mem_fee n) by (unfold mem_fee; lia). rewrite (u64_small (mem_fee n)), Hfee, u64_small, Z.max_r by lia.
    eexists. split_and!; [done|done|split_and!; [lia| |]].
    + rewrite Resize_len. unfold mem_Len in *. cbn [store]. lia.
    + unfold Resize. by destruct (_ <? _).
  - exists m. rewrite Z.max_l by lia. split_and!; [f_equal; f_equal; lia|done|split_and!; [done| |]].
    + rewrite Resize_len. lia.
    + unfold Resize. by destruct (_ <? _).
Qed.

Lemma memory_price_is_quadratic_witness :
  paid 0 NewMemory ∧ ∃ m', memoryGasCost NewMemory 1000000 = Some (mem_fee (Z.max 0 31250) - mem_fee 0, m').
Proof.
  assert (paid 0 NewMemory) as Hp by done. split; [exact Hp|].
  destruct (memory_price_is_quadratic NewMemory 0 1000000 Hp) as (m' & E & _); [lia|lia|]. exists m'. exact E.
Defined.

(** The limit on the size of memory in the gas function is too high for its arithmetic: the square of 2^32 words
    is zero in 64 bits, and 128 GiB cost the linear part, 12884901888, instead of 36028809903865856; memory of 2^39 bytes is
    still allowed. *)
Theorem memory_price_overflows :
  fst <$> memoryGasCost NewMemory (2 ^ 37) = Some (3 * 2 ^ 32)
  ∧ mem_fee (2 ^ 32) = 3 * 2 ^ 32 + 2 ^ 55
  ∧ fst <$> memoryGasCost NewMemory (2 ^ 39) = Some (3 * 2 ^ 34).
Proof. split_and!; by vm_compute. Qed.

End EvmCode.
