(* ===== verification/Evm.v ===== *)
(** The EVM ([Evm]): src/core/vm/interface.go, evm.go, contract.go, instructions.go,
    gas_table.go, memory_table.go, jump_table.go and interpreter.go, with the transfers of
    src/core/evm.go.

    The state databases are the class [VmState], read without side effects: that reading a
    state database shows nothing but its contents is proved in StateThms.v.  The public and
    the private state are two objects or one; a pointer to a state database is which of the
    two it is.  Errors of execution are values, a run-time panic is [Panic].

    Not part of the model: tracing, cancelling a run from another goroutine, and running
    without gas. *)

From S2P Require Import Prelude RlpEncode RlpRaw RlpDecode RlpRoundtrip RlpTotal KeccakF Sha3 CoreTypes.
From S2P Require Import Prque TrieEncoding TrieNode Trie TrieThms TrieHash TrieMap CoreBlock EvmWord EvmCode.

Module Evm.
Import Rlp Codec Types EvmWord EvmCode.

(** ** Errors (errors.go, instructions.go, jump_table.go) *)

Inductive evmErr :=
| ErrOutOfGas | ErrCodeStoreOutOfGas | ErrDepth | ErrInsufficientBalance | ErrContractAddressCollision
| ErrReadOnlyValueTransfer | errWriteProtection | errReturnDataOutOfBounds | errExecutionReverted
| errMaxCodeSizeExceeded | errGasUintOverflow | errReadOnlyMode | errInvalidOpcode (op : Z)
| errStackUnderflow | errStackLimit | errInvalidJump | errPrecompile.
#[global] Instance evmErr_eq_dec : EqDecision evmErr.
Proof. solve_decision. Defined.

(** ** State databases (interface.go)

    [None] is a panic. *)
Class VmState (S : Type) := {
  CreateAccount : bytes → S → S;
  SubBalance : bytes → Z → S → S;
  AddBalance : bytes → Z → S → S;
  GetBalance : bytes → S → Z;
  GetNonce : bytes → S → Z;
  SetNonce : bytes → Z → S → S;
  GetCodeHash : bytes → S → bytes;
  GetCode : bytes → S → bytes;
  SetCode : bytes → bytes → S → S;
  GetCodeSize : bytes → S → Z;
  AddRefund : Z → S → S;
  GetRefund : S → Z;
  GetState : bytes → bytes → S → option bytes;
  SetState : bytes → bytes → bytes → S → option S;
  Suicide : bytes → S → S;
  HasSuicided : bytes → S → bool;
  Exist : bytes → S → bool;
  Empty : bytes → S → bool;
  RevertToSnapshot : Z → S → option S;
  Snapshot : S → Z * S;
  AddLog : CoreBlock.Log → S → S;
  AddPreimage : bytes → bytes → S → S }.

(** ** Contexts (evm.go, contracts.go, interpreter.go) *)

Record PrecompiledContract := mkPrecompiled {
  RequiredGas : bytes → Z;
  pRun : bytes → result unit (bytes * option evmErr) }.

(** The message, the block, the rules of the chain at the block, and the configuration. *)
Record Context := mkContext {
  Origin : bytes; GasPrice : Z;
  Coinbase : bytes; GasLimit : Z; BlockNumber : Z; Time : Z; Difficulty : Z;
  GetHash : Z → bytes;
  IsHomestead : bool; IsEIP150 : bool; IsEIP158 : bool; IsByzantium : bool; IsBitmed : bool;
  NoRecursion : bool; EnablePreimageRecording : bool;
  PrecompiledContractsHomestead : bytes → option PrecompiledContract;
  PrecompiledContractsByzantium : bytes → option PrecompiledContract }.

Definition precompiles (c : Context) : bytes → option PrecompiledContract :=
  if IsByzantium c then PrecompiledContractsByzantium c else PrecompiledContractsHomestead c.
Definition gasTable (c : Context) : GasTable :=
  if IsEIP158 c then GasTableEIP158 else if IsEIP150 c then GasTableEIP150 else GasTableHomestead.

Definition BigToAddress (b : Z) : bytes := BytesToAddress (be_bytes b).
Definition BigToHash (b : Z) : bytes := BytesToHash (be_bytes b).

(** crypto.CreateAddress *)
Definition CreateAddress (b : bytes) (nonce : Z) : bytes :=
  let data := match EncodeToBytes (TStruct [TByteArray 20; TUint 64]) (VStruct [VByteArray b; VUint nonce]) with Ok d => d | _ => [] end in
  BytesToAddress (drop 12 (hash256 [data])).

Definition emptyCodeHash : bytes := hash256 [].

(** ** Contracts (contract.go) *)

Record Contract := mkContract {
  CallerAddress : bytes;
  self : bytes;
  Code : bytes;
  CodeHash : bytes;
  CodeAddr : option bytes;
  Input : bytes;
  Gas : Z;
  value : Z }.

Definition NewContract (caller object : bytes) (value gas : Z) : Contract := mkContract caller object [] emptyHash None [] gas value.
Definition SetCallCode (addr hash code : bytes) (c : Contract) : Contract :=
  mkContract (CallerAddress c) (self c) code hash (Some addr) (Input c) (Gas c) (value c).
Definition AsDelegate (parent c : Contract) : Contract :=
  mkContract (CallerAddress parent) (self c) (Code c) (CodeHash c) (CodeAddr c) (Input c) (Gas c) (value parent).
Definition set_Input (i : bytes) (c : Contract) : Contract :=
  mkContract (CallerAddress c) (self c) (Code c) (CodeHash c) (CodeAddr c) i (Gas c) (value c).
Definition set_Gas (g : Z) (c : Contract) : Contract :=
  mkContract (CallerAddress c) (self c) (Code c) (CodeHash c) (CodeAddr c) (Input c) g (value c).

Definition GetByte (n : Z) (c : Contract) : byte := if n <? zlen (Code c) then default x00 (Code c !! Z.to_nat n) else x00.
Definition GetOp (n : Z) (c : Contract) : Z := bz (GetByte n c).
Definition UseGas (gas : Z) (c : Contract) : option Contract := if Gas c <? gas then None else Some (set_Gas (Gas c - gas) c).

(** ** The machine (evm.go) *)

Section evm.
Context {S : Type} `{VmState S}.

(** Which of the two state databases a pointer points to: the public ([false]) or the second one. *)
Notation ref := bool.

(** [dual]: the private state is not the public state.  [states] has the top of the stack first. *)
Record EVM := mkEVM {
  publicState : S;
  secondState : S;
  dual : bool;
  StateDB : ref;
  depth : Z;
  states : list ref;
  quorumReadOnly : bool;
  readOnlyDepth : nat;
  readOnly : bool;
  returnData : bytes }.

Definition privateState (e : EVM) : ref := dual e.
Definition db (r : ref) (e : EVM) : S := if r then secondState e else publicState e.
Definition cur (e : EVM) : S := db (StateDB e) e.

Definition set_db (r : ref) (s : S) (e : EVM) : EVM :=
  mkEVM (if r then publicState e else s) (if r then s else secondState e) (dual e) (StateDB e) (depth e) (states e)
    (quorumReadOnly e) (readOnlyDepth e) (readOnly e) (returnData e).
Definition set_states (r : ref) (sts : list ref) (q : bool) (d : nat) (e : EVM) : EVM :=
  mkEVM (publicState e) (secondState e) (dual e) r (depth e) sts q d (readOnly e) (returnData e).
Definition set_depth (d : Z) (e : EVM) : EVM :=
  mkEVM (publicState e) (secondState e) (dual e) (StateDB e) d (states e) (quorumReadOnly e) (readOnlyDepth e) (readOnly e) (returnData e).
Definition set_readOnly (b : bool) (e : EVM) : EVM :=
  mkEVM (publicState e) (secondState e) (dual e) (StateDB e) (depth e) (states e) (quorumReadOnly e) (readOnlyDepth e) b (returnData e).
Definition set_returnData (d : bytes) (e : EVM) : EVM :=
  mkEVM (publicState e) (secondState e) (dual e) (StateDB e) (depth e) (states e) (quorumReadOnly e) (readOnlyDepth e) (readOnly e) d.

Definition Push (r : ref) (e : EVM) : option EVM :=
  let '(q, d) := if negb (Bool.eqb (privateState e) r) then (true, length (states e)) else (quorumReadOnly e, readOnlyDepth e) in
  if (length (states e) <? 1027)%nat then Some (set_states r (r :: states e) q d e) else None.

Definition Pop (e : EVM) : option EVM :=
  match states e with
  | _ :: ((r :: _) as rest) =>
      Some (set_states r rest (if quorumReadOnly e && (length rest =? readOnlyDepth e)%nat then false else quorumReadOnly e) (readOnlyDepth e) e)
  | _ => None
  end.

(** A transaction's EVM: [second] is the private state, if it is not the public state itself. *)
Definition NewEVM (statedb second : S) (dual : bool) : EVM :=
  mkEVM statedb second dual dual 0 [dual] false 0 false [].

Definition getDualState (addr : bytes) (e : EVM) : ref :=
  if Exist addr (db (privateState e) e) then privateState e
  else if Exist addr (publicState e) then false
  else StateDB e.

(** core/evm.go *)
Definition CanTransfer (s : S) (addr : bytes) (amount : Z) : bool := amount <=? GetBalance addr s.
Definition Transfer (sender recipient : bytes) (amount : Z) (s : S) : S :=
  AddBalance recipient amount (SubBalance sender amount s).

(** ** Frames and instructions *)

Record Frame := mkFrame {
  pc : Z;
  contract : Contract;
  memory : Memory;
  stack : list Z }.

Definition set_pc (p : Z) (f : Frame) : Frame := mkFrame p (contract f) (memory f) (stack f).
Definition set_contract (c : Contract) (f : Frame) : Frame := mkFrame (pc f) c (memory f) (stack f).
Definition set_memory (m : Memory) (f : Frame) : Frame := mkFrame (pc f) (contract f) m (stack f).
Definition set_stack (st : list Z) (f : Frame) : Frame := mkFrame (pc f) (contract f) (memory f) st.

(** Actions on a frame and the machine. *)
Definition M (A : Type) : Type := Frame → EVM → result unit (A * Frame * EVM).
Definition ret {A} (a : A) : M A := fun f e => Ok (a, f, e).
Definition bind {A B} (m : M A) (k : A → M B) : M B := fun f e => let? (a, f, e) := m f e in k a f e.
Notation "x <- m ;; k" := (bind m (fun x => k)) (at level 100, m at next level, right associativity).
Notation "m ;;; k" := (bind m (fun _ => k)) (at level 100, right associativity).
Definition lift {A} (o : option A) : M A := fun f e => match o with Some a => Ok (a, f, e) | None => Panic end.
Definition frame : M Frame := fun f e => Ok (f, f, e).
Definition machine : M EVM := fun f e => Ok (e, f, e).
Definition put_frame (f : Frame) : M unit := fun _ e => Ok (tt, f, e).
Definition put_machine (e : EVM) : M unit := fun f _ => Ok (tt, f, e).

Definition pop : M Z :=
  f <- frame ;; match stack f with x :: st => put_frame (set_stack st f) ;;; ret x | [] => lift None end.
Definition push (x : Z) : M unit := f <- frame ;; put_frame (set_stack (x :: stack f) f).
Definition Back (n : nat) : M Z := f <- frame ;; lift (stack f !! n).
Definition read {A} (r : ref) (get : S → A) : M A := e <- machine ;; ret (get (db r e)).
Definition write (r : ref) (put : S → S) : M unit := e <- machine ;; put_machine (set_db r (put (db r e)) e).
Definition dualState (addr : bytes) : M ref := e <- machine ;; ret (getDualState addr e).
Definition update_memory (g : Memory → option Memory) : M unit :=
  f <- frame ;; m <- lift (g (memory f)) ;; put_frame (set_memory m f).
Definition memory_Get (offset size : Z) : M bytes := f <- frame ;; lift (mem_Get (i64 offset) (i64 size) (memory f)).

(** What an instruction returns: data and an error. *)
Definition out : Type := bytes * option evmErr.
Definition none : M out := ret ([], None).

(** *** Instructions on words, and those that push a word *)

Definition on_stack (op : list Z → option (list Z)) : M out :=
  f <- frame ;; st <- lift (op (stack f)) ;; put_frame (set_stack st f) ;;; none.

Section context.
Context (c : Context).

Definition opSha3 : M out :=
  offset <- pop ;; size <- pop ;; data <- memory_Get offset size ;;
  let hash := hash256 [data] in
  e <- machine ;;
  (if EnablePreimageRecording c then write (StateDB e) (AddPreimage (BytesToHash hash) data) else ret tt) ;;;
  push (be_val hash) ;;; none.
Definition opAddress : M out := f <- frame ;; push (be_val (self (contract f))) ;;; none.
Definition opBalance : M out :=
  x <- pop ;; let addr := BigToAddress x in r <- dualState addr ;; b <- read r (GetBalance addr) ;; push b ;;; none.
Definition opOrigin : M out := push (be_val (Origin c)) ;;; none.
Definition opCaller : M out := f <- frame ;; push (be_val (CallerAddress (contract f))) ;;; none.
Definition opCallValue : M out := f <- frame ;; push (value (contract f)) ;;; none.
Definition opCallDataLoad : M out := f <- frame ;; x <- pop ;; push (be_val (getDataBig (Input (contract f)) x 32)) ;;; none.
Definition opCallDataSize : M out := f <- frame ;; push (zlen (Input (contract f))) ;;; none.

(** The three instructions that copy data into memory. *)
Definition copy_data (data : bytes) (memOffset dataOffset length : Z) : M unit :=
  update_memory (mem_Set (u64 memOffset) (u64 length) (getDataBig data dataOffset length)).
Definition opCallDataCopy : M out :=
  memOffset <- pop ;; dataOffset <- pop ;; length <- pop ;; f <- frame ;; copy_data (Input (contract f)) memOffset dataOffset length ;;; none.
Definition opReturnDataSize : M out := e <- machine ;; push (zlen (returnData e)) ;;; none.
Definition opReturnDataCopy : M out :=
  memOffset <- pop ;; dataOffset <- pop ;; length <- pop ;; e <- machine ;;
  let stop := dataOffset + length in
  if (64 <? BitLen stop) || (zlen (returnData e) <? u64 stop) then ret ([], Some errReturnDataOutOfBounds)
  else
    update_memory (mem_Set (u64 memOffset) (u64 length) (take (Z.to_nat (stop - dataOffset)) (drop (Z.to_nat dataOffset) (returnData e)))) ;;; none.
Definition opExtCodeSize : M out :=
  a <- pop ;; let addr := BigToAddress a in r <- dualState addr ;; n <- read r (GetCodeSize addr) ;; push n ;;; none.
Definition opCodeSize : M out := f <- frame ;; push (zlen (Code (contract f))) ;;; none.
Definition opCodeCopy : M out :=
  memOffset <- pop ;; codeOffset <- pop ;; length <- pop ;; f <- frame ;; copy_data (Code (contract f)) memOffset codeOffset length ;;; none.
Definition opExtCodeCopy : M out :=
  a <- pop ;; let addr := BigToAddress a in
  memOffset <- pop ;; codeOffset <- pop ;; length <- pop ;; r <- dualState addr ;; code <- read r (GetCode addr) ;;
  copy_data code memOffset codeOffset length ;;; none.
Definition opGasprice : M out := push (GasPrice c) ;;; none.
Definition opBlockhash : M out :=
  num <- pop ;;
  let n := BlockNumber c - 257 in
  push (if (n <? num) && (num <? BlockNumber c) then be_val (GetHash c (u64 num)) else 0) ;;; none.
Definition opCoinbase : M out := push (be_val (Coinbase c)) ;;; none.
Definition opTimestamp : M out := push (U256 (Time c)) ;;; none.
Definition opNumber : M out := push (U256 (BlockNumber c)) ;;; none.
Definition opDifficulty : M out := push (U256 (Difficulty c)) ;;; none.
Definition opGasLimit : M out := push (U256 (GasLimit c)) ;;; none.
Definition opPop : M out := pop ;;; none.
Definition opMload : M out := offset <- pop ;; b <- memory_Get offset 32 ;; push (be_val b) ;;; none.
Definition opMstore : M out := mStart <- pop ;; val <- pop ;; update_memory (mem_Set (u64 mStart) 32 (PaddedBigBytes val 32)) ;;; none.
Definition opMstore8 : M out := off <- pop ;; val <- pop ;; update_memory (store_byte (i64 off) (zb (Z.land (i64 val) 255))) ;;; none.
Definition opSload : M out :=
  x <- pop ;; f <- frame ;;
  let addr := self (contract f) in
  r <- dualState addr ;; v <- read r (GetState addr (BigToHash x)) ;; v <- lift v ;; push (be_val v) ;;; none.
Definition opSstore : M out :=
  x <- pop ;; val <- pop ;; f <- frame ;;
  let addr := self (contract f) in
  r <- dualState addr ;; e <- machine ;; s <- lift (SetState addr (BigToHash x) (BigToHash val) (db r e)) ;;
  put_machine (set_db r s e) ;;; none.

(** The analysis of the code is not kept between instructions; that the cache of a contract
    is right is part of [EvmCode.jumps_land_on_instructions]. *)
Definition jump (pos : Z) : M out :=
  f <- frame ;; d <- lift (has ∅ (CodeHash (contract f)) (Code (contract f)) pos) ;;
  if (fst d : bool) then put_frame (set_pc (u64 pos) f) ;;; none else ret ([], Some errInvalidJump).
Definition opJump : M out := pos <- pop ;; jump pos.
Definition opJumpi : M out :=
  pos <- pop ;; cond <- pop ;;
  if negb (cond =? 0) then jump pos else f <- frame ;; put_frame (set_pc (u64 (pc f + 1)) f) ;;; none.
Definition opJumpdest : M out := none.
Definition opPc : M out := f <- frame ;; push (pc f) ;;; none.
Definition opMsize : M out := f <- frame ;; push (mem_Len (memory f)) ;;; none.
Definition opGas : M out := f <- frame ;; push (Gas (contract f)) ;;; none.
Definition opReturn : M out :=
  offset <- pop ;; size <- pop ;; f <- frame ;; r <- lift (GetPtr (i64 offset) (i64 size) (memory f)) ;; ret (r, None).
Definition opRevert : M out :=
  offset <- pop ;; size <- pop ;; f <- frame ;; r <- lift (GetPtr (i64 offset) (i64 size) (memory f)) ;; ret (r, None).
Definition opStop : M out := none.
Definition opSuicide : M out :=
  f <- frame ;;
  let addr := self (contract f) in
  r <- dualState addr ;; balance <- read r (GetBalance addr) ;; x <- pop ;;
  write r (AddBalance (BigToAddress x) balance) ;;; write r (Suicide addr) ;;; none.

Fixpoint pop_topics (n : nat) : M (list bytes) :=
  match n with
  | O => ret []
  | Datatypes.S n => x <- pop ;; ts <- pop_topics n ;; ret (BigToHash x :: ts)
  end.
Definition makeLog (size : nat) : M out :=
  mStart <- pop ;; mSize <- pop ;; topics <- pop_topics size ;; d <- memory_Get mStart mSize ;;
  f <- frame ;; e <- machine ;; write (StateDB e) (AddLog (CoreBlock.mkLog (self (contract f)) topics d)) ;;; none.

Definition makePush (size pushByteSize : Z) : M out :=
  f <- frame ;;
  let code := Code (contract f) in
  let codeLen := zlen code in
  let startMin := if pc f + 1 <? codeLen then pc f + 1 else codeLen in
  let endMin := if startMin + pushByteSize <? codeLen then startMin + pushByteSize else codeLen in
  push (be_val (RightPadBytes (take (Z.to_nat (endMin - startMin)) (drop (Z.to_nat startMin) code)) pushByteSize)) ;;;
  f <- frame ;; put_frame (set_pc (u64 (pc f + size)) f) ;;; none.
Definition makeDup (size : nat) : M out := f <- frame ;; x <- lift (stack f !! (size - 1)%nat) ;; push x ;;; none.
(** The top and the item [size] below it. *)
Definition makeSwap (size : nat) : M out :=
  f <- frame ;; x <- lift (stack f !! size) ;; y <- lift (stack f !! 0%nat) ;;
  put_frame (set_stack (<[0%nat := x]> (<[size := y]> (stack f))) f) ;;; none.

(** *** Calls (evm.go)

    A call takes the function that runs a contract, see [run] below, and returns the data,
    the gas that is left, the error and the machine. *)

Definition runner : Type := Contract → bytes → EVM → result unit (bytes * option evmErr * Z * EVM).
Definition callResult : Type := bytes * Z * option evmErr * EVM.

Definition over_depth (e : EVM) : bool := CallCreateDepth <? depth e.
Definition write_cur (put : S → S) (e : EVM) : EVM := set_db (StateDB e) (put (cur e)) e.
Definition snapshot_cur (e : EVM) : Z * EVM := let (id, s) := Snapshot (cur e) in (id, set_db (StateDB e) s e).

(** After a run: an error reverts the state, and takes the gas unless the contract asked for it. *)
Definition settle (snapshot : Z) (r : bytes * option evmErr * Z * EVM) : result unit callResult :=
  let '(ret, err, gas, e) := r in
  match err with
  | None => Ok (ret, gas, None, e)
  | Some er =>
      match RevertToSnapshot snapshot (cur e) with
      | None => Panic
      | Some s => Ok (ret, (if bool_decide (er = errExecutionReverted) then gas else 0), err, set_db (StateDB e) s e)
      end
  end.

(** Code runs on the state of its address; the deferred Pop brings the caller's state back. *)
Definition with_state (addr : bytes) (e : EVM) (body : EVM → result unit callResult) : result unit callResult :=
  match Push (getDualState addr e) e with
  | None => Panic
  | Some e =>
      let? (ret, gas, err, e) := body e in
      match Pop e with Some e => Ok (ret, gas, err, e) | None => Panic end
  end.

Definition call_code (addr : bytes) (k : Contract) (e : EVM) : Contract := SetCallCode addr (GetCodeHash addr (cur e)) (GetCode addr (cur e)) k.

Definition Call (run : runner) (caller addr input : bytes) (gas value : Z) (e : EVM) : result unit callResult :=
  if NoRecursion c && (0 <? depth e) then Ok ([], gas, None, e)
  else
    with_state addr e (fun e =>
      if over_depth e then Ok ([], gas, Some ErrDepth, e)
      else if negb (CanTransfer (cur e) caller value) then Ok ([], gas, Some ErrInsufficientBalance, e)
      else
        let (snapshot, e) := snapshot_cur e in
        let isNew := negb (Exist addr (cur e)) in
        if isNew && match precompiles c addr with None => true | Some _ => false end && IsEIP158 c && (value =? 0) then Ok ([], gas, None, e)
        else
          let e := if isNew then write_cur (CreateAccount addr) e else e in
          if IsBitmed c && negb (value =? 0) && quorumReadOnly e then Ok ([], gas, Some ErrReadOnlyValueTransfer, e)
          else
            let e := if IsBitmed c && (value =? 0) then e else write_cur (Transfer caller addr value) e in
            let contract := call_code addr (NewContract caller addr value gas) e in
            let? r := run contract input e in settle snapshot r).

Definition CallCode (run : runner) (caller addr input : bytes) (gas value : Z) (e : EVM) : result unit callResult :=
  if NoRecursion c && (0 <? depth e) then Ok ([], gas, None, e)
  else
    with_state addr e (fun e =>
      if over_depth e then Ok ([], gas, Some ErrDepth, e)
      else if negb (CanTransfer (cur e) caller value) then Ok ([], gas, Some ErrInsufficientBalance, e)
      else
        let (snapshot, e) := snapshot_cur e in
        let contract := call_code addr (NewContract caller caller value gas) e in
        let? r := run contract input e in settle snapshot r).

(** The caller is a contract. *)
Definition DelegateCall (run : runner) (caller : Contract) (addr input : bytes) (gas : Z) (e : EVM) : result unit callResult :=
  if NoRecursion c && (0 <? depth e) then Ok ([], gas, None, e)
  else
    with_state addr e (fun e =>
      if over_depth e then Ok ([], gas, Some ErrDepth, e)
      else
        let (snapshot, e) := snapshot_cur e in
        let contract := call_code addr (AsDelegate caller (NewContract (self caller) (self caller) 0 gas)) e in
        let? r := run contract input e in settle snapshot r).

(** The flag that this call has set is cleared by a deferred function. *)
Definition StaticCall (run : runner) (caller addr input : bytes) (gas : Z) (e : EVM) : result unit callResult :=
  if NoRecursion c && (0 <? depth e) then Ok ([], gas, None, e)
  else if over_depth e then Ok ([], gas, Some ErrDepth, e)
  else
    let was := readOnly e in
    let e := set_readOnly true e in
    let (snapshot, e) := snapshot_cur e in
    let contract := call_code addr (NewContract caller addr 0 gas) e in
    let? r := run contract input e in
    let? (ret, gas, err, e) := settle snapshot r in
    Ok (ret, gas, err, if was then e else set_readOnly false e).

(** After the run of a contract's creation code: what it returned is the code, if its price is paid. *)
Definition deposit (snapshot : Z) (contractAddr : bytes) (r : bytes * option evmErr * Z * EVM) : result unit (bytes * bytes * Z * option evmErr * EVM) :=
  let '(ret, err, gas, e) := r in
  let maxCodeSizeExceeded := IsEIP158 c && (MaxCodeSize <? zlen ret) in
  let '(err, gas, e) :=
    if negb (bool_decide (err = None)) || maxCodeSizeExceeded then (err, gas, e)
    else
      let createDataGas := u64 (zlen ret * CreateDataGas) in
      if gas <? createDataGas then (Some ErrCodeStoreOutOfGas, gas, e)
      else (None, gas - createDataGas, write_cur (SetCode contractAddr ret) e) in
  let failed := negb (bool_decide (err = None)) && (IsHomestead c || negb (bool_decide (err = Some ErrCodeStoreOutOfGas))) in
  let? (gas, e) :=
    if maxCodeSizeExceeded || failed then
      match RevertToSnapshot snapshot (cur e) with
      | None => Panic
      | Some s => Ok ((if bool_decide (err = Some errExecutionReverted) then gas else 0), set_db (StateDB e) s e)
      end
    else Ok (gas, e) in
  let err := if maxCodeSizeExceeded && bool_decide (err = None) then Some errMaxCodeSizeExceeded else err in
  Ok (ret, contractAddr, gas, err, e).

(** The address of the new contract comes with the result. *)
Definition Create (run : runner) (caller code : bytes) (gas value : Z) (e : EVM) : result unit (bytes * bytes * Z * option evmErr * EVM) :=
  if over_depth e then Ok ([], emptyAddr, gas, Some ErrDepth, e)
  else if negb (CanTransfer (cur e) caller value) then Ok ([], emptyAddr, gas, Some ErrInsufficientBalance, e)
  else
    let creator := if 0 <? depth e then privateState e else false in
    let nonce := GetNonce caller (db creator e) in
    let e := set_db creator (SetNonce caller (u64 (nonce + 1)) (db creator e)) e in
    let contractAddr := CreateAddress caller nonce in
    let contractHash := GetCodeHash contractAddr (cur e) in
    if negb (GetNonce contractAddr (cur e) =? 0)
       || (negb (bool_decide (contractHash = emptyHash)) && negb (bool_decide (contractHash = emptyCodeHash)))
    then Ok ([], emptyAddr, 0, Some ErrContractAddressCollision, e)
    else
      let (snapshot, e) := snapshot_cur e in
      let e := write_cur (CreateAccount contractAddr) e in
      let e := if IsEIP158 c then write_cur (SetNonce contractAddr 1) e else e in
      if IsBitmed c && negb (value =? 0) && quorumReadOnly e then Ok ([], emptyAddr, gas, Some ErrReadOnlyValueTransfer, e)
      else
        let e := if IsBitmed c && (value =? 0) then e else write_cur (Transfer caller contractAddr value) e in
        let contract := SetCallCode contractAddr (hash256 [code]) code (NewContract caller contractAddr value gas) in
        if NoRecursion c && (0 <? depth e) then Ok ([], contractAddr, gas, None, e)
        else
          let? r := run contract [] e in deposit snapshot contractAddr r.

(** *** The instructions that call *)

Definition add_Gas (g : Z) : M unit := f <- frame ;; put_frame (set_contract (set_Gas (u64 (Gas (contract f) + g)) (contract f)) f).

(** Push whether the call succeeded, and copy what it returned. *)
Definition returned (retOffset retSize : Z) (r : callResult) : M out :=
  let '(ret', returnGas, err, e) := r in
  put_machine e ;;;
  push (if bool_decide (err = None) then 1 else 0) ;;;
  (if bool_decide (err = None) || bool_decide (err = Some errExecutionReverted)
   then update_memory (mem_Set (u64 retOffset) (u64 retSize) ret') else ret tt) ;;;
  add_Gas returnGas ;;; ret (ret', None).

Definition perform {A} (r : EVM → result unit A) : M A := fun f e => let? a := r e in Ok (a, f, e).

Definition opCreate (run : runner) : M out :=
  value <- pop ;; offset <- pop ;; size <- pop ;; input <- memory_Get offset size ;; f <- frame ;;
  let gas := Gas (contract f) in
  let gas := if IsEIP150 c then gas - gas / 64 else gas in
  put_frame (set_contract (set_Gas (Gas (contract f) - gas) (contract f)) f) ;;;
  r <- perform (Create run (self (contract f)) input gas value) ;;
  let '(res, addr, returnGas, suberr, e) := r in
  put_machine e ;;;
  push (if (IsHomestead c && bool_decide (suberr = Some ErrCodeStoreOutOfGas))
           || (negb (bool_decide (suberr = None)) && negb (bool_decide (suberr = Some ErrCodeStoreOutOfGas)))
        then 0 else be_val addr) ;;;
  add_Gas returnGas ;;;
  ret (if bool_decide (suberr = Some errExecutionReverted) then res else [], None).

Definition opCall (run : runner) : M out :=
  gas <- pop ;; addr <- pop ;; value <- pop ;; inOffset <- pop ;; inSize <- pop ;; retOffset <- pop ;; retSize <- pop ;;
  let value := U256 value in
  args <- memory_Get inOffset inSize ;;
  let gas := if value =? 0 then u64 gas else u64 (u64 gas + CallStipend) in
  f <- frame ;; r <- perform (Call run (self (contract f)) (BigToAddress addr) args gas value) ;; returned retOffset retSize r.

Definition opCallCode (run : runner) : M out :=
  gas <- pop ;; addr <- pop ;; value <- pop ;; inOffset <- pop ;; inSize <- pop ;; retOffset <- pop ;; retSize <- pop ;;
  let value := U256 value in
  args <- memory_Get inOffset inSize ;;
  let gas := if value =? 0 then u64 gas else u64 (u64 gas + CallStipend) in
  f <- frame ;; r <- perform (CallCode run (self (contract f)) (BigToAddress addr) args gas value) ;; returned retOffset retSize r.

Definition opDelegateCall (run : runner) : M out :=
  gas <- pop ;; to <- pop ;; inOffset <- pop ;; inSize <- pop ;; outOffset <- pop ;; outSize <- pop ;;
  args <- memory_Get inOffset inSize ;;
  f <- frame ;; r <- perform (DelegateCall run (contract f) (BigToAddress to) args (u64 gas)) ;; returned outOffset outSize r.

Definition opStaticCall (run : runner) : M out :=
  gas <- pop ;; addr <- pop ;; inOffset <- pop ;; inSize <- pop ;; retOffset <- pop ;; retSize <- pop ;;
  args <- memory_Get inOffset inSize ;;
  f <- frame ;; r <- perform (StaticCall run (self (contract f)) (BigToAddress addr) args (u64 gas)) ;; returned retOffset retSize r.

(** ** Gas (gas_table.go)

    [None] is an error, after which the run ends with ErrOutOfGas. *)

Definition gasFunc : Type := Z → M (option Z).

Definition memory_gas (memorySize : Z) : M (option Z) :=
  f <- frame ;;
  match memoryGasCost (memory f) memorySize with
  | Some (fee, m) => put_frame (set_memory m f) ;;; ret (Some fee)
  | None => ret None
  end.

Definition constGasFunc (gas : Z) : gasFunc := fun _ => ret (Some gas).

(** Memory, a fixed price, and a price for every word of the item [n] of the stack. *)
Definition gas_copy (price : Z) (n : nat) (wordPrice : Z) : gasFunc := fun ms =>
  g <- memory_gas ms ;; size <- Back n ;;
  ret (g ← g; g ← add_gas g price; w ← words_gas size wordPrice; add_gas g w).
Definition gasCallDataCopy : gasFunc := gas_copy GasFastestStep 2 CopyGas.
Definition gasReturnDataCopy : gasFunc := gas_copy GasFastestStep 2 CopyGas.
Definition gasSha3 : gasFunc := gas_copy Sha3Gas 1 Sha3WordGas.
Definition gasCodeCopy : gasFunc := gas_copy GasFastestStep 2 CopyGas.
Definition gasExtCodeCopy : gasFunc := gas_copy (gt_ExtcodeCopy (gasTable c)) 3 CopyGas.

Definition gasSStore : gasFunc := fun _ =>
  f <- frame ;;
  let addr := self (contract f) in
  r <- dualState addr ;; y <- Back 1 ;; x <- Back 0 ;;
  v <- read r (GetState addr (BigToHash x)) ;; val <- lift v ;;
  if EmptyHash val && negb (EmptyHash (BigToHash y)) then ret (Some SstoreSetGas)
  else if negb (EmptyHash val) && EmptyHash (BigToHash y) then write r (AddRefund SstoreRefundGas) ;;; ret (Some SstoreClearGas)
  else ret (Some SstoreResetGas).

Definition makeGasLog (n : Z) : gasFunc := fun ms =>
  x <- Back 1 ;;
  let '(requestedSize, overflow) := bigUint64 x in
  if (overflow : bool) then ret None
  else
    g <- memory_gas ms ;;
    ret (g ← g; g ← add_gas g LogGas; g ← add_gas g (n * LogTopicGas);
         (let '(memorySizeGas, overflow) := SafeMul requestedSize LogDataGas in if overflow then None else add_gas g memorySizeGas)).

(** Memory and a fixed price. *)
Definition gas_memory (price : Z) : gasFunc := fun ms => g <- memory_gas ms ;; ret (g ← g; add_gas g price).
Definition gasMLoad : gasFunc := gas_memory GasFastestStep.
Definition gasMStore8 : gasFunc := gas_memory GasFastestStep.
Definition gasMStore : gasFunc := gas_memory GasFastestStep.
Definition gasCreate : gasFunc := gas_memory CreateGas.
Definition gasBalance : gasFunc := constGasFunc (gt_Balance (gasTable c)).
Definition gasExtCodeSize : gasFunc := constGasFunc (gt_ExtcodeSize (gasTable c)).
Definition gasSLoad : gasFunc := constGasFunc (gt_SLoad (gasTable c)).
Definition gasExp : gasFunc := fun _ =>
  x <- Back 1 ;; let expByteLen := (BitLen x + 7) / 8 in ret (add_gas (u64 (expByteLen * gt_ExpByte (gasTable c))) GasSlowStep).

(** The gas for the callee takes the place of the gas asked for on the stack. *)
Definition call_gas (base : option Z) : M (option Z) :=
  f <- frame ;; x <- Back 0 ;;
  match (g ← base; cg ← callGas (gasTable c) (Gas (contract f)) g x; Some (g, cg)) with
  | None => ret None
  | Some (g, cg) => put_frame (set_stack (cg :: tail (stack f)) f) ;;; ret (add_gas g cg)
  end.

Definition gasCall : gasFunc := fun ms =>
  v <- Back 2 ;; a <- Back 1 ;;
  let transfersValue := negb (v =? 0) in
  let address := BigToAddress a in
  r <- dualState address ;; isEmpty <- read r (Empty address) ;; exists' <- read r (Exist address) ;;
  let newAccount := if IsEIP158 c then transfersValue && isEmpty else negb exists' in
  let gas := gt_Calls (gasTable c) + (if newAccount then CallNewAccountGas else 0) + (if transfersValue then CallValueTransferGas else 0) in
  m <- memory_gas ms ;; call_gas (m ← m; add_gas gas m).

Definition gasCallCode : gasFunc := fun ms =>
  v <- Back 2 ;;
  let gas := gt_Calls (gasTable c) + (if v =? 0 then 0 else CallValueTransferGas) in
  m <- memory_gas ms ;; call_gas (m ← m; add_gas gas m).

Definition gasReturn : gasFunc := memory_gas.
Definition gasRevert : gasFunc := memory_gas.

(** Before EIP150 no state database is chosen, and the call of its method panics. *)
Definition gasSuicide : gasFunc := fun _ =>
  if negb (IsEIP150 c) then lift None
  else
    x <- Back 0 ;; f <- frame ;;
    let address := BigToAddress x in
    let own := self (contract f) in
    r <- dualState address ;; isEmpty <- read r (Empty address) ;; exists' <- read r (Exist address) ;; balance <- read r (GetBalance own) ;;
    let created := if IsEIP158 c then isEmpty && negb (balance =? 0) else negb exists' in
    suicided <- read r (HasSuicided own) ;;
    (if (suicided : bool) then ret tt else write r (AddRefund SuicideRefundGas)) ;;;
    ret (Some (gt_Suicide (gasTable c) + (if created then gt_CreateBySuicide (gasTable c) else 0))).

Definition gasDelegateCall : gasFunc := fun ms => m <- memory_gas ms ;; call_gas (m ← m; add_gas m (gt_Calls (gasTable c))).
Definition gasStaticCall : gasFunc := fun ms => m <- memory_gas ms ;; call_gas (m ← m; add_gas m (gt_Calls (gasTable c))).
Definition gasPush : gasFunc := constGasFunc GasFastestStep.
Definition gasSwap : gasFunc := constGasFunc GasFastestStep.
Definition gasDup : gasFunc := constGasFunc GasFastestStep.

(** ** Memory sizes (memory_table.go) *)

Definition memSizeFunc : Type := list Z → option Z.
Definition mem_at (off size : nat) : memSizeFunc := fun st => o ← st !! off; l ← st !! size; Some (calcMemSize o l).
Definition mem_const (size : Z) : memSizeFunc := fun st => o ← st !! 0%nat; Some (calcMemSize o size).
Definition mem_max (f g : memSizeFunc) : memSizeFunc := fun st => x ← f st; y ← g st; Some (BigMax x y).

Definition memorySha3 : memSizeFunc := mem_at 0 1.
Definition memoryCallDataCopy : memSizeFunc := mem_at 0 2.
Definition memoryReturnDataCopy : memSizeFunc := mem_at 0 2.
Definition memoryCodeCopy : memSizeFunc := mem_at 0 2.
Definition memoryExtCodeCopy : memSizeFunc := mem_at 1 3.
Definition memoryMLoad : memSizeFunc := mem_const 32.
Definition memoryMStore8 : memSizeFunc := mem_const 1.
Definition memoryMStore : memSizeFunc := mem_const 32.
Definition memoryCreate : memSizeFunc := mem_at 1 2.
Definition memoryCall : memSizeFunc := mem_max (mem_at 5 6) (mem_at 3 4).
Definition memoryDelegateCall : memSizeFunc := mem_max (mem_at 4 5) (mem_at 2 3).
Definition memoryStaticCall : memSizeFunc := mem_max (mem_at 4 5) (mem_at 2 3).
Definition memoryReturn : memSizeFunc := mem_at 0 1.
Definition memoryRevert : memSizeFunc := mem_at 0 1.
Definition memoryLog : memSizeFunc := mem_at 0 1.

(** ** The instruction sets (jump_table.go, opcodes.go) *)

Record operation := mkOperation {
  execute : runner → M out;
  gasCost : gasFunc;
  pops : nat;
  pushes : nat;
  memorySize : option memSizeFunc;
  halts : bool; jumps : bool; writes : bool; reverts : bool; returns : bool }.

Definition plain (execute : M out) (gasCost : gasFunc) (pops pushes : nat) : operation :=
  mkOperation (fun _ => execute) gasCost pops pushes None false false false false false.
Definition with_memory (execute : M out) (gasCost : gasFunc) (pops pushes : nat) (ms : memSizeFunc) : operation :=
  mkOperation (fun _ => execute) gasCost pops pushes (Some ms) false false false false false.
Definition jumping (execute : M out) (gasCost : gasFunc) (pops : nat) : operation :=
  mkOperation (fun _ => execute) gasCost pops 0 None false true false false false.
Definition logging (n : nat) : operation :=
  mkOperation (fun _ => makeLog n) (makeGasLog (Z.of_nat n)) (n + 2) 0 (Some memoryLog) false false true false false.
Definition calling (execute : runner → M out) (gasCost : gasFunc) (pops : nat) (ms : memSizeFunc) (writes : bool) : operation :=
  mkOperation execute gasCost pops 1 (Some ms) false false writes false true.

Definition pushing : list (Z * operation) := (fun n => (0x5f + Z.of_nat n, plain (makePush (Z.of_nat n) (Z.of_nat n)) gasPush 0 1)) <$> seq 1 32.
Definition dupping : list (Z * operation) := (fun n => (0x7f + Z.of_nat n, plain (makeDup n) gasDup n (n + 1))) <$> seq 1 16.
Definition swapping : list (Z * operation) := (fun n => (0x8f + Z.of_nat n, plain (makeSwap n) gasSwap (n + 1) (n + 1))) <$> seq 1 16.
Definition logs_table : list (Z * operation) := (fun n => (0xa0 + Z.of_nat n, logging n)) <$> seq 0 5.

Definition arithmetic_table : list (Z * operation) :=
  [(0x00, mkOperation (fun _ => opStop) (constGasFunc 0) 0 0 None true false false false false);
   (0x01, plain (on_stack opAdd) (constGasFunc GasFastestStep) 2 1);
   (0x02, plain (on_stack opMul) (constGasFunc GasFastStep) 2 1);
   (0x03, plain (on_stack opSub) (constGasFunc GasFastestStep) 2 1);
   (0x04, plain (on_stack opDiv) (constGasFunc GasFastStep) 2 1);
   (0x05, plain (on_stack opSdiv) (constGasFunc GasFastStep) 2 1);
   (0x06, plain (on_stack opMod) (constGasFunc GasFastStep) 2 1);
   (0x07, plain (on_stack opSmod) (constGasFunc GasFastStep) 2 1);
   (0x08, plain (on_stack opAddmod) (constGasFunc GasMidStep) 3 1);
   (0x09, plain (on_stack opMulmod) (constGasFunc GasMidStep) 3 1);
   (0x0a, plain (on_stack opExp) gasExp 2 1);
   (0x0b, plain (on_stack opSignExtend) (constGasFunc GasFastStep) 2 1);
   (0x10, plain (on_stack opLt) (constGasFunc GasFastestStep) 2 1);
   (0x11, plain (on_stack opGt) (constGasFunc GasFastestStep) 2 1);
   (0x12, plain (on_stack opSlt) (constGasFunc GasFastestStep) 2 1);
   (0x13, plain (on_stack opSgt) (constGasFunc GasFastestStep) 2 1);
   (0x14, plain (on_stack opEq) (constGasFunc GasFastestStep) 2 1);
   (0x15, plain (on_stack opIszero) (constGasFunc GasFastestStep) 1 1);
   (0x16, plain (on_stack opAnd) (constGasFunc GasFastestStep) 2 1);
   (0x17, plain (on_stack opOr) (constGasFunc GasFastestStep) 2 1);
   (0x18, plain (on_stack opXor) (constGasFunc GasFastestStep) 2 1);
   (0x19, plain (on_stack opNot) (constGasFunc GasFastestStep) 1 1);
   (0x1a, plain (on_stack opByte) (constGasFunc GasFastestStep) 2 1)].
Definition environment_table : list (Z * operation) :=
  [(0x20, with_memory opSha3 gasSha3 2 1 memorySha3);
   (0x30, plain opAddress (constGasFunc GasQuickStep) 0 1);
   (0x31, plain opBalance gasBalance 1 1);
   (0x32, plain opOrigin (constGasFunc GasQuickStep) 0 1);
   (0x33, plain opCaller (constGasFunc GasQuickStep) 0 1);
   (0x34, plain opCallValue (constGasFunc GasQuickStep) 0 1);
   (0x35, plain opCallDataLoad (constGasFunc GasFastestStep) 1 1);
   (0x36, plain opCallDataSize (constGasFunc GasQuickStep) 0 1);
   (0x37, with_memory opCallDataCopy gasCallDataCopy 3 0 memoryCallDataCopy);
   (0x38, plain opCodeSize (constGasFunc GasQuickStep) 0 1);
   (0x39, with_memory opCodeCopy gasCodeCopy 3 0 memoryCodeCopy);
   (0x3a, plain opGasprice (constGasFunc GasQuickStep) 0 1);
   (0x3b, plain opExtCodeSize gasExtCodeSize 1 1);
   (0x3c, with_memory opExtCodeCopy gasExtCodeCopy 4 0 memoryExtCodeCopy);
   (0x40, plain opBlockhash (constGasFunc GasExtStep) 1 1);
   (0x41, plain opCoinbase (constGasFunc GasQuickStep) 0 1);
   (0x42, plain opTimestamp (constGasFunc GasQuickStep) 0 1);
   (0x43, plain opNumber (constGasFunc GasQuickStep) 0 1);
   (0x44, plain opDifficulty (constGasFunc GasQuickStep) 0 1);
   (0x45, plain opGasLimit (constGasFunc GasQuickStep) 0 1)].
Definition storage_table : list (Z * operation) :=
  [(0x50, plain opPop (constGasFunc GasQuickStep) 1 0);
   (0x51, with_memory opMload gasMLoad 1 1 memoryMLoad);
   (0x52, with_memory opMstore gasMStore 2 0 memoryMStore);
   (0x53, with_memory opMstore8 gasMStore8 2 0 memoryMStore8);
   (0x54, plain opSload gasSLoad 1 1);
   (0x55, mkOperation (fun _ => opSstore) gasSStore 2 0 None false false true false false);
   (0x56, jumping opJump (constGasFunc GasMidStep) 1);
   (0x57, jumping opJumpi (constGasFunc GasSlowStep) 2);
   (0x58, plain opPc (constGasFunc GasQuickStep) 0 1);
   (0x59, plain opMsize (constGasFunc GasQuickStep) 0 1);
   (0x5a, plain opGas (constGasFunc GasQuickStep) 0 1);
   (0x5b, plain opJumpdest (constGasFunc JumpdestGas) 0 0)].
Definition system_table : list (Z * operation) :=
  [(0xf0, calling opCreate gasCreate 3 memoryCreate true);
   (0xf1, calling opCall gasCall 7 memoryCall false);
   (0xf2, calling opCallCode gasCallCode 7 memoryCall false);
   (0xf3, mkOperation (fun _ => opReturn) gasReturn 2 0 (Some memoryReturn) true false false false false);
   (0xff, mkOperation (fun _ => opSuicide) gasSuicide 1 0 None true false true false false)].
Definition frontierInstructionSet : list (Z * operation) :=
  arithmetic_table ++ environment_table ++ storage_table ++ pushing ++ dupping ++ swapping ++ logs_table ++ system_table.
Definition homesteadInstructionSet : list (Z * operation) :=
  (0xf4, calling opDelegateCall gasDelegateCall 6 memoryDelegateCall false) :: frontierInstructionSet.
Definition byzantiumInstructionSet : list (Z * operation) :=
  (0xfa, calling opStaticCall gasStaticCall 6 memoryStaticCall false)
  :: (0x3d, plain opReturnDataSize (constGasFunc GasQuickStep) 0 1)
  :: (0x3e, with_memory opReturnDataCopy gasReturnDataCopy 3 0 memoryReturnDataCopy)
  :: (0xfd, mkOperation (fun _ => opRevert) gasRevert 2 0 (Some memoryRevert) false false false true true)
  :: homesteadInstructionSet.

Definition CALL : Z := 0xf1.
Definition JumpTable : list (Z * operation) :=
  if IsByzantium c then byzantiumInstructionSet else if IsHomestead c then homesteadInstructionSet else frontierInstructionSet.
Definition operation_at (op : Z) : option operation := snd <$> List.find (fun o => fst o =? op) JumpTable.

Definition isMutating (op : Z) : bool :=
  (op =? 0xff) || (op =? 0xf0) || (op =? 0x55) || ((0xa0 <=? op) && (op <=? 0xa4)).

(** ** The interpreter (interpreter.go, stack_table.go) *)

Definition validateStack (o : operation) (st : list Z) : option evmErr :=
  if (length st <? pops o)%nat then Some errStackUnderflow
  else if StackLimit <? zlen st + Z.of_nat (pushes o) - Z.of_nat (pops o) then Some errStackLimit
  else None.

Definition enforceRestrictions (op : Z) (o : operation) (f : Frame) (e : EVM) : result unit (option evmErr) :=
  if IsByzantium c && readOnly e then
    if writes o then Ok (Some errWriteProtection)
    else if op =? CALL then
      match stack f !! 2%nat with
      | Some v => Ok (if 0 <? BitLen v then Some errWriteProtection else None)
      | None => Panic
      end
    else Ok None
  else Ok None.

(** The size the memory is expanded to; [Ok None] is errGasUintOverflow. *)
Definition expansion (o : operation) (st : list Z) : result unit (option Z) :=
  match memorySize o with
  | None => Ok (Some 0)
  | Some ms =>
      match ms st with
      | None => Panic
      | Some n =>
          let '(memSize, overflow) := bigUint64 n in
          if (overflow : bool) then Ok None
          else let '(r, overflow) := SafeMul (toWordSize memSize) 32 in Ok (if (overflow : bool) then None else Some r)
      end
  end.

(** How a turn of the loop ends: with data and an error, or not at all. *)
Definition turn : Type := option out * Frame * EVM.
Definition stop (err : evmErr) (f : Frame) (e : EVM) : result unit turn := Ok (Some ([], Some err), f, e).

Definition perform_op (run : runner) (o : operation) (f : Frame) (e : EVM) : result unit turn :=
  let? (res, err, f, e) := execute o run f e in
  let e := if returns o then set_returnData res e else e in
  match err with
  | Some er => stop er f e
  | None =>
      if reverts o then Ok (Some (res, Some errExecutionReverted), f, e)
      else if halts o then Ok (Some (res, None), f, e)
      else if jumps o then Ok (None, f, e)
      else Ok (None, set_pc (u64 (pc f + 1)) f, e)
  end.

Definition step (run : runner) (f : Frame) (e : EVM) : result unit turn :=
  let op := GetOp (pc f) (contract f) in
  if quorumReadOnly e && isMutating op then stop errReadOnlyMode f e
  else
    match operation_at op with
    | None => stop (errInvalidOpcode op) f e
    | Some o =>
        match validateStack o (stack f) with
        | Some er => stop er f e
        | None =>
            let? restricted := enforceRestrictions op o f e in
            match restricted with
            | Some er => stop er f e
            | None =>
                let? size := expansion o (stack f) in
                match size with
                | None => stop errGasUintOverflow f e
                | Some size =>
                    let? (cost, f, e) := gasCost o size f e in
                    match cost with
                    | None => stop ErrOutOfGas f e
                    | Some cost =>
                        match UseGas cost (contract f) with
                        | None => stop ErrOutOfGas f e
                        | Some k =>
                            let f := set_contract k f in
                            let f := if 0 <? size then set_memory (Resize size (memory f)) f else f in
                            perform_op run o f e
                        end
                    end
                end
            end
        end
    end.

(** [Run] of the interpreter around its loop. *)
Definition enter (loop : Frame → EVM → result unit (bytes * option evmErr * Z * EVM)) : runner := fun contract input e =>
  let e := set_returnData [] (set_depth (depth e + 1) e) in
  let? (ret, err, gas, e) :=
    match Code contract with
    | [] => Ok ([], None, Gas contract, e)
    | _ => loop (mkFrame 0 (set_Input input contract) NewMemory []) e
    end in
  Ok (ret, err, gas, set_depth (depth e - 1) e).

Definition RunPrecompiledContract (p : PrecompiledContract) (input : bytes) (contract : Contract) (e : EVM) : result unit (bytes * option evmErr * Z * EVM) :=
  match UseGas (RequiredGas p input) contract with
  | Some k => let? (ret, err) := pRun p input in Ok (ret, err, Gas k, e)
  | None => Ok ([], Some ErrOutOfGas, Gas contract, e)
  end.

(** evm.go: run *)
Definition dispatch (interpreter : runner) : runner := fun contract input e =>
  match CodeAddr contract ≫= precompiles c with
  | Some p => RunPrecompiledContract p input contract e
  | None => interpreter contract input e
  end.

(** The loop of [Run]; every turn takes gas, and so does every call, so that the gas of the
    contract bounds the number of turns and the depth of calls. *)
Fixpoint loop (fuel : nat) (f : Frame) (e : EVM) : result unit (bytes * option evmErr * Z * EVM) :=
  match fuel with
  | O => NoFuel
  | Datatypes.S fuel =>
      let? (ended, f, e) := step (dispatch (enter (loop fuel))) f e in
      match ended with
      | Some (ret, err) => Ok (ret, err, Gas (contract f), e)
      | None => loop fuel f e
      end
  end.
Definition run (fuel : nat) : runner := dispatch (enter (loop fuel)).

End context.
End evm.
End Evm.
