(* ===== verification/EvmSupply.v ===== *)
(** The money in a state ([EvmSupply]): the sum of all balances, for a state in which only
    finitely many accounts have one. *)

From S2P Require Import Prelude RlpEncode RlpRaw RlpDecode RlpRoundtrip RlpTotal KeccakF Sha3 CoreTypes.
From S2P Require Import Prque TrieEncoding TrieNode Trie TrieThms TrieHash TrieMap CoreBlock EvmWord EvmCode Evm.

Module EvmSupply.
Import Evm.

Section supply.
Context {S : Type} `{VmState S}.
Implicit Types (s t : S) (l : list bytes).

Fixpoint total s l : Z := match l with [] => 0 | a :: l => GetBalance a s + total s l end.

(** [n] is the sum of all balances of [s]. *)
Definition supply s (n : Z) : Prop := ∃ l, NoDup l ∧ (∀ a, a ∉ l → GetBalance a s = 0) ∧ n = total s l.

Lemma total_app s l k : total s (l ++ k) = total s l + total s k.
Proof. induction l as [|a l IH]; cbn; lia. Qed.

#[local] Instance total_perm s : Proper (Permutation ==> eq) (total s).
Proof. induction 1; cbn; lia. Qed.

Lemma total_filter s l : total s (filter (fun a => GetBalance a s ≠ 0) l) = total s l.
Proof. induction l as [|a l IH]; [done|]. rewrite filter_cons. case_decide as Ha; cbn; lia. Qed.

(** There is at most one such sum. *)
Lemma supply_unique s n m : supply s n → supply s m → n = m.
Proof.
  intros (l & Hl & Hz & ->) (k & Hk & Hz' & ->). rewrite <- (total_filter s l), <- (total_filter s k). apply total_perm, NoDup_Permutation; [by apply NoDup_filter..|].
  assert (∀ a (x : list bytes), (∀ a, a ∉ x → GetBalance a s = 0) → a ∈ filter (fun a => GetBalance a s ≠ 0) x ↔ GetBalance a s ≠ 0) as Hin.
  { intros a x Hx. rewrite list_elem_of_filter. split; [by intros []|]. intros Ha. split; [done|]. destruct (decide (a ∈ x)) as [|Hn]; [done|]. by rewrite Hx in Ha. }
  intros a. by rewrite !Hin.
Qed.

(** The balance of [a] goes up by [d], the others stay. *)
Definition moves (a : bytes) (d : Z) s t : Prop := ∀ b, GetBalance b t = GetBalance b s + (if decide (b = a) then d else 0).
Definition same_balances s t : Prop := ∀ b, GetBalance b t = GetBalance b s.

Lemma total_moves a d s t l : moves a d s t → NoDup l → total t l = total s l + (if decide (a ∈ l) then d else 0).
Proof.
  intros Hm. induction l as [|b l IH]; intros Hl; [done|]. apply NoDup_cons in Hl as [Hb Hl]. cbn. rewrite (Hm b), IH by done. destruct (decide (b = a)) as [->|Hne].
  - rewrite decide_False by done. rewrite decide_True by left. lia.
  - destruct (decide (a ∈ l)); [rewrite decide_True by (by right)|rewrite decide_False by (intros [->|?]%elem_of_cons; done)]; lia.
Qed.

Lemma supply_moves a d s t n : moves a d s t → supply s n → supply t (n + d).
Proof.
  intros Hm (l & Hl & Hz & ->). assert (∃ k, NoDup k ∧ (∀ b, b ∉ k → GetBalance b s = 0) ∧ total s k = total s l ∧ a ∈ k) as (k & Hk & Hzk & <- & Ha).
  { destruct (decide (a ∈ l)) as [Ha|Ha]; [by exists l|]. exists (a :: l). split_and!; [by apply NoDup_cons| |cbn; rewrite Hz by done; lia|left].
    intros b Hb. apply Hz. intros ?. apply Hb. by right. }
  exists k. split_and!; [done| |by rewrite (total_moves a d s t), decide_True].
  intros b Hb. rewrite Hm, decide_False by congruence. rewrite Hzk by done. lia.
Qed.

Lemma same_moves s t : same_balances s t → moves [] 0 s t.
Proof. intros Hs b. rewrite Hs. case_decide; lia. Qed.

(** No money comes from nowhere. *)
Definition no_more s t : Prop := ∀ n, supply s n → ∃ m, supply t m ∧ m ≤ n.

#[global] Instance no_more_preorder : PreOrder no_more.
Proof.
  split; [intros s n Hn; by exists n|]. intros s t u Hst Htu n Hn. destruct (Hst n Hn) as (m & Hm & Hle). destruct (Htu m Hm) as (k & Hk & Hle'). exists k. split; [done|lia].
Qed.

Lemma moves_no_more a d s t : moves a d s t → d ≤ 0 → no_more s t.
Proof. intros Hm Hd n Hn. exists (n + d). split; [by eapply supply_moves|lia]. Qed.

Lemma same_no_more s t : same_balances s t → no_more s t.
Proof. intros Hs. eapply moves_no_more; [by apply same_moves|done]. Qed.

(** Money that goes from one account to another. *)
Lemma transfer_no_more a b d x s t u : moves a d s t → moves b x t u → d + x ≤ 0 → no_more s u.
Proof. intros H1 H2 Hd n Hn. exists (n + d + x). split; [eapply supply_moves, supply_moves; done|lia]. Qed.

End supply.
End EvmSupply.
