(* ===== verification/EvmSafe.v ===== *)
(** Safety of the EVM ([EvmSafe]): whatever the code and the input, an execution ends within
    its gas without a panic, gives gas back but never makes any, creates no money, and undoes
    what a failed call did.

    [VmLaws] is what the EVM relies on in a state database; StateVm.v proves it of StateDB.v. *)

From S2P Require Import Prelude RlpEncode RlpRaw RlpDecode RlpRoundtrip RlpTotal KeccakF Sha3 CoreTypes.
From S2P Require Import Prque TrieEncoding TrieNode Trie TrieThms TrieHash TrieMap CoreBlock EvmWord EvmCode Evm EvmSupply.

Module EvmSafe.
Import Rlp Codec Types EvmWord EvmCode Evm EvmSupply.

#[local] Opaque hash256 be_bytes BytesToHash BytesToAddress CreateAddress.

(** ** What the EVM relies on *)

(** Two states that answer every reader alike. *)
Record same_reads {S} `{VmState S} (s t : S) : Prop := {
  sr_Balance a : GetBalance a s = GetBalance a t;
  sr_Nonce a : GetNonce a s = GetNonce a t;
  sr_CodeHash a : GetCodeHash a s = GetCodeHash a t;
  sr_Code a : GetCode a s = GetCode a t;
  sr_State a k : GetState a k s = GetState a k t;
  sr_Suicided a : HasSuicided a s = HasSuicided a t;
  sr_Exist a : Exist a s = Exist a t;
  sr_Empty a : Empty a s = Empty a t;
  sr_Refund : GetRefund s = GetRefund t }.

(** Two states with the same accounts, up to empty accounts that exist in one of them only. *)
Record same_accounts {S} `{VmState S} (s t : S) : Prop := {
  sc_Balance a : GetBalance a s = GetBalance a t;
  sc_Nonce a : GetNonce a s = GetNonce a t;
  sc_Code a : GetCode a s = GetCode a t;
  sc_State a k : GetState a k s = GetState a k t;
  sc_Suicided a : HasSuicided a s = HasSuicided a t;
  sc_Refund : GetRefund s = GetRefund t }.

(** [grows s t]: [t] came from [s] by changes that can be undone. *)
Class VmLaws (S : Type) `{VmState S} := {
  good : S → Prop;
  grows : S → S → Prop;
  grows_id s : good s → grows s s;
  grows_trans s t u : grows s t → grows t u → grows s u;
  grows_good s t : grows s t → good t;
  grow_CreateAccount a s : good s → grows s (CreateAccount a s);
  grow_SubBalance a x s : good s → 0 ≤ x ≤ GetBalance a s → grows s (SubBalance a x s);
  grow_AddBalance a x s : good s → 0 ≤ x → grows s (AddBalance a x s);
  grow_SetNonce a n s : good s → 0 ≤ n < 2 ^ 64 → grows s (SetNonce a n s);
  grow_SetCode a b s : good s → grows s (SetCode a b s);
  grow_AddRefund g s : good s → 0 ≤ g → grows s (AddRefund g s);
  grow_SetState a k v s : good s → ∃ t, SetState a (BytesToHash k) (BytesToHash v) s = Some t ∧ grows s t;
  grow_Suicide a s : good s → grows s (Suicide a s);
  grow_AddLog l s : good s → grows s (AddLog l s);
  grow_AddPreimage h b s : good s → grows s (AddPreimage h b s);
  Snapshot_restores s : good s →
    grows s (snd (Snapshot s)) ∧ same_reads (snd (Snapshot s)) s
    ∧ ∀ t, grows (snd (Snapshot s)) t → ∃ u, RevertToSnapshot (fst (Snapshot s)) t = Some u ∧ grows s u ∧ same_reads u s;
  GetState_ok a k s : good s → is_Some (GetState a k s);
  GetBalance_nonneg a s : good s → 0 ≤ GetBalance a s;
  GetCodeSize_nonneg a s : good s → 0 ≤ GetCodeSize a s;
  GetRefund_nonneg s : good s → 0 ≤ GetRefund s;
  Balance_CreateAccount a s : good s → same_balances s (CreateAccount a s);
  Balance_SetNonce a n s : good s → same_balances s (SetNonce a n s);
  Balance_SetCode a b s : good s → same_balances s (SetCode a b s);
  Balance_AddRefund g s : good s → same_balances s (AddRefund g s);
  Balance_SetState a k v s t : good s → SetState a k v s = Some t → same_balances s t;
  Balance_AddLog l s : good s → same_balances s (AddLog l s);
  Balance_AddBalance a x s : good s → moves a x s (AddBalance a x s);
  Balance_SubBalance a x s : good s → moves a (- x) s (SubBalance a x s);
  Balance_Suicide a s : good s → moves a (- GetBalance a s) s (Suicide a s);
  CreateAccount_new a s : good s → Exist a s = false → same_accounts s (CreateAccount a s);
  AddBalance_0 a s : good s → same_accounts s (AddBalance a 0 s);
  SubBalance_0 a s : good s → same_accounts s (SubBalance a 0 s);
  AddPreimage_same h b s : good s → same_accounts s (AddPreimage h b s) }.

#[global] Instance same_accounts_preorder {S} `{VmState S} : PreOrder same_accounts.
Proof.
  split; [done|]. intros s t u [] []. split; intros; etrans; eauto.
Qed.

Lemma same_reads_accounts {S} `{VmState S} (s t : S) : same_reads s t → same_accounts t s.
Proof. intros []. by split. Qed.

Lemma same_reads_money {S} `{VmState S} (s t : S) : same_reads s t → no_more t s.
Proof. intros Hs. apply same_no_more. intros b. apply Hs. Qed.
Lemma same_accounts_money {S} `{VmState S} (s t : S) : same_accounts s t → no_more s t.
Proof. intros Hs. apply same_no_more. intros b. symmetry. apply Hs. Qed.

Abbreviation nonneg := (Forall (fun x => 0 ≤ x)).

Section safe.
Context {S : Type} `{VmState S} `{!VmLaws S} (c : Context).
Implicit Types (s t : S) (e : EVM (S:=S)) (f : Frame).

(** ** How the machine evolves *)

Record evolves e e' : Prop := {
  ev_public : grows (publicState e) (publicState e');
  ev_second : grows (secondState e) (secondState e');
  ev_dual : dual e' = dual e;
  ev_StateDB : StateDB e' = StateDB e;
  ev_depth : depth e' = depth e;
  ev_states : states e' = states e;
  ev_readOnly : readOnly e' = readOnly e;
  ev_single : dual e = false → quorumReadOnly e = false → quorumReadOnly e' = false;
  ev_quiet : IsByzantium c = true → readOnly e = true →
    same_accounts (publicState e) (publicState e') ∧ same_accounts (secondState e) (secondState e');
  ev_money : no_more (publicState e) (publicState e') ∧ no_more (secondState e) (secondState e') }.

(** The state at the depth of a frame; [n] states were pushed beyond those of the frames. *)
Record sane (n : Z) e : Prop := {
  sn_public : good (publicState e);
  sn_second : good (secondState e);
  sn_top : ∃ rest, states e = StateDB e :: rest;
  sn_depth : 0 ≤ depth e ≤ CallCreateDepth + 1;
  sn_states : zlen (states e) ≤ depth e + 1 + n;
  sn_single : dual e = false → Forall (eq false) (states e) ∧ quorumReadOnly e = false }.

Lemma good_db n e r : sane n e → good (db r e).
Proof. intros []. by destruct r. Qed.
Lemma good_cur n e : sane n e → good (cur e).
Proof. apply good_db. Qed.

Lemma evolves_refl n e : sane n e → evolves e e.
Proof. intros []. split; try done; by apply grows_id. Qed.

Lemma evolves_trans e1 e2 e3 : evolves e1 e2 → evolves e2 e3 → evolves e1 e3.
Proof.
  intros [A1 A2 A3 A4 A5 A6 A7 A8 A9 [A10 A11]] [B1 B2 B3 B4 B5 B6 B7 B8 B9 [B10 B11]]. split; try congruence; [by eapply grows_trans|by eapply grows_trans|..].
  - intros Hd Hq. apply B8; [congruence|by apply A8].
  - intros Hb Hr. destruct (A9 Hb Hr), B9; [done|congruence|]. split; by etrans.
  - split; by etrans.
Qed.

Lemma evolves_sane n e e' : evolves e e' → sane n e → sane n e'.
Proof.
  intros [A1 A2 A3 A4 A5 A6 A7 A8 A9 _] [B1 B2 B3 B4 B5 B6]. split; [by eapply grows_good|by eapply grows_good|by rewrite A4, A6|by rewrite A5|by rewrite A5, A6|].
  rewrite A3, A6. intros Hd. destruct (B6 Hd). auto.
Qed.

(** A change of one state database. *)
Lemma evolves_set_db n e r s :
  sane n e → grows (db r e) s → (IsByzantium c = true → readOnly e = true → same_accounts (db r e) s) → no_more (db r e) s → evolves e (set_db r s e).
Proof.
  intros [] Hg Hq Hm. destruct r; split; cbn; try done; try by apply grows_id.
  - intros ??. split; [done|]. by apply Hq.
  - intros ??. split; [|done]. by apply Hq.
Qed.

(** A change that leaves the accounts as they are. *)
Lemma evolves_quiet n e r s : sane n e → grows (db r e) s → same_accounts (db r e) s → evolves e (set_db r s e).
Proof. intros He Hg Hs. by eapply evolves_set_db; [| | |apply same_accounts_money]. Qed.

Lemma evolves_returnData n e d : sane n e → evolves e (set_returnData d e).
Proof. intros []. split; try done; by apply grows_id. Qed.

(** ** Frames *)

Record framed f : Prop := {
  fr_pc : 0 ≤ pc f < 2 ^ 64;
  fr_Gas : 0 ≤ Gas (contract f) < 2 ^ 64;
  fr_value : 0 ≤ value (contract f);
  fr_stack : Forall (fun x => 0 ≤ x) (stack f);
  fr_limit : zlen (stack f) ≤ StackLimit;
  fr_memory : ∃ w, 0 ≤ w ≤ 2 ^ 35 ∧ mem_Len (memory f) = 32 * w }.

(** ** Memory *)

Lemma mem_Get_ok offset size m :
  0 ≤ offset → 0 ≤ size → mem_Len m ≤ 2 ^ 40 → calcMemSize offset size ≤ mem_Len m → is_Some (mem_Get (i64 offset) (i64 size) m).
Proof.
  intros Ho Hs Hm Hc. unfold calcMemSize in Hc. destruct (Z.eqb_spec size 0) as [->|]; [done|].
  rewrite !i64_small by lia. unfold mem_Get. replace (size =? 0) with false by lia. replace (offset <? mem_Len m) with true by lia.
  replace ((0 <=? offset) && (0 <=? size) && (offset + size <=? mem_Len m)) with true by lia. done.
Qed.

Lemma mem_Set_ok offset size v m :
  0 ≤ offset → 0 ≤ size → mem_Len m ≤ 2 ^ 40 → calcMemSize offset size ≤ mem_Len m →
  ∃ m', mem_Set (u64 offset) (u64 size) v m = Some m' ∧ mem_Len m' = mem_Len m.
Proof.
  intros Ho Hs Hm Hc. unfold mem_Set. unfold calcMemSize in Hc. revert Hc. destruct (Z.eqb_spec size 0) as [->|]; intros Hc.
  { exists m. rewrite (u64_small 0) by lia. split; [|done]. by rewrite (proj2 (Z.ltb_ge _ _)). }
  rewrite (u64_small offset), (u64_small size) by lia. replace (mem_Len m <? size) with false by lia. replace (0 <? size) with true by lia.
  rewrite (u64_small (offset + size)) by lia. replace ((offset <=? offset + size) && (offset + size <=? mem_Len m)) with true by lia.
  eexists. split; [done|]. unfold mem_Len in *. cbn [store]. rewrite !length_app, length_drop, !length_take. lia.
Qed.

Lemma store_byte_ok off b m :
  0 ≤ off → mem_Len m ≤ 2 ^ 40 → calcMemSize off 1 ≤ mem_Len m → ∃ m', store_byte (i64 off) b m = Some m' ∧ mem_Len m' = mem_Len m.
Proof.
  intros Ho Hm Hc. change (calcMemSize off 1) with (off + 1) in Hc. rewrite i64_small by lia. unfold store_byte.
  replace ((0 <=? off) && (off <? mem_Len m)) with true by lia. eexists. split; [done|]. unfold mem_Len. cbn [store]. by rewrite length_insert.
Qed.

Lemma has_ok h code pos : 0 ≤ pos → is_Some (has ∅ h code pos).
Proof.
  intros Hp. unfold has. destruct (_ || _) eqn:E; [done|]. apply orb_false_iff in E as [E1 E2]. rewrite lookup_empty.
  destruct (lookup_lt_is_Some_2 (jumpdests code) (Z.to_nat (u64 pos / 8))) as [b ->]; [|done].
  rewrite (proj1 (jumpdests_spec code 0)). apply Z.leb_gt in E2. pose proof (u64_range pos).
  assert (u64 pos / 8 ≤ zlen code / 8) by (apply Z.div_le_mono; lia).
  pose proof (Z.div_pos (u64 pos) 8 ltac:(lia) ltac:(lia)). pose proof (Nat2Z.inj_div (length code) 8). lia.
Qed.

(** ** Instructions that do not call *)

(** The memory reaches as far as the instruction. *)
Definition covered (ms : option memSizeFunc) f : Prop :=
  match ms with None => True | Some g => ∃ n, g (stack f) = Some n ∧ n ≤ mem_Len (memory f) end.

(** Instructions that write are not reached in a static call. *)
Definition allowed (writes : bool) e : Prop := IsByzantium c = true → readOnly e = true → writes = false.

Definition safe_op (writes : bool) (n p : nat) (ms : option memSizeFunc) (m : M out) : Prop :=
  ∀ f e, framed f → sane 0 e → (n ≤ length (stack f))%nat → covered ms f → allowed writes e →
  ∃ o f' e', m f e = Ok (o, f', e') ∧ evolves e e' ∧ contract f' = contract f
    ∧ mem_Len (memory f') = mem_Len (memory f) ∧ nonneg (stack f')
    ∧ (length (stack f') + n = length (stack f) + p)%nat ∧ 0 ≤ pc f' < 2 ^ 64.

Definition safe_stackop (n p : nat) (op : list Z → option (list Z)) : Prop :=
  ∀ st, (n ≤ length st)%nat → nonneg st → ∃ st', op st = Some st' ∧ nonneg st' ∧ (length st' + n = length st + p)%nat.

Lemma safe_on_stack w n p op : safe_stackop n p op → safe_op w n p None (on_stack op).
Proof.
  intros Hop f e [] He Hn _ _. destruct (Hop (stack f) Hn) as (st & E & Hst & Hl); [done|].
  unfold on_stack, none, bind, frame, lift. cbn. rewrite E. cbn. do 3 eexists. split; [done|]. split; [by eapply evolves_refl|]. cbn. split_and!; (done || lia).
Qed.

Lemma U256_nonneg x : 0 ≤ U256 x.
Proof. apply U256_word. Qed.
Lemma be_val_nonneg b : 0 ≤ be_val b.
Proof. apply be_val_range. Qed.
Lemma exp_word_nonneg n w r b : 0 ≤ r → 0 ≤ fst (exp_word n w r b).
Proof.
  revert w r b. induction n as [|n IH]; intros w r b Hr; cbn [exp_word]; [done|]. apply IH. destruct (_ =? 1); [apply U256_nonneg|done].
Qed.
Lemma Exp_nonneg b x : 0 ≤ Exp b x.
Proof.
  unfold Exp. assert (∀ l r b', 0 ≤ r → 0 ≤ fst (foldl (fun rb word => exp_word 64 word (fst rb) (snd rb)) (r, b') l)) as Hx; [|by apply Hx].
  induction l as [|w l IH]; intros r b' Hr; [done|]. cbn [foldl fst snd]. pose proof (exp_word_nonneg 64 w r b' Hr) as Hn.
  destruct (exp_word 64 w r b') as [r' b'']. by apply IH.
Qed.

Ltac pops :=
  repeat match goal with
  | Hn : (Datatypes.S _ ≤ length ?st)%nat |- _ =>
      let x := fresh "x" in destruct st as [|x st]; [cbn in Hn; lia|cbn [length] in Hn; apply le_S_n in Hn]
  end; rewrite ?Forall_cons in *; destruct_and?.

Ltac nonneg_solve :=
  repeat (apply Forall_cons; split); try assumption; try lia;
  try apply U256_nonneg; try apply be_val_nonneg; try apply Exp_nonneg; try apply bz_range;
  try (apply Z.land_nonneg; by left); try (by apply Z.lor_nonneg); try (apply Z.lxor_nonneg; split; intros; assumption).

Ltac stackop := intros st Hn Hst; pops; cbn; eexists; split; [done|]; split; [repeat case_match; nonneg_solve|cbn; lia].

Lemma safe_words :
  safe_stackop 2 1 opAdd ∧ safe_stackop 2 1 opMul ∧ safe_stackop 2 1 opSub ∧ safe_stackop 2 1 opDiv ∧ safe_stackop 2 1 opMod
  ∧ safe_stackop 3 1 opAddmod ∧ safe_stackop 3 1 opMulmod ∧ safe_stackop 2 1 opExp
  ∧ safe_stackop 2 1 opLt ∧ safe_stackop 2 1 opGt ∧ safe_stackop 2 1 opSlt ∧ safe_stackop 2 1 opSgt ∧ safe_stackop 2 1 opEq
  ∧ safe_stackop 1 1 opIszero ∧ safe_stackop 2 1 opAnd ∧ safe_stackop 2 1 opOr ∧ safe_stackop 2 1 opXor ∧ safe_stackop 1 1 opNot
  ∧ safe_stackop 2 1 opByte.
Proof. split_and!; stackop. Qed.

Lemma safe_opSdiv : safe_stackop 2 1 opSdiv.
Proof. intros st Hn Hst; pops. cbn [opSdiv]. destruct (_ =? 0); (eexists; split; [done|]; split; [nonneg_solve|cbn; lia]). Qed.
Lemma safe_opSmod : safe_stackop 2 1 opSmod.
Proof. intros st Hn Hst; pops. cbn [opSmod]. destruct (_ =? 0); (eexists; split; [done|]; split; [nonneg_solve|cbn; lia]). Qed.
Lemma safe_opSignExtend : safe_stackop 2 1 opSignExtend.
Proof. intros st Hn Hst; pops. cbn [opSignExtend]. destruct (_ <? 31); (eexists; split; [done|]; split; [nonneg_solve|cbn; lia]). Qed.

(** *** The instructions on frames *)

#[local] Arguments mem_Get : simpl never.
#[local] Arguments mem_Set : simpl never.
#[local] Arguments store_byte : simpl never.
#[local] Arguments has : simpl never.
#[local] Arguments u64 : simpl never.
#[local] Arguments i64 : simpl never.
#[local] Arguments U256 : simpl never.
#[local] Arguments be_val : simpl never.
#[local] Arguments getDataBig : simpl never.
#[local] Arguments PaddedBigBytes : simpl never.
#[local] Arguments RightPadBytes : simpl never.
#[local] Arguments mem_Len : simpl never.
#[local] Arguments calcMemSize : simpl never.
#[local] Arguments Z.of_nat : simpl never.
#[local] Arguments BitLen : simpl never.
#[local] Arguments Z.pow : simpl never.

Ltac op_intro :=
  intros [pc0 k m st] e [Hpc Hgas Hval Hst Hlim (w & Hw1 & Hmem)] He Hn Hc Hw; cbn [pc contract memory stack] in *; pops.
Ltac m_run :=
  unfold none, pop, push, read, dualState, update_memory, memory_Get, copy_data, Evm.bind, frame, machine, put_frame, put_machine, lift, ret; cbn.
Ltac op_done :=
  do 3 eexists; split; [reflexivity|]; split; [by eapply evolves_refl|]; cbn;
  split_and!; try done; try lia; nonneg_solve; try apply u64_range.
Tactic Notation "op_local" reference(op) := op_intro; unfold op; m_run; op_done.

Lemma safe_reads :
  safe_op false 0 1 None opAddress ∧ safe_op false 0 1 None (opOrigin c) ∧ safe_op false 0 1 None opCaller
  ∧ safe_op false 0 1 None opCallValue ∧ safe_op false 1 1 None opCallDataLoad ∧ safe_op false 0 1 None opCallDataSize
  ∧ safe_op false 0 1 None opReturnDataSize ∧ safe_op false 0 1 None opCodeSize
  ∧ safe_op false 0 1 None (opCoinbase c) ∧ safe_op false 0 1 None (opTimestamp c) ∧ safe_op false 0 1 None (opNumber c)
  ∧ safe_op false 0 1 None (opDifficulty c) ∧ safe_op false 0 1 None (opGasLimit c) ∧ safe_op false 1 0 None opPop
  ∧ safe_op false 0 0 None opJumpdest ∧ safe_op false 0 1 None opPc ∧ safe_op false 0 1 None opMsize ∧ safe_op false 0 1 None opGas
  ∧ safe_op false 0 0 None opStop.
Proof.
  split_and!; [op_local opAddress|op_local opOrigin|op_local opCaller|op_local opCallValue|op_local opCallDataLoad|op_local opCallDataSize
    |op_local opReturnDataSize|op_local opCodeSize|op_local opCoinbase|op_local opTimestamp|op_local opNumber|op_local opDifficulty
    |op_local opGasLimit|op_local opPop|op_local opJumpdest|op_local opPc|op_local opMsize|op_local opGas|op_local opStop].
Qed.

(** What is asked of the block and of the precompiled contracts. *)
Record usable : Prop := {
  us_GasPrice : 0 ≤ GasPrice c;
  us_EIP150 : IsEIP150 c = true;
  us_precompiles a p input : precompiles c a = Some p → 0 ≤ RequiredGas p input ∧ ∃ r, pRun p input = Ok r }.
Context (Husable : usable).

Lemma safe_opGasprice : safe_op false 0 1 None (opGasprice c).
Proof. destruct Husable as [Hp _ _]. op_local opGasprice. Qed.
Lemma safe_opBlockhash : safe_op false 1 1 None (opBlockhash c).
Proof. op_intro. unfold opBlockhash. m_run. op_done. case_match; nonneg_solve. Qed.
Lemma safe_opBalance : safe_op false 1 1 None opBalance.
Proof. op_intro. unfold opBalance. m_run. op_done. eapply GetBalance_nonneg, good_db; done. Qed.
Lemma safe_opExtCodeSize : safe_op false 1 1 None opExtCodeSize.
Proof. op_intro. unfold opExtCodeSize. m_run. op_done. eapply GetCodeSize_nonneg, good_db; done. Qed.
Lemma safe_opSload : safe_op false 1 1 None opSload.
Proof.
  op_intro. unfold opSload. m_run. destruct (GetState_ok (self k) (BigToHash x) (db (getDualState (self k) e) e)) as [v ->]; [by eapply good_db|]. cbn. op_done.
Qed.

(** *** Jumps *)

Lemma safe_opJump : safe_op false 1 0 None opJump.
Proof.
  op_intro. unfold opJump, jump. m_run. destruct (has_ok (CodeHash k) (Code k) x) as [[b d] ->]; [done|]. cbn. destruct b; cbn; op_done.
Qed.
Lemma safe_opJumpi : safe_op false 2 0 None opJumpi.
Proof.
  op_intro. unfold opJumpi, jump. m_run. destruct (x0 =? 0); cbn; [op_done|].
  destruct (has_ok (CodeHash k) (Code k) x) as [[b d] ->]; [done|]. cbn. destruct b; cbn; op_done.
Qed.

(** *** Memory *)

Lemma covered_at off size f o l :
  covered (Some (mem_at off size)) f → stack f !! off = Some o → stack f !! size = Some l → calcMemSize o l ≤ mem_Len (memory f).
Proof. intros (n & E & Hn) Eo El. unfold mem_at in E. rewrite Eo, El in E. by injection E as <-. Qed.
Lemma covered_const size f o :
  covered (Some (mem_const size)) f → stack f !! 0%nat = Some o → calcMemSize o size ≤ mem_Len (memory f).
Proof. intros (n & E & Hn) Eo. unfold mem_const in E. rewrite Eo in E. by injection E as <-. Qed.

Ltac m_get Hx := match goal with |- context [mem_Get (i64 ?a) (i64 ?b) ?mm] => destruct (mem_Get_ok a b mm) as [data ->]; [done|done|lia|exact Hx|]; cbn end.
Ltac m_set Hx :=
  match goal with |- context [mem_Set (u64 ?a) (u64 ?b) ?v ?mm] =>
    let m' := fresh "m'" in let Hm' := fresh "Hm'" in
    destruct (mem_Set_ok a b v mm) as (m' & -> & Hm'); [done|done|lia|exact Hx|]; cbn end.

Lemma safe_opMload : safe_op false 1 1 (Some memoryMLoad) opMload.
Proof. op_intro. pose proof (covered_const _ _ _ Hc eq_refl) as Hx. unfold opMload. m_run. m_get Hx. op_done. Qed.
Lemma safe_opMstore : safe_op false 2 0 (Some memoryMStore) opMstore.
Proof.
  op_intro. pose proof (covered_const _ _ _ Hc eq_refl) as Hx. unfold opMstore. m_run.
  change 32 with (u64 32) at 1. m_set Hx. op_done.
Qed.
Lemma safe_opMstore8 : safe_op false 2 0 (Some memoryMStore8) opMstore8.
Proof.
  op_intro. pose proof (covered_const _ _ _ Hc eq_refl) as Hx. unfold opMstore8. m_run.
  match goal with |- context [store_byte (i64 ?a) ?b ?mm] => destruct (store_byte_ok a b mm) as (m' & -> & Hm'); [done|lia|exact Hx|] end. cbn. op_done.
Qed.
Lemma safe_opCallDataCopy : safe_op false 3 0 (Some memoryCallDataCopy) opCallDataCopy.
Proof. op_intro. pose proof (covered_at _ _ _ _ _ Hc eq_refl eq_refl) as Hx. unfold opCallDataCopy. m_run. m_set Hx. op_done. Qed.
Lemma safe_opCodeCopy : safe_op false 3 0 (Some memoryCodeCopy) opCodeCopy.
Proof. op_intro. pose proof (covered_at _ _ _ _ _ Hc eq_refl eq_refl) as Hx. unfold opCodeCopy. m_run. m_set Hx. op_done. Qed.
Lemma safe_opExtCodeCopy : safe_op false 4 0 (Some memoryExtCodeCopy) opExtCodeCopy.
Proof. op_intro. pose proof (covered_at _ _ _ _ _ Hc eq_refl eq_refl) as Hx. unfold opExtCodeCopy. m_run. m_set Hx. op_done. Qed.
Lemma safe_opReturnDataCopy : safe_op false 3 0 (Some memoryReturnDataCopy) opReturnDataCopy.
Proof.
  op_intro. pose proof (covered_at _ _ _ _ _ Hc eq_refl eq_refl) as Hx. unfold opReturnDataCopy. m_run.
  destruct (_ || _); cbn; [op_done|]. m_set Hx. op_done.
Qed.
Lemma safe_opReturn : safe_op false 2 0 (Some memoryReturn) opReturn.
Proof. op_intro. pose proof (covered_at _ _ _ _ _ Hc eq_refl eq_refl) as Hx. unfold opReturn, GetPtr. m_run. m_get Hx. op_done. Qed.
Lemma safe_opRevert : safe_op false 2 0 (Some memoryRevert) opRevert.
Proof. op_intro. pose proof (covered_at _ _ _ _ _ Hc eq_refl eq_refl) as Hx. unfold opRevert, GetPtr. m_run. m_get Hx. op_done. Qed.

(** *** Instructions that write to the state *)

Ltac op_wrote := do 3 eexists; split; [reflexivity|]; split; [|cbn; split_and!; try done; try lia; nonneg_solve].

Lemma safe_opSha3 : safe_op false 2 1 (Some memorySha3) (opSha3 c).
Proof.
  op_intro. pose proof (covered_at _ _ _ _ _ Hc eq_refl eq_refl) as Hx. unfold opSha3. m_run. m_get Hx.
  destruct (EnablePreimageRecording c); unfold write; m_run; [|op_done]. op_wrote.
  pose proof (good_cur _ _ He). eapply evolves_quiet; [done|by apply grow_AddPreimage|by apply AddPreimage_same].
Qed.

Lemma safe_opSstore : safe_op true 2 0 None opSstore.
Proof.
  op_intro. unfold opSstore. m_run.
  destruct (grow_SetState (self k) (be_bytes x) (be_bytes x0) (db (getDualState (self k) e) e)) as (s & Es & Hg); [by eapply good_db|].
  unfold BigToHash. rewrite Es. cbn. op_wrote. eapply evolves_set_db; [done|done|intros HB HR; by specialize (Hw HB HR)|].
  eapply same_no_more, Balance_SetState; [by eapply good_db|done].
Qed.

Lemma set_db_twice r s1 s2 e : set_db r s2 (set_db r s1 e) = set_db r s2 e.
Proof. by destruct r. Qed.
Lemma db_set_db r s e : db r (set_db r s e) = s.
Proof. by destruct r. Qed.

Lemma safe_opSuicide : safe_op true 1 0 None opSuicide.
Proof.
  op_intro. unfold opSuicide, write. m_run. op_wrote. rewrite db_set_db, set_db_twice. pose proof (good_db _ _ (getDualState (self k) e) He) as Hg.
  assert (grows (db (getDualState (self k) e) e) (AddBalance (BigToAddress x) (GetBalance (self k) (db (getDualState (self k) e) e)) (db (getDualState (self k) e) e))) as Ha
    by (apply grow_AddBalance; [done|by apply GetBalance_nonneg]).
  eapply evolves_set_db; [done| |intros HB HR; by specialize (Hw HB HR)|].
  - eapply grows_trans; [done|]. apply grow_Suicide. by eapply grows_good.
  - eapply transfer_no_more; [by apply Balance_AddBalance|apply Balance_Suicide; by eapply grows_good|].
    rewrite (Balance_AddBalance _ _ _ Hg). pose proof (GetBalance_nonneg (self k) _ Hg). case_decide; lia.
Qed.

Lemma pop_topics_ok n f e :
  (n ≤ length (stack f))%nat → ∃ ts, pop_topics n f e = Ok (ts, set_stack (drop n (stack f)) f, e).
Proof.
  revert f. induction n as [|n IH]; intros f Hn; [exists []; by destruct f|].
  destruct f as [p0 k m [|x st]]; [cbn in Hn; lia|]. cbn [pop_topics]. m_run. cbn in Hn.
  destruct (IH (mkFrame p0 k m st)) as (ts & E); [cbn; lia|]. unfold set_stack in E |- *. cbn in E |- *. rewrite E. by eexists.
Qed.

Lemma safe_makeLog n : safe_op true (n + 2) 0 (Some memoryLog) (makeLog n).
Proof.
  replace (n + 2)%nat with (Datatypes.S (Datatypes.S n)) by lia. op_intro. pose proof (covered_at _ _ _ _ _ Hc eq_refl eq_refl) as Hx. unfold makeLog. m_run. unfold set_stack. cbn.
  destruct (pop_topics_ok n (mkFrame pc0 k m st) e) as (ts & ->); [done|]. cbn. m_get Hx. unfold write. m_run. op_wrote.
  - eapply evolves_set_db; [done|apply grow_AddLog; by eapply good_db|intros HB HR; by specialize (Hw HB HR)|].
    apply same_no_more, Balance_AddLog. by eapply good_db.
  - by apply Forall_drop.
  - rewrite length_drop. lia.
Qed.

(** *** The stack *)

Lemma safe_makePush n : safe_op false 0 1 None (makePush (Z.of_nat n) (Z.of_nat n)).
Proof. op_intro. unfold makePush. m_run. op_done. Qed.

Lemma safe_makeDup n : (0 < n)%nat → safe_op false n (n + 1) None (makeDup n).
Proof.
  intros Hpos f e [Hpc Hgas Hval Hst Hlim Hmem] He Hn _ _. unfold makeDup. m_run.
  destruct (lookup_lt_is_Some_2 (stack f) (n - 1)) as [x Ex]; [lia|]. rewrite Ex. cbn. do 3 eexists. split; [done|]. split; [by eapply evolves_refl|]. cbn.
  split_and!; try done; try lia. apply Forall_cons. split; [|done]. by eapply Forall_lookup_1 in Ex.
Qed.

Lemma safe_makeSwap n : safe_op false (n + 1) (n + 1) None (makeSwap n).
Proof.
  intros f e [Hpc Hgas Hval Hst Hlim Hmem] He Hn _ _. unfold makeSwap. m_run.
  destruct (lookup_lt_is_Some_2 (stack f) n) as [x Ex]; [lia|]. destruct (lookup_lt_is_Some_2 (stack f) 0) as [y Ey]; [lia|].
  rewrite Ex. cbn. rewrite Ey. cbn. do 3 eexists. split; [done|]. split; [by eapply evolves_refl|]. cbn.
  split_and!; try done; try lia; [|by rewrite !length_insert].
  apply Forall_insert; [apply Forall_insert; [done|]|]; by eapply Forall_lookup_1.
Qed.

(** ** Calls *)

(** A runner that is safe for contracts with less gas than [B]. *)
Definition safe_runner (B : Z) (run : runner) : Prop :=
  ∀ k input e, 0 ≤ Gas k < B → Gas k < 2 ^ 64 → 0 ≤ value k → sane 1 e → depth e ≤ CallCreateDepth →
  ∃ ret err gas e', run k input e = Ok (ret, err, gas, e') ∧ 0 ≤ gas ≤ Gas k ∧ evolves e e'.

(** A call that returns, with at most the gas it got, and that leaves no trace when it fails
    and there is only one state. *)
Definition safe_call e (gas : Z) (r : result unit callResult) : Prop :=
  ∃ ret left err e', r = Ok (ret, left, err, e') ∧ 0 ≤ left ≤ gas ∧ evolves e e'
    ∧ (dual e = false → err ≠ None → same_reads (publicState e') (publicState e)).

Lemma same_reads_refl s : same_reads s s.
Proof. done. Qed.

Lemma safe_call_same n e gas ret err : sane n e → 0 ≤ gas → safe_call e gas (Ok (ret, gas, err, e)).
Proof. intros He Hg. exists ret, gas, err, e. split_and!; try done. by eapply evolves_refl. Qed.

Lemma single_StateDB n e : sane n e → dual e = false → StateDB e = false.
Proof. intros [_ _ (rest & E) _ _ Hs] Hd. destruct (Hs Hd) as [Hf _]. rewrite E in Hf. by apply Forall_cons in Hf as [<- _]. Qed.
Lemma single_cur n e : sane n e → dual e = false → cur e = publicState e.
Proof. intros He Hd. unfold cur. by rewrite (single_StateDB n). Qed.

Lemma evolves_reset e0 e2 r u :
  evolves e0 e2 → grows (db r e0) u → same_accounts (db r e0) u → evolves e0 (set_db r u e2).
Proof.
  intros [A1 A2 A3 A4 A5 A6 A7 A8 A9 [A10 A11]] Hg Hq. pose proof (same_accounts_money _ _ Hq). destruct r; split; cbn; try done.
  - intros HB HR. split; [by apply A9|done].
  - intros HB HR. split; [done|by apply A9].
Qed.

Lemma settle_ok n e0 ret err gas e2 :
  sane n e0 → 0 ≤ gas → evolves e0 e2 → grows (snd (Snapshot (cur e0))) (cur e2) →
  safe_call e0 gas (settle (fst (Snapshot (cur e0))) (ret, err, gas, e2)).
Proof.
  intros He Hg Hev Hgr. unfold settle. destruct err as [er|].
  2: { exists ret, gas, None, e2. by split_and!. }
  destruct (Snapshot_restores (cur e0)) as (_ & _ & Hrev); [by eapply good_cur|]. destruct (Hrev _ Hgr) as (u & -> & Hu & Hsame).
  do 4 eexists. split; [done|]. split; [case_bool_decide; lia|]. unfold cur in *. rewrite (ev_StateDB _ _ Hev). split.
  - apply evolves_reset; [done|done|]. by apply same_reads_accounts.
  - intros Hd _. rewrite (single_StateDB n) by done. cbn. rewrite (single_StateDB n e0) in Hsame by done. exact Hsame.
Qed.

Lemma getDualState_single n e a : sane n e → dual e = false → getDualState a e = false.
Proof. intros He Hd. unfold getDualState, privateState. rewrite Hd, (single_StateDB n e) by done. by repeat case_match. Qed.

Lemma with_state_ok a e gas body :
  sane 0 e →
  (∀ e1, sane 1 e1 → depth e1 = depth e → readOnly e1 = readOnly e → safe_call e1 gas (body e1)) → safe_call e gas (with_state a e body).
Proof.
  intros He Hbody. pose proof He as [G1 G2 (rest & Hst) Hd Hn Hs]. unfold with_state, Push.
  set (r := getDualState a e). pose proof (getDualState_single _ _ a He) as Hr. fold r in Hr.
  replace (length (states e) <? 1027)%nat with true by (symmetry; apply Nat.ltb_lt; unfold CallCreateDepth in Hd; lia).
  set (qd := if negb _ then _ else _). destruct qd as [q d] eqn:Eqd. subst qd.
  assert (dual e = false → q = false) as Hq.
  { intros Hdu. unfold privateState in Eqd. rewrite (Hr Hdu), Hdu in Eqd. cbn in Eqd. injection Eqd as <- _. by apply Hs. }
  set (e1 := set_states r (r :: states e) q d e).
  assert (sane 1 e1) as He1.
  { split; cbn; try done; [by eexists|lia|]. intros Hdu. split; [|by apply Hq]. apply Forall_cons. split; [by rewrite Hr|]. by apply Hs. }
  destruct (Hbody e1 He1 eq_refl eq_refl) as (ret & left & err & e2 & -> & Hleft & Hev & Hsame). cbn [rbind].
  pose proof Hev as [A1 A2 A3 A4 A5 A6 A7 A8 A9 A10]. cbn in A1, A2, A3, A4, A5, A6, A7, A8, A9, A10. unfold Pop. rewrite A6, Hst.
  do 4 eexists. split; [done|]. split; [done|]. split; [|exact Hsame].
  split; cbn; try done. intros Hdu Hqe. rewrite (A8 Hdu (Hq Hdu)). done.
Qed.

Lemma snapshot_cur_eq e : snapshot_cur e = (fst (Snapshot (cur e)), set_db (StateDB e) (snd (Snapshot (cur e))) e).
Proof. unfold snapshot_cur. by destruct (Snapshot (cur e)). Qed.

(** Running code on a state that grew from the snapshot. *)
Lemma run_settle_ok B run e s k input gas :
  safe_runner B run → sane 1 e → depth e ≤ CallCreateDepth → 0 ≤ value k → Gas k = gas → 0 ≤ gas < B → gas < 2 ^ 64 →
  grows (snd (Snapshot (cur e))) s → (IsByzantium c = true → readOnly e = true → same_accounts (cur e) s) → no_more (cur e) s →
  safe_call e gas (let? r := run k input (set_db (StateDB e) s e) in settle (fst (Snapshot (cur e))) r).
Proof.
  intros Hrun He Hd Hv <- HB Hg Hgr Hq Hm. destruct (Snapshot_restores (cur e)) as (Hsn & _ & _); [by eapply good_cur|].
  assert (evolves e (set_db (StateDB e) s e)) as Hev by (eapply evolves_set_db; [done|by eapply grows_trans|done|done]).
  destruct (Hrun k input (set_db (StateDB e) s e)) as (ret & err & gas' & e2 & -> & Hgas & Hev2); [done|done|done|by eapply evolves_sane|done|].
  cbn [rbind]. destruct (settle_ok 1 e ret err gas' e2) as (r' & left & er & e' & -> & ? & ? & ?); [done|lia|by eapply evolves_trans| |].
  - eapply grows_trans; [exact Hgr|]. unfold cur. rewrite (ev_StateDB _ _ Hev2). cbn. destruct Hev2 as [P1 P2 _ _ _ _ _ _ _ _]. destruct (StateDB e); cbn in *; done.
  - exists r', left, er, e'. split_and!; try done; lia.
Qed.

Lemma write_cur_set put s e : write_cur put (set_db (StateDB e) s e) = set_db (StateDB e) (put s) e.
Proof. by destruct e as [? ? ? [] ? ? ? ? ? ?]. Qed.
Lemma cur_set_db s e : cur (set_db (StateDB e) s e) = s.
Proof. apply db_set_db. Qed.

Lemma over_depth_false e : over_depth e = false → depth e ≤ CallCreateDepth.
Proof. unfold over_depth. intros ?%Z.ltb_ge. done. Qed.

Lemma Transfer_money caller a x s : good s → good (SubBalance caller x s) → no_more s (Transfer caller a x s).
Proof. intros Hg Hg'. eapply transfer_no_more; [by apply Balance_SubBalance|by apply Balance_AddBalance|lia]. Qed.

(** The state after the snapshot, the creation of the account and the transfer of a call. *)
Lemma transfer_ok n e caller a x (isNew : bool) s1 :
  sane n e → 0 ≤ x ≤ GetBalance caller (cur e) → (isNew = true → Exist a (snd (Snapshot (cur e))) = false) →
  s1 = (if isNew then CreateAccount a (snd (Snapshot (cur e))) else snd (Snapshot (cur e))) →
  (grows (snd (Snapshot (cur e))) s1 ∧ same_accounts (cur e) s1)
  ∧ grows s1 (Transfer caller a x s1) ∧ (x = 0 → same_accounts s1 (Transfer caller a x s1)) ∧ no_more s1 (Transfer caller a x s1).
Proof.
  intros He Hx Hex ->. destruct (Snapshot_restores (cur e)) as (Hg & Hsame & _); [by eapply good_cur|].
  assert (good (snd (Snapshot (cur e)))) as Hg1 by by eapply grows_good. set (s0 := snd (Snapshot (cur e))) in *.
  assert ((grows s0 (if isNew then CreateAccount a s0 else s0) ∧ same_accounts (cur e) (if isNew then CreateAccount a s0 else s0))
    ∧ GetBalance caller (if isNew then CreateAccount a s0 else s0) = GetBalance caller (cur e)) as [[Hgr Hac] Hb].
  { destruct isNew.
    - split; [split; [by apply grow_CreateAccount|]|by rewrite Balance_CreateAccount; [apply Hsame|]].
      trans s0; [by apply same_reads_accounts|]. apply CreateAccount_new; auto.
    - split; [split; [by apply grows_id|by apply same_reads_accounts]|apply Hsame]. }
  set (s1 := if isNew then _ else _) in *. assert (good s1) as Hg2 by by eapply grows_good. split; [done|]. unfold Transfer.
  assert (grows s1 (SubBalance caller x s1)) as Hsub by (apply grow_SubBalance; [done|by rewrite Hb]). assert (good (SubBalance caller x s1)) by by eapply grows_good. split_and!.
  - eapply grows_trans; [done|]. apply grow_AddBalance; [done|lia].
  - intros ->. trans (SubBalance caller 0 s1); [by apply SubBalance_0|by apply AddBalance_0].
  - by apply Transfer_money.
Qed.

Section calls.
Context (B : Z) (run : runner (S:=S)) (Hrun : safe_runner B run).
Context (e : EVM (S:=S)) (gas : Z) (Hgas : 0 ≤ gas < B) (Hgas' : gas < 2 ^ 64).

Lemma Call_ok caller a input x :
  sane 0 e → 0 ≤ x → (IsByzantium c = true → readOnly e = true → x = 0) → safe_call e gas (Call c run caller a input gas x e).
Proof.
  intros He Hx Hro. unfold Call. destruct (_ && _); [eapply safe_call_same; [done|lia]|].
  apply with_state_ok; [done|]. intros e1 He1 Hd1 Hr1. destruct (over_depth e1) eqn:Ed; [eapply safe_call_same; [done|lia]|].
  apply over_depth_false in Ed. unfold CanTransfer. destruct (Z.leb_spec x (GetBalance caller (cur e1))) as [Hb|]; cbn [negb]; [|eapply safe_call_same; [done|lia]].
  rewrite snapshot_cur_eq. cbv beta iota zeta. rewrite cur_set_db. set (s0 := snd (Snapshot (cur e1))).
  destruct (transfer_ok 1 e1 caller a x (negb (Exist a s0)) _ He1 (conj Hx Hb) (fun E => proj1 (negb_true_iff _) E) eq_refl) as ([Hg1 Ha1] & Hg2 & Ha2 & Hm2). fold s0 in Hg1, Ha1, Hg2, Ha2, Hm2.
  destruct (Snapshot_restores (cur e1)) as (Hsn & Hsr & _); [by eapply good_cur|]. fold s0 in Hsn, Hsr. rewrite <- Hr1 in Hro.
  destruct (_ && _ && _ && _).
  { do 4 eexists. split; [done|]. split; [lia|]. split; [|done]. eapply evolves_quiet; [done|done|by apply same_reads_accounts]. }
  set (s1 := if negb (Exist a s0) then CreateAccount a s0 else s0) in *.
  assert ((if negb (Exist a s0) then write_cur (CreateAccount a) (set_db (StateDB e1) s0 e1) else set_db (StateDB e1) s0 e1) = set_db (StateDB e1) s1 e1) as ->.
  { unfold s1. destruct (negb _); [apply write_cur_set|done]. }
  destruct (IsBitmed c && negb (x =? 0) && quorumReadOnly _) eqn:Eq.
  { do 4 eexists. split; [done|]. split; [lia|]. split; [eapply evolves_quiet; [done|by eapply grows_trans|done]|].
    intros Hdu. destruct (sn_single _ _ He1 Hdu) as [_ Hq]. cbn in Eq. rewrite Hq, andb_false_r in Eq. done. }
  set (s2 := if IsBitmed c && (x =? 0) then s1 else Transfer caller a x s1).
  assert ((if IsBitmed c && (x =? 0) then set_db (StateDB e1) s1 e1 else write_cur (Transfer caller a x) (set_db (StateDB e1) s1 e1)) = set_db (StateDB e1) s2 e1) as ->.
  { unfold s2. destruct (IsBitmed c && (x =? 0)); [done|apply write_cur_set]. }
  assert (grows s1 s2 ∧ (x = 0 → same_accounts s1 s2) ∧ no_more s1 s2) as (Hg3 & Ha3 & Hm3).
  { unfold s2. destruct (IsBitmed c && (x =? 0)); [split; [by eapply grows_id, grows_good|done]|done]. }
  eapply run_settle_ok; try done; [by eapply grows_trans| |].
  - intros HB HR. trans s1; [done|]. by apply Ha3, Hro.
  - trans s1; [by apply same_accounts_money|done].
Qed.

Lemma CallCode_ok caller a input x :
  sane 0 e → 0 ≤ x → safe_call e gas (CallCode c run caller a input gas x e).
Proof.
  intros He Hx. unfold CallCode. destruct (_ && _); [eapply safe_call_same; [done|lia]|].
  apply with_state_ok; [done|]. intros e1 He1 Hd1 Hr1. destruct (over_depth e1) eqn:Ed; [eapply safe_call_same; [done|lia]|].
  apply over_depth_false in Ed. destruct (negb _); [eapply safe_call_same; [done|lia]|]. rewrite snapshot_cur_eq. cbv beta iota zeta.
  destruct (Snapshot_restores (cur e1)) as (Hsn & Hsr & _); [by eapply good_cur|].
  eapply run_settle_ok; try done; [by eapply grows_id, grows_good|intros _ _; by apply same_reads_accounts|by apply same_reads_money].
Qed.

Lemma DelegateCall_ok k a input :
  sane 0 e → 0 ≤ value k → safe_call e gas (DelegateCall c run k a input gas e).
Proof.
  intros He Hx. unfold DelegateCall. destruct (_ && _); [eapply safe_call_same; [done|lia]|].
  apply with_state_ok; [done|]. intros e1 He1 Hd1 Hr1. destruct (over_depth e1) eqn:Ed; [eapply safe_call_same; [done|lia]|].
  apply over_depth_false in Ed. rewrite snapshot_cur_eq. cbv beta iota zeta.
  destruct (Snapshot_restores (cur e1)) as (Hsn & Hsr & _); [by eapply good_cur|].
  eapply run_settle_ok; try done; [by eapply grows_id, grows_good|intros _ _; by apply same_reads_accounts|by apply same_reads_money].
Qed.

Lemma sane_more n e1 : sane n e1 → 0 ≤ n → sane (n + 1) e1.
Proof. intros [] ?. split; try done. lia. Qed.

(** A static call leaves the accounts of both states as they were. *)
Definition quiet e1 (r : result unit callResult) : Prop :=
  IsByzantium c = true → ∀ res e', r = Ok (res, e') →
  same_accounts (publicState e1) (publicState e') ∧ same_accounts (secondState e1) (secondState e').

Lemma StaticCall_quiet caller a input :
  sane 0 e → safe_call e gas (StaticCall c run caller a input gas e) ∧ quiet e (StaticCall c run caller a input gas e).
Proof.
  assert (∀ r, quiet e (Ok (r, e))) as Hq by (by intros r _ res e' [= _ <-]).
  intros He. unfold StaticCall. destruct (_ && _); [split; [eapply safe_call_same; [done|lia]|apply Hq]|].
  destruct (over_depth e) eqn:Ed; [split; [eapply safe_call_same; [done|lia]|apply Hq]|]. apply over_depth_false in Ed.
  rewrite snapshot_cur_eq. cbv beta iota zeta. set (e1 := set_readOnly true e).
  assert (sane 1 e1) as He1 by (apply (sane_more 0) in He; [|lia]; destruct He; by split).
  destruct (Snapshot_restores (cur e1)) as (Hsn & Hsr & _); [by eapply good_cur|].
  destruct (run_settle_ok B run e1 (snd (Snapshot (cur e1))) (call_code a (NewContract caller a 0 gas) (set_db (StateDB e1) (snd (Snapshot (cur e1))) e1)) input gas)
    as (ret & left & err & e2 & E & Hl & Hev & Hs); try done; [by eapply grows_id, grows_good|intros _ _; by apply same_reads_accounts|by apply same_reads_money|].
  change (cur e) with (cur e1). change (StateDB e) with (StateDB e1). destruct (run _ _ _) as [[[[ret' err'] gas'] e2']| | |]; try done. cbn [rbind] in E |- *. rewrite E. cbn [rbind].
  destruct Hev as [P1 P2 P3 P4 P5 P6 P7 P8 P9 P10]. cbn in *. split.
  - do 4 eexists. split; [done|]. split; [done|]. destruct (readOnly e) eqn:Er; (split; [|done]); split; cbn; try done; try congruence; auto.
  - intros HB res e' [= _ <-]. by destruct (readOnly e); apply P9.
Qed.

Lemma StaticCall_ok caller a input :
  sane 0 e → safe_call e gas (StaticCall c run caller a input gas e).
Proof. intros He. by apply StaticCall_quiet. Qed.

(** The machine may write: there is no static call around it. *)
Lemma evolves_write n e1 r s1 : allowed true e1 → sane n e1 → grows (db r e1) s1 → no_more (db r e1) s1 → evolves e1 (set_db r s1 e1).
Proof. intros Hw He Hg Hm. eapply evolves_set_db; [done|done| |done]. intros HB HR. by specialize (Hw HB HR). Qed.

Lemma evolves_allowed w e1 e2 : evolves e1 e2 → allowed w e1 → allowed w e2.
Proof. intros Hev Hw HB HR. apply Hw; [done|]. by rewrite <- (ev_readOnly _ _ Hev). Qed.

Lemma nonce_ok n e1 creator caller x :
  allowed true e1 → sane n e1 →
  evolves e1 (set_db creator (SetNonce caller (u64 x) (db creator e1)) e1)
  ∧ ∀ b, GetBalance b (cur (set_db creator (SetNonce caller (u64 x) (db creator e1)) e1)) = GetBalance b (cur e1).
Proof.
  intros Hw He. split.
  - eapply evolves_write; [done|done|apply grow_SetNonce; [by eapply good_db|apply u64_range]|]. apply same_no_more, Balance_SetNonce. by eapply good_db.
  - intros b. unfold cur. cbn. destruct creator, (StateDB e1); cbn; try done; apply Balance_SetNonce, He.
Qed.

(** The state in which the code of a new contract runs. *)
Lemma create_state_ok n e1 caller a x s2 s3 :
  sane n e1 → 0 ≤ x ≤ GetBalance caller (cur e1) →
  s2 = (if IsEIP158 c then SetNonce a 1 (CreateAccount a (snd (Snapshot (cur e1)))) else CreateAccount a (snd (Snapshot (cur e1)))) →
  s3 = (if IsBitmed c && (x =? 0) then s2 else Transfer caller a x s2) →
  grows (snd (Snapshot (cur e1))) s2 ∧ grows s2 s3 ∧ no_more (cur e1) s2 ∧ no_more s2 s3.
Proof.
  intros He Hx -> ->. destruct (Snapshot_restores (cur e1)) as (Hg & Hsame & _); [by eapply good_cur|].
  set (s0 := snd (Snapshot (cur e1))) in *. assert (good s0) as Hg0 by by eapply grows_good.
  assert (grows s0 (CreateAccount a s0)) as Hg1 by by apply grow_CreateAccount. assert (good (CreateAccount a s0)) as Hg1' by by eapply grows_good.
  set (s2 := if IsEIP158 c then _ else _).
  assert (grows s0 s2 ∧ same_balances (cur e1) s2) as [Hg2 Hb].
  { unfold s2. destruct (IsEIP158 c).
    - split; [eapply grows_trans; [done|]; apply grow_SetNonce; [done|lia]|]. intros b. rewrite Balance_SetNonce, Balance_CreateAccount by done. apply Hsame.
    - split; [done|]. intros b. rewrite Balance_CreateAccount by done. apply Hsame. }
  assert (good s2) as Hg2' by by eapply grows_good. split; [done|]. pose proof (same_no_more _ _ Hb). destruct (_ && _); [split_and!; [by apply grows_id|done|done]|].
  assert (grows s2 (SubBalance caller x s2)) as Hsub by (apply grow_SubBalance; [done|by rewrite Hb]).
  assert (good (SubBalance caller x s2)) as Hgs by by eapply grows_good.
  split_and!; [|done|by apply Transfer_money]. eapply grows_trans; [done|]. apply grow_AddBalance; [done|lia].
Qed.

Definition safe_create e1 (r : result unit (bytes * bytes * Z * option evmErr * EVM)) : Prop :=
  ∃ ret a left err e', r = Ok (ret, a, left, err, e') ∧ 0 ≤ left ≤ gas ∧ evolves e1 e'.

Lemma safe_create_at e1 e' ret a left err : 0 ≤ left ≤ gas → evolves e1 e' → safe_create e1 (Ok (ret, a, left, err, e')).
Proof. intros. by exists ret, a, left, err, e'. Qed.
Lemma safe_create_from e1 e2 r : evolves e1 e2 → safe_create e2 r → safe_create e1 r.
Proof. intros Hev (ret & a & left & err & e' & -> & ? & ?). apply safe_create_at; [done|]. by eapply evolves_trans. Qed.

Lemma deposit_ok n e1 e2 a ret err gas' :
  sane n e1 → allowed true e1 → evolves e1 e2 → grows (snd (Snapshot (cur e1))) (cur e2) → 0 ≤ gas' ≤ gas →
  safe_create e1 (deposit c (fst (Snapshot (cur e1))) a (ret, err, gas', e2)).
Proof.
  intros He Hw Hev Hgr Hg. destruct (Snapshot_restores (cur e1)) as (_ & _ & Hrev); [by eapply good_cur|].
  assert (sane n e2) as He2 by by eapply evolves_sane. unfold deposit. set (big := IsEIP158 c && _). set (res := if negb _ || big then _ else _).
  assert (∃ err' gas'' e3, res = (err', gas'', e3) ∧ 0 ≤ gas'' ≤ gas ∧ evolves e1 e3 ∧ grows (snd (Snapshot (cur e1))) (cur e3)) as (err' & gas'' & e3 & -> & Hg'' & Hev3 & Hg3).
  { unfold res. destruct (negb _ || big); [exists err, gas', e2; split_and!; done || lia|]. pose proof (u64_range (zlen ret * CreateDataGas)).
    destruct (Z.ltb_spec gas' (u64 (zlen ret * CreateDataGas))); [eexists _, _, _; split_and!; done || lia|]. eexists _, _, _. split; [done|]. split; [lia|].
    assert (grows (cur e2) (SetCode a ret (cur e2))) as Hsc by (apply grow_SetCode; by eapply good_cur).
    split; [eapply evolves_trans; [done|]; eapply evolves_write; [by eapply evolves_allowed|done|done|]|unfold write_cur; rewrite cur_set_db; by eapply grows_trans].
    apply same_no_more, Balance_SetCode. by eapply good_cur. }
  cbn beta iota zeta. destruct (big || _); [|cbn [rbind]; by apply safe_create_at].
  destruct (Hrev (cur e3)) as (u & -> & Hu & Hsame); [done|]. cbn [rbind]. apply safe_create_at; [case_bool_decide; lia|].
  rewrite (ev_StateDB _ _ Hev3). apply evolves_reset; [done|done|]. by apply same_reads_accounts.
Qed.

Lemma Create_ok caller code x :
  sane 0 e → 0 ≤ x → allowed true e → safe_create e (Create c run caller code gas x e).
Proof.
  intros He Hx Hw. pose proof (evolves_refl _ _ He) as Hid. unfold Create. destruct (over_depth e) eqn:Ed; [apply safe_create_at; [lia|done]|].
  apply over_depth_false in Ed. unfold CanTransfer. destruct (Z.leb_spec x (GetBalance caller (cur e))) as [Hb|]; cbn [negb]; [|apply safe_create_at; [lia|done]].
  set (creator := if 0 <? depth e then privateState e else false). destruct (nonce_ok 0 e creator caller (GetNonce caller (db creator e) + 1) Hw He) as [HevN HbN].
  set (eN := set_db creator _ e) in *. set (a := CreateAddress _ _). cbv zeta. assert (sane 1 eN) as HeN by (eapply evolves_sane; [done|by apply (sane_more 0)]).
  assert (allowed true eN) as HwN by by eapply evolves_allowed. apply (safe_create_from e eN); [done|].
  destruct (_ || _); [apply safe_create_at; [lia|by eapply evolves_refl]|].
  rewrite snapshot_cur_eq. cbv beta iota. rewrite write_cur_set. destruct (Snapshot_restores (cur eN)) as (Hsn & _ & _); [by eapply good_cur|].
  set (s0 := snd (Snapshot (cur eN))) in *. set (s2 := if IsEIP158 c then SetNonce a 1 (CreateAccount a s0) else CreateAccount a s0).
  assert ((if IsEIP158 c then write_cur (SetNonce a 1) (set_db (StateDB eN) (CreateAccount a s0) eN) else set_db (StateDB eN) (CreateAccount a s0) eN) = set_db (StateDB eN) s2 eN) as ->.
  { unfold s2. destruct (IsEIP158 c); [apply write_cur_set|done]. }
  set (s3 := if IsBitmed c && (x =? 0) then s2 else Transfer caller a x s2).
  destruct (create_state_ok 1 eN caller a x s2 s3) as (Hg2 & Hg3 & Hm2 & Hm3); [done|by rewrite HbN|done|done|]. fold s0 in Hg2.
  assert (∀ s, grows s0 s → no_more (cur eN) s → evolves eN (set_db (StateDB eN) s eN)) as Hset by (intros s Hs Hm; eapply evolves_write; [done|done|by eapply grows_trans|done]).
  assert (no_more (cur eN) s3) as Hm03 by by etrans.
  destruct (_ && _ && quorumReadOnly _); [apply safe_create_at; [lia|by apply Hset]|].
  assert ((if IsBitmed c && (x =? 0) then set_db (StateDB eN) s2 eN else write_cur (Transfer caller a x) (set_db (StateDB eN) s2 eN)) = set_db (StateDB eN) s3 eN) as ->.
  { unfold s3. destruct (IsBitmed c && (x =? 0)); [done|apply write_cur_set]. }
  assert (grows s0 s3) as Hg03 by by eapply grows_trans. destruct (NoRecursion c && _); [apply safe_create_at; [lia|by apply Hset]|].
  set (k := SetCallCode _ _ _ _). destruct (Hrun k [] (set_db (StateDB eN) s3 eN)) as (ret & err & gas' & e2 & -> & Hg' & Hev2);
    [done|done|done|by eapply evolves_sane; [by apply Hset|]|done|].
  cbn [rbind]. apply (deposit_ok 1); [done|done|eapply evolves_trans; [by apply Hset|done]| |done]. fold s0. eapply grows_trans; [exact Hg03|].
  unfold cur. rewrite (ev_StateDB _ _ Hev2). destruct Hev2 as [P1 P2 _ _ _ _ _ _ _ _]. cbn in *. by destruct creator, (StateDB e).
Qed.

End calls.

(** *** The instructions that call *)

(** [credit]: the gas a call takes over from the price that was paid for it. *)
Definition safe_exec (op : Z) (o : operation) (credit : list Z → Z) : Prop :=
  ∀ B run f e, safe_runner B run → framed f → sane 0 e → (pops o ≤ length (stack f))%nat → covered (memorySize o) f →
  allowed (writes o) e → (op = CALL → IsByzantium c = true → readOnly e = true → stack f !! 2%nat = Some 0) →
  0 ≤ credit (stack f) → (halts o || reverts o = false → Gas (contract f) + credit (stack f) < B) → Gas (contract f) + credit (stack f) < 2 ^ 64 →
  ∃ res f' e' g, execute o run f e = Ok (res, f', e') ∧ evolves e e' ∧ contract f' = set_Gas g (contract f)
    ∧ 0 ≤ g ≤ Gas (contract f) + credit (stack f) ∧ mem_Len (memory f') = mem_Len (memory f) ∧ nonneg (stack f')
    ∧ (length (stack f') + pops o = length (stack f) + pushes o)%nat ∧ 0 ≤ pc f' < 2 ^ 64.

Lemma set_Gas_same k : set_Gas (Gas k) k = k.
Proof. by destruct k. Qed.

Lemma safe_exec_op op m (gc : gasFunc) n p ms h j w r rt :
  safe_op w n p ms m → safe_exec op (mkOperation (fun _ => m) gc n p ms h j w r rt) (fun _ => 0).
Proof.
  intros Hop B run f e _ Hf He Hn Hcov Hw _ _ _ _. destruct (Hop f e) as (o & f' & e' & E & Hev & Ek & Hm & Hst & Hl & Hpc); [done..|].
  exists o, f', e', (Gas (contract f)). cbn. rewrite set_Gas_same. pose proof (fr_Gas _ Hf). split_and!; done || lia.
Qed.

Lemma covered_max g1 g2 f : covered (Some (mem_max g1 g2)) f → covered (Some g1) f ∧ covered (Some g2) f.
Proof.
  intros (n & E & Hn). unfold mem_max in E. destruct (g1 (stack f)) as [x|] eqn:E1; [|done]. destruct (g2 (stack f)) as [y|] eqn:E2; [|done].
  injection E as <-. unfold BigMax in Hn. split; eexists; (split; [done|]); destruct (Z.ltb_spec x y); lia.
Qed.

Lemma returned_ok ro rs ret' left err e' f e :
  0 ≤ ro → 0 ≤ rs → mem_Len (memory f) ≤ 2 ^ 40 → calcMemSize ro rs ≤ mem_Len (memory f) →
  ∃ o f' b, returned ro rs (ret', left, err, e') f e = Ok (o, f', e') ∧ contract f' = set_Gas (u64 (Gas (contract f) + left)) (contract f)
    ∧ mem_Len (memory f') = mem_Len (memory f) ∧ stack f' = b :: stack f ∧ 0 ≤ b ∧ pc f' = pc f.
Proof.
  intros Hro Hrs Hm Hx. unfold returned, add_Gas. m_run. set (b := if bool_decide (err = None) then 1 else 0). assert (0 ≤ b) by (unfold b; case_bool_decide; lia).
  destruct (_ || _); cbn.
  - destruct (mem_Set_ok ro rs ret' (memory f)) as (m' & -> & Hm'); [done..|]. cbn. eexists _, _, b. split_and!; done.
  - eexists _, _, b. split_and!; done.
Qed.

(** The end of an instruction that calls, when its [n] arguments were popped. *)
Lemma safe_return e p0 k m st credit n ro rs r gas :
  safe_call e gas r → gas ≤ credit → nonneg st → mem_Len m ≤ 2 ^ 40 → 0 ≤ ro → 0 ≤ rs → calcMemSize ro rs ≤ mem_Len m →
  0 ≤ p0 < 2 ^ 64 → 0 ≤ Gas k → Gas k + credit < 2 ^ 64 →
  ∃ res f' e' g, (let? (a, f, e) := (let? a := r in Ok (a, mkFrame p0 k m st, e)) in returned ro rs a f e) = Ok (res, f', e')
    ∧ evolves e e' ∧ contract f' = set_Gas g k ∧ 0 ≤ g ≤ Gas k + credit ∧ mem_Len (memory f') = mem_Len m ∧ nonneg (stack f')
    ∧ (length (stack f') + n = n + length st + 1)%nat ∧ 0 ≤ pc f' < 2 ^ 64.
Proof.
  intros (ret' & left & err & e' & -> & Hl & Hev & _) Hcr Hst Hm40 Hro Hrs Hx Hpc Hg Hlt. cbn [rbind].
  destruct (returned_ok ro rs ret' left err e' (mkFrame p0 k m st) e) as (o & f' & b & -> & Ek & Em & Est & Hb & Epc); [done..|]. cbn in *.
  exists o, f', e', (Gas k + left). split; [done|]. split; [done|]. split; [rewrite Ek, u64_small by lia; done|]. rewrite Est, Epc, Em.
  split_and!; try done; try lia; [by apply Forall_cons|cbn; lia].
Qed.

Ltac call_intro :=
  intros B run [pc0 k m st] e Hrun [Hpc Hgas Hval Hst Hlim (w & Hw1 & Hmem)] He Hn Hcov Hw Hcall Hcr HB H64;
  specialize (HB eq_refl); cbn [pc contract memory stack execute pops pushes memorySize writes calling] in *; pops; apply covered_max in Hcov as [Hcov2 Hcov1];
  pose proof (covered_at _ _ _ _ _ Hcov1 eq_refl eq_refl) as Hx1; pose proof (covered_at _ _ _ _ _ Hcov2 eq_refl eq_refl) as Hx2.
Ltac call_run Hx := unfold perform; m_run; m_get Hx; unfold set_stack; cbn.

(** The gas a callee gets from the item on the stack, with the stipend of a transfer. *)
Definition stipend (v : Z) : Z := if v =? 0 then 0 else CallStipend.
Definition call_credit (st : list Z) : Z := match st with g :: _ :: v :: _ => g + stipend v | _ => 0 end.
Definition plain_credit (st : list Z) : Z := match st with g :: _ => g | _ => 0 end.

Lemma stipend_U256 v : 0 ≤ v → 0 ≤ stipend (U256 v) ≤ stipend v.
Proof.
  intros Hv. unfold stipend. rewrite U256_mod. destruct (Z.eqb_spec v 0) as [->|]; [done|]. unfold CallStipend. destruct (_ =? 0); lia.
Qed.
Lemma callee_gas_ok g v :
  0 ≤ g < 2 ^ 64 → 0 ≤ v → 0 ≤ (if U256 v =? 0 then u64 g else u64 (u64 g + CallStipend)) ≤ g + stipend v ∧ (if U256 v =? 0 then u64 g else u64 (u64 g + CallStipend)) < 2 ^ 64.
Proof.
  intros Hg Hv. pose proof (stipend_U256 v Hv) as Hs. unfold stipend in Hs at 1 2. rewrite (u64_small g) by done. destruct (U256 v =? 0); [lia|].
  pose proof (u64_range (g + CallStipend)). assert (u64 (g + CallStipend) ≤ g + CallStipend) by (apply Z.mod_le; unfold CallStipend; lia). lia.
Qed.

Lemma safe_opCall : safe_exec CALL (calling (opCall c) (gasCall c) 7 memoryCall false) (fun st => call_credit st).
Proof.
  call_intro. unfold opCall. call_run Hx1. cbn in *. destruct (callee_gas_ok x x1) as [Hg Hg64]; [split; [done|unfold stipend, CallStipend in *; destruct (x1 =? 0); lia]|done|].
  assert (IsByzantium c = true → readOnly e = true → U256 x1 = 0) as Hro by (intros HB' HR; specialize (Hcall eq_refl HB' HR); by injection Hcall as ->).
  eapply (safe_return e pc0 k m st (x + stipend x1) 7); [apply (Call_ok B run Hrun); [lia|lia|done|apply U256_nonneg|done]|done || lia..].
Qed.

Lemma safe_opCallCode : safe_exec 0xf2 (calling (opCallCode c) (gasCallCode c) 7 memoryCall false) (fun st => call_credit st).
Proof.
  call_intro. unfold opCallCode. call_run Hx1. cbn in *. destruct (callee_gas_ok x x1) as [Hg Hg64]; [split; [done|unfold stipend, CallStipend in *; destruct (x1 =? 0); lia]|done|].
  eapply (safe_return e pc0 k m st (x + stipend x1) 7); [apply (CallCode_ok B run Hrun); [lia|lia|done|apply U256_nonneg]|done || lia..].
Qed.

Lemma safe_opDelegateCall : safe_exec 0xf4 (calling (opDelegateCall c) (gasDelegateCall c) 6 memoryDelegateCall false) (fun st => plain_credit st).
Proof.
  call_intro. unfold opDelegateCall. call_run Hx1. cbn in *. assert (u64 x = x) as Ex by (apply u64_small; lia). rewrite Ex.
  eapply (safe_return e pc0 k m st x 6); [apply (DelegateCall_ok B run Hrun); [lia|lia|done|done]|done || lia..].
Qed.

Lemma safe_opStaticCall : safe_exec 0xfa (calling (opStaticCall c) (gasStaticCall c) 6 memoryStaticCall false) (fun st => plain_credit st).
Proof.
  call_intro. unfold opStaticCall. call_run Hx1. cbn in *. assert (u64 x = x) as Ex by (apply u64_small; lia). rewrite Ex.
  eapply (safe_return e pc0 k m st x 6); [apply (StaticCall_ok B run Hrun); [lia|lia|done]|done || lia..].
Qed.

Lemma safe_opCreate : safe_exec 0xf0 (calling (opCreate c) gasCreate 3 memoryCreate true) (fun _ => 0).
Proof.
  intros B run [pc0 k m st] e Hrun [Hpc Hgas Hval Hst Hlim (w & Hw1 & Hmem)] He Hn Hcov Hw Hcall Hcr HB H64. specialize (HB eq_refl).
  cbn [pc contract memory stack execute pops pushes memorySize writes calling] in *. pops.
  pose proof (covered_at _ _ _ _ _ Hcov eq_refl eq_refl) as Hx1. unfold opCreate, add_Gas. call_run Hx1.
  set (g := if IsEIP150 c then Gas k - Gas k / 64 else Gas k).
  assert (0 ≤ g ≤ Gas k) as Hg. { unfold g. pose proof (Z.div_pos (Gas k) 64 ltac:(lia) ltac:(lia)). pose proof (Z.div_le_upper_bound (Gas k) 64 (Gas k)). destruct (IsEIP150 c); lia. }
  destruct (Create_ok B run Hrun e g ltac:(lia) ltac:(lia) (self k) data x) as (res & a & left & err & e' & -> & Hl & Hev); [done|done|done|]. cbn.
  exists (if bool_decide (err = Some errExecutionReverted) then res else [], None). eexists _, e', (Gas k - g + left). split; [reflexivity|]. cbn. split; [done|].
  rewrite u64_small by lia. split; [done|]. split_and!; try done; try lia. apply Forall_cons. split; [case_match; [done|apply be_val_nonneg]|done].
Qed.

End safe.
End EvmSafe.
