(* ===== verification/StateVm.v ===== *)
(** The state database under the EVM ([StateVm]): StateDB.v has the operations of [VmState]
    and keeps the laws of [VmLaws].

    A reader of the state database also loads objects into it; the EVM is given what it
    returns, and not the state with the objects, which cannot be told apart from the one
    before ([get_leads], [GetCode_leads], [GetState_leads]). *)

From S2P Require Import Prelude RlpEncode RlpRaw RlpDecode RlpRoundtrip RlpTotal KeccakF Sha3 CoreTypes.
From S2P Require Import Prque TrieEncoding TrieNode Trie TrieThms TrieHash TrieMap CoreBlock StateDB StateThms StateTidy EvmWord EvmCode Evm EvmSupply EvmSafe.

Module StateVm.
Import Rlp Raw Codec Types State StateThms StateTidy.

#[local] Opaque hash256 decode Split.

(** The trie of an account that was just created is empty. *)
Class TriesLaws (Tr W : Type) `{Tries Tr W} := {
  zero_root h : ∃ t, OpenStorageTrie h emptyHash = Some t ∧ ∀ k, TryGet t k = Some [] }.

Section vm.
Context {Tr W : Type} `{Tries Tr W}.
Implicit Types (s : StateDB (Tr:=Tr)) (o : stateObject (Tr:=Tr)).

Definition ok_of {E A} (r : result E A) : option A := match r with Ok a => Some a | _ => None end.

#[global] Instance state_vm : Evm.VmState (StateDB (Tr:=Tr)) := {|
  Evm.CreateAccount := CreateAccount;
  Evm.SubBalance := SubBalance;
  Evm.AddBalance := AddBalance;
  Evm.GetBalance a s := fst (GetBalance a s);
  Evm.GetNonce a s := fst (GetNonce a s);
  Evm.SetNonce := SetNonce;
  Evm.GetCodeHash a s := fst (GetCodeHash a s);
  Evm.GetCode a s := fst (GetCode a s);
  Evm.SetCode := SetCode;
  Evm.GetCodeSize a s := fst (GetCodeSize a s);
  Evm.AddRefund := AddRefund;
  Evm.GetRefund := GetRefund;
  Evm.GetState a k s := fst <$> ok_of (GetState a k s);
  Evm.SetState a k v s := ok_of (SetState a k v s);
  Evm.Suicide a s := snd (Suicide a s);
  Evm.HasSuicided a s := fst (HasSuicided a s);
  Evm.Exist a s := fst (Exist a s);
  Evm.Empty a s := fst (Empty a s);
  Evm.RevertToSnapshot id s := ok_of (RevertToSnapshot id s);
  Evm.Snapshot := Snapshot;
  Evm.AddLog := AddLog;
  Evm.AddPreimage := AddPreimage |}.

(** ** Readers in terms of the objects *)

Definition balance (x : option (stateObject (Tr:=Tr))) : Z := match x with Some o => acc_Balance (data o) | None => 0 end.

Lemma get_look a s : getStateObject a s = (look s a, snd (getStateObject a s)).
Proof. unfold look. by destruct (getStateObject a s). Qed.

Lemma GetBalance_look a s : fst (GetBalance a s) = balance (look s a).
Proof. unfold GetBalance. by rewrite get_look. Qed.
Lemma GetNonce_look a s : fst (GetNonce a s) = match look s a with Some o => acc_Nonce (data o) | None => 0 end.
Proof. unfold GetNonce. by rewrite get_look. Qed.
Lemma GetCodeHash_look a s : fst (GetCodeHash a s) = match look s a with Some o => BytesToHash (acc_CodeHash (data o)) | None => emptyHash end.
Proof. unfold GetCodeHash. by rewrite get_look. Qed.
Lemma HasSuicided_look a s : fst (HasSuicided a s) = match look s a with Some o => suicided o | None => false end.
Proof. unfold HasSuicided. by rewrite get_look. Qed.
Lemma Exist_look a s : fst (Exist a s) = match look s a with Some _ => true | None => false end.
Proof. unfold Exist. by rewrite get_look. Qed.
Lemma Empty_look a s : fst (Empty a s) = match look s a with Some o => empty o | None => true end.
Proof. unfold Empty. by rewrite get_look. Qed.
Lemma GetCode_look a s : fst (GetCode a s) = match look s a with Some o => fst (Code o) | None => [] end.
Proof. unfold GetCode. rewrite get_look. destruct (look s a) as [o|]; [|done]. by destruct (Code o). Qed.
Lemma GetState_look a k s : fst <$> ok_of (GetState a k s) = match look s a with Some o => slot o k | None => Some emptyHash end.
Proof. unfold GetState, slot. rewrite get_look. destruct (look s a) as [o|]; [|done]. by destruct (o_GetState k o) as [[]| | |]. Qed.

(** States that cannot be told apart answer alike. *)
Lemma same_same_reads s s' : same s s' → EvmSafe.same_reads s s'.
Proof.
  intros Hs. assert (∀ a, same_opt (look s a) (look s' a)) as Hl by apply Hs.
  split; [intros a; specialize (Hl a)..|apply Hs];
    cbn [Evm.GetBalance Evm.GetNonce Evm.GetCodeHash Evm.GetCode Evm.GetState Evm.HasSuicided Evm.Exist Evm.Empty state_vm]; try (intros k; rewrite !GetState_look);
    rewrite ?GetBalance_look, ?GetNonce_look, ?GetCodeHash_look, ?HasSuicided_look, ?Exist_look, ?Empty_look, ?GetCode_look;
    destruct (look s a) as [o|], (look s' a) as [o'|]; try done;
    destruct Hl as [S1 S2 S3 S4 S5 S6 S7]; cbn [balance]; try done; try congruence.
  unfold empty, account_empty. by rewrite S2, S3, S4.
Qed.

(** ** Readable states *)

Definition in_range (acc : Account) : Prop := 0 ≤ acc_Balance acc ∧ 0 ≤ acc_Nonce acc < 2 ^ 64.
Definition readable o : Prop := in_range (data o) ∧ ∀ k, is_Some (slot o k).

(** No balance is negative, nonces have 64 bits, and every slot of the storage can be read. *)
Definition rich s : Prop := ∀ a o, look s a = Some o → readable o.

Lemma readable_same o o' : same_obj o o' → readable o' → readable o.
Proof. intros [S1 S2 S3 S4 S5 S6 S7] [[Hb Hn] Hs]. split; [split; [by rewrite S3|by rewrite S2]|]. intros k. by rewrite S7. Qed.

Lemma rich_same s s' : same s s' → rich s' → rich s.
Proof.
  intros Hs Hr a o Ho. pose proof (sa_look _ _ Hs a) as Hl. rewrite Ho in Hl. destruct (look s' a) as [o'|] eqn:E; [|done].
  eapply readable_same; [done|by eapply Hr].
Qed.

Lemma write_rich f o s : rich s → readable (f o) → rich (write f o s).
Proof.
  intros Hr Hf a x Hx. rewrite look_write in Hx. case_decide; [|by eapply Hr]. destruct (deleted (f o)); [done|]. injection Hx as <-.
  eapply readable_same; [apply clean_same|done].
Qed.

Lemma log_change_rich e s : rich s → rich (log_change e s).
Proof. apply rich_same, log_change_same. Qed.

(** A write that keeps the storage. *)
Lemma readable_data o o' :
  readable o → cachedStorage o' = cachedStorage o → o_trie o' = o_trie o → address o' = address o → acc_Root (data o') = acc_Root (data o) →
  in_range (data o') → readable o'.
Proof. intros [Hb Hs] E1 E2 E3 E4 Hb'. split; [done|]. intros k. rewrite (slot_eq o' o); done. Qed.

Context `{!TriesLaws Tr W}.

Lemma readable_new a n p s1 s2 : createObject a s1 = (n, p, s2) → readable n ∧ acc_Balance (data n) = 0 ∧ (∀ k, slot n k = Some emptyHash).
Proof.
  unfold createObject. destruct (getStateObject a s1) as [q s0]. intros [= <- _ _]. set (n := o_set_flags _ _ _ _ _ _).
  assert (∀ k, slot n k = Some emptyHash) as Hk.
  { intros k. rewrite slot_spec. cbn [n cachedStorage o_set_flags newObject]. rewrite lookup_empty. unfold getTrie. cbn [n o_trie o_set_flags newObject].
    destruct (zero_root (addrHash n)) as (t & Et & Hg). change (acc_Root (data n)) with emptyHash. rewrite Et. cbn [fst]. unfold read_slot. by rewrite Hg. }
  split_and!; [split; [by split|]|done|done]. intros k. by rewrite Hk.
Qed.

Lemma create_rich a n p s1 s2 : wf s1 → rich s1 → createObject a s1 = (n, p, s2) → rich s2 ∧ ∀ x, x ≠ a → same_opt (look s2 x) (look s1 x).
Proof.
  intros Hw Hr E. pose proof (readable_new a n p s1 s2 E) as [Hn _]. unfold createObject in E. destruct (getStateObject a s1) as [q s0] eqn:E0. injection E as En _ <-.
  destruct (getStateObject_spec a s1 q s0 Hw E0) as (_ & _ & Hs & _). rewrite En. assert (address n = a) as Ha by by subst n.
  assert (∀ x, x ≠ a → look (setStateObject n (log_change (match q with None => createObjectChange a | Some p => resetObjectChange p end) (MarkStateObjectDirty a s0))) x = look s0 x) as Hx.
  { intros x Hx. rewrite look_put, decide_False by congruence. by rewrite !look_spec. }
  split; [|intros x Hne; rewrite Hx by done; apply Hs].
  intros x o Ho. destruct (decide (x = a)) as [->|Hne].
  - rewrite look_put, decide_True in Ho by done. destruct (deleted n); [done|]. by injection Ho as <-.
  - rewrite Hx in Ho by done. by eapply (rich_same s0 s1).
Qed.

(** An account that reads as no account. *)
Record blank o : Prop := {
  bl_Balance : acc_Balance (data o) = 0;
  bl_Nonce : acc_Nonce (data o) = 0;
  bl_suicided : suicided o = false;
  bl_code : fst (Code o) = [];
  bl_slot : ∀ k, slot o k = Some emptyHash }.

Lemma same_accounts_look s s' :
  refund s = refund s' → (∀ a, same_opt (look s a) (look s' a) ∨ (look s a = None ∧ ∃ o, look s' a = Some o ∧ blank o)) → EvmSafe.same_accounts s s'.
Proof.
  intros Hr Hl. split; [intros a; specialize (Hl a)..|done];
    cbn [Evm.GetBalance Evm.GetNonce Evm.GetCode Evm.GetState Evm.HasSuicided state_vm]; try (intros k; rewrite !GetState_look);
    rewrite ?GetBalance_look, ?GetNonce_look, ?HasSuicided_look, ?GetCode_look;
    (destruct Hl as [Hl|(-> & o & -> & [])]; [|done]); destruct (look s a) as [o|], (look s' a) as [o'|]; try done; by destruct Hl.
Qed.

Lemma same_same_accounts s s' : same s s' → EvmSafe.same_accounts s s'.
Proof. intros Hs. apply same_accounts_look; [apply Hs|]. intros a. left. apply Hs. Qed.

Lemma create_accounts a n s1 s2 : wf s1 → rich s1 → createObject a s1 = (n, None, s2) → EvmSafe.same_accounts s1 s2 ∧ blank n.
Proof.
  intros Hw Hr E. destruct (create_leads a s1 n None s2 Hw E) as (_ & Hn & _ & Hp). destruct (create_rich a n None s1 s2 Hw Hr E) as [_ Hx].
  destruct (readable_new a n None s1 s2 E) as (_ & Hb & Hk). assert (refund s1 = refund s2 ∧ blank n) as [Hf Hbl].
  { unfold createObject in E. destruct (getStateObject a s1) as [q s0] eqn:E0. destruct (getStateObject_spec a s1 q s0 Hw E0) as (_ & _ & Hs & _).
    injection E as <- -> <-. split; [by rewrite <-(sa_refund _ _ Hs)|]. by split. }
  split; [|done]. apply same_accounts_look; [done|]. intros x. destruct (decide (x = a)) as [->|Hne]; [right; split; [done|by exists n]|].
  left. symmetry. by apply Hx.
Qed.

Lemma getOrNew_rich a s o s' :
  wf s → rich s → GetOrNewStateObject a s = (o, s') →
  rich s' ∧ readable o ∧ balance (look s a) = acc_Balance (data o) ∧ EvmSafe.same_accounts s s'.
Proof.
  intros Hw Hr E. destruct (getOrNew_leads a s o s' Hw E) as (_ & Ho & _). unfold GetOrNewStateObject in E.
  destruct (getStateObject a s) as [[p|] s1] eqn:E1; destruct (getStateObject_spec a s _ s1 Hw E1) as (Hp & Hw1 & Hs & _); rewrite <-Hp.
  - injection E as <- <-. assert (rich s1) as Hr1 by by eapply rich_same. split_and!; [done|by eapply Hr1|done|]. by apply same_same_accounts.
  - destruct (createObject a s1) as [[n q] s2] eqn:E2. injection E as <- <-. assert (rich s1) as Hr1 by by eapply rich_same.
    destruct (create_rich a n q s1 s2 Hw1 Hr1 E2) as [Hr2 _]. destruct (readable_new a n q s1 s2 E2) as (Hn & Hb & _).
    destruct (create_leads a s1 n q s2 Hw1 E2) as (_ & _ & _ & Hq). pose proof (sa_look _ _ Hs a) as Hl. rewrite <-Hp in Hl.
    destruct (look s1 a); [done|]. subst q. destruct (create_accounts a n s1 s2 Hw1 Hr1 E2) as [Ha _].
    split_and!; [done|done|by rewrite Hb|]. etrans; [by apply same_same_accounts|done].
Qed.

(** ** The laws *)

Definition steady s : Prop := 0 ≤ refund s ∧ tidy s.
Definition vm_good s : Prop := wf s ∧ revs_ok s ∧ rich s ∧ steady s.
Definition vm_grows s s' : Prop := vm_good s ∧ StateThms.grows s s' ∧ rich s' ∧ steady s'.

Lemma vm_good_tidy s : vm_good s → wf s ∧ tidy s.
Proof. by intros (? & _ & _ & _ & ?). Qed.

Lemma leads_vm_refund s s' : vm_good s → leads s s' → rich s' → 0 ≤ refund s' → tidy s' → vm_grows s s'.
Proof. intros (Hw & Hr & Hc & Hf) Hl Hc' Hf' Ht'. split_and!; try done. eapply grows_leads; [by apply grow_refl|done]. Qed.

Lemma leads_vm s s' : vm_good s → leads s s' → rich s' → refund s' = refund s → tidy s' → vm_grows s s'.
Proof. intros Hg Hl Hc Hf Ht. apply leads_vm_refund; [done..| |done]. rewrite Hf. apply Hg. Qed.

Lemma write_refund a f o o1 e s s' : wf s → rich s → GetOrNewStateObject a s = (o, s') → refund (write f o1 (log_change e s')) = refund s.
Proof. intros Hw Hr E. destruct (getOrNew_rich a s o s' Hw Hr E) as (_ & _ & _ & [_ _ _ _ _ Hf]). by destruct (write_frame f o1 (log_change e s')) as (_ & -> & _). Qed.

(** A write to the object of an address that keeps the storage. *)
Lemma write_vm a f e s o s' :
  vm_good s → GetOrNewStateObject a s = (o, s') → leads s (write f o (log_change e s')) → tidy (write f o (log_change e s')) →
  cachedStorage (f o) = cachedStorage o → o_trie (f o) = o_trie o → address (f o) = address o → acc_Root (data (f o)) = acc_Root (data o) →
  in_range (data (f o)) → vm_grows s (write f o (log_change e s')).
Proof.
  intros Hg E Hl Ht E1 E2 E3 E4 Hb. destruct (Hg) as (Hw & _ & Hr & _). apply leads_vm; [done|done| |by eapply write_refund|done]. destruct (getOrNew_rich a s o s' Hw Hr E) as (Hr' & Ho & _).
  apply write_rich; [by apply log_change_rich|]. by eapply readable_data.
Qed.

Lemma vm_SubBalance a x s : vm_good s → 0 ≤ x ≤ fst (GetBalance a s) → vm_grows s (SubBalance a x s).
Proof.
  intros Hg Hx. rewrite GetBalance_look in Hx. pose proof Hg as (Hw & _ & Hr & _). pose proof (SubBalance_leads a x s Hw) as Hl. pose proof (tidy_SubBalance a x s Hw (proj2 (vm_good_tidy s Hg))) as Ht. unfold SubBalance in *.
  destruct (GetOrNewStateObject a s) as [o s'] eqn:E. destruct (getOrNew_rich a s o s' Hw Hr E) as (Hr' & Ho & Hb & Hacc).
  destruct (x =? 0); [by apply leads_vm; [..|symmetry; apply Hacc|]|]. pose proof (proj1 Ho) as [? ?]. eapply write_vm; try done. split; [cbn; lia|done].
Qed.

Lemma vm_AddBalance a x s : vm_good s → 0 ≤ x → vm_grows s (AddBalance a x s).
Proof.
  intros Hg Hx. pose proof Hg as (Hw & _ & Hr & _). pose proof (AddBalance_leads a x s Hw) as Hl. pose proof (tidy_AddBalance a x s Hw (proj2 (vm_good_tidy s Hg))) as Ht. unfold AddBalance in *.
  destruct (GetOrNewStateObject a s) as [o s'] eqn:E. destruct (getOrNew_rich a s o s' Hw Hr E) as (Hr' & Ho & Hb & Hacc). pose proof (proj1 Ho) as [? ?].
  destruct (x =? 0); [destruct (empty o); [|by apply leads_vm; [..|symmetry; apply Hacc|]]|]; (eapply write_vm; try done). split; [cbn; lia|done].
Qed.

Lemma vm_SetNonce a n s : vm_good s → 0 ≤ n < 2 ^ 64 → vm_grows s (SetNonce a n s).
Proof.
  intros Hg Hn. pose proof Hg as (Hw & _ & Hr & _). pose proof (SetNonce_leads a n s Hw) as Hl. pose proof (tidy_SetNonce a n s Hw (proj2 (vm_good_tidy s Hg))) as Ht. unfold SetNonce in *.
  destruct (GetOrNewStateObject a s) as [o s'] eqn:E. destruct (getOrNew_rich a s o s' Hw Hr E) as (Hr' & Ho & Hb & _). pose proof (proj1 Ho) as [? ?].
  eapply write_vm; try done.
Qed.

Lemma vm_SetCode a b s : vm_good s → vm_grows s (SetCode a b s).
Proof.
  intros Hg. pose proof Hg as (Hw & _ & Hr & _). pose proof (SetCode_leads a b s Hw) as Hl. pose proof (tidy_SetCode a b s Hw (proj2 (vm_good_tidy s Hg))) as Ht. unfold SetCode in *.
  destruct (GetOrNewStateObject a s) as [o s'] eqn:E. destruct (getOrNew_rich a s o s' Hw Hr E) as (Hr' & Ho & Hb & _).
  destruct (Code o) as [pc o1] eqn:Ec. destruct (Code_spec o pc o1 Ec) as [Hs _]. apply leads_vm; [done|done| |by eapply write_refund|done].
  apply write_rich; [by apply log_change_rich|]. assert (readable o1) as Ho1 by by eapply readable_same. pose proof (proj1 Ho1). by eapply readable_data.
Qed.

Lemma vm_SetState a k v s : vm_good s → length v = HashLength → ∃ s', SetState a k v s = Ok s' ∧ vm_grows s s'.
Proof.
  intros Hg Hv. pose proof Hg as (Hw & _ & Hr & _). pose proof (SetState_leads a k v s) as Hl. pose proof (tidy_SetState a k v s) as Ht. unfold SetState in *.
  destruct (GetOrNewStateObject a s) as [o s'] eqn:E. destruct (getOrNew_rich a s o s' Hw Hr E) as (Hr' & Ho & Hb & _).
  pose proof (proj2 Ho k) as [w Ew]. unfold slot in Ew. destruct (o_GetState k o) as [[prev o1]| | |] eqn:Eg; try done. cbn [rbind] in *.
  destruct (o_GetState_spec k o prev o1 Eg) as (_ & Hs & _). assert (readable o1) as [Hb1 Ho1] by by eapply readable_same.
  eexists. split; [done|]. apply leads_vm; [done|by apply Hl| |by eapply write_refund|apply Ht; [done|apply Hg|done|done]]. apply write_rich; [by apply log_change_rich|]. split; [done|].
  intros key. rewrite slot_set. by case_decide.
Qed.

Lemma vm_Suicide a s : vm_good s → vm_grows s (snd (Suicide a s)).
Proof.
  intros Hg. pose proof Hg as (Hw & _ & Hr & _). pose proof (Suicide_leads a s Hw) as Hl. pose proof (tidy_Suicide a s (proj2 (vm_good_tidy s Hg))) as Ht. unfold Suicide in *.
  destruct (getStateObject a s) as [[o|] s1] eqn:E; destruct (getStateObject_spec a s _ s1 Hw E) as (Hp & _ & Hs & _);
    assert (rich s1) as Hr1 by (by eapply rich_same); (apply leads_vm; [done|done| | |done]); [|cbn [snd]; match goal with |- refund (write ?f ?o ?t) = _ => destruct (write_frame f o t) as (_ & -> & _) end; apply Hs|done|apply Hs].
  apply write_rich; [by apply log_change_rich|]. destruct (Hr a o) as [[? ?] ?]; [done|]. by apply (readable_data o).
Qed.

Lemma CreateAccount_look a s :
  wf s → rich s → (rich (CreateAccount a s) ∧ refund (CreateAccount a s) = refund s) ∧ ∀ b, balance (look (CreateAccount a s) b) = balance (look s b).
Proof.
  intros Hw Hr. unfold CreateAccount. destruct (createObject a s) as [[n p] s1] eqn:E. destruct (create_leads a s n p s1 Hw E) as (_ & Hn & Ha & Hp).
  destruct (create_rich a n p s s1 Hw Hr E) as [Hr1 Hx]. destruct (readable_new a n p s s1 E) as (Hrn & Hb & _).
  assert (∀ b, b ≠ a → balance (look s1 b) = balance (look s b)) as Hbal.
  { intros b Hne. specialize (Hx b Hne). destruct (look s1 b), (look s b); try done. apply Hx. }
  assert (refund s1 = refund s) as Hf1.
  { unfold createObject in E. destruct (getStateObject a s) as [q s0] eqn:E0. destruct (getStateObject_spec a s q s0 Hw E0) as (_ & _ & Hs & _). injection E as _ _ <-. apply Hs. }
  destruct p as [p|].
  - assert (readable p) as [[Hp0 _] _] by (by eapply (Hr a)). split.
    + split; [apply write_rich; [done|]; eapply readable_data; try done; split; [done|apply Hrn]|]. unfold setBalance. by match goal with |- refund (write ?f ?o ?t) = _ => destruct (write_frame f o t) as (_ & -> & _) end.
    + intros b. unfold setBalance. rewrite look_write. cbn [address o_set_data deleted]. rewrite Ha. destruct (decide (b = a)) as [->|Hne]; [|by apply Hbal].
      assert (deleted n = false) as -> by (unfold createObject in E; destruct (getStateObject a s); by injection E as <- _ _).
      rewrite <-Hp. cbn [balance]. by rewrite (so_Balance _ _ (clean_same _)).
  - split; [done|]. intros b. destruct (decide (b = a)) as [->|Hne]; [|by apply Hbal]. rewrite Hn, <-Hp. done.
Qed.

Lemma vm_CreateAccount a s : vm_good s → vm_grows s (CreateAccount a s).
Proof. intros Hg. pose proof Hg as (Hw & _ & Hr & _). apply leads_vm; [done|by apply CreateAccount_leads|by apply CreateAccount_look..|]. apply tidy_CreateAccount; [done|apply Hg]. Qed.

Lemma same_look s s' : trie s = trie s' → stateObjects s = stateObjects s' → ∀ a, look s a = look s' a.
Proof. intros E1 E2 a. rewrite !look_spec, E2. by rewrite (load_trie s s' a E1). Qed.

Lemma look_rich s s' : (∀ a, look s' a = look s a) → rich s → rich s'.
Proof. intros E Hr a o Ho. rewrite E in Ho. by eapply Hr. Qed.

Lemma look_accounts s s' : refund s' = refund s → (∀ a, look s' a = look s a) → EvmSafe.same_accounts s s'.
Proof. intros Hf E. apply same_accounts_look; [done|]. intros a. left. by rewrite E. Qed.

Lemma AddPreimage_look h b s a : look (AddPreimage h b s) a = look s a.
Proof. unfold AddPreimage. destruct (preimages s !! h); [done|]. by apply same_look. Qed.

Lemma vm_Snapshot s :
  vm_good s → vm_grows s (snd (Snapshot s)) ∧ EvmSafe.same_reads (snd (Snapshot s)) s
    ∧ ∀ t, vm_grows (snd (Snapshot s)) t → ∃ u, ok_of (RevertToSnapshot (fst (Snapshot s)) t) = Some u ∧ vm_grows s u ∧ EvmSafe.same_reads u s.
Proof.
  intros Hg. pose proof Hg as (Hw & Hv & Hr & Hf). assert (same (snd (Snapshot s)) s) as Hs by (split; try done; intros a; rewrite !look_spec; reflexivity).
  split_and!; [|by apply same_same_reads|].
  - split_and!; [done|by apply grows_snapshot, grow_refl|by eapply rich_same|]. destruct Hf as [? ?]. split; [done|by apply (tidy_frame s)].
  - intros t (_ & Hgr & _ & _ & Ht). pose proof (tidy_revert (nextRevisionId s) t) as Htr. destruct (revert_grown s t Hw Hv Hgr) as (u & Eu & Hu & Ej & Ev & En & Hwu & Hvu). exists u. cbn [fst Snapshot]. rewrite Eu.
    split_and!; [done| |by apply same_same_reads]. split_and!; [done| |by eapply rich_same|split; [rewrite (sa_refund _ _ Hu); apply Hf|apply (Htr u); [apply Hgr|done..]]].
    split; [done|done|done|exists []; by rewrite app_nil_r|exists [], u; by rewrite app_nil_r].
Qed.

(** The balances after a write to the object of an address. *)
Lemma write_balance a f e s o s' b :
  wf s → rich s → GetOrNewStateObject a s = (o, s') → address (f o) = address o → deleted (f o) = deleted o →
  balance (look (write f o (log_change e s')) b) = if decide (b = a) then acc_Balance (data (f o)) else balance (look s b).
Proof.
  intros Hw Hr E Ha Hd. destruct (getOrNew_leads a s o s' Hw E) as (_ & _ & (_ & _ & Hod) & Hoa).
  destruct (getOrNew_rich a s o s' Hw Hr E) as (_ & _ & Hb & [Hbal _ _ _ _ _]). rewrite look_write, Ha, Hd, Hod, Hoa.
  destruct (decide (b = a)) as [->|Hne]; [by rewrite <- (so_Balance _ _ (clean_same _))|].
  specialize (Hbal b). cbn in Hbal. rewrite !GetBalance_look in Hbal. rewrite Hbal. by rewrite (same_look (log_change _ s') s').
Qed.

Lemma SetNonce_look a n b s : wf s → rich s → balance (look (SetNonce a n s) b) = balance (look s b).
Proof.
  intros Hw Hr. unfold SetNonce. destruct (GetOrNewStateObject a s) as [o s'] eqn:E. destruct (getOrNew_rich a s o s' Hw Hr E) as (_ & _ & Hb & _).
  unfold setNonce. rewrite (write_balance a _ _ s) by done. by case_decide as Hd; [subst b|].
Qed.

Lemma SetCode_look a c b s : wf s → rich s → balance (look (SetCode a c s) b) = balance (look s b).
Proof.
  intros Hw Hr. unfold SetCode. destruct (GetOrNewStateObject a s) as [o s'] eqn:E. destruct (getOrNew_rich a s o s' Hw Hr E) as (_ & _ & Hb & _).
  destruct (Code o) as [pc o1] eqn:Ec. destruct (Code_spec o pc o1 Ec) as [_ (F1 & F2 & F3 & F4 & F5 & F6)].
  pose proof (write_balance a (fun _ => o_set_data (set_CodeHash (hash256 [c]) (data o1)) (o_set_code c true o1)) (codeChange a pc (acc_CodeHash (data o1))) s o s' b Hw Hr E F1 F5) as Hx.
  unfold setCode, write in *. cbn beta in Hx. rewrite Hx. case_decide as Hd; [subst b|done]. rewrite Hb. cbn. by rewrite F2.
Qed.

Lemma SetState_look a k v b s t : wf s → rich s → SetState a k v s = Ok t → balance (look t b) = balance (look s b).
Proof.
  intros Hw Hr Et. unfold SetState in Et. destruct (GetOrNewStateObject a s) as [o s'] eqn:E. destruct (getOrNew_rich a s o s' Hw Hr E) as (_ & _ & Hb & _).
  destruct (o_GetState k o) as [[prev o1]| | |] eqn:Eg; try done. cbn [rbind] in Et. injection Et as <-. destruct (o_GetState_spec k o prev o1 Eg) as (_ & _ & (F1 & F2 & F3 & F4 & F5 & F6)).
  pose proof (write_balance a (fun _ => o_set_storage (<[k := v]> (cachedStorage o1)) (<[k := v]> (dirtyStorage o1)) o1) (storageChange a k prev) s o s' b Hw Hr E F1 F5) as Hx.
  unfold setState, write in *. cbn beta in Hx. rewrite Hx. case_decide as Hd; [subst b|done]. rewrite Hb. cbn. by rewrite F2.
Qed.

Lemma SubBalance_look a x b s : wf s → rich s → balance (look (SubBalance a x s) b) = balance (look s b) + (if decide (b = a) then - x else 0).
Proof.
  intros Hw Hr. unfold SubBalance. destruct (GetOrNewStateObject a s) as [o s'] eqn:E. destruct (getOrNew_rich a s o s' Hw Hr E) as (_ & _ & Hb & [Hbal _ _ _ _ _]).
  destruct (Z.eqb_spec x 0) as [->|Hx].
  - specialize (Hbal b). cbn in Hbal. rewrite !GetBalance_look in Hbal. rewrite Hbal. case_decide; lia.
  - unfold setBalance. rewrite (write_balance a _ _ s) by done. case_decide as Hd; [subst b; rewrite Hb; cbn|]; lia.
Qed.

Lemma touch_accounts o s : look s (address o) = Some o → deleted o = false → EvmSafe.same_accounts s (touch o s).
Proof.
  intros Ho Hd. unfold touch. set (e := touchChange _ _ _). set (f := fun o => _).
  apply same_accounts_look; [by destruct (write_frame f o (log_change e s)) as (_ & -> & _)|]. intros a. left. rewrite look_write.
  cbn [f address deleted o_set_flags]. rewrite Hd. destruct (decide (a = address o)) as [->|Hne]; [|by rewrite (same_look (log_change e s) s)].
  rewrite Ho. symmetry. cbn [same_opt]. etrans; [apply clean_same|apply touched_same].
Qed.

Lemma AddBalance_look a x b s : wf s → rich s → balance (look (AddBalance a x s) b) = balance (look s b) + (if decide (b = a) then x else 0).
Proof.
  intros Hw Hr. unfold AddBalance. destruct (GetOrNewStateObject a s) as [o s'] eqn:E. destruct (getOrNew_leads a s o s' Hw E) as (_ & Hl & (_ & _ & Hd) & Ha).
  destruct (getOrNew_rich a s o s' Hw Hr E) as (_ & _ & Hb & Hacc). destruct (Z.eqb_spec x 0) as [->|Hx].
  - assert (EvmSafe.same_accounts s (if empty o then touch o s' else s')) as [Hbal _ _ _ _ _].
    { destruct (empty o); [|done]. etrans; [done|]. apply touch_accounts; [by rewrite Ha|done]. }
    specialize (Hbal b). cbn in Hbal. rewrite !GetBalance_look in Hbal. rewrite Hbal. case_decide; lia.
  - unfold setBalance. rewrite (write_balance a _ _ s) by done. case_decide as Hq; [subst b; rewrite Hb; cbn|]; lia.
Qed.

Lemma Suicide_look a b s : wf s → balance (look (snd (Suicide a s)) b) = balance (look s b) + (if decide (b = a) then - balance (look s a) else 0).
Proof.
  intros Hw. unfold Suicide. destruct (getStateObject a s) as [[o|] s1] eqn:E; destruct (getStateObject_spec a s _ s1 Hw E) as (Hp & _ & Hs & _); rewrite <- Hp; cbn [snd].
  - destruct (look_address s a o Hw) as (Ha & _ & Hd); [done|]. rewrite look_write. cbn [address deleted o_set_data o_set_flags]. rewrite Ha, Hd.
    destruct (decide (b = a)) as [->|Hne]; [rewrite <- Hp; cbn [balance]; rewrite (so_Balance _ _ (clean_same _)); cbn; lia|].
    rewrite (same_look (log_change _ s1) s1) by done. pose proof (sa_look _ _ Hs b) as Hb. destruct (look s1 b), (look s b); try done.
    cbn [balance]. rewrite (so_Balance _ _ Hb). lia.
  - pose proof (sa_look _ _ Hs b) as Hb. assert (balance (look s1 b) = balance (look s b)) as -> by (destruct (look s1 b), (look s b); try done; apply Hb).
    cbn. case_decide; lia.
Qed.

Lemma AddBalance_0_accounts a s : wf s → rich s → EvmSafe.same_accounts s (AddBalance a 0 s).
Proof.
  intros Hw Hr. unfold AddBalance. destruct (GetOrNewStateObject a s) as [o s'] eqn:E. destruct (getOrNew_leads a s o s' Hw E) as (_ & Hl & (_ & _ & Hd) & <-).
  destruct (getOrNew_rich _ s o s' Hw Hr E) as (_ & _ & _ & Ha). cbn [Z.eqb]. destruct (empty o); [|done]. etrans; [done|by apply touch_accounts].
Qed.

Lemma SubBalance_0_accounts a s : wf s → rich s → EvmSafe.same_accounts s (SubBalance a 0 s).
Proof. intros Hw Hr. unfold SubBalance. destruct (GetOrNewStateObject a s) as [o s'] eqn:E. by destruct (getOrNew_rich _ s o s' Hw Hr E) as (_ & _ & _ & Ha). Qed.

Lemma CreateAccount_new_accounts a s : wf s → rich s → fst (Exist a s) = false → EvmSafe.same_accounts s (CreateAccount a s).
Proof.
  intros Hw Hr He. rewrite Exist_look in He. unfold CreateAccount. destruct (createObject a s) as [[n p] s1] eqn:E.
  destruct (create_leads a s n p s1 Hw E) as (_ & _ & _ & ->). destruct (look s a); [done|]. by destruct (create_accounts a n s s1 Hw Hr E).
Qed.

Lemma GetCodeSize_pos a s : 0 ≤ fst (GetCodeSize a s).
Proof. unfold GetCodeSize. rewrite get_look. destruct (look s a) as [o|]; [|done]. destruct (code o); [destruct (ContractCode _ _)|]; cbn [fst]; first [done|apply Nat2Z.is_nonneg].
Qed.

#[global] Instance state_laws : EvmSafe.VmLaws (StateDB (Tr:=Tr)).
Proof.
  refine {| EvmSafe.good := vm_good; EvmSafe.grows := vm_grows |}.
  - intros s (Hw & Hv & Hr & Hf). split_and!; try done. by apply grow_refl.
  - intros s t u (Hg & Hst & _) (_ & Htu & Hr & Hf). split_and!; [done|by eapply grows_then|done|done].
  - intros s t (_ & Hst & Hr & Hf). split_and!; [apply Hst|apply Hst|done|done].
  - intros a s. apply vm_CreateAccount.
  - intros a x s. apply vm_SubBalance.
  - intros a x s. apply vm_AddBalance.
  - intros a n s. apply vm_SetNonce.
  - intros a b s. apply vm_SetCode.
  - intros g s Hg Hn. pose proof Hg as (Hw & _ & Hr & Hf). apply leads_vm_refund; [done|by apply AddRefund_leads| |destruct Hf; cbn; lia|apply tidy_AddRefund, Hf]. eapply look_rich; [|done]. by apply same_look.
  - intros a k v s Hg. destruct (vm_SetState a (BytesToHash k) (BytesToHash v) s Hg (length_BytesToHash v)) as (t & Et & Ht). exists t. cbn [Evm.SetState state_vm]. by rewrite Et.
  - intros a s. apply vm_Suicide.
  - intros l s Hg. pose proof Hg as (Hw & _ & Hr & _). apply leads_vm; [done|by apply AddLog_leads| |done|apply tidy_AddLog, Hg]. eapply look_rich; [|done]. by apply same_look.
  - intros h b s Hg. pose proof Hg as (Hw & _ & Hr & _). apply leads_vm; [done|by apply AddPreimage_leads| | |apply tidy_AddPreimage, Hg].
    + eapply look_rich; [|done]. apply AddPreimage_look.
    + unfold Evm.AddPreimage, state_vm, AddPreimage. by destruct (preimages s !! h).
  - intros s. apply vm_Snapshot.
  - intros a k s (_ & _ & Hr & _). cbn. rewrite GetState_look. destruct (look s a) as [o|] eqn:E; [|done]. by eapply (Hr a).
  - intros a s (_ & _ & Hr & _). cbn. rewrite GetBalance_look. destruct (look s a) as [o|] eqn:E; [|done]. by eapply (Hr a).
  - intros a s _. apply GetCodeSize_pos.
  - intros s (_ & _ & _ & Hf & _). done.
  - intros a s (Hw & _ & Hr & _) b. cbn. rewrite !GetBalance_look. by apply CreateAccount_look.
  - intros a n s (Hw & _ & Hr & _) b. cbn. rewrite !GetBalance_look. by apply SetNonce_look.
  - intros a c s (Hw & _ & Hr & _) b. cbn. rewrite !GetBalance_look. by apply SetCode_look.
  - intros g s _ b. cbn. rewrite !GetBalance_look. by rewrite (same_look _ s).
  - intros a k v s t (Hw & _ & Hr & _) E b. cbn in E |- *. rewrite !GetBalance_look. destruct (SetState a k v s) as [t'| | |] eqn:Es; try done. injection E as ->. by eapply SetState_look.
  - intros l s _ b. cbn. rewrite !GetBalance_look. by rewrite (same_look _ s).
  - intros a x s (Hw & _ & Hr & _) b. cbn. rewrite !GetBalance_look. by apply AddBalance_look.
  - intros a x s (Hw & _ & Hr & _) b. cbn. rewrite !GetBalance_look. by apply SubBalance_look.
  - intros a s (Hw & _ & Hr & _) b. cbn. rewrite !GetBalance_look. by apply Suicide_look.
  - intros a s (Hw & _ & Hr & _). by apply CreateAccount_new_accounts.
  - intros a s (Hw & _ & Hr & _). by apply AddBalance_0_accounts.
  - intros a s (Hw & _ & Hr & _). by apply SubBalance_0_accounts.
  - intros h b s _. apply look_accounts; [|apply AddPreimage_look]. unfold Evm.AddPreimage, state_vm, AddPreimage. by destruct (preimages s !! h).
Defined.
End vm.
End StateVm.
