(* ===== verification/EvmThms.v ===== *)
(** Theorems on the EVM ([EvmThms]): the price of every instruction, a turn of the loop, and
    whole executions. *)

From S2P Require Import Prelude RlpEncode RlpRaw RlpDecode RlpRoundtrip RlpTotal KeccakF Sha3 CoreTypes.
From S2P Require Import Prque TrieEncoding TrieNode Trie TrieThms TrieHash TrieMap CoreBlock StateDB StateThms EvmWord EvmCode Evm EvmSupply EvmSafe StateVm.

Module EvmThms.
Import Rlp Codec Types EvmWord EvmCode Evm EvmSupply EvmSafe.

#[local] Opaque hash256 be_bytes BytesToHash BytesToAddress CreateAddress.

#[local] Arguments memory_gas : simpl never.
#[local] Arguments add_gas : simpl never.
#[local] Arguments call_gas : simpl never.
#[local] Arguments words_gas : simpl never.
#[local] Arguments u64 : simpl never.
#[local] Arguments Z.of_nat : simpl never.
#[local] Arguments BitLen : simpl never.
#[local] Arguments Z.pow : simpl never.

Section thms.
Context {S : Type} `{VmState S} `{!VmLaws S} (c : Context) (Husable : usable c).
Implicit Types (e : EVM (S:=S)) (f : Frame).

(** ** The price of an instruction *)

(** Frames that differ in the price of the memory and the top of the stack. *)
Record charged f f' : Prop := {
  ch_pc : pc f' = pc f;
  ch_contract : contract f' = contract f;
  ch_store : store (memory f') = store (memory f);
  ch_tail : tail (stack f') = tail (stack f);
  ch_length : length (stack f') = length (stack f);
  ch_nonneg : nonneg (stack f') }.

(** An instruction costs at least its credit and one more, unless it ends the run. *)
Definition safe_gas (o : operation) (credit : list Z → Z) : Prop :=
  ∀ size f e, framed f → sane 0 e → (pops o ≤ length (stack f))%nat → 0 ≤ size → (memorySize o = None → size = 0) → allowed c (writes o) e →
  ∃ cost f' e', gasCost o size f e = Ok (cost, f', e') ∧ evolves c e e' ∧ charged f f'
    ∧ (∀ ms, memorySize o = Some ms → ms (stack f') = ms (stack f))
    ∧ ∀ g, cost = Some g → 0 ≤ g ∧ size ≤ 2 ^ 40 ∧ 0 ≤ credit (stack f') ∧ (halts o || reverts o = false → credit (stack f') + 1 ≤ g) ∧ credit (stack f') ≤ g.

Lemma charged_refl f : framed f → charged f f.
Proof. intros []. by split. Qed.

Lemma add_gas_Some g x r : 0 ≤ g < 2 ^ 64 → 0 ≤ x < 2 ^ 64 → add_gas g x = Some r → r = g + x ∧ r < 2 ^ 64.
Proof. intros Hg Hx. unfold add_gas. rewrite SafeAdd_spec by done. case_decide; [|done]. intros [= <-]. lia. Qed.

Lemma words_gas_Some n p r : 0 ≤ p < 2 ^ 64 → words_gas n p = Some r → 0 ≤ r < 2 ^ 64.
Proof.
  intros Hp. unfold words_gas, bigUint64. destruct (64 <? BitLen n); [done|]. pose proof (toWordSize_spec (u64 n) (u64_range n)) as (Hw & _ & _).
  rewrite SafeMul_spec by lia. case_decide; [|done]. intros [= <-]. nia.
Qed.

Lemma memory_gas_ok size f e :
  framed f → 0 ≤ size →
  ∃ cost f', memory_gas size f e = Ok (cost, f', e) ∧ charged f f' ∧ stack f' = stack f ∧ ∀ g, cost = Some g → 0 ≤ g < 2 ^ 64 ∧ size ≤ 2 ^ 40.
Proof.
  intros Hf Hs. unfold memory_gas, memoryGasCost, Evm.bind, frame, put_frame, ret. cbn. destruct (Z.eqb_spec size 0) as [->|Hnz].
  { do 2 eexists. split; [done|]. destruct f as [? ? [] ?]. split; [by apply charged_refl|]. split; [done|]. intros g [= <-]. lia. }
  destruct (Z.ltb_spec 0xffffffffe0 size).
  { do 2 eexists. split; [done|]. split; [by apply charged_refl|]. done. }
  destruct (mem_Len (memory f) <? _); (do 2 eexists; split; [done|]; split; [destruct Hf; by split|]; split; [done|]).
  - intros g [= <-]. pose proof (u64_range (u64 (u64 (toWordSize size * MemoryGas) + u64 (toWordSize size * toWordSize size) / QuadCoeffDiv) - lastGasCost (memory f))). lia.
  - intros g [= <-]. lia.
Qed.

Ltac gas_intro :=
  intros size f e Hf He Hn Hs Hnone Hw; cbn [pops memorySize writes halts reverts gasCost plain with_memory jumping calling] in *.
Ltac gas_mem Hm :=
  match goal with |- context [memory_gas ?sz ?ff ?ee] =>
    destruct (memory_gas_ok sz ff ee) as (cost & f1 & -> & Hch & Est & Hm); [done|done|]; cbn end.

Lemma safe_constGas ex g n p h j r w rt :
  0 ≤ g → (h || r = false → 1 ≤ g) → safe_gas (mkOperation ex (constGasFunc g) n p None h j w r rt) (fun _ => 0).
Proof.
  intros Hg Hg1. gas_intro. rewrite Hnone by done. do 3 eexists. split; [done|]. split; [by eapply evolves_refl|]. split; [by apply charged_refl|]. split; [done|].
  intros g' [= <-]. split_and!; lia.
Qed.

Lemma safe_gas_memory ex price n p h j r w rt ms :
  1 ≤ price < 2 ^ 64 → safe_gas (mkOperation ex (gas_memory price) n p (Some ms) h j w r rt) (fun _ => 0).
Proof.
  intros Hp. gas_intro. unfold gas_memory, Evm.bind, ret. gas_mem Hm. do 3 eexists. split; [done|]. split; [by eapply evolves_refl|]. split; [done|].
  split; [intros ms' [= <-]; by rewrite Est|]. intros g Eg. destruct cost as [g0|]; [|done]. destruct (Hm g0 eq_refl) as [Hg0 Hsz]. cbn in Eg.
  apply add_gas_Some in Eg as [-> _]; lia.
Qed.

Lemma safe_memory_gas ex n p h j r w rt ms :
  h || r = true → safe_gas (mkOperation ex memory_gas n p (Some ms) h j w r rt) (fun _ => 0).
Proof.
  intros Hh. gas_intro. gas_mem Hm. do 3 eexists. split; [done|]. split; [by eapply evolves_refl|]. split; [done|].
  split; [intros ms' [= <-]; by rewrite Est|]. intros g ->. destruct (Hm g eq_refl). rewrite Hh. split_and!; done || lia.
Qed.

Lemma safe_gas_copy ex price k wp n p h j r w rt ms :
  1 ≤ price < 2 ^ 64 → 0 ≤ wp < 2 ^ 64 → (k < n)%nat → safe_gas (mkOperation ex (gas_copy price k wp) n p (Some ms) h j w r rt) (fun _ => 0).
Proof.
  intros Hp Hwp Hk. gas_intro. unfold gas_copy, Back, Evm.bind, frame, lift, ret. gas_mem Hm.
  destruct (lookup_lt_is_Some_2 (stack f1) k) as [x Ex]; [rewrite Est; lia|]. rewrite Ex. cbn.
  do 3 eexists. split; [done|]. split; [by eapply evolves_refl|]. split; [done|]. split; [intros ms' [= <-]; by rewrite Est|].
  intros g Eg. destruct cost as [g0|]; [|done]. destruct (Hm g0 eq_refl) as [Hg0 Hsz]. cbn in Eg.
  apply bind_Some in Eg as (g1 & E1 & Eg). apply add_gas_Some in E1 as [-> H1]; [|lia..].
  apply bind_Some in Eg as (g2 & E2 & Eg). apply words_gas_Some in E2; [|done]. apply add_gas_Some in Eg as [-> _]; lia.
Qed.

Lemma safe_gasExp : safe_gas (plain (on_stack opExp) (gasExp c) 2 1) (fun _ => 0).
Proof.
  gas_intro. unfold gasExp, Back, Evm.bind, frame, lift, ret. destruct (lookup_lt_is_Some_2 (stack f) 1) as [x Ex]; [lia|]. cbn. rewrite Ex. cbn.
  rewrite Hnone by done. do 3 eexists. split; [done|]. split; [by eapply evolves_refl|]. split; [by apply charged_refl|]. split; [done|].
  intros g Eg. apply add_gas_Some in Eg as [-> _]; [|apply u64_range|done]. pose proof (u64_range ((BitLen x + 7) / 8 * gt_ExpByte (gasTable c))). unfold GasSlowStep. lia.
Qed.

Lemma safe_makeGasLog n : (n ≤ 4)%nat → safe_gas (logging n) (fun _ => 0).
Proof.
  intros Hn4. gas_intro. unfold logging in *. cbn [pops memorySize writes halts reverts gasCost] in *. unfold makeGasLog, Back, Evm.bind, frame, lift, ret.
  destruct (lookup_lt_is_Some_2 (stack f) 1) as [x Ex]; [lia|]. cbn. rewrite Ex. cbn. destruct (64 <? BitLen x).
  { do 3 eexists. split; [done|]. split; [by eapply evolves_refl|]. split; [by apply charged_refl|]. done. }
  gas_mem Hm. do 3 eexists. split; [done|]. split; [by eapply evolves_refl|]. split; [done|]. split; [intros ms' [= <-]; by rewrite Est|].
  intros g Eg. destruct cost as [g0|]; [|done]. destruct (Hm g0 eq_refl) as [Hg0 Hsz]. cbn in Eg.
  unfold LogGas, LogTopicGas, LogDataGas in *. apply bind_Some in Eg as (g1 & E1 & Eg). apply add_gas_Some in E1 as [-> H1]; [|lia..].
  apply bind_Some in Eg as (g2 & E2 & Eg). apply add_gas_Some in E2 as [-> H2]; [|lia..]. pose proof (u64_range x) as Hx. rewrite SafeMul_spec in Eg by (done || lia). case_decide; [|done].
  apply add_gas_Some in Eg as [-> _]; lia.
Qed.

Lemma charged_trans f1 f2 f3 : charged f1 f2 → charged f2 f3 → charged f1 f3.
Proof. intros [] []. split; congruence. Qed.

Lemma lookup_tail (l : list Z) i : tail l !! i = l !! Datatypes.S i.
Proof. by destruct l. Qed.
Lemma mem_at_tail i j st st' : tail st' = tail st → mem_at (Datatypes.S i) (Datatypes.S j) st' = mem_at (Datatypes.S i) (Datatypes.S j) st.
Proof. intros E. unfold mem_at. by rewrite <- !lookup_tail, E. Qed.

(** *** Calls *)

Lemma callGas_range gt avail base x g : callGas gt avail base x = Some g → 0 ≤ g < 2 ^ 64.
Proof.
  unfold callGas. pose proof (u64_range x). pose proof (u64_range (avail - base)) as Ha.
  pose proof (Z.div_pos (u64 (avail - base)) 64 ltac:(lia) ltac:(lia)). pose proof (Z.div_le_upper_bound (u64 (avail - base)) 64 (u64 (avail - base))).
  intros Eg. repeat case_match; simplify_eq; lia.
Qed.

Lemma call_gas_ok base f e :
  nonneg (stack f) → (0 < length (stack f))%nat → (∀ g, base = Some g → 0 ≤ g < 2 ^ 64) →
  ∃ cost f', call_gas c base f e = Ok (cost, f', e) ∧ charged f f'
    ∧ ∀ g, cost = Some g → ∃ b cg, base = Some b ∧ 0 ≤ cg ∧ stack f' = cg :: tail (stack f) ∧ g = b + cg.
Proof.
  intros Hst Hlen Hb. unfold call_gas, Back, Evm.bind, frame, lift, put_frame, ret. cbn. destruct (stack f) as [|x st] eqn:Es; [cbn in Hlen; lia|]. cbn.
  assert (charged f f) as Hid by (split; try done; by rewrite Es).
  destruct base as [b|]; cbn; [|by do 2 eexists]. specialize (Hb b eq_refl). destruct (callGas _ _ _ _) as [cg|] eqn:Ec; cbn; [|by do 2 eexists].
  apply callGas_range in Ec. do 2 eexists. split; [done|]. apply Forall_cons in Hst as [Hx Hst]. split.
  - split; cbn; rewrite ?Es; try done. apply Forall_cons. split; [lia|done].
  - intros g Eg. apply add_gas_Some in Eg as [-> _]; [|done..]. exists b, cg. split_and!; done || lia.
Qed.

Lemma table_Calls : 40 ≤ gt_Calls (gasTable c) ≤ 700.
Proof. unfold gasTable. repeat case_match; cbn; lia. Qed.

(** The end of the gas functions of calls: memory, a price, and the gas of the callee. *)
Lemma call_price_ok size f e (price : Z → option Z) low :
  framed f → (0 < length (stack f))%nat → 0 ≤ size → 0 ≤ low → (∀ m g, 0 ≤ m < 2 ^ 64 → price m = Some g → low ≤ g < 2 ^ 64) →
  ∃ cost f', (let? (m, f1, e1) := memory_gas size f e in call_gas c (m ← m; price m) f1 e1) = Ok (cost, f', e) ∧ charged f f'
    ∧ ∀ g, cost = Some g → ∃ cg, 0 ≤ cg ∧ stack f' = cg :: tail (stack f) ∧ low + cg ≤ g ∧ size ≤ 2 ^ 40.
Proof.
  intros Hf Hlen Hs Hlow Hp. destruct (memory_gas_ok size f e) as (cost & f1 & -> & Hch & Est & Hm); [done|done|]. cbn [rbind].
  destruct (call_gas_ok (m ← cost; price m) f1 e) as (cost' & f' & -> & Hch' & Hc); [apply Hch|by rewrite Est| |].
  { intros g (m & -> & Eg)%bind_Some. destruct (Hm m eq_refl). specialize (Hp m g ltac:(done) Eg). lia. }
  do 2 eexists. split; [done|]. split; [by eapply charged_trans|]. intros g Eg. destruct (Hc g Eg) as (b & cg & (m & -> & Eb)%bind_Some & Hcg & Est' & ->).
  destruct (Hm m eq_refl). exists cg. split_and!; [done|by rewrite Est', Est| |done]. specialize (Hp m b ltac:(done) Eb). lia.
Qed.

Lemma framed_item f i : framed f → (i < length (stack f))%nat → ∃ x, stack f !! i = Some x ∧ 0 ≤ x.
Proof. intros [] Hi. destruct (lookup_lt_is_Some_2 _ _ Hi) as [x Ex]. exists x. split; [done|]. by eapply (Forall_lookup_1 _ _ _ _ fr_stack0). Qed.

Ltac call_mem := let E := fresh in intros ? [= <-]; match goal with Hch : charged ?f ?f' |- _ => pose proof (ch_tail _ _ Hch) as E end;
  unfold memoryCall, memoryDelegateCall, memoryStaticCall, mem_max; by rewrite !(mem_at_tail _ _ _ _ E).

Lemma safe_gasCall : safe_gas (calling (opCall c) (gasCall c) 7 memoryCall false) call_credit.
Proof.
  gas_intro. destruct (framed_item f 2 Hf) as (v & Ev & Hv); [lia|]. destruct (framed_item f 1 Hf) as (a & Ea & Ha); [lia|].
  unfold gasCall, Back, read, dualState, Evm.bind, frame, machine, lift, ret. cbn. rewrite Ev. cbn. rewrite Ea. cbn.
  set (newAccount := if IsEIP158 c then _ else _). set (gas := gt_Calls (gasTable c) + _ + _).
  assert (stipend v + 40 ≤ gas < 2 ^ 60) as Hgas.
  { pose proof table_Calls. unfold gas, stipend, CallStipend, CallValueTransferGas, CallNewAccountGas. destruct (v =? 0), newAccount; cbn; lia. }
  assert (0 ≤ stipend v) by (unfold stipend, CallStipend; case_match; lia).
  destruct (call_price_ok size f e (fun m => add_gas gas m) (stipend v + 40)) as (cost & f' & -> & Hch & Hcost); [done|lia|done|lia|intros m g Hm Eg; apply add_gas_Some in Eg; lia|].
  do 3 eexists. split; [done|]. split; [by eapply evolves_refl|]. split; [done|]. split; [call_mem|].
  intros g Eg. destruct (Hcost g Eg) as (cg & Hcg & Est & Hg & Hsz). rewrite Est.
  assert (call_credit (cg :: tail (stack f)) = cg + stipend v) as ->.
  { destruct (stack f) as [|? [|? [|? ?]]]; try done. cbn in *. by simplify_eq. }
  split_and!; lia.
Qed.

Lemma safe_gasCallCode : safe_gas (calling (opCallCode c) (gasCallCode c) 7 memoryCall false) call_credit.
Proof.
  gas_intro. destruct (framed_item f 2 Hf) as (v & Ev & Hv); [lia|].
  unfold gasCallCode, Back, Evm.bind, frame, lift, ret. cbn. rewrite Ev. cbn. set (gas := gt_Calls (gasTable c) + _).
  assert (stipend v + 40 ≤ gas < 2 ^ 60) as Hgas.
  { pose proof table_Calls. unfold gas, stipend, CallStipend, CallValueTransferGas. destruct (v =? 0); cbn; lia. }
  assert (0 ≤ stipend v) by (unfold stipend, CallStipend; case_match; lia).
  destruct (call_price_ok size f e (fun m => add_gas gas m) (stipend v + 40)) as (cost & f' & -> & Hch & Hcost); [done|lia|done|lia|intros m g Hm Eg; apply add_gas_Some in Eg; lia|].
  do 3 eexists. split; [done|]. split; [by eapply evolves_refl|]. split; [done|]. split; [call_mem|].
  intros g Eg. destruct (Hcost g Eg) as (cg & Hcg & Est & Hg & Hsz). rewrite Est.
  assert (call_credit (cg :: tail (stack f)) = cg + stipend v) as ->.
  { destruct (stack f) as [|? [|? [|? ?]]]; try done. cbn in *. by simplify_eq. }
  split_and!; lia.
Qed.

Lemma safe_plain_call gc ex n ms :
  (0 < n)%nat → (∀ size, gc size = Evm.bind (memory_gas size) (fun m => call_gas c (m ← m; add_gas m (gt_Calls (gasTable c))))) →
  (∀ st st', tail st' = tail st → ms st' = ms st) → safe_gas (calling ex gc n ms false) plain_credit.
Proof.
  intros Hpos Egc Hms. gas_intro. rewrite Egc. pose proof table_Calls. unfold Evm.bind.
  destruct (call_price_ok size f e (fun m => add_gas m (gt_Calls (gasTable c))) 40) as (cost & f' & -> & Hch & Hcost); [done|lia|done|lia|intros m g Hm Eg; apply add_gas_Some in Eg; lia|].
  do 3 eexists. split; [done|]. split; [by eapply evolves_refl|]. split; [done|]. split; [intros ? [= <-]; apply Hms, Hch|].
  intros g Eg. destruct (Hcost g Eg) as (cg & Hcg & Est & Hg & Hsz). rewrite Est. cbn. split_and!; lia.
Qed.

(** *** Writes *)

Lemma fixed_price f e e' g (h r : bool) :
  framed f → evolves c e e' → 0 ≤ g → (h || r = false → 1 ≤ g) →
  ∃ cost f' e'', Ok (E:=unit) (Some g, f, e') = Ok (cost, f', e'') ∧ evolves c e e'' ∧ charged f f'
    ∧ (∀ ms : memSizeFunc, None = Some ms → ms (stack f') = ms (stack f))
    ∧ ∀ g0, cost = Some g0 → 0 ≤ g0 ∧ 0 ≤ 2 ^ 40 ∧ 0 ≤ 0 ∧ (h || r = false → 0 + 1 ≤ g0) ∧ 0 ≤ g0.
Proof.
  intros Hf Hev Hg Hg1. do 3 eexists. split; [done|]. split; [done|]. split; [by apply charged_refl|]. split; [done|]. intros g0 [= <-]. split_and!; done || lia.
Qed.

Lemma safe_gasSStore ex n p h j r rt : (2 ≤ n)%nat → safe_gas (mkOperation ex gasSStore n p None h j true r rt) (fun _ => 0).
Proof.
  intros Hn2. gas_intro. rewrite Hnone by done. destruct (framed_item f 1 Hf) as (y & Ey & Hy); [lia|]. destruct (framed_item f 0 Hf) as (x & Ex & Hx); [lia|].
  unfold gasSStore, Back, read, write, dualState, Evm.bind, frame, machine, put_machine, lift, ret. cbn. rewrite Ey. cbn. rewrite Ex. cbn.
  set (r0 := getDualState _ e). destruct (GetState_ok (self (contract f)) (BigToHash x) (db r0 e)) as [v ->]; [by eapply good_db|]. cbn.
  destruct (_ && _); cbn; [apply fixed_price; [done|by eapply evolves_refl|done|done]|].
  destruct (_ && _); cbn; apply fixed_price; try done; [|by eapply evolves_refl]. eapply evolves_write; [done|done|apply grow_AddRefund; [by eapply good_db|done]|]. apply same_no_more, Balance_AddRefund. by eapply good_db.
Qed.

Lemma safe_gasSuicide ex n p j r rt : (1 ≤ n)%nat → safe_gas (mkOperation ex (gasSuicide c) n p None true j true r rt) (fun _ => 0).
Proof.
  intros Hn2. gas_intro. rewrite Hnone by done. destruct (framed_item f 0 Hf) as (x & Ex & Hx); [lia|]. unfold gasSuicide. rewrite (us_EIP150 _ Husable). cbn [negb].
  unfold Back, read, write, dualState, Evm.bind, frame, machine, put_machine, lift, ret. cbn. rewrite Ex. cbn.
  set (r0 := getDualState _ e). set (g := gt_Suicide _ + _).
  assert (0 ≤ g) as Hg by (unfold g, gasTable; rewrite (us_EIP150 _ Husable); destruct (IsEIP158 c); cbn; repeat case_match; cbn; lia).
  destruct (HasSuicided _ _); cbn; apply (fixed_price _ _ _ _ true r); try done; [by eapply evolves_refl|].
  eapply evolves_write; [done|done|apply grow_AddRefund; [by eapply good_db|done]|]. apply same_no_more, Balance_AddRefund. by eapply good_db.
Qed.

(** ** The instruction sets *)

(** The size of memory an instruction asks for is defined when its arguments are there. *)
Definition safe_size (n : nat) (ms : option memSizeFunc) : Prop :=
  ∀ g st, ms = Some g → (n ≤ length st)%nat → nonneg st → ∃ m, g st = Some m ∧ 0 ≤ m.

Lemma nonneg_item st i : nonneg st → (i < length st)%nat → ∃ x, st !! i = Some x ∧ 0 ≤ x.
Proof. intros Hst Hi. destruct (lookup_lt_is_Some_2 _ _ Hi) as [x Ex]. exists x. split; [done|]. by eapply (Forall_lookup_1 _ _ _ _ Hst). Qed.
Lemma safe_size_None n : safe_size n None.
Proof. done. Qed.
Lemma calcMemSize_nonneg x y : 0 ≤ x → 0 ≤ y → 0 ≤ calcMemSize x y.
Proof. intros. unfold calcMemSize. case_match; lia. Qed.
Lemma safe_size_at n i j : (i < n)%nat → (j < n)%nat → safe_size n (Some (mem_at i j)).
Proof.
  intros Hi Hj g st [= <-] Hn Hst. unfold mem_at. destruct (nonneg_item st i Hst) as (x & -> & Hx); [lia|]. destruct (nonneg_item st j Hst) as (y & -> & Hy); [lia|].
  eexists. split; [done|]. by apply calcMemSize_nonneg.
Qed.
Lemma safe_size_const n k : (0 < n)%nat → 0 ≤ k → safe_size n (Some (mem_const k)).
Proof.
  intros Hn0 Hk g st [= <-] Hn Hst. unfold mem_const. destruct (nonneg_item st 0 Hst) as (x & -> & Hx); [lia|]. eexists. split; [done|]. by apply calcMemSize_nonneg.
Qed.
Lemma safe_size_max n g1 g2 : safe_size n (Some g1) → safe_size n (Some g2) → safe_size n (Some (mem_max g1 g2)).
Proof.
  intros H1 H2 g st [= <-] Hn Hst. unfold mem_max. destruct (H1 g1 st eq_refl Hn Hst) as (x & -> & Hx). destruct (H2 g2 st eq_refl Hn Hst) as (y & -> & Hy).
  eexists. split; [done|]. unfold BigMax. by case_match.
Qed.
Ltac safe_sizes := cbn [snd fst pops memorySize calling]; first [apply safe_size_None|apply safe_size_at; lia|apply safe_size_const; lia|apply safe_size_max; apply safe_size_at; lia].

Definition safe_entry (x : Z * operation) : Prop :=
  safe_size (pops (snd x)) (memorySize (snd x)) ∧ ∃ credit, safe_exec c (fst x) (snd x) credit ∧ safe_gas (snd x) credit.

Lemma safe_entry_op op m gc n p ms h j w r rt :
  safe_op c w n p ms m → safe_gas (mkOperation (fun _ => m) gc n p ms h j w r rt) (fun _ => 0) → safe_size n ms →
  safe_entry (op, mkOperation (fun _ => m) gc n p ms h j w r rt).
Proof. intros Ho Hg Hs. split; [done|]. exists (fun _ => 0). split; [by apply safe_exec_op|done]. Qed.

Ltac prices := unfold GasQuickStep, GasFastestStep, GasFastStep, GasMidStep, GasSlowStep, GasExtStep, JumpdestGas, gasTable; try done; try lia; try (repeat case_match; cbn; lia).
Create HintDb evm.
#[local] Hint Resolve safe_on_stack safe_opSdiv safe_opSmod safe_opSignExtend safe_opBlockhash safe_opBalance
  safe_opExtCodeSize safe_opSload safe_opJump safe_opJumpi safe_opMload safe_opMstore safe_opMstore8 safe_opCallDataCopy
  safe_opCodeCopy safe_opExtCodeCopy safe_opReturnDataCopy safe_opReturn safe_opRevert safe_opSha3 safe_opSstore
  safe_opSuicide safe_makeLog safe_makePush safe_makeSwap safe_opGasprice : evm.
#[local] Hint Resolve safe_makeGasLog safe_gasExp safe_gasSStore safe_gasSuicide safe_memory_gas : evm.
Ltac safe_price :=
  first [apply safe_constGas; prices|apply safe_gas_memory; prices|apply safe_gas_copy; prices|apply safe_memory_gas; done|auto with evm].
Ltac safe_one := apply safe_entry_op; [auto with evm|safe_price|safe_sizes].

Lemma safe_frontier : Forall safe_entry (frontierInstructionSet c).
Proof.
  destruct safe_words as (W1 & W2 & W3 & W4 & W5 & W6 & W7 & W8 & W9 & W10 & W11 & W12 & W13 & W14 & W15 & W16 & W17 & W18 & W19).
  destruct (safe_reads c) as (R1 & R2 & R3 & R4 & R5 & R6 & R7 & R8 & R9 & R10 & R11 & R12 & R13 & R14 & R15 & R16 & R17 & R18 & R19).
  unfold frontierInstructionSet, arithmetic_table, environment_table, storage_table, system_table. rewrite !Forall_app. split_and!.
  - repeat (apply Forall_cons; split); [safe_one..|by apply Forall_nil].
  - repeat (apply Forall_cons; split); [safe_one..|by apply Forall_nil].
  - repeat (apply Forall_cons; split); [safe_one..|by apply Forall_nil].
  - apply Forall_fmap, Forall_forall. intros n _. safe_one.
  - apply Forall_fmap, Forall_forall. intros n Hn%elem_of_seq. apply safe_entry_op; [apply safe_makeDup; lia|safe_price|safe_sizes].
  - apply Forall_fmap, Forall_forall. intros n _. safe_one.
  - apply Forall_fmap, Forall_forall. intros n Hn%elem_of_seq. apply safe_entry_op; [auto with evm|apply safe_makeGasLog; lia|safe_sizes].
  - repeat (apply Forall_cons; split); [..|by apply Forall_nil]; [| | |safe_one|safe_one].
    + split; [safe_sizes|]. exists (fun _ => 0). split; [by apply safe_opCreate|by apply safe_gas_memory].
    + split; [safe_sizes|]. exists call_credit. split; [by apply safe_opCall|by apply safe_gasCall].
    + split; [safe_sizes|]. exists call_credit. split; [by apply safe_opCallCode|by apply safe_gasCallCode].
Qed.

Lemma safe_table : Forall safe_entry (JumpTable c).
Proof.
  pose proof safe_frontier as Hf. assert (Forall safe_entry (homesteadInstructionSet c)) as Hh.
  { apply Forall_cons. split; [|done]. split; [safe_sizes|]. exists plain_credit. split; [by apply safe_opDelegateCall|]. apply safe_plain_call; [lia|done|].
    intros st st' E. unfold memoryDelegateCall, mem_max. by rewrite !(mem_at_tail _ _ _ _ E). }
  destruct (safe_reads c) as (R1 & R2 & R3 & R4 & R5 & R6 & R7 & R8 & R9 & R10 & R11 & R12 & R13 & R14 & R15 & R16 & R17 & R18 & R19).
  unfold JumpTable. destruct (IsByzantium c); [|by destruct (IsHomestead c)].
  apply Forall_cons. split.
  - split; [safe_sizes|]. exists plain_credit. split; [by apply safe_opStaticCall|]. apply safe_plain_call; [lia|done|].
    intros st st' E. unfold memoryStaticCall, mem_max. by rewrite !(mem_at_tail _ _ _ _ E).
  - do 3 (apply Forall_cons; split; [safe_one|]). done.
Qed.

(** ** A turn of the loop *)

(** A turn ends the run, or leaves a frame with less gas. *)
Definition safe_turn f e (r : result unit turn) : Prop :=
  ∃ ended f' e', r = Ok (ended, f', e') ∧ evolves c e e' ∧ 0 ≤ Gas (contract f') ≤ Gas (contract f)
    ∧ (ended = None → framed f' ∧ Gas (contract f') < Gas (contract f)).

Lemma safe_stop f e f' e' err : 0 ≤ Gas (contract f') ≤ Gas (contract f) → evolves c e e' → safe_turn f e (stop err f' e').
Proof. intros Hg Hev. by do 3 eexists. Qed.

(** The entry of CALL reads the value at the third place of the stack. *)
Definition call_entry (x : Z * operation (S:=S)) : Prop := fst x = CALL → pops (snd x) = 7%nat.
Ltac other_entry := unfold compose, call_entry, CALL; cbn [fst snd]; intros Hx; first [reflexivity|discriminate Hx|lia].

Lemma call_entries : Forall call_entry (JumpTable c).
Proof.
  assert (Forall call_entry (frontierInstructionSet c)) as Hf.
  { unfold frontierInstructionSet, arithmetic_table, environment_table, storage_table, system_table.
    rewrite !Forall_app. split_and!; try (apply Forall_fmap, Forall_forall; intros n Hn%elem_of_seq; other_entry);
      repeat (apply Forall_cons; split; [other_entry|]); by apply Forall_nil. }
  assert (Forall call_entry (homesteadInstructionSet c)) as Hh by (apply Forall_cons; split; [other_entry|done]).
  unfold JumpTable. destruct (IsByzantium c); [|by destruct (IsHomestead c)]. do 4 (apply Forall_cons; split; [other_entry|]). done.
Qed.

Lemma operation_at_In op o : operation_at c op = Some o → (op, o) ∈ JumpTable c.
Proof.
  unfold operation_at. intros ([op' o'] & E & Eo)%fmap_Some. cbn in Eo. subst o'. apply find_some in E as [Hin Heq]. cbn in Heq. apply Z.eqb_eq in Heq as ->.
  by apply list_elem_of_In.
Qed.

Lemma restrictions_ok op o f e :
  (op = CALL → pops o = 7%nat) → (pops o ≤ length (stack f))%nat → nonneg (stack f) →
  ∃ r, enforceRestrictions c op o f e = Ok r
    ∧ (r = None → allowed c (writes o) e ∧ (op = CALL → IsByzantium c = true → readOnly e = true → stack f !! 2%nat = Some 0)).
Proof.
  intros Hcall Hn Hst. unfold enforceRestrictions, allowed. destruct (IsByzantium c && readOnly e) eqn:E.
  2: { exists None. split; [done|]. intros _. split; [|intros _]; intros HB HR; by rewrite HB, HR in E. }
  destruct (writes o); [by eexists|]. destruct (Z.eqb_spec op CALL) as [->|].
  - destruct (nonneg_item (stack f) 2 Hst) as (v & Ev & Hv); [rewrite Hcall in Hn by done; lia|]. rewrite Ev. eexists. split; [done|].
    destruct (Z.ltb_spec 0 (BitLen v)) as [|Hb]; [done|]. intros _. split; [done|]. intros _ _ _. f_equal.
    apply BitLen_small in Hb; [|done..]. change (2 ^ 0) with 1 in Hb. lia.
  - exists None. done.
Qed.

(** The size memory is expanded to covers what the instruction asks for. *)
Lemma expansion_ok n (o : operation (S:=S)) st :
  safe_size n (memorySize o) → (n ≤ length st)%nat → nonneg st →
  ∃ r, expansion o st = Ok r ∧ ∀ size, r = Some size →
    0 ≤ size ∧ (memorySize o = None → size = 0) ∧ (∃ w, size = 32 * w)
    ∧ ∀ ms, memorySize o = Some ms → ∃ m, ms st = Some m ∧ m ≤ size.
Proof.
  intros Hs Hn Hst. unfold expansion. destruct (memorySize o) as [ms|] eqn:Em.
  2: { eexists. split; [done|]. intros size [= <-]. split_and!; [done|done|by exists 0|done]. }
  destruct (Hs ms st eq_refl Hn Hst) as (m & Ems & Hm). rewrite Ems. unfold bigUint64. destruct (Z.ltb_spec 64 (BitLen m)) as [|Hb]; [by eexists|].
  apply BitLen_small in Hb; [|done..]. rewrite u64_small by done. pose proof (toWordSize_spec m ltac:(done)) as (Hw & Hle & _).
  rewrite SafeMul_spec by lia. case_decide; [|by eexists]. eexists. split; [done|]. intros size [= <-].
  split_and!; [lia|done|by exists (toWordSize m); lia|]. intros ms' [= <-]. exists m. split; [done|lia].
Qed.

(** Executing an instruction that was paid for. *)
Lemma perform_ok B run op o credit f0 f e cost :
  safe_runner c B run → safe_exec c op o credit → framed f → sane 0 e → (pops o ≤ length (stack f))%nat →
  zlen (stack f) + Z.of_nat (pushes o) - Z.of_nat (pops o) ≤ StackLimit → covered (memorySize o) f → allowed c (writes o) e →
  (op = CALL → IsByzantium c = true → readOnly e = true → stack f !! 2%nat = Some 0) →
  0 ≤ credit (stack f) → credit (stack f) ≤ cost → (halts o || reverts o = false → credit (stack f) + 1 ≤ cost) →
  Gas (contract f0) = Gas (contract f) + cost → Gas (contract f0) < 2 ^ 64 → Gas (contract f0) ≤ B →
  safe_turn f0 e (perform_op run o f e).
Proof.
  intros Hrun Hex Hf He Hn Hlim Hcov Hw Hcall Hcr Hcost Hcost1 Eg H64 HB. unfold perform_op. pose proof (fr_Gas _ Hf).
  destruct (Hex B run f e) as (res & f' & e' & g & -> & Hev & Ek & Hg & Hm & Hst & Hl & Hpc); try done; [intros Hh; specialize (Hcost1 Hh); lia|lia|]. cbn [rbind].
  set (e2 := if returns o then set_returnData (fst res) e' else e'). destruct res as [res err]. cbn [fst] in e2.
  assert (evolves c e e2) as Hev2. { unfold e2. destruct (returns o); [|done]. eapply evolves_trans; [done|]. eapply evolves_returnData. by eapply evolves_sane. }
  assert (Gas (contract f') = g) as Eg' by by rewrite Ek. destruct err as [er|]; [apply safe_stop; [rewrite Eg'; lia|done]|].
  assert (∀ b, safe_turn f0 e (Ok (Some b, f', e2))) as Hend by (intros b; do 3 eexists; split; [done|]; split; [done|]; split; [rewrite Eg'; lia|done]).
  destruct (reverts o) eqn:Er; [apply Hend|]. destruct (halts o) eqn:Eh; [apply Hend|]. specialize (Hcost1 eq_refl).
  assert (∀ p, 0 ≤ p < 2 ^ 64 → safe_turn f0 e (Ok (None, set_pc p f', e2))) as Hgo.
  { intros p Hp. do 3 eexists. split; [done|]. split; [done|]. cbn. rewrite Eg'. split; [lia|]. intros _. split; [|lia].
    destruct Hf as [_ _ Hv _ _ Hmem]. split; cbn; [done|rewrite Eg'; lia|by rewrite Ek|done|lia|by rewrite Hm]. }
  destruct (jumps o); [|apply Hgo, u64_range]. pose proof (Hgo (pc f') Hpc) as Hx. by destruct f'.
Qed.

Lemma tail_lookup (st st' : list Z) i : tail st' = tail st → st' !! Datatypes.S i = st !! Datatypes.S i.
Proof. intros E. rewrite <-!lookup_tail. by rewrite E. Qed.

(** The frame an instruction executes in, after it was paid for and the memory expanded. *)
Definition prepared cost size f : Frame :=
  let f := set_contract (set_Gas (Gas (contract f) - cost) (contract f)) f in
  if 0 <? size then set_memory (Resize size (memory f)) f else f.

Lemma prepared_ok cost size f f' w :
  framed f → charged f f' → 0 ≤ cost ≤ Gas (contract f') → 0 ≤ size ≤ 2 ^ 40 → size = 32 * w →
  let p := prepared cost size f' in
  framed p ∧ stack p = stack f' ∧ size ≤ mem_Len (memory p) ∧ Gas (contract p) + cost = Gas (contract f).
Proof.
  intros Hf [Hpc Hk Hs Ht Hl Hn] Hcost Hsize Ew p. destruct Hf as [Hfpc Hg Hv _ Hlim (v & Hv35 & Hlen)].
  assert (∃ v', 0 ≤ v' ≤ 2 ^ 35 ∧ mem_Len (memory p) = 32 * v' ∧ size ≤ 32 * v') as (v' & Hv' & Hlen' & Hsv).
  { assert (mem_Len (memory f') = 32 * v) as Hlen2 by (unfold mem_Len in *; congruence). unfold p, prepared. destruct (Z.ltb_spec 0 size); cbn.
    - rewrite Resize_len, Hlen2. exists (Z.max v w). lia.
    - exists v. lia. }
  assert (contract p = set_Gas (Gas (contract f') - cost) (contract f') ∧ stack p = stack f' ∧ pc p = pc f') as (Ek & Est & Epc) by (unfold p, prepared; by destruct (0 <? size)).
  assert (Gas (contract p) = Gas (contract f) - cost) as Eg by (rewrite Ek, Hk; done).
  split_and!; [|done|lia|lia].
  split; [by rewrite Epc, Hpc|rewrite Hk in Hcost; lia|by rewrite Ek, Hk|by rewrite Est|unfold zlen in *; rewrite Est, Hl; lia|by exists v'].
Qed.

Lemma step_ok B run f e : safe_runner c B run → framed f → sane 0 e → Gas (contract f) ≤ B → safe_turn f e (step c run f e).
Proof.
  intros Hrun Hf He HB. pose proof (fr_Gas _ Hf). pose proof (evolves_refl c _ _ He) as Hrefl. unfold step.
  destruct (_ && _); [apply safe_stop; [lia|done]|]. set (op := GetOp _ _). destruct (operation_at c op) as [o|] eqn:Eo; [|apply safe_stop; [lia|done]].
  apply operation_at_In in Eo. pose proof safe_table as Ht. rewrite Forall_forall in Ht. destruct (Ht _ Eo) as (Hsize & credit & Hex & Hgas). cbn [fst snd] in *. clear Ht.
  pose proof call_entries as Ht. rewrite Forall_forall in Ht. specialize (Ht _ Eo). unfold call_entry in Ht. cbn [fst snd] in Ht.
  unfold validateStack. destruct (Nat.ltb_spec (length (stack f)) (pops o)); [apply safe_stop; [lia|done]|].
  destruct (Z.ltb_spec StackLimit (zlen (stack f) + Z.of_nat (pushes o) - Z.of_nat (pops o))); [apply safe_stop; [lia|done]|].
  destruct (restrictions_ok op o f e) as (r & -> & Hr); [done|lia|by apply fr_stack|]. cbn [rbind]. destruct r as [er|]; [apply safe_stop; [lia|done]|].
  destruct (Hr eq_refl) as [Hw Hcall]. destruct (expansion_ok (pops o) o (stack f)) as (sz & -> & Hsz); [done|lia|by apply fr_stack|]. cbn [rbind].
  destruct sz as [size|]; [|apply safe_stop; [lia|done]]. destruct (Hsz _ eq_refl) as (Hsz0 & HszN & (w & Ew) & Hms).
  destruct (Hgas size f e) as (cost & f' & e' & -> & Hev & Hch & Hms' & Hcost); [done..|]. cbn [rbind].
  assert (0 ≤ Gas (contract f') ≤ Gas (contract f)) by (rewrite (ch_contract _ _ Hch); lia). destruct cost as [cost|]; [|by apply safe_stop].
  unfold UseGas. destruct (Z.ltb_spec (Gas (contract f')) cost); [by apply safe_stop|]. destruct (Hcost _ eq_refl) as (Hc0 & H40 & Hcr & Hcr1 & Hcrc).
  destruct (prepared_ok cost size f f' w) as (Hp & Est & Hlen & Eg); [done..|]. fold (prepared cost size f'). set (p := prepared cost size f') in *.
  assert (safe_turn f e' (perform_op run o p e')) as (en & f2 & e2 & -> & Hev2 & Hg2 & Hn).
  { eapply (perform_ok B run op o credit f p e' cost); rewrite ?Est; try done; try lia.
    - by eapply evolves_sane.
    - by rewrite (ch_length _ _ Hch).
    - unfold zlen in *. rewrite (ch_length _ _ Hch). lia.
    - unfold covered. destruct (memorySize o) as [ms|] eqn:Em; [|done]. destruct (Hms _ eq_refl) as (m & Ems & Hm). exists m. rewrite Est, Hms' by done. split; [done|lia].
    - intros HBy HR. apply Hw; [done|]. by rewrite <-(ev_readOnly _ _ _ Hev).
    - intros Hop HBy HR. rewrite (tail_lookup _ _ _ (ch_tail _ _ Hch)). apply Hcall; [done..|]. by rewrite <-(ev_readOnly _ _ _ Hev). }
  do 3 eexists. split; [done|]. split; [by eapply evolves_trans|done].
Qed.

(** ** Whole runs *)

(** A loop that returns for frames with less than [B] gas. *)
Definition safe_loop (B : Z) (l : Frame → EVM (S:=S) → result unit (bytes * option evmErr * Z * EVM)) : Prop :=
  ∀ f e, framed f → sane 0 e → Gas (contract f) < B →
  ∃ ret err gas e', l f e = Ok (ret, err, gas, e') ∧ 0 ≤ gas ≤ Gas (contract f) ∧ evolves c e e'.

Lemma fresh_frame k input : 0 ≤ Gas k < 2 ^ 64 → 0 ≤ value k → framed (mkFrame 0 (set_Input input k) NewMemory []).
Proof. intros Hg Hv. split; cbn; try done. by exists 0. Qed.

Lemma enter_evolves e e' d :
  evolves c (set_returnData d (set_depth (depth e + 1) e)) e' → evolves c e (set_depth (depth e' - 1) e').
Proof. intros []. cbn in *. split; cbn; try done. lia. Qed.

Lemma enter_ok B l : safe_loop B l → safe_runner c B (enter l).
Proof.
  intros Hl k input e Hg Hg64 Hv He Hd. set (e1 := set_returnData [] (set_depth (depth e + 1) e)).
  assert (sane 0 e1) as He1. { destruct He as [? ? ? [? ?] ? ?]. unfold e1. split; cbn; try done; lia. }
  pose proof (fresh_frame k input ltac:(lia) Hv) as Hf.
  assert (∃ ret err gas e', match Code k with [] => Ok ([], None, Gas k, e1) | _ => l (mkFrame 0 (set_Input input k) NewMemory []) e1 end = Ok (ret, err, gas, e')
    ∧ 0 ≤ gas ≤ Gas k ∧ evolves c e1 e') as (ret & err & gas & e' & E & Hgas & Hev).
  { destruct (Code k); [|apply (Hl _ _ Hf He1); cbn; lia]. do 4 eexists. split; [done|]. split; [lia|]. by eapply evolves_refl. }
  exists ret, err, gas, (set_depth (depth e' - 1) e'). unfold enter. fold e1. rewrite E. split; [done|]. split; [done|]. by eapply enter_evolves.
Qed.

Lemma dispatch_ok B run : safe_runner c B run → safe_runner c B (dispatch c run).
Proof.
  intros Hrun k input e Hg Hg64 Hv He Hd. unfold dispatch. destruct (CodeAddr k ≫= precompiles c) as [p|] eqn:Ep; [|by apply Hrun].
  apply bind_Some in Ep as (a & _ & Ep). destruct (us_precompiles _ Husable a p input Ep) as (Hreq & [ret err] & Er).
  unfold RunPrecompiledContract, UseGas. destruct (Z.ltb_spec (Gas k) (RequiredGas p input)); rewrite ?Er; cbn [rbind]; do 4 eexists; (split; [done|]); cbn;
    (split; [lia|]); by eapply evolves_refl.
Qed.

Lemma loop_ok fuel : safe_loop (Z.of_nat fuel) (loop c fuel).
Proof.
  induction fuel as [|fuel IH]; intros f e Hf He Hg; [pose proof (fr_Gas _ Hf); lia|]. cbn [loop].
  destruct (step_ok (Z.of_nat fuel) (dispatch c (enter (loop c fuel))) f e) as (ended & f' & e' & -> & Hev & Hg' & Hgo); [by apply dispatch_ok, enter_ok|done|done|lia|].
  cbn [rbind]. destruct ended as [[ret err]|]; [by do 4 eexists|]. destruct (Hgo eq_refl) as [Hf' Hlt].
  destruct (IH f' e') as (ret & err & gas & e2 & -> & Hgas & Hev2); [done|by eapply evolves_sane|lia|].
  do 4 eexists. split; [done|]. split; [lia|]. by eapply evolves_trans.
Qed.

Lemma runner_ok fuel : safe_runner c (Z.of_nat fuel) (run c fuel).
Proof. apply dispatch_ok, enter_ok, loop_ok. Qed.

(** ** The guarantees *)



(** So does the creation of a contract. *)
Theorem creations_return fuel caller code gas x e :
  sane 0 e → 0 ≤ gas < Z.of_nat fuel → gas < 2 ^ 64 → 0 ≤ x → (IsByzantium c = true → readOnly e = false) →
  ∃ ret a left err e', Create c (run c fuel) caller code gas x e = Ok (ret, a, left, err, e') ∧ 0 ≤ left ≤ gas
    ∧ sane 0 e' ∧ depth e' = depth e ∧ states e' = states e.
Proof.
  intros He Hg Hg64 Hx Hro. destruct (Create_ok c (Z.of_nat fuel) (run c fuel) (runner_ok fuel) e gas Hg Hg64 caller code x He Hx)
    as (ret & a & left & err & e' & E & Hl & Hev); [intros HB HR; by rewrite Hro in HR|].
  exists ret, a, left, err, e'. split_and!; [done|apply Hl..|by eapply evolves_sane| |]; apply Hev.
Qed.

(** C21: A call that fails leaves no trace: outside private transactions, when a call, a call
    of foreign code, a delegated call or a static call returns an error, every account, slot
    and refund reads as before. *)
Theorem failed_calls_leave_no_trace fuel k caller a input gas x e :
  sane 0 e → dual e = false → 0 ≤ gas < Z.of_nat fuel → gas < 2 ^ 64 → 0 ≤ x → 0 ≤ value k → (IsByzantium c = true → readOnly e = true → x = 0) →
  Forall (fun r => ∀ ret left er e', r = Ok (ret, left, Some er, e') → same_reads (publicState e') (publicState e))
    [Call c (run c fuel) caller a input gas x e; CallCode c (run c fuel) caller a input gas x e;
     DelegateCall c (run c fuel) k a input gas e; StaticCall c (run c fuel) caller a input gas e].
Proof.
  intros He Hd Hg Hg64 Hx Hv Hro. pose proof (runner_ok fuel) as Hrun.
  assert (∀ r, safe_call c e gas r → ∀ ret left er e', r = Ok (ret, left, Some er, e') → same_reads (publicState e') (publicState e)) as Hall.
  { intros r (ret & left & err & e' & -> & _ & _ & Hs) ret' left' er e2 [= -> -> -> ->]. by apply Hs. }
  repeat (apply Forall_cons; split); [..|by apply Forall_nil]; apply Hall;
    [by eapply Call_ok|by eapply CallCode_ok|by eapply DelegateCall_ok|by eapply StaticCall_ok].
Qed.

(** No execution creates money: after a call or the creation of a contract, whatever
    contracts ran and however they ended, the sum of the balances is at most what it was,
    in the public and in the private state. *)
Theorem executions_create_no_money fuel caller a input gas x e :
  sane 0 e → 0 ≤ gas < Z.of_nat fuel → gas < 2 ^ 64 → 0 ≤ x → readOnly e = false →
  ∃ r1 e1 r2 e2, Call c (run c fuel) caller a input gas x e = Ok (r1, e1) ∧ Create c (run c fuel) caller input gas x e = Ok (r2, e2)
    ∧ Forall (fun e' => no_more (publicState e) (publicState e') ∧ no_more (secondState e) (secondState e')) [e1; e2].
Proof.
  intros He Hg Hg64 Hx Hro. assert (IsByzantium c = true → readOnly e = true → x = 0) as Hq by (intros _ HR; congruence).
  destruct (Call_ok c (Z.of_nat fuel) (run c fuel) (runner_ok fuel) e gas Hg Hg64 caller a input x He Hx Hq) as (ret & rest & err & e1 & E1 & _ & Hev1 & _).
  destruct (Create_ok c (Z.of_nat fuel) (run c fuel) (runner_ok fuel) e gas Hg Hg64 caller input x He Hx) as (ret' & a' & rest' & err' & e2 & E2 & _ & Hev2); [intros _ HR; congruence|].
  exists (ret, rest, err), e1, (ret', a', rest', err'), e2. split_and!; [done|done|]. repeat (apply Forall_cons; split); [apply Hev1|apply Hev2|by apply Forall_nil].
Qed.

(** C22: From Byzantium on a static call writes nothing: whatever the code does and however
    the call ends, every balance, nonce, code and slot of both states, the accounts marked
    for deletion and the refund are as before. *)
Theorem static_calls_do_not_write fuel caller a input gas e ret left err e' :
  IsByzantium c = true → sane 0 e → 0 ≤ gas < Z.of_nat fuel → gas < 2 ^ 64 →
  StaticCall c (run c fuel) caller a input gas e = Ok (ret, left, err, e') →
  same_accounts (publicState e) (publicState e') ∧ same_accounts (secondState e) (secondState e').
Proof.
  intros HB He Hg Hg64 E. destruct (StaticCall_quiet c (Z.of_nat fuel) (run c fuel) (runner_ok fuel) e gas Hg Hg64 caller a input He) as [_ Hq].
  by apply (Hq HB (ret, left, err)).
Qed.

End thms.

(** ** The state database under the EVM *)

#[local] Existing Instance StateThms.map_tries.
#[local] Instance map_tries_laws : StateVm.TriesLaws (gmap bytes bytes) unit.
Proof. split. intros h. exists ∅. split; [done|]. intros k. done. Qed.

Definition sample_context : Context :=
  mkContext StateThms.sample_addr 1 StateThms.other_addr 4700000 1 1 1 (fun _ => emptyHash) true true true true false false false (fun _ => None) (fun _ => None).
Lemma sample_usable : usable sample_context.
Proof. by split. Qed.

(** A contract that adds 3 and 4 and returns the sum, and one that stores 1 in slot 0. *)
Definition adds : bytes := [x60; x03; x60; x04; x01; x60; x00; x52; x60; x20; x60; x00; xf3].
Definition stores : bytes := [x60; x01; x60; x00; x55].

Definition state_with (code : bytes) : State.StateDB (Tr:=gmap bytes bytes) := State.SetCode StateThms.other_addr code StateThms.sample_state.
Definition evm_with (code : bytes) : EVM := NewEVM (state_with code) (state_with code) false.

Lemma sample_good : good StateThms.sample_state.
Proof.
  destruct StateThms.sample_wf as [Hw Hr]. split_and!; [done|done| |split; [done|by split]]. intros a o Ho. rewrite StateThms.look_spec in Ho.
  assert (State.stateObjects StateThms.sample_state !! a = None) as E by done. rewrite E, StateThms.sample_load in Ho. case_decide; [|done]. injection Ho as <-. split; [done|]. intros k. by rewrite StateThms.slot_spec.
Qed.
Lemma evm_with_sane code : sane 0 (evm_with code).
Proof.
  assert (good (state_with code)) as Hg by exact (grows_good _ _ (grow_SetCode StateThms.other_addr code StateThms.sample_state sample_good)).
  split; try done; [by exists []|]. intros _. split; [by repeat constructor|done].
Qed.

Definition sample_frame (gas : Z) : Frame := mkFrame 0 (NewContract StateThms.sample_addr StateThms.other_addr 0 gas) NewMemory [].
Lemma sample_framed : framed (sample_frame 1000).
Proof. split; try done. by exists 0. Qed.



Lemma failed_calls_leave_no_trace_witness :
  let e := evm_with stores in let run := run sample_context 101 in
  Forall (fun r => ∀ ret left er e', r = Ok (ret, left, Some er, e') → same_reads (publicState e') (publicState e))
    [Call sample_context run StateThms.sample_addr StateThms.other_addr [] 100 0 e; CallCode sample_context run StateThms.sample_addr StateThms.other_addr [] 100 0 e;
     DelegateCall sample_context run (contract (sample_frame 100)) StateThms.other_addr [] 100 e; StaticCall sample_context run StateThms.sample_addr StateThms.other_addr [] 100 e].
Proof. apply (failed_calls_leave_no_trace sample_context sample_usable 101); [apply evm_with_sane|done|lia|lia|lia|done|done]. Defined.

Lemma sample_supply code : supply (state_with code) 0.
Proof.
  exists []. split_and!; [by apply NoDup_nil| |done]. intros a _. rewrite (Balance_SetCode StateThms.other_addr code StateThms.sample_state sample_good).
  cbn. rewrite StateVm.GetBalance_look, StateThms.look_spec.
  assert (State.stateObjects StateThms.sample_state !! a = None) as E by done. rewrite E, StateThms.sample_load. by case_decide.
Qed.

Lemma executions_create_no_money_witness :
  supply (state_with stores) 0 ∧
  ∃ r1 e1 r2 e2, Call sample_context (run sample_context 1001) StateThms.sample_addr StateThms.other_addr adds 1000 0 (evm_with stores) = Ok (r1, e1)
    ∧ Create sample_context (run sample_context 1001) StateThms.sample_addr adds 1000 0 (evm_with stores) = Ok (r2, e2)
    ∧ Forall (fun e' => no_more (state_with stores) (publicState e') ∧ no_more (state_with stores) (secondState e')) [e1; e2].
Proof. split; [apply sample_supply|]. apply (executions_create_no_money sample_context sample_usable 1001 _ _ adds 1000 0 (evm_with stores)); [apply evm_with_sane|lia|lia|lia|done]. Defined.

Lemma static_calls_do_not_write_witness :
  ∃ r e', StaticCall sample_context (run sample_context 1001) StateThms.sample_addr StateThms.other_addr [] 1000 (evm_with stores) = Ok (r, e')
    ∧ same_accounts (state_with stores) (publicState e') ∧ same_accounts (state_with stores) (secondState e').
Proof.
  destruct (StaticCall_ok sample_context 1001 (run sample_context 1001) (runner_ok sample_context sample_usable 1001) (evm_with stores) 1000 ltac:(lia) ltac:(lia)
    StateThms.sample_addr StateThms.other_addr [] (evm_with_sane stores)) as (ret & left & err & e' & E & _).
  exists (ret, left, err), e'. split; [exact E|].
  apply (static_calls_do_not_write sample_context sample_usable 1001 StateThms.sample_addr StateThms.other_addr [] 1000 (evm_with stores) ret left err e');
    [done|apply evm_with_sane|lia|lia|exact E].
Defined.

(** ** Private transactions *)

Definition addr_of (b : byte) : bytes := replicate 20 b.

(** A state with the accounts and their code. *)
Definition object (a code : bytes) : State.stateObject (Tr:=gmap bytes bytes) :=
  State.mkObj a State.zeroAccount false None code ∅ ∅ false false false false false.
Definition states_of (l : list (bytes * bytes)) : State.StateDB (Tr:=gmap bytes bytes) :=
  State.mkState ∅ (list_to_map (map (fun ac => (fst ac, object (fst ac) (snd ac))) l)) ∅ false 0 emptyHash emptyHash 0 ∅ 0 ∅ [] [] 0.

(** CALL of an address, with 65535 gas. *)
Definition calls (a : bytes) : bytes := [x60; x00; x60; x00; x60; x00; x60; x00; x60; x00; x73] ++ a ++ [x61; xff; xff; xf1].

(** A public contract that calls another one and then stores 1 in its slot 0, and a private
    contract that calls it. *)
Definition pub := states_of [(addr_of x0b, calls (addr_of x0c) ++ [x60; x01; x60; x00; x55; x00]); (addr_of x0c, [])].
Definition priv := states_of [(addr_of x0a, calls (addr_of x0b))].

End EvmThms.
