(* ===== verification/StateFinal.v ===== *)
(** Writing the state back to the trie ([StateFinal]): Finalise of src/core/state/statedb.go
    after the changes of a transaction.

    The tries are maps ([TriesMap]); an account whose balance has at most 256 bits can be
    encoded and read back. *)

From S2P Require Import Prelude RlpEncode RlpRaw RlpDecode RlpRoundtrip RlpTotal KeccakF Sha3 CoreTypes.
From S2P Require Import Prque TrieEncoding TrieNode Trie TrieThms TrieHash TrieMap CoreBlock StateDB StateThms StateTidy.
From S2P Require Import EvmWord EvmCode Evm EvmSupply EvmSafe StateVm EvmThms.

Module StateFinal.
Import Rlp Raw Dec Roundtrip Codec Types State StateThms StateTidy StateVm.

#[local] Opaque hash256 decode Split be_bytes.

(** What is written is read, under its key only. *)
Class TriesMap (Tr W : Type) `{Tries Tr W} := {
  TryUpdate_get t k v : v ≠ [] → ∃ t', TryUpdate t k v = Some t' ∧ ∀ k', TryGet t' k' = if decide (k' = k) then Some v else TryGet t k';
  TryDelete_get t k : ∃ t', TryDelete t k = Some t' ∧ ∀ k', TryGet t' k' = if decide (k' = k) then Some [] else TryGet t k';
  trie_Hash_length t : length (trie_Hash t) = HashLength }.

(** ** Encodings *)

Lemma enc_str_bounds b : zlen b < 2 ^ 32 → 1 ≤ zlen (enc_str b) ≤ zlen b + 9.
Proof.
  intros Hb. pose proof (rlp_items_strings (fun x => Some (enc_str x)) (fun x => x) (zlen b) [b]) as H. destruct H as (bs & E & Hl); [done|lia|by constructor|].
  cbn in E. injection E as <-. rewrite app_nil_r in Hl. cbn [length] in Hl. split; [|lia].
  unfold enc_str. destruct b as [|x [|y b]]; cbn [length]; [done| |]; repeat case_match; rewrite ?length_app; cbn [length]; lia.
Qed.

Lemma encode_slot b : zlen b < 2 ^ 32 → ∃ v, EncodeToBytes TBytes (VBytes b) = Ok v ∧ v ≠ [] ∧ ∃ k r, Split v = Ok (k, b, r).
Proof.
  intros Hb. pose proof (enc_str_bounds b Hb). exists (enc_str b). destruct (decode_encode TBytes (VBytes b) (enc_str b)) as [-> _]; [done..|lia|].
  split_and!; [done|intros E; rewrite E in *; cbn in *; lia|]. destruct (enc_str_encodeAs b) as (k & _ & Hk & E). exists k, []. rewrite E in *.
  rewrite <- (app_nil_r (encodeAs k b)). apply Split_encodeAs; [done|]. rewrite app_nil_r. lia.
Qed.

(** Accounts as they are stored. *)
Lemma account_encodable a :
  in_range a → acc_Balance a < 2 ^ 256 → length (acc_Root a) = HashLength → length (acc_CodeHash a) = HashLength →
  ∃ bs, encode a = Ok bs ∧ bs ≠ [] ∧ decode bs = Ok a.
Proof.
  intros [Hb Hn] Hb256 Hr Hc. assert (length (be_bytes (acc_Balance a)) ≤ 32)%nat as H1 by (apply be_bytes_le_pow; lia).
  assert (length (be_bytes (acc_Nonce a)) ≤ 8)%nat as H2 by (apply be_bytes_le_pow; lia). unfold HashLength in *.
  pose proof (enc_str_bounds (be_bytes (acc_Nonce a)) ltac:(lia)). pose proof (enc_str_bounds (be_bytes (acc_Balance a)) ltac:(lia)).
  pose proof (enc_str_bounds (acc_Root a) ltac:(lia)). pose proof (enc_str_bounds (acc_CodeHash a) ltac:(lia)).
  set (body := enc_str (be_bytes (acc_Nonce a)) ++ enc_str (be_bytes (acc_Balance a)) ++ enc_str (acc_Root a) ++ enc_str (acc_CodeHash a) ++ []).
  assert (zlen body < 2 ^ 32) as Hbody by (unfold body; rewrite !length_app; cbn [length]; lia). pose proof (enc_list_length body ltac:(lia)).
  assert (rlp account_typ (account_val a) = Some (enc_list body)) as Erlp.
  { unfold account_typ, account_val. cbn [rlp]. destruct (Z.ltb_spec (acc_Balance a) 0); [lia|]. done. }
  assert (encodable a) as Henc.
  { split_and!; [| |exists (enc_list body); split; [done|lia]]; cbn; split_and!; try done; try (by right; right; right); try lia. intros E. by rewrite E in Hr. }
  destruct (encode_decode a Henc) as (bs & E & Ed). exists bs. split_and!; [done| |done].
  destruct (decode_encode account_typ (account_val a) (enc_list body)) as [E' _]; [apply Henc|apply Henc|done|lia|]. unfold encode in E.
  change (@ctyp Account account_codec) with account_typ in E. change (@to_val Account account_codec a) with (account_val a) in E. rewrite E' in E. injection E as <-.
  intros E. rewrite E in *. cbn in *. lia.
Qed.

Section final.
Context {Tr W : Type} `{Tries Tr W} `{!TriesMap Tr W}.
Implicit Types (s : StateDB (Tr:=Tr)) (o : stateObject (Tr:=Tr)).

(** ** Storage *)

Lemma length_trim_zeros b : (length (trim_zeros b) ≤ length b)%nat.
Proof. induction b as [|x b IH]; [done|]. cbn. case_match; cbn [length] in *; lia. Qed.

Lemma trim_zeros_spec b : b = replicate (length b - length (trim_zeros b)) x00 ++ trim_zeros b.
Proof.
  induction b as [|x b IH]; [done|]. pose proof (length_trim_zeros b). cbn [trim_zeros length]. case_match; try (by rewrite Nat.sub_diag).
  replace (S (length b) - length (trim_zeros b))%nat with (S (length b - length (trim_zeros b))) by lia. cbn [replicate app]. by f_equal.
Qed.

Lemma BytesToHash_trim b : length b = HashLength → BytesToHash (trim_zeros b) = b.
Proof.
  intros Hb. pose proof (length_trim_zeros b). unfold BytesToHash, set_bytes. destruct (Nat.ltb_spec HashLength (length (trim_zeros b))); [lia|]. cbv zeta.
  rewrite (trim_zeros_spec b) at 3. by rewrite Hb.
Qed.

(** The loop over the dirty slots writes each of them and nothing else. *)
Lemma flush_slot_ok e (t : Tr) k v :
  length v = HashLength → ∃ t1 : Tr, flush_slot (e, t) (k, v) = (e, t1) ∧ read_slot t1 k = Some v ∧ ∀ k', k' ≠ k → TryGet t1 k' = TryGet t k'.
Proof.
  intros Hv. unfold flush_slot. cbn [fst snd]. case_bool_decide as Hz.
  - destruct (TryDelete_get t k) as (t1 & -> & Hg). exists t1. split_and!; [done|unfold read_slot; rewrite Hg, decide_True by done; by rewrite Hz|]. intros k' Hne. by rewrite Hg, decide_False.
  - pose proof (length_trim_zeros v). pose proof Hv as Hv'. unfold HashLength in Hv'. destruct (encode_slot (trim_zeros v)) as (b & -> & Hb & x & r & Hs); [lia|].
    destruct (TryUpdate_get t k b Hb) as (t1 & -> & Hg). exists t1. split_and!; [done| |intros k' Hne; by rewrite Hg, decide_False].
    unfold read_slot. rewrite Hg, decide_True by done. destruct b as [|b0 b]; [done|]. rewrite Hs. by rewrite BytesToHash_trim.
Qed.

Lemma flush_slots l e (t : Tr) :
  NoDup l.*1 → Forall (fun kv : bytes * bytes => length kv.2 = HashLength) l →
  ∃ t' : Tr, foldl flush_slot (e, t) l = (e, t') ∧ (∀ k v, (k, v) ∈ l → read_slot t' k = Some v) ∧ ∀ k, k ∉ l.*1 → TryGet t' k = TryGet t k.
Proof.
  intros Hn Hl. revert t Hn. induction Hl as [|[k v] l Hv _ IH]; intros t Hn; [exists t; split_and!; [done|by intros ? ? ?%not_elem_of_nil|done]|]. cbn [foldl fmap list_fmap fst] in *.
  apply NoDup_cons in Hn as [Hk Hn]. destruct (flush_slot_ok e t k v Hv) as (t1 & -> & Hr & H1). destruct (IH t1 Hn) as (t2 & -> & H2 & H3). exists t2. split_and!; [done| |].
  - intros k' v' [[= -> ->]|Hin]%elem_of_cons; [|by apply H2]. unfold read_slot. rewrite H3 by done. exact Hr.
  - intros k' Hni. apply not_elem_of_cons in Hni as [Hn1 Hn2]. by rewrite H3, H1.
Qed.

(** The object whose storage was written reads as before. *)
Lemma updateRoot_spec o :
  slots_ok o → same_obj (updateRoot o) o ∧ slots_ok (updateRoot o) ∧ deleted (updateRoot o) = deleted o ∧ length (acc_Root (data (updateRoot o))) = HashLength.
Proof.
  intros Hs. unfold updateRoot, updateTrie. destruct (getTrie o) as [t o1] eqn:Et. destruct (getTrie_frame o t o1 Et) as ((F1 & F2 & F3 & F4 & F5 & F6) & _ & Fc & Fs).
  assert (dirtyStorage o1 = dirtyStorage o) as Fd by (unfold getTrie in Et; destruct (o_trie o); [by injection Et as _ <-|]; destruct (OpenStorageTrie _ _); by injection Et as _ <-).
  destruct Hs as [Hs1 Hs2 Hs3]. rewrite Et in Hs3. cbn [fst] in Hs3.
  destruct (flush_slots (map_to_list (dirtyStorage o1)) (o_dbErr o1) t) as (t' & -> & Hin & Hget); [apply NoDup_fst_map_to_list| |].
  { apply Forall_forall. intros [k v] Hkv%elem_of_map_to_list. rewrite Fd in Hkv. by eapply Hs2, Hs1. }
  assert (∀ k, dirtyStorage o !! k = None → TryGet t' k = TryGet t k) as Hold.
  { intros k Hk. apply Hget. intros ([x v] & -> & Hkv)%list_elem_of_fmap. apply elem_of_map_to_list in Hkv. rewrite Fd in Hkv. cbn in Hk. congruence. }
  split_and!; [split|split|done|apply trie_Hash_length]; cbn [address data o_set_data o_set_trie o_set_storage suicided acc_Nonce acc_Balance acc_CodeHash set_Root cachedStorage dirtyStorage];
    try (by rewrite ?F2, ?F3).
  - apply Code_eq; [done|done|]. cbn. by rewrite F2.
  - intros key. rewrite !slot_spec. cbn [cachedStorage o_set_data o_set_trie o_set_storage]. rewrite Fs. destruct (cachedStorage o !! key) as [v|] eqn:Ec; [done|].
    rewrite Et. cbn [fst]. unfold getTrie. cbn [o_trie o_set_data o_set_trie fst]. unfold read_slot. rewrite Hold; [done|].
    destruct (dirtyStorage o !! key) eqn:Ed; [|done]. apply Hs1 in Ed. congruence.
  - rewrite Fs. exact Hs2.
  - intros k v Hk _. rewrite Fs in Hk. unfold getTrie. cbn [o_trie o_set_data o_set_trie fst]. destruct (dirtyStorage o !! k) as [w|] eqn:Ed.
    + apply Hin, elem_of_map_to_list. rewrite Fd, Ed. apply Hs1 in Ed. congruence.
    + unfold read_slot. rewrite Hold by done. by apply Hs3.
Qed.

(** An object without slots to write reads its storage from the trie. *)
Definition stored o : Prop := dirtyStorage o = ∅ ∧ ∀ k, read_slot (fst (getTrie o)) k = slot o k.

Lemma updateRoot_stored o : slots_ok o → stored (updateRoot o).
Proof.
  intros Hs. destruct (updateRoot_spec o Hs) as (_ & [_ _ Hc] & _).
  assert (dirtyStorage (updateRoot o) = ∅) as Hd by (unfold updateRoot, updateTrie; destruct (getTrie o) as [t o1]; by destruct (foldl _ _ _)).
  split; [done|]. intros k. rewrite slot_spec. destruct (cachedStorage (updateRoot o) !! k) as [v|] eqn:E; [|done]. apply Hc; [done|]. by rewrite Hd.
Qed.

(** ** Accounts *)

(** Accounts that Finalise takes out of the state, when it removes empty ones. *)
Definition gone o : bool := suicided o || empty o.
Definition modest s : Prop := ∀ a o, look s a = Some o → acc_Balance (data o) < 2 ^ 256.

(** What an account reads as afterwards. *)
Definition kept (x x' : option (stateObject (Tr:=Tr))) : Prop :=
  match x with
  | Some o => if gone o then x' = None else ∃ o', x' = Some o' ∧ same_obj o' o ∧ stored o'
  | None => x' = None
  end.

(** What finalising the account [a] does. *)
Record finalised (a : bytes) s s' : Prop := {
  fi_wf : wf s';
  fi_tidy : tidy s';
  fi_dirty : stateObjectsDirty s' = stateObjectsDirty s;
  fi_frame : logs s' = logs s ∧ logSize s' = logSize s ∧ preimages s' = preimages s ∧ thash s' = thash s;
  fi_load : fst (load a s') = data <$> look s' a;
  fi_look : kept (look s a) (look s' a);
  fi_others : ∀ x, x ≠ a → look s' x = look s x ∧ fst (load x s') = fst (load x s) }.

Lemma load_get s s' x : TryGet (trie s') x = TryGet (trie s) x → load x s' = load x s.
Proof. intros E. unfold load. by rewrite E. Qed.

(** The account leaves the trie, and its object is marked. *)
Lemma delete_finalised a o s : wf s → tidy s → stateObjects s !! a = Some o → gone o = true → finalised a s (deleteStateObject o s).
Proof.
  intros Hw Ht Ho Hg. destruct (wf_objects s Hw a o Ho) as (Ha & Hok & _). unfold deleteStateObject. set (o' := o_set_flags _ _ _ true _ _). set (s1 := setStateObject o' s).
  change (trie s1) with (trie s). rewrite Ha. destruct (TryDelete_get (trie s) a) as (t & -> & Hget). set (s2 := s_set_trie t (dbErr s1) s1).
  assert (address o' = a) as Ha' by exact Ha. assert (fst (load a s2) = None) as Hload by (unfold load; cbn [s2 trie s_set_trie]; by rewrite Hget, decide_True).
  assert (∀ x, x ≠ a → load x s2 = load x s) as Hoth by (intros x Hx; apply load_get; cbn [s2 trie s_set_trie]; by rewrite Hget, decide_False).
  assert (stateObjects s2 = <[a := o']> (stateObjects s)) as Hobj by (cbn; by rewrite Ha).
  assert (look s2 a = None) as Hla by (rewrite look_spec, Hobj, lookup_insert_eq; done).
  destruct Hw as [W1 W2 W3 W4 W5]. split.
  - split; [| |done|done|done].
    + intros x y Hy. rewrite Hobj in Hy. apply lookup_insert_Some in Hy as [[<- <-]|[Hne Hy]]; [split_and!; [done|by destruct Hok|done]|]. rewrite Hoth by done. by apply W1.
    + intros x acc. destruct (decide (x = a)) as [->|Hne]; [by rewrite Hload|]. rewrite Hoth by done. apply W2.
  - apply (tidy_frame s1); [done..|]. apply tidy_put; [done|]. destruct (td_objects s Ht a o Ho) as [Hs _]. split; [by apply (slots_same o)|]. intros _. apply orb_true_iff in Hg. exact Hg.
  - done.
  - done.
  - by rewrite Hload, Hla.
  - rewrite (look_spec s), Ho. destruct (deleted o); [done|]. unfold kept. by rewrite Hg.
  - intros x Hx. rewrite Hoth by done. split; [|done]. rewrite !look_spec, Hobj, lookup_insert_ne, Hoth by done. done.
Qed.

(** The storage is written, and the account under its address. *)
Lemma update_finalised a o s :
  wf s → tidy s → stateObjects s !! a = Some o → gone o = false → in_range (data o) → acc_Balance (data o) < 2 ^ 256 →
  ∃ s', updateStateObject (updateRoot o) (setStateObject (updateRoot o) s) = Ok s' ∧ finalised a s s'.
Proof.
  intros Hw Ht Ho Hg Hr Hb. destruct (wf_objects s Hw a o Ho) as (Ha & [Hc] & _). destruct (td_objects s Ht a o Ho) as [Hs Hdel].
  destruct (updateRoot_spec o Hs) as (Hsame & Hs' & Hd' & Hroot). set (o' := updateRoot o) in *. destruct (Hsame) as [S1 S2 S3 S4 S5 S6 S7].
  assert (deleted o = false) as Hd. { destruct (deleted o) eqn:E; [|done]. unfold gone in Hg. destruct Hdel as [E'|E']; [done|..]; rewrite E' in Hg; by destruct (suicided o). }
  unfold updateStateObject. destruct (account_encodable (data o')) as (bs & -> & Hbs & Hdec); [unfold in_range; by rewrite S2, S3|by rewrite S3|done|by rewrite S4|].
  set (s1 := setStateObject o' s). change (trie s1) with (trie s). rewrite S1, Ha. destruct (TryUpdate_get (trie s) a bs Hbs) as (t & -> & Hget). eexists. split; [done|]. set (s2 := s_set_trie t (dbErr s1) s1).
  assert (fst (load a s2) = Some (data o')) as Hload by (unfold load; cbn [s2 trie s_set_trie]; rewrite Hget, decide_True by done; destruct bs; [done|]; by rewrite Hdec).
  assert (∀ x, x ≠ a → load x s2 = load x s) as Hoth by (intros x Hx; apply load_get; cbn [s2 trie s_set_trie]; by rewrite Hget, decide_False).
  assert (stateObjects s2 = <[a := o']> (stateObjects s)) as Hobj by (cbn; by rewrite S1, Ha).
  assert (look s2 a = Some o') as Hla by (rewrite look_spec, Hobj, lookup_insert_eq; by rewrite Hd', Hd).
  destruct Hw as [W1 W2 W3 W4 W5]. split.
  - split; [| |done|done|done].
    + intros x y Hy. rewrite Hobj in Hy. apply lookup_insert_Some in Hy as [[<- <-]|[Hne Hy]]; [|rewrite Hoth by done; by apply W1].
      split_and!; [by rewrite S1|split; by rewrite S4|rewrite Hd', Hd; done].
    + intros x acc. destruct (decide (x = a)) as [->|Hne]; [rewrite Hload; intros [= <-]; by rewrite S4|]. rewrite Hoth by done. apply W2.
  - apply (tidy_frame s1); [done..|]. apply tidy_put; [done|]. apply tidy_alive; [done|by rewrite Hd', Hd].
  - done.
  - done.
  - by rewrite Hload, Hla.
  - rewrite (look_spec s), Ho, Hd. unfold kept. rewrite Hg. exists o'. split_and!; [done|done|by apply updateRoot_stored].
  - intros x Hx. rewrite Hoth by done. split; [|done]. rewrite !look_spec, Hobj, lookup_insert_ne, Hoth by done. done.
Qed.

Lemma finalise_one_ok a s : wf s → tidy s → rich s → modest s → a ∈ stateObjectsDirty s → ∃ s', finalise_one true s a = Ok s' ∧ finalised a s s'.
Proof.
  intros Hw Ht Hr Hm Ha. destruct (td_dirty s Ht a Ha) as [o Ho]. unfold finalise_one. rewrite Ho. cbn [andb]. fold (gone o). destruct (gone o) eqn:Hg.
  - eexists. split; [done|]. by apply delete_finalised.
  - assert (deleted o = false) as Hd. { destruct (deleted o) eqn:E; [|done]. unfold gone in Hg. destruct (td_objects s Ht a o Ho) as [_ Hdel]. destruct Hdel as [E'|E']; [done|..]; rewrite E' in Hg; by destruct (suicided o). }
    assert (look s a = Some o) as Hl by (by rewrite look_spec, Ho, Hd). apply update_finalised; try done; [by apply (Hr a)|by eapply Hm].
Qed.

Record written (l : list bytes) s s' : Prop := {
  wr_wf : wf s';
  wr_tidy : tidy s';
  wr_dirty : stateObjectsDirty s' = stateObjectsDirty s;
  wr_frame : logs s' = logs s ∧ logSize s' = logSize s ∧ preimages s' = preimages s ∧ thash s' = thash s;
  wr_load : ∀ a, a ∈ l → fst (load a s') = data <$> look s' a;
  wr_look : ∀ a, a ∈ l → kept (look s a) (look s' a);
  wr_others : ∀ a, a ∉ l → look s' a = look s a ∧ fst (load a s') = fst (load a s) }.

Lemma kept_look s s' a o' : kept (look s a) (look s' a) → look s' a = Some o' → ∃ o, look s a = Some o ∧ same_obj o' o.
Proof.
  intros Hk E. destruct (look s a) as [o|]; cbn in Hk; [|congruence]. destruct (gone o); [congruence|]. destruct Hk as (x & Hx & Hs & _). exists o. split; [done|]. congruence.
Qed.

Lemma finalised_range a s s' : finalised a s s' → rich s → modest s → rich s' ∧ modest s'.
Proof.
  intros [_ _ _ _ _ Hk Ho] Hr Hm. assert (∀ x o', look s' x = Some o' → ∃ o, look s x = Some o ∧ same_obj o' o) as Hx.
  { intros x o' E. destruct (decide (x = a)) as [->|Hne]; [by eapply kept_look|]. destruct (Ho x Hne) as [El _]. exists o'. split; [congruence|done]. }
  split; intros x o' E; destruct (Hx x o' E) as (o & El & Hs); [eapply readable_same; [done|by eapply Hr]|]. rewrite (so_Balance _ _ Hs). by eapply Hm.
Qed.

Lemma finalise_all_ok l s :
  NoDup l → wf s → tidy s → rich s → modest s → (∀ a, a ∈ l → a ∈ stateObjectsDirty s) →
  ∃ s', finalise_all true l s = Ok s' ∧ written l s s' ∧ rich s' ∧ modest s'.
Proof.
  intros Hnd. revert s. induction Hnd as [|a l Ha Hnd IH]; intros s Hw Ht Hr Hm Hl.
  { exists s. split; [done|]. split; [|done]. split; try done; intros x Hx; by apply not_elem_of_nil in Hx. }
  cbn [finalise_all]. destruct (finalise_one_ok a s Hw Ht Hr Hm) as (s1 & -> & Hf); [apply Hl; by left|]. cbn [rbind].
  destruct (finalised_range a s s1 Hf Hr Hm) as [Hr1 Hm1]. destruct Hf as [F1 F2 F3 F4 F5 F6 F7].
  destruct (IH s1 F1 F2 Hr1 Hm1) as (s2 & -> & [G1 G2 G3 G4 G5 G6 G7] & Hr2 & Hm2); [intros x Hx; rewrite F3; apply Hl; by right|].
  exists s2. split; [done|]. split; [|done]. destruct (G7 a Ha) as [Ea Eb]. destruct F4 as (? & ? & ? & ?), G4 as (? & ? & ? & ?).
  split; [done|done|congruence|split_and!; congruence| | |].
  - intros x [->|Hx]%elem_of_cons; [by rewrite Ea, Eb|by apply G5].
  - intros x [->|Hx]%elem_of_cons; [by rewrite Ea|]. assert (x ≠ a) as Hne by (intros ->; done). destruct (F7 x Hne) as [E _]. rewrite <-E. by apply G6.
  - intros x [Hne Hx]%not_elem_of_cons. destruct (G7 x Hx) as [-> ->]. by apply F7.
Qed.

Lemma Finalise_ok s :
  vm_good s → modest s →
  ∃ s', Finalise true s = Ok s' ∧ vm_good s' ∧ modest s' ∧ refund s' = 0 ∧ logs s' = logs s
    ∧ (∀ a, a ∈ stateObjectsDirty s → fst (load a s') = data <$> look s' a ∧ kept (look s a) (look s' a))
    ∧ ∀ a, a ∉ stateObjectsDirty s → look s' a = look s a ∧ fst (load a s') = fst (load a s).
Proof.
  intros (Hw & _ & Hr & _ & Ht) Hm. unfold Finalise. destruct (finalise_all_ok (elements (stateObjectsDirty s)) s (NoDup_elements _) Hw Ht Hr Hm) as (s1 & -> & [G1 G2 G3 G4 G5 G6 G7] & Hr1 & Hm1);
    [intros a Ha; by apply elem_of_elements|]. cbn [rbind]. eexists. split; [done|]. set (s2 := clearJournalAndRefund s1).
  assert (∀ a, look s2 a = look s1 a) as El by (by apply same_look). assert (∀ a, load a s2 = load a s1) as Eo by (intros a; by apply load_trie).
  destruct G1 as [W1 W2 W3 W4 W5], G2 as [T1 T2 T3]. split_and!.
  - split_and!; [split; try done|split; constructor|by eapply look_rich|split; [done|by split]].
  - intros a o. rewrite El. apply Hm1.
  - done.
  - apply G4.
  - intros a Ha%elem_of_elements. rewrite El, Eo. split; [by apply G5|by apply G6].
  - intros a Ha. rewrite El, Eo. apply G7. by rewrite elem_of_elements.
Qed.


End final.

(** ** Tries as maps *)

#[local] Existing Instance map_tries.
#[local] Existing Instance EvmThms.map_tries_laws.
#[local] Instance map_tries_map : TriesMap (gmap bytes bytes) unit.
Proof.
  split.
  - intros t k v Hv. exists (<[k := v]> t). split; [by destruct v|]. intros k'. cbn. case_decide as E; [subst; by rewrite lookup_insert_eq|by rewrite lookup_insert_ne].
  - intros t k. exists (delete k t). split; [done|]. intros k'. cbn. case_decide as E; [subst; by rewrite lookup_delete_eq|by rewrite lookup_delete_ne].
  - intros t. apply length_hash256.
Qed.

(** An account that was given 5. *)
Definition credited : StateDB (Tr:=gmap bytes bytes) := AddBalance other_addr 5 sample_state.
Lemma credited_good : vm_good credited.
Proof. exact (EvmSafe.grows_good _ _ (EvmSafe.grow_AddBalance other_addr 5 sample_state EvmThms.sample_good ltac:(lia))). Qed.
Lemma credited_modest : modest credited.
Proof.
  intros a o Ho. destruct EvmThms.sample_good as (Hw & _ & Hr & _). pose proof (AddBalance_look other_addr 5 a sample_state Hw Hr) as Hb. fold credited in Hb. rewrite Ho in Hb. cbn [balance] in Hb.
  rewrite Hb, look_spec, sample_load. assert (stateObjects sample_state !! a = None) as -> by done. destruct (decide (a = sample_addr)), (decide (a = other_addr)); done.
Qed.


End StateFinal.
