(* ===== verification/Transition.v ===== *)
(** Transactions ([Transition]): src/core/state_transition.go and gaspool.go, on the EVM.

    [StateTransition] is the object of a transaction, with the machine whose public state is
    the state it works on.  A failed transition leaves what it did to the state: the caller
    takes it back.  The counter of refunds is a value: refundGas multiplies the state's own
    counter in place, which Finalise clears before it is read again. *)

From S2P Require Import Prelude RlpEncode RlpRaw RlpDecode RlpRoundtrip RlpTotal KeccakF Sha3 CoreTypes.
From S2P Require Import Prque TrieEncoding TrieNode Trie TrieThms TrieHash TrieMap CoreBlock StateDB StateThms EvmWord EvmCode Evm EvmSupply EvmSafe StateVm EvmThms.

Module Transition.
Import Rlp Codec Types EvmWord EvmCode Evm EvmSupply EvmSafe EvmThms.

#[local] Opaque hash256 be_bytes BytesToHash BytesToAddress CreateAddress.

(** ** Messages, gas pools and the price of data *)

Inductive coreErr :=
| ErrGasLimitReached | ErrNonceTooHigh | ErrNonceTooLow | errInsufficientBalanceForGas
| vmErr (e : evmErr).

Record Message := mkMessage {
  From : bytes;
  To : option bytes;
  m_GasPrice : Z;
  m_Gas : Z;
  m_Value : Z;
  m_Nonce : Z;
  CheckNonce : bool;
  m_Data : bytes;
  IsPrivate : bool }.

Definition TxGas : Z := 21000.
Definition TxGasContractCreation : Z := 53000.
Definition TxDataZeroGas : Z := 4.
Definition TxDataNonZeroGas : Z := 68.

Definition AddGas (amount gp : Z) : Z := gp + amount.
Definition SubGas (amount gp : Z) : option Z := if gp <? amount then None else Some (gp - amount).

Definition IntrinsicGas (data : bytes) (contractCreation homestead : bool) : Z :=
  let igas := if contractCreation && homestead then TxGasContractCreation else TxGas in
  let nz := zlen (filter (fun b => b ≠ x00) data) in
  igas + nz * TxDataNonZeroGas + (zlen data - nz) * TxDataZeroGas.

Section transition.
Context {S : Type} `{VmState S} (c : Context) (Receive : bytes → option bytes) (msg : Message).

Record StateTransition := mkST {
  gp : Z;
  st_gas : Z;
  initialGas : Z;
  evm : EVM (S:=S) }.

Definition NewStateTransition (e : EVM) (pool : Z) : StateTransition := mkST pool 0 0 e.

Definition state (st : StateTransition) : S := publicState (evm st).
Definition on_state (f : S → S) (st : StateTransition) : StateTransition :=
  mkST (gp st) (st_gas st) (initialGas st) (set_db false (f (state st)) (evm st)).
Definition gasUsed (st : StateTransition) : Z := initialGas st - st_gas st.

Definition exists_or_create (a : bytes) (st : StateTransition) : StateTransition :=
  if Exist a (state st) then st else on_state (CreateAccount a) st.
Definition from : StateTransition → StateTransition := exists_or_create (From msg).
(** [to] of a message that has a recipient *)
Definition to (a : bytes) : StateTransition → StateTransition := exists_or_create a.

Definition useGas (amount : Z) (st : StateTransition) : option StateTransition :=
  if st_gas st <? amount then None else Some (mkST (gp st) (st_gas st - amount) (initialGas st) (evm st)).

Definition buyGas (st : StateTransition) : option coreErr * StateTransition :=
  let mgas := m_Gas msg in
  if 64 <? BitLen mgas then (Some (vmErr ErrOutOfGas), st)
  else
    let mgval := mgas * m_GasPrice msg in
    let st := from st in
    if GetBalance (From msg) (state st) <? mgval then (Some errInsufficientBalanceForGas, st)
    else
      match SubGas mgas (gp st) with
      | None => (Some ErrGasLimitReached, st)
      | Some pool => (None, on_state (SubBalance (From msg) mgval) (mkST pool (u64 (st_gas st + u64 mgas)) mgas (evm st)))
      end.

Definition preCheck (st : StateTransition) : option coreErr * StateTransition :=
  let st := from st in
  let nonce := GetNonce (From msg) (state st) in
  if CheckNonce msg && (nonce <? m_Nonce msg) then (Some ErrNonceTooHigh, st)
  else if CheckNonce msg && (m_Nonce msg <? nonce) then (Some ErrNonceTooLow, st)
  else buyGas st.

Definition bump_nonce (st : StateTransition) : StateTransition :=
  on_state (SetNonce (From msg) (u64 (GetNonce (From msg) (state st) + 1))) st.

Definition refundGas (st : StateTransition) : StateTransition :=
  let st := from st in
  let remaining := st_gas st * m_GasPrice msg in
  let st := on_state (AddBalance (From msg) remaining) st in
  let uhalf := gasUsed st / 2 in
  let refund := BigMin uhalf (GetRefund (state st)) in
  let st := mkST (gp st) (u64 (st_gas st + u64 refund)) (initialGas st) (evm st) in
  let st := on_state (AddBalance (From msg) (refund * m_GasPrice msg)) st in
  mkST (AddGas (st_gas st) (gp st)) (st_gas st) (initialGas st) (evm st).

(** What was returned, the gas required and used, and whether the execution failed. *)
Definition outcome : Type := coreErr + bytes * Z * Z * bool.

Definition set_result (rest : Z) (e : EVM) (st : StateTransition) : StateTransition := mkST (gp st) rest (initialGas st) e.

(** The gas of a run is enough fuel for it. *)
Definition run_evm (data : bytes) (st : StateTransition) : result unit (bytes * option evmErr * StateTransition) :=
  let run := run c (Datatypes.S (Z.to_nat (st_gas st))) in
  match To msg with
  | None =>
      let? (ret, _, rest, vmerr, e) := Create c run (From msg) data (st_gas st) (m_Value msg) (evm st) in
      Ok (ret, vmerr, set_result rest e st)
  | Some a =>
      let? (ret, rest, vmerr, e) := Call c run (From msg) a data (st_gas st) (m_Value msg) (evm st) in
      Ok (ret, vmerr, set_result rest e st)
  end.

(** After the run: the gas that is left is paid back, and what was used goes to the miner. *)
Definition settle_gas (isPrivate : bool) (ret : bytes) (vmerr : option evmErr) (st : StateTransition) : outcome * StateTransition :=
  let requiredGas := gasUsed st in
  let st := refundGas st in
  let st := on_state (AddBalance (Coinbase c) (gasUsed st * m_GasPrice msg)) st in
  let failed := negb (bool_decide (vmerr = None)) in
  (inr (if isPrivate then (ret, 0, 0, failed) else (ret, requiredGas, gasUsed st, failed)), st).

Definition execute_message (isPrivate : bool) (data : bytes) (st : StateTransition) : result unit (outcome * StateTransition) :=
  let creation := match To msg with None => true | Some _ => false end in
  let intrinsicGas := IntrinsicGas data creation (IsHomestead c) in
  if 64 <? BitLen intrinsicGas then Ok (inl (vmErr ErrOutOfGas), st)
  else
    match useGas (u64 intrinsicGas) st with
    | None => Ok (inl (vmErr ErrOutOfGas), st)
    | Some st =>
        let st :=
          match To msg with
          | None => st
          | Some a =>
              let st := if isPrivate then st else bump_nonce st in
              if IsBitmed c then st else to a st
          end in
        let? (ret, vmerr, st) := run_evm data st in
        if bool_decide (vmerr = Some ErrInsufficientBalance) then Ok (inl (vmErr ErrInsufficientBalance), st)
        else Ok (settle_gas isPrivate ret vmerr st)
    end.

Definition TransitionDb (st : StateTransition) : result unit (outcome * StateTransition) :=
  match preCheck st with
  | (Some err, st) => Ok (inl err, st)
  | (None, st) =>
      let st := from st in
      if IsBitmed c && IsPrivate msg then
        match Receive (m_Data msg) with
        | None => Ok (inr ([], 0, 0, false), bump_nonce st)
        | Some data => execute_message true data (match To msg with None => st | Some _ => bump_nonce st end)
        end
      else execute_message false (m_Data msg) st
  end.

(** The bytes returned, the gas used and whether the execution failed. *)
Definition ApplyMessage (e : EVM) (pool : Z) : result unit ((coreErr + bytes * Z * bool) * StateTransition) :=
  let? (r, st) := TransitionDb (NewStateTransition e pool) in
  Ok (match r with inl err => inl err | inr (ret, _, used, failed) => inr (ret, used, failed) end, st).

End transition.

Lemma IntrinsicGas_pos data creation homestead : 0 ≤ IntrinsicGas data creation homestead.
Proof.
  assert (0 ≤ zlen (filter (fun b => b ≠ x00) data)) by apply Nat2Z.is_nonneg.
  assert (zlen (filter (fun b => b ≠ x00) data) ≤ zlen data) by apply Nat2Z.inj_le, length_filter.
  unfold IntrinsicGas, TxGasContractCreation, TxGas, TxDataNonZeroGas, TxDataZeroGas. destruct (_ && _); lia.
Qed.

Section thms.
Context {S : Type} `{VmState S} `{!VmLaws S} (c : Context) (Husable : usable c) (Receive : bytes → option bytes) (msg : Message).
Context (Hprice : 0 ≤ m_GasPrice msg) (Hvalue : 0 ≤ m_Value msg) (Hgas : 0 ≤ m_Gas msg).
Implicit Types (s t : S) (e : EVM (S:=S)) (st : StateTransition (S:=S)).

(** ** Money *)

(** The sum of the balances grows by at most [d]. *)
Definition within (d : Z) s t : Prop := ∀ n, supply s n → ∃ m, supply t m ∧ m ≤ n + d.

Lemma within_trans d1 d2 s t u : within d1 s t → within d2 t u → within (d1 + d2) s u.
Proof. intros H1 H2 n Hn. destruct (H1 n Hn) as (m & Hm & ?). destruct (H2 m Hm) as (k & Hk & ?). exists k. split; [done|lia]. Qed.
Lemma moves_within a d s t : moves a d s t → within d s t.
Proof. intros Hm n Hn. exists (n + d). split; [by eapply supply_moves|lia]. Qed.
Lemma no_more_within s t : no_more s t → within 0 s t.
Proof. intros Hm n Hn. destruct (Hm n Hn) as (m & ? & ?). exists m. split; [done|lia]. Qed.
Lemma within_le d d' s t : within d s t → d ≤ d' → within d' s t.
Proof. intros Hm Hd n Hn. destruct (Hm n Hn) as (m & ? & ?). exists m. split; [done|lia]. Qed.

(** ** Steps of a transition *)

(** Money changes by at most [d], and the machine stays ready for a call. *)
Record machine_stepped (d : Z) e e' : Prop := {
  sp_sane : sane 0 e';
  sp_readOnly : readOnly e' = readOnly e;
  sp_money : within d (publicState e) (publicState e');
  sp_second : no_more (secondState e) (secondState e') }.
Definition stepped (d : Z) st st' : Prop := machine_stepped d (evm st) (evm st').

Lemma stepped_refl st : sane 0 (evm st) → stepped 0 st st.
Proof. intros He. split; [done|done|by apply no_more_within|done]. Qed.
Lemma stepped_trans d1 d2 st1 st2 st3 : stepped d1 st1 st2 → stepped d2 st2 st3 → stepped (d1 + d2) st1 st3.
Proof. intros [A1 A2 A3 A4] [B1 B2 B3 B4]. split; [done|congruence|by eapply within_trans|by etrans]. Qed.

Lemma sane_public n e s : sane n e → good s → sane n (set_db false s e).
Proof. intros []. by split. Qed.

(** A change of the public state. *)
Lemma on_state_ok d f st : sane 0 (evm st) → good (f (state st)) → within d (state st) (f (state st)) → stepped d st (on_state f st).
Proof. intros He Hg Hw. split; [by apply sane_public|done|done|done]. Qed.

Lemma good_state st : sane 0 (evm st) → good (state st).
Proof. intros []. done. Qed.

Lemma from_ok a st :
  sane 0 (evm st) → stepped 0 st (exists_or_create a st) ∧ gp (exists_or_create a st) = gp st
    ∧ st_gas (exists_or_create a st) = st_gas st ∧ initialGas (exists_or_create a st) = initialGas st.
Proof.
  intros He. unfold exists_or_create. destruct (Exist a (state st)); [by split_and!; [apply stepped_refl|..]|]. split_and!; [|done..].
  pose proof (good_state st He) as Hg. apply on_state_ok; [done|by eapply grows_good, grow_CreateAccount|]. apply no_more_within, same_no_more. by apply Balance_CreateAccount.
Qed.

Lemma from_balance a b st : sane 0 (evm st) → GetBalance b (state (exists_or_create a st)) = GetBalance b (state st).
Proof. intros He. unfold exists_or_create. destruct (Exist a (state st)); [done|]. apply (Balance_CreateAccount a (state st)). by apply good_state. Qed.

(** Why a transaction that buys [gas], for data that costs [igas], is refused. *)
Definition refused (balance pool gas igas : Z) (err : coreErr) : Prop :=
  match err with
  | ErrNonceTooHigh | ErrNonceTooLow => CheckNonce msg = true
  | errInsufficientBalanceForGas => balance < gas * m_GasPrice msg
  | ErrGasLimitReached => pool < gas
  | vmErr ErrOutOfGas => 2 ^ 64 ≤ gas ∨ gas < igas
  | vmErr x => x = ErrInsufficientBalance
  end.

Lemma bump_nonce_ok st : sane 0 (evm st) → stepped 0 st (bump_nonce msg st).
Proof.
  intros He. pose proof (good_state st He) as Hg. apply on_state_ok; [done| |].
  - eapply grows_good, grow_SetNonce; [done|apply u64_range].
  - apply no_more_within, same_no_more. by apply Balance_SetNonce.
Qed.

Lemma pay_ok a x st : sane 0 (evm st) → 0 ≤ x → stepped x st (on_state (AddBalance a x) st).
Proof.
  intros He Hx. pose proof (good_state st He) as Hg. apply on_state_ok; [done|by eapply grows_good, grow_AddBalance|]. by eapply moves_within, Balance_AddBalance.
Qed.

Lemma buyGas_ok st :
  sane 0 (evm st) → st_gas st = 0 →
  match buyGas msg st with
  | (Some err, st') => stepped 0 st st' ∧ ∀ igas, refused (GetBalance (From msg) (state st)) (gp st) (m_Gas msg) igas err
  | (None, st') => stepped (- (m_Gas msg * m_GasPrice msg)) st st' ∧ m_Gas msg < 2 ^ 64 ∧ m_Gas msg ≤ gp st ∧ gp st' = gp st - m_Gas msg ∧ st_gas st' = m_Gas msg ∧ initialGas st' = m_Gas msg
  end.
Proof.
  intros He E0. unfold buyGas. destruct (Z.ltb_spec 64 (BitLen (m_Gas msg))) as [Hb|Hb].
  { split; [by apply stepped_refl|]. left. pose proof (BitLen_small (m_Gas msg) 64 Hgas ltac:(done)). lia. }
  apply BitLen_small in Hb; [|done..]. pose proof (from_balance (From msg) (From msg) st He) as Hfb. fold (from msg st) in Hfb.
  destruct (from_ok (From msg) st He) as (Hf & Hgp & Hg & Hi). fold (from msg st) in Hf, Hgp, Hg, Hi. set (st1 := from msg st) in *.
  destruct (Z.ltb_spec (GetBalance (From msg) (state st1)) (m_Gas msg * m_GasPrice msg)) as [|Hbal]; [split; [done|intros ?; unfold refused; lia]|].
  unfold SubGas. destruct (Z.ltb_spec (gp st1) (m_Gas msg)); [split; [done|intros ?; unfold refused; lia]|]. rewrite Hg, E0, Hgp. pose proof (good_state st1 (sp_sane _ _ _ Hf)) as Hgs.
  rewrite Z.add_0_l, (u64_small (m_Gas msg)) by done. rewrite u64_small by done. split; [|split_and!; [done|lia|done..]].
  replace (- (m_Gas msg * m_GasPrice msg)) with (0 + - (m_Gas msg * m_GasPrice msg)) by lia. eapply stepped_trans; [exact Hf|].
  set (st2 := mkST _ _ _ (evm st1)). apply (on_state_ok _ _ st2); [apply Hf| |].
  - eapply grows_good, grow_SubBalance; [done|]. split; [by apply Z.mul_nonneg_nonneg|done].
  - by eapply moves_within, Balance_SubBalance.
Qed.

Lemma run_evm_ok data st :
  sane 0 (evm st) → readOnly (evm st) = false → 0 ≤ st_gas st < 2 ^ 64 →
  ∃ ret vmerr st', run_evm c msg data st = Ok (ret, vmerr, st') ∧ stepped 0 st st' ∧ 0 ≤ st_gas st' ≤ st_gas st ∧ gp st' = gp st ∧ initialGas st' = initialGas st.
Proof.
  intros He Hro Hg. unfold run_evm. set (fuel := Datatypes.S (Z.to_nat (st_gas st))). assert (0 ≤ st_gas st < Z.of_nat fuel) as Hf by (unfold fuel; lia).
  assert (∀ e', evolves c (evm st) e' → ∀ g, stepped 0 st (set_result g e' st)) as Hst.
  { intros e' Hev g. split; [by eapply evolves_sane|apply Hev|apply no_more_within, Hev|apply Hev]. }
  destruct (To msg) as [a|].
  - destruct (Call_ok c _ (run c fuel) (runner_ok c Husable fuel) (evm st) (st_gas st) Hf ltac:(lia) (From msg) a data (m_Value msg) He Hvalue) as (ret & g & err & e' & -> & Hl & Hev & _);
      [intros _ HR; congruence|]. cbn [rbind]. do 3 eexists. split; [done|]. split; [by apply Hst|]. done.
  - destruct (Create_ok c _ (run c fuel) (runner_ok c Husable fuel) (evm st) (st_gas st) Hf ltac:(lia) (From msg) data (m_Value msg) He Hvalue) as (ret & a & g & err & e' & -> & Hl & Hev);
      [intros _ HR; congruence|]. cbn [rbind]. do 3 eexists. split; [done|]. split; [by apply Hst|]. done.
Qed.

Lemma half_le x : 0 ≤ x → 0 ≤ x / 2 ≤ x.
Proof. intros Hx. split; [by apply Z.div_pos|]. apply Z.div_le_upper_bound; lia. Qed.

(** The gas that is left and a refund of at most half of the gas used go back to the sender and the pool. *)
Lemma refundGas_ok st :
  sane 0 (evm st) → 0 ≤ st_gas st ≤ initialGas st → initialGas st < 2 ^ 64 →
  ∃ r, 0 ≤ r ≤ gasUsed st / 2 ∧ stepped ((st_gas st + r) * m_GasPrice msg) st (refundGas msg st) ∧ st_gas (refundGas msg st) = st_gas st + r
    ∧ initialGas (refundGas msg st) = initialGas st ∧ gp (refundGas msg st) = gp st + (st_gas st + r).
Proof.
  intros He Hg Hi. destruct (from_ok (From msg) st He) as (Hf & E1 & E2 & E3). fold (from msg st) in Hf, E1, E2, E3. unfold refundGas. set (st1 := from msg st) in *.
  rewrite E2. set (st2 := on_state (AddBalance (From msg) (st_gas st * m_GasPrice msg)) st1).
  assert (stepped (st_gas st * m_GasPrice msg) st1 st2) as H2 by (apply pay_ok; [apply Hf|apply Z.mul_nonneg_nonneg; lia]).
  assert (gasUsed st2 = gasUsed st) as -> by (unfold gasUsed, st2; cbn; by rewrite E2, E3).
  assert (0 ≤ gasUsed st / 2 ∧ st_gas st + gasUsed st / 2 < 2 ^ 64) as [Hu Hu64] by (unfold gasUsed; pose proof (half_le (initialGas st - st_gas st) ltac:(lia)); lia).
  set (r := BigMin (gasUsed st / 2) (GetRefund (state st2))). assert (0 ≤ r ≤ gasUsed st / 2) as Hr.
  { pose proof (GetRefund_nonneg (state st2) (good_state st2 (sp_sane _ _ _ H2))). unfold r, BigMin. destruct (Z.ltb_spec (GetRefund (state st2)) (gasUsed st / 2)); lia. }
  exists r. split; [done|]. cbn [st_gas gp initialGas on_state]. change (st_gas st2) with (st_gas st1). rewrite E2, (u64_small r), u64_small by lia.
  split_and!; [|done|exact E3|unfold AddGas; cbn; by rewrite E1].
  replace ((st_gas st + r) * m_GasPrice msg) with (0 + st_gas st * m_GasPrice msg + r * m_GasPrice msg) by lia.
  eapply stepped_trans; [eapply stepped_trans; [exact Hf|exact H2]|]. set (st3 := mkST _ _ _ (evm st2)). assert (0 ≤ r * m_GasPrice msg) as Hrp by (apply Z.mul_nonneg_nonneg; lia).
  exact (pay_ok (From msg) _ st3 (sp_sane _ _ _ H2) Hrp).
Qed.

(** What the result of a transition says about gas, [pool] and [bought] before it. *)
Definition accounted (isPrivate : bool) (balance igas pool bought : Z) (r : outcome) st : Prop :=
  match r with
  | inl err => refused balance pool bought igas err
  | inr (_, required, used, _) =>
      ∃ q u, igas ≤ q ≤ bought ∧ q - q / 2 ≤ u ≤ q ∧ gp st = pool - u ∧ (required, used) = if isPrivate then (0, 0) else (q, u)
  end.

Lemma settle_gas_ok isPrivate balance igas ret vmerr st r st' :
  sane 0 (evm st) → 0 ≤ igas → 0 ≤ st_gas st ≤ initialGas st - igas → initialGas st < 2 ^ 64 → settle_gas c msg isPrivate ret vmerr st = (r, st') →
  stepped (initialGas st * m_GasPrice msg) st st' ∧ accounted isPrivate balance igas (gp st + initialGas st) (initialGas st) r st'.
Proof.
  intros He Hig Hg Hi E. unfold settle_gas in E. destruct (refundGas_ok st He) as (x & Hx & Hst & E1 & E2 & E3); [lia|done|]. set (st1 := refundGas msg st) in *. injection E as <- <-.
  assert (gasUsed st1 = gasUsed st - x) as Hu by (unfold gasUsed; rewrite E1, E2; lia). assert (0 ≤ gasUsed st - x) as Hpos.
  { assert (0 ≤ gasUsed st) by (unfold gasUsed; lia). pose proof (half_le (gasUsed st) ltac:(done)). lia. }
  split.
  - replace (initialGas st * m_GasPrice msg) with ((st_gas st + x) * m_GasPrice msg + gasUsed st1 * m_GasPrice msg) by (rewrite Hu; unfold gasUsed; lia).
    eapply stepped_trans; [exact Hst|]. apply pay_ok; [apply Hst|]. rewrite Hu. by apply Z.mul_nonneg_nonneg.
  - unfold accounted. assert (∃ q u, igas ≤ q ≤ initialGas st ∧ q - q / 2 ≤ u ≤ q ∧ gp st1 = gp st + initialGas st - u ∧ q = gasUsed st ∧ u = gasUsed st1) as (q & u & Hq & Hu' & Hgp & -> & ->).
    { exists (gasUsed st), (gasUsed st1). rewrite Hu, E3. unfold gasUsed in *. split_and!; lia. }
    destruct isPrivate; exists (gasUsed st), (gasUsed st1); done.
Qed.

Lemma execute_message_ok isPrivate balance data st :
  sane 0 (evm st) → readOnly (evm st) = false → 0 ≤ st_gas st < 2 ^ 64 → initialGas st = st_gas st →
  ∃ r st', execute_message c msg isPrivate data st = Ok (r, st') ∧ stepped (initialGas st * m_GasPrice msg) st st'
    ∧ accounted isPrivate balance (IntrinsicGas data (match To msg with None => true | _ => false end) (IsHomestead c)) (gp st + initialGas st) (initialGas st) r st'.
Proof.
  intros He Hro Hg Hi. assert (0 ≤ initialGas st * m_GasPrice msg) as Hpos by (apply Z.mul_nonneg_nonneg; lia).
  assert (∀ st', stepped 0 st st' → stepped (initialGas st * m_GasPrice msg) st st') as Hle by (intros st' [A1 A2 A3 A4]; split; try done; by eapply within_le).
  unfold execute_message. set (cr := match To msg with None => true | _ => false end). pose proof (IntrinsicGas_pos data cr (IsHomestead c)) as Hig. set (igas := IntrinsicGas _ _ _) in *.
  destruct (Z.ltb_spec 64 (BitLen igas)) as [Hb|Hb].
  { do 2 eexists. split; [done|]. split; [by apply Hle, stepped_refl|]. right. pose proof (BitLen_small igas 64 Hig ltac:(done)). lia. } apply BitLen_small in Hb; [|done..]. rewrite (u64_small igas) by done.
  unfold useGas. destruct (Z.ltb_spec (st_gas st) igas); [do 2 eexists; split; [done|]; split; [by apply Hle, stepped_refl|right; lia]|].
  set (st1 := mkST (gp st) (st_gas st - igas) (initialGas st) (evm st)). set (st2 := match To msg with None => st1 | Some _ => _ end).
  assert (stepped 0 st st2 ∧ gp st2 = gp st ∧ st_gas st2 = st_gas st - igas ∧ initialGas st2 = initialGas st) as (Hst2 & G1 & G2 & G3).
  { unfold st2. destruct (To msg) as [a|]; [|split_and!; [exact (stepped_refl st1 He)|done..]]. set (st1' := if isPrivate then st1 else bump_nonce msg st1).
    assert (stepped 0 st st1' ∧ gp st1' = gp st ∧ st_gas st1' = st_gas st - igas ∧ initialGas st1' = initialGas st) as (H1 & ? & ? & ?).
    { unfold st1'. destruct isPrivate; [by split_and!; [exact (stepped_refl st1 He)|..]|]. split_and!; [|done..]. by apply (bump_nonce_ok st1). }
    destruct (IsBitmed c); [by split_and!|]. unfold to. destruct (from_ok a st1') as (Hfr & -> & -> & ->); [apply H1|]. split_and!; [|done..]. exact (stepped_trans 0 0 _ _ _ H1 Hfr). }
  destruct (run_evm_ok data st2) as (ret & vmerr & st3 & -> & Hst3 & G4 & G5 & G6); [apply Hst2|rewrite (sp_readOnly _ _ _ Hst2); done|lia|]. cbn [rbind].
  pose proof (stepped_trans 0 0 _ _ _ Hst2 Hst3) as Hst. case_bool_decide; [do 2 eexists; split; [done|]; split; [by apply Hle|done]|].
  destruct (settle_gas c msg isPrivate ret vmerr st3) as [r st4] eqn:E4. destruct (settle_gas_ok isPrivate balance igas ret vmerr st3 r st4) as [Hst4 Hac]; [apply Hst3|done|lia|lia|done|].
  exists r, st4. split; [done|]. rewrite G6, G3 in Hst4, Hac. rewrite G5, G1 in Hac. split; [|done].
  replace (initialGas st * m_GasPrice msg) with (0 + initialGas st * m_GasPrice msg) by lia. by eapply stepped_trans.
Qed.

Lemma preCheck_ok st :
  sane 0 (evm st) → st_gas st = 0 →
  match preCheck msg st with
  | (Some err, st') => stepped 0 st st' ∧ ∀ igas, refused (GetBalance (From msg) (state st)) (gp st) (m_Gas msg) igas err
  | (None, st') => stepped (- (m_Gas msg * m_GasPrice msg)) st st' ∧ m_Gas msg < 2 ^ 64 ∧ m_Gas msg ≤ gp st ∧ gp st' = gp st - m_Gas msg ∧ st_gas st' = m_Gas msg ∧ initialGas st' = m_Gas msg
  end.
Proof.
  intros He E0. unfold preCheck. destruct (from_ok (From msg) st He) as (Hf & E1 & E2 & E3). fold (from msg st) in Hf, E1, E2, E3. set (st1 := from msg st) in *.
  pose proof (from_balance (From msg) (From msg) st He) as Hfb. fold (from msg st) in Hfb. fold st1 in Hfb.
  pose proof (buyGas_ok st1 (sp_sane _ _ _ Hf) ltac:(lia)) as Hbuy. rewrite E1, Hfb in Hbuy.
  assert (match buyGas msg st1 with
    | (Some err, st') => stepped 0 st st' ∧ ∀ igas, refused (GetBalance (From msg) (state st)) (gp st) (m_Gas msg) igas err
    | (None, st') => stepped (- (m_Gas msg * m_GasPrice msg)) st st' ∧ m_Gas msg < 2 ^ 64 ∧ m_Gas msg ≤ gp st ∧ gp st' = gp st - m_Gas msg ∧ st_gas st' = m_Gas msg ∧ initialGas st' = m_Gas msg
    end) as Hmain.
  { destruct (buyGas msg st1) as [[err|] st2]; destruct Hbuy as [Hst Hx]; (split; [|done]); exact (stepped_trans 0 _ _ _ _ Hf Hst). }
  destruct (CheckNonce msg) eqn:Ec; cbn [andb]; [|done]. destruct (_ <? _); [by split|]. by destruct (_ <? _); [split|].
Qed.

(** The data a transition runs, and the gas it costs before the run. *)
Definition is_private : bool := IsBitmed c && IsPrivate msg.
Definition message_gas : Z :=
  if is_private then match Receive (m_Data msg) with Some data => IntrinsicGas data (match To msg with None => true | _ => false end) (IsHomestead c) | None => 0 end
  else IntrinsicGas (m_Data msg) (match To msg with None => true | _ => false end) (IsHomestead c).

(** A private transaction whose data the node does not have is not run, and its gas not given back. *)
Definition not_party : bool := is_private && match Receive (m_Data msg) with None => true | Some _ => false end.

Lemma TransitionDb_ok e pool :
  sane 0 e → readOnly e = false →
  ∃ r st, TransitionDb c Receive msg (NewStateTransition e pool) = Ok (r, st) ∧ stepped 0 (NewStateTransition e pool) st
    ∧ (if not_party then match r with inl err => refused (GetBalance (From msg) (publicState e)) pool (m_Gas msg) message_gas err
                         | inr x => x = ([], 0, 0, false) ∧ gp st = pool - m_Gas msg end
       else accounted is_private (GetBalance (From msg) (publicState e)) message_gas pool (m_Gas msg) r st)
    ∧ match r with inl _ => True | inr _ => m_Gas msg ≤ pool end.
Proof.
  intros He Hro. unfold TransitionDb. pose proof (preCheck_ok (NewStateTransition e pool) He eq_refl) as Hpre. destruct (preCheck msg _) as [[err|] st1]; [destruct Hpre as [? Href]; do 2 eexists; split_and!; [done|done|destruct not_party; apply Href|done]|].
  destruct Hpre as (Hst1 & H64 & Hpool & G1 & G2 & G3). destruct (from_ok (From msg) st1 (sp_sane _ _ _ Hst1)) as (Hf & E1 & E2 & E3). fold (from msg st1) in Hf, E1, E2, E3.
  set (st2 := from msg st1) in *. pose proof (stepped_trans _ 0 _ _ _ Hst1 Hf) as Hst2. rewrite Z.add_0_r in Hst2. cbn in G1.
  assert (0 ≤ m_Gas msg * m_GasPrice msg) as Hpos by by apply Z.mul_nonneg_nonneg. unfold not_party, message_gas, is_private.
  assert (∀ d st' r, stepped d st2 st' → d ≤ m_Gas msg * m_GasPrice msg → r = st' → stepped 0 (NewStateTransition e pool) r) as Hend.
  { intros d st' r Hst Hd ->. destruct (stepped_trans _ _ _ _ _ Hst2 Hst) as [A1 A2 A3 A4]. split; [done|done| |done]. eapply within_le; [done|lia]. }
  assert (∀ p data st3, stepped 0 st2 st3 → gp st3 = gp st2 → st_gas st3 = st_gas st2 → initialGas st3 = initialGas st2 →
    ∃ r st, execute_message c msg p data st3 = Ok (r, st) ∧ stepped 0 (NewStateTransition e pool) st
      ∧ accounted p (GetBalance (From msg) (publicState e)) (IntrinsicGas data (match To msg with None => true | _ => false end) (IsHomestead c)) pool (m_Gas msg) r st
      ∧ match r with inl _ => True | inr _ => m_Gas msg ≤ pool end) as Hex.
  { intros p data st3 Hst3 F1 F2 F3. destruct (execute_message_ok p (GetBalance (From msg) (publicState e)) data st3) as (r & st & -> & Hst & Hac);
      [apply Hst3|rewrite (sp_readOnly _ _ _ Hst3), (sp_readOnly _ _ _ Hst2); done|lia|congruence|].
    rewrite F3, E3, G3 in Hst, Hac. rewrite F1, E1, G1 in Hac. replace (pool - m_Gas msg + m_Gas msg) with pool in Hac by lia.
    exists r, st. split_and!; [done| |done|by destruct r]. eapply (Hend (0 + m_Gas msg * m_GasPrice msg)); [by eapply stepped_trans|lia|done]. }
  destruct (IsBitmed c && IsPrivate msg); cbn [andb]; [|destruct (Hex false (m_Data msg) st2) as (r & st & -> & ? & ? & ?); [by apply stepped_refl, Hst2|done..|by exists r, st]].
  pose proof (bump_nonce_ok st2 (sp_sane _ _ _ Hst2)) as Hb. destruct (Receive (m_Data msg)) as [data|]; cbn [negb].
  - destruct (Hex true data (match To msg with None => st2 | Some _ => bump_nonce msg st2 end)) as (r & st & -> & ? & ? & ?);
      [destruct (To msg); [done|by apply stepped_refl, Hst2]|by destruct (To msg)..|by exists r, st].
  - do 2 eexists. split_and!; [done|by eapply Hend|cbn; split; [done|congruence]|done].
Qed.


(** Transactions create no money: buying gas, the value that is sent, the contracts that
    run, the refund and the payment of the miner leave at most the sum of balances there
    was, in both states, also when the transaction is an error. *)
Theorem transactions_create_no_money e pool r st :
  sane 0 e → readOnly e = false → TransitionDb c Receive msg (NewStateTransition e pool) = Ok (r, st) →
  no_more (publicState e) (publicState (evm st)) ∧ no_more (secondState e) (secondState (evm st)).
Proof.
  intros He Hro E. destruct (TransitionDb_ok e pool He Hro) as (r' & st' & E' & [_ _ Hm Hs] & _). rewrite E in E'. injection E' as <- <-. split; [|done].
  intros n Hn. destruct (Hm n Hn) as (m & Hm' & Hle). exists m. split; [done|lia].
Qed.

End thms.

(** ** A transaction on the state database *)

#[local] Existing Instance StateThms.map_tries.
#[local] Existing Instance map_tries_laws.

Definition sample_message : Message := mkMessage StateThms.sample_addr (Some StateThms.other_addr) 0 100000 0 0 false [x01; x02] false.


Lemma transactions_create_no_money_witness :
  supply (state_with stores) 0 ∧
  ∃ r st, TransitionDb sample_context (fun _ => None) sample_message (NewStateTransition (evm_with stores) 4700000) = Ok (r, st)
    ∧ no_more (state_with stores) (publicState (evm st)) ∧ no_more (state_with stores) (secondState (evm st)).
Proof.
  split; [apply sample_supply|].
  destruct (TransitionDb_ok sample_context sample_usable (fun _ => None) sample_message ltac:(done) ltac:(done) ltac:(done) (evm_with stores) 4700000 (evm_with_sane stores) eq_refl) as (r & st & E & _).
  exists r, st. split; [exact E|].
  apply (transactions_create_no_money sample_context sample_usable (fun _ => None) sample_message ltac:(done) ltac:(done) ltac:(done) (evm_with stores) 4700000 r st); [apply evm_with_sane|done|exact E].
Defined.

End Transition.
