(* ===== verification/Processor.v ===== *)
(** Blocks of transactions ([Processor]): src/core/state_processor.go, with the context of an
    execution (src/core/evm.go) and the forks of a chain (src/params/config.go).

    A private state that is the public state itself is told by the flag of [NewEVM]. *)

From S2P Require Import Prelude RlpEncode RlpRaw RlpDecode RlpRoundtrip RlpTotal KeccakF Sha3 CoreTypes.
From S2P Require Import Prque TrieEncoding TrieNode Trie TrieThms TrieHash TrieMap CoreBlock StateDB StateThms EvmWord EvmCode Evm EvmSupply EvmSafe StateVm EvmThms Transition.

Module Processor.
Import Rlp Codec Types EvmWord EvmCode.

#[local] Opaque hash256 be_bytes BytesToHash BytesToAddress Evm.CreateAddress.

(** ** The configuration of a chain *)

(** [None]: the fork is not scheduled. *)
Record ChainConfig := mkConfig {
  HomesteadBlock : option Z;
  DAOForkBlock : option Z;
  DAOForkSupport : bool;
  EIP150Block : option Z;
  EIP158Block : option Z;
  ByzantiumBlock : option Z;
  IsBitmed : bool }.

Definition isForked (s : option Z) (head : Z) : bool := match s with None => false | Some s => s <=? head end.
Definition IsHomestead (c : ChainConfig) : Z → bool := isForked (HomesteadBlock c).
Definition IsEIP150 (c : ChainConfig) : Z → bool := isForked (EIP150Block c).
Definition IsEIP158 (c : ChainConfig) : Z → bool := isForked (EIP158Block c).
Definition IsByzantium (c : ChainConfig) : Z → bool := isForked (ByzantiumBlock c).

Record VmConfig := mkVmConfig { NoRecursion : bool; EnablePreimageRecording : bool }.

(** ** Receipts *)

(** A receipt with the fields that are not part of its encoding. *)
Record TxReceipt := mkTxReceipt {
  consensus : CoreBlock.Receipt;
  r_TxHash : bytes;
  ContractAddress : bytes;
  r_GasUsed : Z }.

Definition NewReceipt (root : bytes) (failed : bool) (cumulativeGasUsed : Z) : CoreBlock.Receipt :=
  CoreBlock.mkReceipt root (if failed then CoreBlock.ReceiptStatusFailed else CoreBlock.ReceiptStatusSuccessful) cumulativeGasUsed (replicate 256 x00) [].

Definition IsPrivate (t : txdata) : bool := (u64 (V t) =? 37) || (u64 (V t) =? 38).

Inductive processErr := ErrInvalidGasPrice | ErrSender | ErrCore (e : Transition.coreErr).

Section processor.
Context {Tr W : Type} `{State.Tries Tr W}.

(** What the processor is given: the chain's headers, its engine, the signer of
    transactions, the transaction manager of private data, the precompiled contracts, and
    the accounts of the DAO. *)
Context (GetHeader : bytes → Z → option Header) (Author : Header → bytes) (Sender : txdata → option bytes) (Receive : bytes → option bytes).
Context (PrecompiledContractsHomestead PrecompiledContractsByzantium : bytes → option Evm.PrecompiledContract).
Context (DAORefundContract : bytes) (DAODrainList : list bytes).
Context (Finalize : Header → State.StateDB (Tr:=Tr) → list txdata → list Header → list TxReceipt → result unit (State.StateDB (Tr:=Tr))).
Context (config : ChainConfig) (cfg : VmConfig).

Abbreviation StateDB := (State.StateDB (Tr:=Tr)).

(** *** The context of an execution *)

(** Numbers fall on the way to the first block: the number of [ref] is enough fuel. *)
Fixpoint find_hash (fuel : nat) (header : option Header) (n : Z) : bytes :=
  match fuel, header with
  | S fuel, Some h => if u64 (Number h) =? n then header_Hash h else find_hash fuel (GetHeader (ParentHash h) (u64 (u64 (Number h) - 1))) n
  | _, _ => emptyHash
  end.
Definition GetHashFn (ref : Header) (n : Z) : bytes :=
  find_hash (Z.to_nat (Number ref)) (GetHeader (ParentHash ref) (u64 (u64 (Number ref) - 1))) n.

Definition NewEVMContext (msg : Transition.Message) (header : Header) (author : option bytes) : Evm.Context :=
  Evm.mkContext (Transition.From msg) (Transition.m_GasPrice msg)
    (match author with None => Author header | Some a => a end) (GasLimit header) (Number header) (Time header) (Difficulty header)
    (GetHashFn header)
    (IsHomestead config (Number header)) (IsEIP150 config (Number header)) (IsEIP158 config (Number header)) (IsByzantium config (Number header)) (IsBitmed config)
    (NoRecursion cfg) (EnablePreimageRecording cfg) PrecompiledContractsHomestead PrecompiledContractsByzantium.

Definition AsMessage (t : txdata) : option Transition.Message :=
  match Sender t with
  | None => None
  | Some from => Some (Transition.mkMessage from (Recipient t) (Price t) (tx_GasLimit t) (Amount t) (AccountNonce t) true (Payload t) (IsPrivate t))
  end.

(** *** One transaction *)

(** The receipt of a transaction on one of the states, which is finalised for it. *)
Definition make_receipt (header : Header) (origin : bytes) (t : txdata) (failed : bool) (gas usedGas : Z) (s : StateDB) : result unit (TxReceipt * StateDB) :=
  let? (root, s) :=
    if IsByzantium config (Number header) then let? s := State.Finalise true s in Ok ([], s)
    else State.IntermediateRoot (IsEIP158 config (Number header)) s in
  let r := NewReceipt root failed usedGas in
  let logs := map State.le_log (State.GetLogs (tx_Hash t) s) in
  let r := CoreBlock.mkReceipt (CoreBlock.PostState r) (CoreBlock.Status r) (CoreBlock.CumulativeGasUsed r) (CoreBlock.rc_Bloom r) logs in
  match CoreBlock.CreateBloom [r] with
  | None => Panic
  | Some bloom =>
      let r := CoreBlock.mkReceipt (CoreBlock.PostState r) (CoreBlock.Status r) (CoreBlock.CumulativeGasUsed r) bloom logs in
      Ok (mkTxReceipt r (tx_Hash t) (match Recipient t with None => Evm.CreateAddress origin (AccountNonce t) | Some _ => emptyAddr end) gas, s)
  end.

(** The states, the pool and the gas used by a block so far. *)
Record work := mkWork {
  statedb : StateDB;
  privateState : StateDB;
  pool : Z;
  usedGas : Z }.

Definition ApplyTransaction (author : option bytes) (header : Header) (t : txdata) (w : work) :
    result processErr (TxReceipt * option TxReceipt * Z * work) :=
  let dual := IsBitmed config && IsPrivate t in
  if IsBitmed config && (0 <? Price t) then Err ErrInvalidGasPrice
  else
    match AsMessage t with
    | None => Err ErrSender
    | Some msg =>
        let context := NewEVMContext msg header author in
        let vmenv := Evm.NewEVM (statedb w) (if dual then privateState w else statedb w) dual in
        match Transition.ApplyMessage context Receive msg vmenv (pool w) with
        | Ok (inr (_, gas, failed), st) =>
            let s := Evm.publicState (Transition.evm st) in
            let p := if dual then Evm.secondState (Transition.evm st) else privateState w in
            let used := usedGas w + gas in
            match make_receipt header (Evm.Origin context) t failed gas used s with
            | Ok (receipt, s) =>
                if dual then
                  match make_receipt header (Evm.Origin context) t failed gas used p with
                  | Ok (privateReceipt, p) => Ok (receipt, Some privateReceipt, gas, mkWork s p (Transition.gp st) used)
                  | NoFuel => NoFuel
                  | _ => Panic
                  end
                else Ok (receipt, None, gas, mkWork s p (Transition.gp st) used)
            | NoFuel => NoFuel
            | _ => Panic
            end
        | Ok (inl err, _) => Err (ErrCore err)
        | NoFuel => NoFuel
        | _ => Panic
        end
    end.

(** *** Blocks *)

Definition ApplyDAOHardFork (s : StateDB) : StateDB :=
  let (ex, s) := State.Exist DAORefundContract s in
  let s := if ex then s else State.CreateAccount DAORefundContract s in
  foldl (fun s addr => let (b, s) := State.GetBalance addr s in State.SetBalance addr 0 (State.AddBalance DAORefundContract b s)) s DAODrainList.

Fixpoint process_txs (header : Header) (blockHash : bytes) (i : Z) (txs : list txdata) (w : work) :
    result processErr (list TxReceipt * list TxReceipt * list CoreBlock.Log * work) :=
  match txs with
  | [] => Ok ([], [], [], w)
  | t :: txs =>
      let w := mkWork (State.Prepare (tx_Hash t) blockHash i (statedb w)) (State.Prepare (tx_Hash t) blockHash i (privateState w)) (pool w) (usedGas w) in
      let? (receipt, privateReceipt, _, w) := ApplyTransaction None header t w in
      let? (receipts, privateReceipts, allLogs, w) := process_txs header blockHash (i + 1) txs w in
      let own := match privateReceipt with None => [] | Some r => [r] end in
      Ok (receipt :: receipts, own ++ privateReceipts, CoreBlock.Logs (consensus receipt) ++ concat (map (fun r => CoreBlock.Logs (consensus r)) own) ++ allLogs, w)
  end.

Definition Process (block : Block) (s p : StateDB) : result processErr (list TxReceipt * list TxReceipt * list CoreBlock.Log * work) :=
  let h := header block in
  let s := match DAOForkBlock config with
           | Some n => if DAOForkSupport config && (n =? Number h) then ApplyDAOHardFork s else s
           | None => s
           end in
  let? (receipts, privateReceipts, allLogs, w) := process_txs h (block_Hash block) 0 (transactions block) (mkWork s p (Transition.AddGas (GasLimit h) 0) 0) in
  match Finalize h (statedb w) (transactions block) (uncles block) receipts with
  | Ok s => Ok (receipts, privateReceipts, allLogs, mkWork s (privateState w) (pool w) (usedGas w))
  | NoFuel => NoFuel
  | _ => Panic
  end.

End processor.

(** ** Private transactions and their public receipts *)

#[local] Existing Instance StateThms.map_tries.
Definition bitmed_config : ChainConfig := mkConfig (Some 0) None false (Some 0) (Some 0) (Some 0) true.
Definition sample_sender (t : txdata) : option bytes := Some (EvmThms.addr_of x01).
Definition no_precompiles (a : bytes) : option Evm.PrecompiledContract := None.

(** A private transaction that calls a contract that reverts. *)
Definition failing_tx : txdata := mkTx 0 0 100000 (Some (EvmThms.addr_of x0a)) 0 [x01] 37 1 1.
Definition block_header : Header :=
  mkHeader emptyHash emptyHash emptyAddr emptyHash emptyHash emptyHash (replicate 256 x00) 1 1 4700000 0 1 [] emptyHash (replicate 8 x00).
Definition failing_states := EvmThms.states_of [(EvmThms.addr_of x0a, [x60; x00; x60; x00; xfd])].

Definition apply_failing (Receive : bytes → option bytes) :=
  ApplyTransaction (fun _ _ => None) (fun _ => emptyAddr) sample_sender Receive no_precompiles no_precompiles bitmed_config (mkVmConfig false false)
    None block_header failing_tx (mkWork (EvmThms.states_of []) failing_states 4700000 0).

Definition public_status (r : result processErr (TxReceipt * option TxReceipt * Z * work (Tr:=gmap bytes bytes))) : option (Z * Z) :=
  match r with Ok (receipt, _, _, w) => Some (CoreBlock.Status (consensus receipt), pool w) | _ => None end.

End Processor.
