(* ===== verification/BlockThms.v ===== *)
(** Theorems on the processing of blocks ([BlockThms]): the transactions of a block, one after
    the other, on the state database. *)

From S2P Require Import Prelude RlpEncode RlpRaw RlpDecode RlpRoundtrip RlpTotal KeccakF Sha3 CoreTypes.
From S2P Require Import Prque TrieEncoding TrieNode Trie TrieThms TrieHash TrieMap CoreBlock StateDB StateThms StateTidy.
From S2P Require Import EvmWord EvmCode Evm EvmSupply EvmSafe StateVm EvmThms StateFinal Transition Processor.

Module BlockThms.
Import Rlp Codec Types Processor EvmSupply StateVm StateFinal.

#[local] Opaque hash256 be_bytes BytesToHash BytesToAddress Evm.CreateAddress.

Section money.
Context {Tr W : Type} `{State.Tries Tr W} `{!TriesLaws Tr W} `{!TriesMap Tr W}.
Implicit Types (s t : State.StateDB (Tr:=Tr)).

Abbreviation Bal a s := (Evm.GetBalance a s).

(** All money together has 256 bits. *)
Definition funded s : Prop := ∃ n, supply s n ∧ n < 2 ^ 256.

Lemma funded_no_more s t : no_more s t → funded s → funded t.
Proof. intros Hm (n & Hn & Hlt). destruct (Hm n Hn) as (m & Hm' & Hle). exists m. split; [done|lia]. Qed.

Lemma total_bound s l a : (∀ a, 0 ≤ Bal a s) → a ∈ l → Bal a s ≤ total s l.
Proof.
  intros Hp. assert (∀ l, 0 ≤ total s l) as Ht by (intros k; induction k as [|b k IH]; cbn [total]; [done|specialize (Hp b); lia]).
  induction l as [|b l IH]; [by intros ?%not_elem_of_nil|]. intros [->|Ha]%elem_of_cons; cbn [total]; [specialize (Ht l); lia|]. specialize (IH Ha). specialize (Hp b). lia.
Qed.

Lemma good_balance s a : vm_good s → 0 ≤ Bal a s.
Proof. intros Hg. exact (EvmSafe.GetBalance_nonneg a s Hg). Qed.

Lemma funded_modest s : vm_good s → funded s → modest s.
Proof.
  intros Hg (n & (l & Hl & Hz & ->) & Hlt) a o Ho. assert (Bal a s = State.acc_Balance (State.data o)) as <-.
  { cbn. rewrite GetBalance_look. by rewrite Ho. }
  destruct (decide (a ∈ l)) as [Ha|Ha]; [|rewrite Hz by done; lia]. pose proof (total_bound s l a (fun a => good_balance s a Hg) Ha). lia.
Qed.

(** Balances only fall. *)
Lemma fewer_no_more s t : (∀ a, 0 ≤ Bal a t ≤ Bal a s) → no_more s t.
Proof.
  intros Hf n (l & Hl & Hz & ->). exists (total t l). split; [exists l; split_and!; [done| |done]|].
  - intros a Ha. specialize (Hf a). rewrite Hz in Hf by done. lia.
  - clear Hl Hz. induction l as [|a l IH]; cbn [total]; [done|]. specialize (Hf a). lia.
Qed.

Lemma Finalise_good s : vm_good s → funded s → ∃ s', State.Finalise true s = Ok s' ∧ vm_good s' ∧ no_more s s' ∧ State.logs s' = State.logs s.
Proof.
  intros Hg Hf. destruct (Finalise_ok s Hg (funded_modest s Hg Hf)) as (s' & E & Hg' & _ & _ & Hlog & Hd & Ho). exists s'. split_and!; try done.
  apply fewer_no_more. intros a. split; [by apply good_balance|]. cbn. rewrite !GetBalance_look. destruct (decide (a ∈ State.stateObjectsDirty s)) as [Ha|Ha].
  - destruct (Hd a Ha) as [_ Hk]. unfold kept in Hk. pose proof (good_balance s a Hg) as Hp. cbn in Hp. rewrite GetBalance_look in Hp. destruct (StateThms.look s a) as [o|]; [|by rewrite Hk].
    destruct (gone o); [by rewrite Hk|]. destruct Hk as (o' & -> & Hs & _). cbn. by rewrite (StateThms.so_Balance _ _ Hs).
  - by destruct (Ho a Ha) as [-> _].
Qed.

End money.

Section blocks.
Context {Tr W : Type} `{State.Tries Tr W} `{!TriesLaws Tr W} `{!TriesMap Tr W}.
Context (GetHeader : bytes → Z → option Header) (Author : Header → bytes) (Sender : txdata → option bytes) (Receive : bytes → option bytes).
Context (Homestead Byzantium : bytes → option Evm.PrecompiledContract) (config : ChainConfig) (cfg : VmConfig).
Implicit Types (s p : State.StateDB (Tr:=Tr)) (w : work (Tr:=Tr)).

(** What is asked of the chain at the height of a block: it is past the forks that charge for
    calls and remove empty accounts, and the precompiled contracts work. *)
Record chain_ok (h : Header) : Prop := {
  ch_EIP150 : IsEIP150 config (Number h) = true;
  ch_EIP158 : IsByzantium config (Number h) || IsEIP158 config (Number h) = true;
  ch_precompiles a c input : Homestead a = Some c ∨ Byzantium a = Some c → 0 ≤ Evm.RequiredGas c input ∧ ∃ r, Evm.pRun c input = Ok r }.

(** Decoded transactions have no negative numbers. *)
Definition tx_fields (t : txdata) : Prop := 0 ≤ Price t ∧ 0 ≤ tx_GasLimit t ∧ 0 ≤ Amount t.

Record sound w : Prop := {
  sd_good : vm_good (statedb w) ∧ vm_good (privateState w);
  sd_funded : funded (statedb w) ∧ funded (privateState w);
  sd_pool : 0 ≤ pool w }.

(** What a sequence of transactions does to the states and the pool, when it uses [gas]. *)
Record worked (gas : Z) w w' : Prop := {
  wk_sound : sound w';
  wk_used : usedGas w' = usedGas w + gas;
  wk_gas : 0 ≤ gas ≤ pool w - pool w';
  wk_money : no_more (statedb w) (statedb w') ∧ no_more (privateState w) (privateState w') }.

Lemma worked_refl w : sound w → worked 0 w w.
Proof. intros Hs. split; [done|lia|lia|done]. Qed.
Lemma worked_trans g1 g2 w1 w2 w3 : worked g1 w1 w2 → worked g2 w2 w3 → worked (g1 + g2) w1 w3.
Proof. intros [A1 A2 A3 [A4 A5]] [B1 B2 B3 [B4 B5]]. split; [done|lia|lia|]. split; by etrans. Qed.

Lemma make_receipt_ok h origin t failed gas used s :
  chain_ok h → vm_good s → funded s →
  ∃ r s', make_receipt config h origin t failed gas used s = Ok (r, s') ∧ vm_good s' ∧ no_more s s' ∧ r_GasUsed r = gas
    ∧ CoreBlock.CumulativeGasUsed (consensus r) = used.
Proof.
  intros [_ H158 _] Hg Hf. destruct (Finalise_good s Hg Hf) as (s' & E & Hg' & Hm & _). unfold make_receipt.
  assert (∃ root, (if IsByzantium config (Number h) then let? s := State.Finalise true s in Ok ([], s) else State.IntermediateRoot (IsEIP158 config (Number h)) s) = Ok (root, s')) as [root ->].
  { destruct (IsByzantium config (Number h)); [rewrite E; by eexists|]. cbn [orb] in H158. rewrite H158. unfold State.IntermediateRoot. rewrite E. by eexists. }
  cbn [rbind]. match goal with |- context [CoreBlock.CreateBloom ?l] => destruct (CoreBlock.CreateBloom_spec l) as (bloom & -> & _) end. do 2 eexists. by split_and!.
Qed.

Lemma context_usable h msg author : chain_ok h → 0 ≤ Transition.m_GasPrice msg → EvmSafe.usable (NewEVMContext GetHeader Author Homestead Byzantium config cfg msg h author).
Proof.
  intros [H150 _ Hp] Hprice. split; [done|done|]. intros a c input Hc. unfold Evm.precompiles, NewEVMContext in Hc. cbn in Hc. apply (Hp a). destruct (IsByzantium config (Number h)); [by right|by left].
Qed.

Lemma new_sane s p dual : vm_good s → vm_good p → EvmSafe.sane 0 (Evm.NewEVM s p dual).
Proof. intros Hs Hp. split; [done|done|by exists []|done|done|]. intros E. cbn in E. subst dual. split; [by repeat constructor|done]. Qed.

Lemma AsMessage_fields t msg : tx_fields t → AsMessage Sender t = Some msg → 0 ≤ Transition.m_GasPrice msg ∧ 0 ≤ Transition.m_Value msg ∧ 0 ≤ Transition.m_Gas msg.
Proof. intros (? & ? & ?) E. unfold AsMessage in E. destruct (Sender t); [|done]. by injection E as <-. Qed.

(** The gas and the states after the message of a transaction. *)
Lemma message_ok c msg s p dual g :
  EvmSafe.usable c → 0 ≤ Transition.m_GasPrice msg ∧ 0 ≤ Transition.m_Value msg ∧ 0 ≤ Transition.m_Gas msg → vm_good s → vm_good p →
  ∃ r st, Transition.ApplyMessage c Receive msg (Evm.NewEVM s p dual) g = Ok (r, st)
    ∧ vm_good (Evm.publicState (Transition.evm st)) ∧ vm_good (Evm.secondState (Transition.evm st))
    ∧ no_more s (Evm.publicState (Transition.evm st)) ∧ no_more p (Evm.secondState (Transition.evm st))
    ∧ match r with inl _ => True | inr (_, used, _) => 0 ≤ used ≤ g - Transition.gp st ∧ 0 ≤ Transition.gp st end.
Proof.
  intros Hu (Hp & Hv & Hgas) Hs Hq. unfold Transition.ApplyMessage.
  destruct (Transition.TransitionDb_ok c Hu Receive msg Hp Hv Hgas (Evm.NewEVM s p dual) g (new_sane s p dual Hs Hq) eq_refl) as (r & st & -> & [Hsane _ Hm Hm2] & Hac & Hle).
  cbn [rbind]. do 2 eexists. split; [done|]. destruct Hsane as [G1 G2 _ _ _ _]. split_and!; [done|done| |done|].
  - intros n Hn. destruct (Hm n Hn) as (m & Hm' & ?). exists m. split; [done|lia].
  - destruct r as [err|[[[ret rq] u] failed]]; [done|]. destruct (Transition.not_party _ _ _); [destruct Hac as [[= _ _ -> _] ->]; lia|].
    destruct Hac as (q & v & Hq1 & Hv1 & -> & E). assert (0 ≤ Transition.message_gas c Receive msg) as H0.
    { unfold Transition.message_gas. destruct (Transition.is_private _ _); [destruct (Receive _); [|done]|]; apply Transition.IntrinsicGas_pos. }
    pose proof (Transition.half_le q ltac:(lia)). destruct (Transition.is_private _ _); injection E as -> ->; lia.
Qed.

(** The receipt of a transaction says the gas it used and the gas used so far. *)
Definition receipt_of (gas : Z) w' (r : TxReceipt) : Prop := r_GasUsed r = gas ∧ CoreBlock.CumulativeGasUsed (consensus r) = usedGas w'.

Abbreviation apply_tx := (ApplyTransaction GetHeader Author Sender Receive Homestead Byzantium config cfg).
Abbreviation apply_txs := (process_txs GetHeader Author Sender Receive Homestead Byzantium config cfg).

Lemma ApplyTransaction_ok author h t w :
  chain_ok h → tx_fields t → sound w →
  match apply_tx author h t w with
  | Ok (r, _, gas, w') => worked gas w w' ∧ receipt_of gas w' r
  | Err _ => True
  | _ => False
  end.
Proof.
  intros Hc Ht [[Hg1 Hg2] [Hf1 Hf2] Hpool]. unfold ApplyTransaction. destruct (IsBitmed config && (0 <? Price t)); [done|]. destruct (AsMessage Sender t) as [msg|] eqn:Em; [|done].
  pose proof (AsMessage_fields t msg Ht Em) as Hmsg. set (dual := IsBitmed config && IsPrivate t). set (c := NewEVMContext _ _ _ _ _ _ msg h author).
  destruct (message_ok c msg (statedb w) (if dual then privateState w else statedb w) dual (pool w)) as (r & st & -> & G1 & G2 & M1 & M2 & Hgas);
    [by apply context_usable; [|apply Hmsg]|done|done|by destruct dual|].
  destruct r as [err|[[ret gas] failed]]; [done|]. set (p := if dual then Evm.secondState (Transition.evm st) else privateState w).
  assert (vm_good p ∧ no_more (privateState w) p) as [Gp Mp] by (unfold p; by destruct dual). set (used := usedGas w + gas).
  destruct (make_receipt_ok h (Evm.Origin c) t failed gas used (Evm.publicState (Transition.evm st)) Hc G1) as (rc & s' & -> & Gs' & Ms' & R1 & R2); [by eapply funded_no_more|].
  assert (no_more (statedb w) s') as Ms by by etrans. destruct dual.
  - destruct (make_receipt_ok h (Evm.Origin c) t failed gas used p Hc Gp) as (rc' & p' & -> & Gp' & Mp' & _); [by eapply funded_no_more|].
    assert (no_more (privateState w) p') as Mq by by etrans. split; [|done]. split; [split; cbn; [done| |lia]|done|cbn; lia|done]. split; by eapply funded_no_more.
  - split; [|done]. split; [split; cbn; [done| |lia]|done|cbn; lia|done]. split; by eapply funded_no_more.
Qed.

Lemma Prepare_good a b i s : vm_good s → vm_good (State.Prepare a b i s) ∧ no_more s (State.Prepare a b i s).
Proof.
  intros (Hw & Hv & Hr & Hf & Ht). assert (∀ x, StateThms.look (State.Prepare a b i s) x = StateThms.look s x) as El by (by apply same_look). destruct Hw as [W1 W2 W3 W4 W5], Hv as [V1 V2]. split.
  - split_and!; [by split|by split|by eapply look_rich|split; [done|by apply (StateTidy.tidy_frame s)]].
  - apply same_no_more. intros x. cbn. by rewrite !GetBalance_look, El.
Qed.

(** The gas a list of receipts adds up to, and that each says how much it is up to there. *)
Fixpoint cumulative (before : Z) (rs : list TxReceipt) : Prop :=
  match rs with
  | [] => True
  | r :: rs => CoreBlock.CumulativeGasUsed (consensus r) = before + r_GasUsed r ∧ cumulative (before + r_GasUsed r) rs
  end.
Definition gas_of (rs : list TxReceipt) : Z := foldr (fun r n => r_GasUsed r + n) 0 rs.

Lemma process_txs_ok h bh i txs w :
  chain_ok h → Forall tx_fields txs → sound w →
  match apply_txs h bh i txs w with
  | Ok (rs, _, _, w') => worked (gas_of rs) w w' ∧ length rs = length txs ∧ cumulative (usedGas w) rs
  | Err _ => True
  | _ => False
  end.
Proof.
  intros Hc Htx. revert i w. induction Htx as [|t txs Ht _ IH]; intros i w Hs; cbn [process_txs]; [split_and!; [by apply worked_refl|done|done]|].
  set (w1 := mkWork _ _ (pool w) (usedGas w)). assert (worked 0 w w1) as Hw1.
  { destruct Hs as [[G1 G2] [F1 F2] Hp]. destruct (Prepare_good (tx_Hash t) bh i _ G1) as [P1 P2], (Prepare_good (tx_Hash t) bh i _ G2) as [Q1 Q2].
    split; [split; cbn; [done| |done]|cbn; lia|cbn; lia|done]. split; by eapply funded_no_more. }
  pose proof (ApplyTransaction_ok None h t w1 Hc Ht (wk_sound _ _ _ Hw1)) as Hap. destruct (apply_tx None h t w1) as [[[[r pr] gas] w2]|?| |]; cbn [rbind]; try done.
  destruct Hap as [Hw2 [R1 R2]]. specialize (IH (i + 1) w2 (wk_sound _ _ _ Hw2)). destruct (apply_txs h bh (i + 1) txs w2) as [[[[rs prs] ls] w3]|?| |]; cbn [rbind]; try done.
  destruct IH as (Hw3 & Hlen & Hcum). pose proof (worked_trans _ _ _ _ _ Hw1 (worked_trans _ _ _ _ _ Hw2 Hw3)) as Hw. rewrite Z.add_0_l in Hw. cbn [gas_of foldr length cumulative]. rewrite R1, R2.
  pose proof (wk_used _ _ _ Hw2) as Hu. cbn in Hu. split_and!; [done|by rewrite Hlen|done|by rewrite <- Hu].
Qed.

(** ** The DAO fork *)

Lemma loaded_good a s r s' : vm_good s → State.getStateObject a s = (r, s') → vm_good s' ∧ same_balances s s'.
Proof.
  intros (Hw & Hv & Hr & Hf & Ht) E. destruct (StateThms.getStateObject_spec a s r s' Hw E) as (_ & Hw' & Hs & Hj & Hrev & Hn & _). destruct (StateTidy.tidy_get a s r s' Ht E) as [Ht' _].
  split; [split_and!; [done| |by eapply rich_same|split; [by rewrite (StateThms.sa_refund _ _ Hs)|done]]|].
  - destruct Hv as [V1 V2]. split; by rewrite ?Hrev, ?Hn, ?Hj.
  - intros b. cbn. rewrite !GetBalance_look. pose proof (StateThms.sa_look _ _ Hs b) as Hb. destruct (StateThms.look s' b), (StateThms.look s b); try done. by apply StateThms.so_Balance.
Qed.

Lemma SetBalance_good a x s : vm_good s → 0 ≤ x → vm_good (State.SetBalance a x s) ∧ moves a (x - Evm.GetBalance a s) s (State.SetBalance a x s).
Proof.
  intros Hg Hx. pose proof Hg as (Hw & _ & Hr & _ & Ht). pose proof (StateThms.SetBalance_leads a x s Hw) as Hl. pose proof (StateTidy.tidy_SetBalance a x s Hw Ht) as Ht'. unfold State.SetBalance in *.
  destruct (State.GetOrNewStateObject a s) as [o s'] eqn:E. destruct (getOrNew_rich a s o s' Hw Hr E) as (_ & Ho & Hb & _). split.
  - assert (vm_grows s (State.setBalance x o (State.log_change (State.balanceChange a (State.acc_Balance (State.data o))) s'))) as Hgr.
    { eapply write_vm; try done. split; [done|apply Ho]. }
    exact (EvmSafe.grows_good _ _ Hgr).
  - intros b. cbn [Evm.GetBalance state_vm]. rewrite !GetBalance_look. unfold State.setBalance. rewrite (write_balance a _ _ s) by done. case_decide as Hd; [subst b; cbn|]; lia.
Qed.

Lemma ApplyDAOHardFork_good refund drain s : vm_good s → vm_good (ApplyDAOHardFork refund drain s) ∧ no_more s (ApplyDAOHardFork refund drain s).
Proof.
  intros Hg. unfold ApplyDAOHardFork. destruct (State.Exist refund s) as [ex s1] eqn:Ee. assert (vm_good s1 ∧ no_more s s1) as [Hg1 Hm1].
  { unfold State.Exist in Ee. destruct (State.getStateObject refund s) as [r s0] eqn:E0. destruct (loaded_good refund s r s0 Hg E0) as [? ?%same_no_more]. by injection Ee as _ <-. }
  set (s2 := if ex then s1 else State.CreateAccount refund s1). assert (vm_good s2 ∧ no_more s s2) as [Hg2 Hm2].
  { unfold s2. destruct ex; [done|]. split; [exact (EvmSafe.grows_good _ _ (EvmSafe.grow_CreateAccount refund s1 Hg1))|]. etrans; [done|]. exact (same_no_more _ _ (EvmSafe.Balance_CreateAccount refund s1 Hg1)). }
  clearbody s2. clear Ee Hg1 Hm1. revert s2 Hg2 Hm2. induction drain as [|a drain IH]; intros s2 Hg2 Hm2; [done|]. cbn [foldl].
  destruct (State.GetBalance a s2) as [b s3] eqn:Eb. assert (vm_good s3 ∧ same_balances s2 s3 ∧ b = Evm.GetBalance a s2) as (Hg3 & Hs3 & Hb).
  { cbn. rewrite Eb. unfold State.GetBalance in Eb. destruct (State.getStateObject a s2) as [r s0] eqn:E0. destruct (loaded_good a s2 r s0 Hg2 E0) as [? ?]. by injection Eb as _ <-. }
  assert (0 ≤ b) as Hpos by (rewrite Hb; by apply good_balance). pose proof (EvmSafe.grows_good _ _ (EvmSafe.grow_AddBalance refund b s3 Hg3 Hpos)) as Hg4.
  pose proof (EvmSafe.Balance_AddBalance refund b s3 Hg3) as Hm4. change (Evm.AddBalance refund b s3) with (State.AddBalance refund b s3) in *. set (s4 := State.AddBalance refund b s3) in *.
  destruct (SetBalance_good a 0 s4 Hg4 ltac:(done)) as [Hg5 Hm5]. apply IH; [done|]. etrans; [done|]. etrans; [by apply same_no_more|].
  eapply transfer_no_more; [done|done|]. rewrite (Hm4 a), (Hs3 a), <- Hb. case_decide; lia.
Qed.

(** ** Blocks *)

Context (DAORefundContract : bytes) (DAODrainList : list bytes).
Context (Finalize : Header → State.StateDB (Tr:=Tr) → list txdata → list Header → list TxReceipt → result unit (State.StateDB (Tr:=Tr))).

(** What is asked of a block, of the states it is processed on, and of the engine. *)
Record processable (b : Block) s p : Prop := {
  pb_chain : chain_ok (header b);
  pb_txs : Forall tx_fields (transactions b);
  pb_limit : 0 ≤ GasLimit (header b);
  pb_good : vm_good s ∧ vm_good p;
  pb_funded : funded s ∧ funded p;
  pb_engine : ∀ s' rs, vm_good s' → is_ok (Finalize (header b) s' (transactions b) (uncles b) rs) = true }.

Abbreviation process := (Process GetHeader Author Sender Receive Homestead Byzantium DAORefundContract DAODrainList Finalize config cfg).

Lemma Process_ok b s p :
  processable b s p →
  match process b s p with
  | Ok (rs, _, _, w) =>
      length rs = length (transactions b) ∧ cumulative 0 rs ∧ usedGas w = gas_of rs ∧ 0 ≤ usedGas w ≤ GasLimit (header b) - pool w ∧ 0 ≤ pool w
        ∧ (∃ s', Finalize (header b) s' (transactions b) (uncles b) rs = Ok (statedb w) ∧ no_more s s') ∧ no_more p (privateState w)
  | Err _ => True
  | _ => False
  end.
Proof.
  intros [Hc Ht Hl [G1 G2] [F1 F2] He]. unfold Process. set (s1 := match DAOForkBlock config with Some _ => _ | None => _ end).
  assert (vm_good s1 ∧ no_more s s1) as [Gs1 Ms1].
  { unfold s1. destruct (DAOForkBlock config) as [n|]; [|done]. destruct (_ && _); [by apply ApplyDAOHardFork_good|done]. }
  set (w1 := mkWork s1 p _ 0). assert (sound w1) as Hs by (split; cbn; [done| |unfold Transition.AddGas; lia]; split; [by eapply funded_no_more|done]).
  pose proof (process_txs_ok (header b) (block_Hash b) 0 (transactions b) w1 Hc Ht Hs) as Hp.
  destruct (apply_txs (header b) (block_Hash b) 0 (transactions b) w1) as [[[[rs prs] ls] w2]|?| |]; cbn [rbind]; try done. destruct Hp as ([[[G3 _] _ Hpool] Hu Hg [M1 M2]] & Hlen & Hcum).
  specialize (He (statedb w2) rs G3). destruct (Finalize _ _ _ _ rs) as [s3|?| |] eqn:Ef; try done. cbn in Hu, Hg, M1, M2, Hcum. unfold Transition.AddGas in Hg.
  split_and!; cbn; try done; try lia. exists (statedb w2). split; [done|by etrans].
Qed.


(** C25: Blocks create no money: whatever their transactions and the contracts they run do,
    the public state the engine is given for its rewards and the private state have at
    most the sum of balances there was before the block. *)
Theorem blocks_create_no_money b s p rs prs ls w :
  processable b s p → process b s p = Ok (rs, prs, ls, w) →
  (∃ s', Finalize (header b) s' (transactions b) (uncles b) rs = Ok (statedb w) ∧ no_more s s') ∧ no_more p (privateState w).
Proof. intros Hp E. pose proof (Process_ok b s p Hp) as Hx. rewrite E in Hx. destruct Hx as (_ & _ & _ & _ & _ & Hx). exact Hx. Qed.

End blocks.

(** ** A block with a transaction that runs a contract *)

#[local] Existing Instance StateThms.map_tries.
#[local] Existing Instance EvmThms.map_tries_laws.
#[local] Existing Instance map_tries_map.

Definition sample_tx : txdata := mkTx 0 0 100000 (Some StateThms.other_addr) 0 [x01; x02] 27 1 1.
Definition sample_block : Block := mkBlock block_header [sample_tx] [].
Definition sample_engine (h : Header) (s : State.StateDB (Tr:=gmap bytes bytes)) (txs : list txdata) (us : list Header) (rs : list TxReceipt) : result unit (State.StateDB (Tr:=gmap bytes bytes)) := Ok s.
Definition sample_states := EvmThms.state_with EvmThms.stores.

Abbreviation sample_process :=
  (Process (fun _ _ => None) (fun _ => emptyAddr) sample_sender (fun _ => None) no_precompiles no_precompiles emptyAddr [] sample_engine bitmed_config (mkVmConfig false false)).

Lemma sample_processable : processable no_precompiles no_precompiles bitmed_config sample_engine sample_block sample_states sample_states.
Proof.
  pose proof (EvmSafe.sn_public _ _ (EvmThms.evm_with_sane EvmThms.stores)) as Hg. assert (funded sample_states) as Hf by (exists 0; split; [apply EvmThms.sample_supply|done]).
  split; try done; [split; try done; by intros a c input [|]|by repeat constructor].
Qed.


Lemma blocks_create_no_money_witness :
  supply sample_states 0 ∧
  match sample_process sample_block sample_states sample_states with
  | Ok (rs, _, _, w) => (∃ s', sample_engine block_header s' [sample_tx] [] rs = Ok (statedb w) ∧ no_more sample_states s') ∧ no_more sample_states (privateState w)
  | _ => False
  end.
Proof.
  split; [apply EvmThms.sample_supply|].
  assert (is_ok (sample_process sample_block sample_states sample_states) = true) as Hc by (vm_compute; reflexivity).
  destruct (sample_process sample_block sample_states sample_states) as [[[[rs prs] ls] w]|?| |] eqn:E; [|done..].
  exact (blocks_create_no_money (fun _ _ => None) (fun _ => emptyAddr) sample_sender (fun _ => None) no_precompiles no_precompiles bitmed_config (mkVmConfig false false) emptyAddr [] sample_engine
    sample_block sample_states sample_states rs prs ls w sample_processable E).
Defined.

End BlockThms.
