(* ===== verification/BlockValidator.v ===== *)
(** Validation of blocks ([BlockValidator]): src/core/block_validator.go, against the blocks
    that NewBlock assembles, and the gas limit a miner gives its blocks.

    The blocks of the chain and the engine's rule for uncles are arguments. *)

From S2P Require Import Prelude RlpEncode RlpRaw RlpDecode RlpRoundtrip RlpTotal KeccakF Sha3 CoreTypes.
From S2P Require Import Prque TrieEncoding TrieNode Trie TrieThms TrieHash TrieMap CoreBlock StateDB StateThms StateTidy.
From S2P Require Import EvmWord EvmCode Evm EvmSupply EvmSafe StateVm EvmThms StateFinal Transition Processor BlockThms.

Module BlockValidator.
Import Rlp Codec Types CoreBlock.

#[local] Opaque hash256 be_bytes DeriveSha.

Inductive validateErr :=
  ErrKnownBlock | ErrUnknownAncestor | ErrUncles | ErrUncleHash | ErrTxHash | ErrGasUsed | ErrBloom | ErrReceiptHash | ErrRoot.

Section validator.
Context {Tr W : Type} `{State.Tries Tr W}.
Context (HasBlockAndState : bytes → bool) (VerifyUncles : Block → bool) (config : Processor.ChainConfig).

Definition ValidateBody (block : Block) : result validateErr unit :=
  let h := header block in
  if HasBlockAndState (block_Hash block) then Err ErrKnownBlock
  else if negb (HasBlockAndState (ParentHash h)) then Err ErrUnknownAncestor
  else if negb (VerifyUncles block) then Err ErrUncles
  else if negb (bool_decide (CalcUncleHash (uncles block) = UncleHash h)) then Err ErrUncleHash
  else
    match DeriveSha (map tx_GetRlp (transactions block)) with
    | Ok hash => if bool_decide (hash = TxHash h) then Ok tt else Err ErrTxHash
    | NoFuel => NoFuel
    | _ => Panic
    end.

(** With the state, which is finalised for its root. *)
Definition ValidateState (block : Block) (statedb : State.StateDB (Tr:=Tr)) (receipts : list Receipt) (usedGas : Z) : result validateErr (State.StateDB (Tr:=Tr)) :=
  let h := header block in
  if negb (GasUsed h =? usedGas) then Err ErrGasUsed
  else
    match CreateBloom receipts, receipts_rlp receipts with
    | Some rbloom, Some rlps =>
        if negb (bool_decide (rbloom = Bloom h)) then Err ErrBloom
        else
          match DeriveSha rlps with
          | Ok receiptSha =>
              if negb (bool_decide (receiptSha = ReceiptHash h)) then Err ErrReceiptHash
              else
                match State.IntermediateRoot (Processor.IsEIP158 config (Number h)) statedb with
                | Ok (root, s) => if bool_decide (Root h = root) then Ok s else Err ErrRoot
                | NoFuel => NoFuel
                | _ => Panic
                end
          | NoFuel => NoFuel
          | _ => Panic
          end
    | _, _ => Panic
    end.

End validator.

Definition GasLimitBoundDivisor : Z := 1024.
Definition MinGasLimit : Z := 5000.

(** [target]: params.TargetGasLimit, which can be configured. *)
Definition CalcGasLimit (target : Z) (parent : Header) : Z :=
  let contrib := GasUsed parent * 3 / 2 / GasLimitBoundDivisor in
  let decay := GasLimit parent / GasLimitBoundDivisor - 1 in
  let gl := EvmWord.BigMax (GasLimit parent - decay + contrib) MinGasLimit in
  if gl <? target then EvmWord.BigMin (GasLimit parent + decay) target else gl.

(** ** The gas limit *)

(** The rule for the gas limit of a block and its parent (src/consensus/ethash/consensus.go, verifyHeader). *)
Definition limit_rule (parent limit : Z) : bool := (Z.abs (parent - limit) <? parent / GasLimitBoundDivisor) && (MinGasLimit <=? limit).

(** The gas limit that a miner computes keeps to the rule of the protocol: it differs from the
    parent's by less than a 1024th of it and is not below the minimum, from a parent limit of
    5120 on, whatever target is configured, and it moves towards the target if it is below. *)
Theorem gas_limit_is_legal target p :
  5120 ≤ GasLimit p → 0 ≤ GasUsed p ≤ GasLimit p → MinGasLimit ≤ target →
  limit_rule (GasLimit p) (CalcGasLimit target p) = true ∧ (CalcGasLimit target p < target → GasLimit p < CalcGasLimit target p).
Proof.
  intros Hl Hu Ht. unfold limit_rule, CalcGasLimit, EvmWord.BigMax, EvmWord.BigMin, MinGasLimit, GasLimitBoundDivisor in *.
  set (l := GasLimit p) in *. set (u := GasUsed p) in *. pose proof (Z.div_mod l 1024 ltac:(lia)). pose proof (Z.mod_pos_bound l 1024 ltac:(lia)).
  pose proof (Z.div_mod (u * 3) 2 ltac:(lia)). pose proof (Z.mod_pos_bound (u * 3) 2 ltac:(lia)).
  pose proof (Z.div_mod (u * 3 / 2) 1024 ltac:(lia)). pose proof (Z.mod_pos_bound (u * 3 / 2) 1024 ltac:(lia)).
  set (d := l / 1024) in *. set (k := u * 3 / 2 / 1024) in *. assert (0 ≤ k) by lia. assert (k + 1 < 2 * d) by lia.
  destruct (Z.ltb_spec (l - (d - 1) + k) 5000); repeat match goal with |- context [?a <? ?b] => destruct (Z.ltb_spec a b) end; cbn [andb]; rewrite ?Z.leb_le; split; try lia.
Qed.

Definition parent_of (limit used : Z) : Header :=
  mkHeader emptyHash emptyHash emptyAddr emptyHash emptyHash emptyHash (replicate 256 x00) 1 1 limit used 1 [] emptyHash (replicate 8 x00).

Lemma gas_limit_is_legal_witness : limit_rule 5120 (CalcGasLimit 5000 (parent_of 5120 5120)) = true ∧ (CalcGasLimit 5000 (parent_of 5120 5120) < 5000 → 5120 < CalcGasLimit 5000 (parent_of 5120 5120)).
Proof. apply (gas_limit_is_legal 5000 (parent_of 5120 5120)); vm_compute; try split; discriminate. Defined.

(** Below that a full block leads to a limit that is one too high, if the target is no higher. *)
Lemma gas_limit_can_be_illegal : limit_rule 5000 (CalcGasLimit 5000 (parent_of 5000 5000)) = false.
Proof. by vm_compute. Qed.

(** ** Blocks that are assembled *)

Section assembled.
Context {Tr W : Type} `{State.Tries Tr W}.
Context (HasBlockAndState : bytes → bool) (VerifyUncles : Block → bool) (config : Processor.ChainConfig).

Lemma CreateBloom_nil : CreateBloom [] = Some (replicate 256 x00).
Proof. unfold CreateBloom. cbn [foldl]. by rewrite be_bytes_0. Qed.

Lemma NewBlock_fields h txs us rs b :
  NewBlock h txs us rs = Ok b →
  transactions b = txs ∧ uncles b = us ∧ CalcUncleHash us = UncleHash (header b) ∧ GasUsed (header b) = GasUsed h ∧ Root (header b) = Root h ∧ Number (header b) = Number h
    ∧ ParentHash (header b) = ParentHash h ∧ (rs = [] → Bloom (header b) = Bloom h) ∧ ∃ l, receipts_rlp rs = Some l ∧ DeriveSha l = Ok (ReceiptHash (header b)).
Proof.
  unfold NewBlock. destruct (match txs with [] => _ | _ => _ end) as [x| | |]; cbn [rbind]; try done. destruct rs as [|r rs].
  - unfold EmptyRootHash. destruct (DeriveSha []) as [rh| | |] eqn:E; cbn [rbind]; try done. intros [= <-]. split_and!; try done; [by destruct us|]. by exists [].
  - destruct (receipts_rlp (r :: rs)) as [l|]; [|done]. destruct (CreateBloom (r :: rs)) as [bloom|] eqn:Eb; [|done].
    destruct (DeriveSha l) as [rh| | |] eqn:E; cbn [rbind]; try done. intros [= <-]. split_and!; try done; [by destruct us|]. by exists l.
Qed.

(** C26: A block that NewBlock assembles from the result of executing its transactions passes
    validation on every node that gets that result: its body matches the roots in its header,
    and the gas used, the filter of logs, the receipts and the state match too. *)
Theorem assembled_blocks_validate h txs us rs b s root s' :
  NewBlock h txs us rs = Ok b → (rs = [] → Bloom h = replicate 256 x00) →
  State.IntermediateRoot (Processor.IsEIP158 config (Number h)) s = Ok (root, s') → Root h = root →
  HasBlockAndState (block_Hash b) = false → HasBlockAndState (ParentHash h) = true → VerifyUncles b = true →
  ValidateBody HasBlockAndState VerifyUncles b = Ok tt ∧ ValidateState config b s rs (GasUsed h) = Ok s'.
Proof.
  intros Eb Hz Er <- Hk Hp Hu. destruct (NewBlock_inv h txs us rs b Eb) as (Etx & _ & Hbl). destruct (NewBlock_fields h txs us rs b Eb) as (T & U & EU & EG & ER & EN & EP & EB & l & El & Erc).
  unfold ValidateBody, ValidateState. rewrite Hk, EP, Hp, Hu, T, U, EU, EG, Etx, ER, EN, El, Z.eqb_refl. cbn [negb]. rewrite !bool_decide_true by done. split; [done|].
  assert (CreateBloom rs = Some (Bloom (header b))) as ->.
  { destruct rs as [|r rs]; [|by apply Hbl]. rewrite EB, Hz by done. apply CreateBloom_nil. }
  rewrite bool_decide_true by done. cbn [negb]. rewrite Erc, bool_decide_true by done. cbn [negb]. rewrite Er. by rewrite bool_decide_true.
Qed.

End assembled.

(** An empty block on a state. *)
#[local] Existing Instance StateThms.map_tries.
Definition empty_header : Header :=
  mkHeader [x01] emptyHash emptyAddr (State.trie_Hash (State.trie StateThms.sample_state)) emptyHash emptyHash (replicate 256 x00) 1 1 5000 0 1 [] emptyHash (replicate 8 x00).

Lemma assembled_blocks_validate_witness :
  ∃ b s', let known (x : bytes) := bool_decide (x = [x01]) in
    NewBlock empty_header [] [] [] = Ok b ∧ ValidateBody known (fun _ => true) b = Ok tt
    ∧ ValidateState Processor.bitmed_config b StateThms.sample_state [] 0 = Ok s'.
Proof.
  destruct (NewBlock_total empty_header [] [] []) as [b Eb]; [by apply Forall_nil|done|exists []; split_and!; [done|by apply Forall_nil|done]|]. assert (length (block_Hash b) = 32%nat) as Hl by (unfold block_Hash, header_Hash; repeat case_match; apply length_hash256).
  exists b, (State.clearJournalAndRefund StateThms.sample_state). cbv zeta. split; [exact Eb|].
  apply (assembled_blocks_validate (fun x => bool_decide (x = [x01])) (fun _ => true) Processor.bitmed_config empty_header [] [] [] b StateThms.sample_state
    (State.trie_Hash (State.trie StateThms.sample_state)) (State.clearJournalAndRefund StateThms.sample_state)); try done.
  apply bool_decide_false. intros E. by rewrite E in Hl.
Defined.

End BlockValidator.
